(* ===== verification/_CoqProject ===== *)
-Q . S2P
Prelude.v
CMem.v
WmtProtocol.v
WmtPatch.v
WmtSearch.v
WmtRom.v
Calls.v
WmtCalls.v
WmtCommand.v
WmtLauncher.v
WmtLifecycle.v
WmtLoader.v
RilHeader.v
RilCapability.v
RilIaMem.v
RilAttachApn.v
RilAttachHeap.v
RilMaps.v
RilGot.v
RilInstall.v
RilShim.v
StateM.v
StdMap.v
Sensors.v
SensorTypes.v
SensorsSubHal.v
HalProxy.v
HalProxyRoute.v
HalProxyInv.v
HalProxySpec.v
HalProxyRuns.v
ScopedWakelock.v
SensorsService.v
SensorsSystem.v
WlanAssistant.v
PowerShim.v
Gatekeeper.v
GatekeeperSpec.v
