(* ===== verification/Prelude.v ===== *)
(** * Verification of the native components of the k50sv1 device tree

    The repository is an Android device tree.  Most of it is configuration; the
    programs are small native components that stand between the Android framework
    and the phone's vendor drivers and libraries.  This library models them and
    proves what makes each correct.

    ** The parts of the program

    - src/wmt-loader/main.c runs once at boot: it identifies the combo chip,
      initializes the kernel driver for it and publishes the chip and a ready
      property.
    - src/wmt-launcher is the service behind that driver.  main.c binds a session,
      runs a power worker and a firmware-log worker, reads command frames, answers
      each with a list of firmware files and shuts down in order; protocol.c is the
      wire codec; patch.c decodes patch headers and collects patch sets; firmware.c
      walks the firmware directory.
    - src/ril-shim/k50sv1_ril_shim.c is loaded in place of the vendor radio library:
      it answers the radio-capability requests itself, caches the attach APN,
      replaces two GOT slots of the vendor's proxy library by hooks, and re-sends
      the attach APN from a worker thread.
    - src/sensors/sensors.c shows one accelerometer of the stock sensors module;
      src/sensors-hal/SensorsSubHal.cpp runs sensor sessions over it;
      src/sensors-hal/multihal/HalProxy.cpp merges the sub-HALs into the one HAL the
      framework talks to, forwards their events through a message queue from two
      threads of its own and holds the system wake lock while a wake-up event is
      outstanding.
    - src/wlan-assistant/main.cpp hands the Wi-Fi calibration to the driver and
      follows changes of the file.
    - src/power-shim/k50sv1_power_shim.c redirects one setter of the power library.
    - src/gatekeeper is the software gatekeeper: module.cpp is the C interface of the
      HAL with its argument checks and buffers, SoftGateKeeper.h the backend that
      libgatekeeper's enroll and verify work with.

    ** Files

    - [Prelude] (this file): notation, machine integers, tactics, hint databases and
      generic lemmas.  [CMem]: byte buffers, the <string.h> functions, little-endian
      codecs.
    - [WmtProtocol] (protocol.c), [WmtPatch] (patch.c), [WmtSearch] and [WmtRom]
      (firmware.c: patches and ROMs), [WmtCalls] (the calls main.c makes and the
      monad of programs over them), [WmtCommand] (handle_command), [WmtLauncher]
      (the rest of main.c), [WmtLifecycle] (the abstract protocol main refines),
      [WmtLoader] (the loader, on the same calls).
    - [RilHeader] (the contract of telephony/ril.h, a class), [RilCapability] (part 1
      of the shim), [RilIaMem] (the payload copies on a heap), [RilAttachApn] (hooks
      and worker as a step relation over the values of the payloads), [RilAttachHeap]
      (the same threads on the heap of RilIaMem, refined to RilAttachApn), [RilMaps]
      (mappingProt), [RilGot] (the ELF walk), [RilInstall] (the GOT transaction, over
      the class [Linux] of failing system calls), [RilShim] (onRequestShim, RIL_Init,
      over the class [VendorRil]).
    - [Sensors] (sensors.c), [SensorTypes] (the HIDL values the sub-HAL and the proxy
      exchange), [SensorsSubHal] (the sub-HAL over a legacy device), [HalProxy] (the
      proxy: every method, and its threads split where they release a mutex or wait
      on a condition variable, as a step relation), [HalProxyRoute] (the sensor list and the routing of requests),
      [HalProxyInv] (the invariant of every step), [HalProxySpec] (the theorems read
      off the log, and the composition with [SensorsSubHal]), [HalProxyRuns]
      (schedules and concrete sessions), [ScopedWakelock] (the wake-lock objects with
      their moves, refined to the list the proxy keeps), [SensorsService] (the main
      that puts filter, sub-HAL and proxy together), [SensorsSystem] (sub-HAL and
      proxy run as one process).
    - [WlanAssistant] (wlan-assistant), [PowerShim] (power-shim), [Gatekeeper]
      (module.cpp and SoftGateKeeper.h over any libgatekeeper), [GatekeeperSpec] (its
      theorems).
    - Shared by components: [Calls] (histories of calls and the strategy that answers
      them), [StateM] (the state-and-failure monad with the triple [ok] of
      total correctness and the relations [runs_in] a method keeps), [StdMap]
      (std::map with its erase and insert).

    Definitions keep the names of the C functions; a loop of the code is a definition
    of its own, named after the function.  Undefined behaviour (an access outside an
    object, a fault, a use after free) is [None] in every model, so a theorem that a
    function returns [Some _] also says that none occurs.

    ** What the theorems show

    - Launcher: every run of main is a run of the abstract lifecycle automaton and
      ends with the driver closed and everything released that the environment did not
      refuse to take back; each command
      gets one complete reply or error and versions are published exactly when the
      driver accepted the list; the decoder accepts exactly the reference frames and
      the encoders write exactly them, never outside their buffers; a search is
      all-or-nothing, independent of directory order and closes what it opens; the
      loader announces ready last, and the launcher reads back the chip it wrote.
    - RIL shim: installing the hooks is a transaction under every failure of a system
      call: only a failure in the rollback of a failure leaves a slot that is not as
      it was; no moment of it exposes a hook whose original is not published; the
      GOT walk never leaves the module and resolves a slot exactly when it is the only
      jump slot for the symbol;
      a token of the re-send pool is never in use twice, a due socket is served, no
      wake-up is lost and attempts are rate limited; a failed initialization never
      hands out an unpatched table; with the payloads in memory the shim runs as it does
      on their values, each block is owned once by the cache, a caller or the worker, no
      thread uses dead memory under any interleaving and failing allocation, and
      credentials are wiped when freed; capability answers are fixed, complete and deduplicated under every
      interleaving.
    - Sensors: the filter gives one stable list; the sub-HAL posts only samples of the
      current session of sensors that are active, and a failed session start leaves no
      callback behind.
    - Sensors proxy, under every interleaving of its threads: the system wake lock is
      held exactly while its count is positive, and the count is what was given to the
      framework and not acknowledged, until a timeout; events reach the framework in
      the order they were accepted, and only those reported as dropped are missing; no
      step faults or overruns; no thread waits while there is work for it, and
      initialize never joins a thread nobody notifies; a request goes to the sub-HAL that owns the sensor; an
      operation mode is taken by all sub-HALs or by none; with the sub-HAL and the proxy
      in one process, what has left for the framework and what is pending is, batch by
      batch and in order, what the poll thread posted since the proxy started, up to
      refusals that the log shows; moving wake-lock objects neither loses a reference nor
      gives one back twice; the service shows the framework the one accelerometer.
    - Gatekeeper: enroll and verify return a handle, a verdict or a token only when
      scrypt, the random generator and the clock worked behind them, and a failure
      counts for the call it happened in; every copy is wiped when it is freed, and none
      leaks when requests do not take the copies over; the failure records are those a
      replay of the calls gives.
    - WLAN assistant: readiness is published only after a calibration image of valid
      size was written, with the custom address in its place.
    - Power shim: exactly one library call per request, errno passed through.

    ** Environment, bounds and fuel

    Code outside the repository is a parameter: the kernel driver, files, properties
    and threads of the launcher and the loader are a strategy that answers each call
    from the whole history; files and directories of firmware.c are scripts of
    answers; the dynamic linker, the vendor libraries and the legacy sensors device
    are records of functions.  Hypotheses on them are documented contracts (an answer
    in the range of its type, a string that is terminated, a count that matches a
    list), and each theorem with one has a concrete instance.

    Loops with a bound in the code use that bound.  [read_exact] runs on fuel given by
    the script of the file (its length plus two), which is enough because each round
    consumes an answer.  The launcher's and the loader's waiting loops run on fuel
    [n < fuel] where the environment stops them by its [n]-th answer ([stops_by]);
    termination is a conclusion of those theorems, not a hypothesis of a result.
    Step relations ([RilAttachApn], [RilAttachHeap], [RilCapability], [SensorsSubHal],
    [HalProxy], [SensorsSystem], [Gatekeeper]) need no fuel.  The theorems on the proxy
    are about runs in which its wake-lock count, a size_t, took fewer than 2^64
    references in all, with a clock whose readings increase: a wake-lock object made at
    the very time of a reset would count as made after it.  The blocking write (5 s) and
    read (100 ms) of its message queues have timeouts, so they may return at any step;
    a wait on a condition variable ends with a notification or a spurious wake-up.

    ** Not modelled

    Log messages; the fault-injection hooks that exist only in host tests
    (K50SV1_RIL_SHIM_HOST_TEST and the fakes); the tests; sepolicy, overlays, init
    scripts, configuration and prebuilts (no program text of the components);
    src/gnss-service (a single call of libhidl); debug dumps; the
    destructor of HalProxy, which the service never runs.  libgatekeeper, scrypt, the HIDL runtime and
    the fast message queue are third-party code and parameters of the models. *)

From stdpp Require Export base strings list list_numbers numbers option gmap relations.
From Stdlib Require Export ZArith Lia.
From Stdlib Require Ascii.

Global Open Scope Z_scope.

(** ** Notation of the development

    A C expression whose evaluation may be undefined (an access outside an
    object) has type [option _], [None] being undefined behaviour.  [a ||? b]
    is C's short-circuit [||] on such expressions, and
    [ret_if c ret v ; k] is the statement [if (c) return v; k]. *)

Declare Scope c_scope.
Delimit Scope c_scope with C.
Global Open Scope c_scope.

Definition c_or (a b : option bool) : option bool :=
  x ← a; if x : bool then Some true else b.

Notation "a ||? b" := (c_or a b) (at level 50, left associativity) : c_scope.

Notation "'ret_if' c 'ret' v ; k" :=
  (mbind (M := option) (fun b : bool => if b then v else k) c)
  (at level 100, c at level 99, v at level 99, k at level 200,
   right associativity, format "'ret_if'  c  'ret'  v ; '//' k") : c_scope.

(** A C [for] loop over the values [l] of its counter, with the state its body
    updates. *)
Fixpoint for_c {S A} (l : list A) (s : S) (body : A -> S -> option S) : option S :=
  match l with
  | [] => Some s
  | x :: l => s' ← body x s; for_c l s' body
  end.

(** ** Machine integers *)

Definition wrap (w z : Z) : Z := z mod 2 ^ w.
Definition u8 (z : Z) : Z := wrap 8 z.
Definition u16 (z : Z) : Z := wrap 16 z.
Definition u32 (z : Z) : Z := wrap 32 z.
Definition u64 (z : Z) : Z := wrap 64 z.

(** Conversion of an integer to [int]: two's complement, 32 bits. *)
Definition s32 (z : Z) : Z := wrap 32 (z + 2 ^ 31) - 2 ^ 31.

Definition in_w (w z : Z) : Prop := 0 <= z < 2 ^ w.
Abbreviation is_u8 := (in_w 8).
Abbreviation is_u16 := (in_w 16).
Abbreviation is_u32 := (in_w 32).
Abbreviation is_u64 := (in_w 64).

Definition is_s32 (z : Z) : Prop := - 2 ^ 31 <= z < 2 ^ 31.

Definition UINTPTR_MAX : Z := 2 ^ 64 - 1.
Definition UINT16_MAX : Z := 2 ^ 16 - 1.
Definition UINT_MAX : Z := 2 ^ 32 - 1.

(** ** Error numbers of the Linux ABI the code is built for *)

Definition EPERM : Z := 1.
Definition ENOENT : Z := 2.
Definition EINTR : Z := 4.
Definition EIO : Z := 5.
Definition E2BIG : Z := 7.
Definition EAGAIN : Z := 11.
Definition ENOMEM : Z := 12.
Definition EEXIST : Z := 17.
Definition ENODEV : Z := 19.
Definition EINVAL : Z := 22.
Definition EFBIG : Z := 27.
Definition ERANGE : Z := 34.
Definition ENODATA : Z := 61.
Definition EPROTO : Z := 71.
Definition EBADMSG : Z := 74.
Definition EMSGSIZE : Z := 90.
Definition EPROTONOSUPPORT : Z := 93.
Definition EOPNOTSUPP : Z := 95.
Definition ETIMEDOUT : Z := 110.
Definition ESTALE : Z := 116.
Definition ECANCELED : Z := 125.

(** ** Automation

    [c_steps] evaluates one guard or bind of a model function at a time in the
    hypothesis [H]; [zb] turns the boolean tests of the C conditions into
    propositions for [lia]. *)

Create HintDb kmem.
Create HintDb kint.
Create HintDb kmap.

Ltac zb :=
  repeat match goal with
  | H : (_ && _)%bool = true |- _ => apply andb_true_iff in H as [? ?]
  | H : (_ || _)%bool = false |- _ => apply orb_false_iff in H as [? ?]
  | H : (_ || _)%bool = true |- _ => apply orb_true_iff in H
  | H : (_ && _)%bool = false |- _ => apply andb_false_iff in H
  | H : negb _ = true |- _ => apply negb_true_iff in H
  | H : negb _ = false |- _ => apply negb_false_iff in H
  | H : (_ =? _)%Z = true |- _ => apply Z.eqb_eq in H
  | H : (_ =? _)%Z = false |- _ => apply Z.eqb_neq in H
  | H : (_ <? _)%Z = true |- _ => apply Z.ltb_lt in H
  | H : (_ <? _)%Z = false |- _ => apply Z.ltb_ge in H
  | H : (_ <=? _)%Z = true |- _ => apply Z.leb_le in H
  | H : (_ <=? _)%Z = false |- _ => apply Z.leb_gt in H
  | H : bool_decide _ = true |- _ => apply bool_decide_eq_true in H
  | H : bool_decide _ = false |- _ => apply bool_decide_eq_false in H
  end.

(** Membership in an explicit list. *)
Ltac in_list := solve [repeat constructor].

(** Case analysis on the innermost [if]/[match] scrutinee of [H]. *)
Ltac c_case_in H :=
  match type of H with
  | context [match ?x with _ => _ end] =>
      lazymatch x with
      | context [match _ with _ => _ end] => fail
      | _ => destruct x eqn:?
      end
  end.

Ltac c_case :=
  match goal with
  | |- context [match ?x with _ => _ end] =>
      lazymatch x with
      | context [match _ with _ => _ end] => fail
      | _ => destruct x eqn:?
      end
  end.

(** ** Lemmas on machine integers *)

Lemma wrap_range w z : 0 <= w -> in_w w (wrap w z).
Proof. intros. apply Z.mod_pos_bound. apply Z.pow_pos_nonneg; lia. Qed.

Lemma wrap_small w z : in_w w z -> wrap w z = z.
Proof. intros. by apply Z.mod_small. Qed.

Lemma u8_range z : is_u8 (u8 z). Proof. by apply wrap_range. Qed.
Lemma u16_range z : is_u16 (u16 z). Proof. by apply wrap_range. Qed.
Lemma u32_range z : is_u32 (u32 z). Proof. by apply wrap_range. Qed.
Lemma u64_range z : is_u64 (u64 z). Proof. by apply wrap_range. Qed.

#[export] Hint Resolve u8_range u16_range u32_range u64_range : kint.

(** The two's complement view of a [uint32_t] image of an [int]. *)
Lemma s32_u32 z : is_s32 z -> s32 (u32 z) = z.
Proof.
  unfold is_s32, s32, u32, wrap. intros.
  rewrite Z.add_mod_idemp_l by lia.
  rewrite Z.mod_small by lia. lia.
Qed.

(** A bit of a mask is set exactly when the masked word is nonzero, which is
    how the code tests it. *)
Lemma land_bit_testbit x i :
  0 <= i -> (Z.land x (Z.shiftl 1 i) =? 0) = negb (Z.testbit x i).
Proof.
  intros Hi. destruct (Z.testbit x i) eqn:E; simpl.
  - apply Z.eqb_neq. intros H.
    assert (Z.testbit (Z.land x (Z.shiftl 1 i)) i = false) by (rewrite H; apply Z.bits_0).
    rewrite Z.land_spec, E, Z.shiftl_spec in H0 by lia.
    by rewrite Z.sub_diag in H0.
  - apply Z.eqb_eq. apply Z.bits_inj'. intros j Hj.
    rewrite Z.land_spec, Z.bits_0, Z.shiftl_spec by lia.
    destruct (decide (i = j)) as [->|Hne]; [by rewrite E|].
    destruct (decide (j < i)).
    + rewrite (Z.testbit_neg_r 1) by lia. apply andb_false_r.
    + rewrite (Z.bits_above_log2 1) by (simpl; lia). apply andb_false_r.
Qed.

Lemma testbit_lor_bit x i j :
  0 <= i -> 0 <= j ->
  Z.testbit (Z.lor x (Z.shiftl 1 i)) j = (Z.testbit x j || (j =? i))%bool.
Proof.
  intros Hi Hj. rewrite Z.lor_spec, Z.shiftl_spec by lia. f_equal.
  destruct (decide (j = i)) as [->|Hne].
  - by rewrite Z.sub_diag, Z.eqb_refl.
  - rewrite (proj2 (Z.eqb_neq j i)) by done.
    destruct (decide (j < i)).
    + by rewrite Z.testbit_neg_r by lia.
    + rewrite Z.bits_above_log2 by (simpl; lia). done.
Qed.

Lemma testbit_above w x i : in_w w x -> 0 <= w <= i -> Z.testbit x i = false.
Proof.
  intros [H0 H1] Hi. destruct (decide (x = 0)) as [->|]; [apply Z.bits_0|].
  apply Z.bits_above_log2; [done|].
  apply Z.lt_le_trans with w; [apply Z.log2_lt_pow2; lia|lia].
Qed.

(** A word with all its bits below [w] fits in [w] bits. *)
Lemma in_w_bits w x :
  0 <= w -> 0 <= x -> (forall i, w <= i -> Z.testbit x i = false) -> in_w w x.
Proof.
  intros Hw Hx Hb. split; [done|].
  destruct (decide (x = 0)) as [->|]; [apply Z.pow_pos_nonneg; lia|].
  apply Z.log2_lt_pow2; [lia|].
  destruct (decide (Z.log2 x < w)); [done|].
  specialize (Hb (Z.log2 x)). rewrite Z.bit_log2 in Hb by lia.
  specialize (Hb ltac:(lia)). done.
Qed.

(** ** Lemmas on lists *)

Lemma Forall_replicate_of {A} (P : A -> Prop) n x : P x -> Forall P (replicate n x).
Proof. intros. apply Forall_replicate. done. Qed.

#[export] Hint Resolve Forall_replicate_of : kmem.

Lemma for_c_app {S A} (l k : list A) (s : S) body :
  for_c (l ++ k) s body = s' ← for_c l s body; for_c k s' body.
Proof.
  revert s. induction l as [|x l IH]; intros s; simpl; [done|].
  destruct (body x s); simpl; [apply IH|done].
Qed.

(** A loop whose steps commute in pairs, whenever they succeed, ends in the same
    state for every order of its list. *)
Lemma for_c_permutation {S A} (body : A -> S -> option S) (I : S -> Prop) (P : A -> Prop) l k s s' :
  (forall x s s', P x -> I s -> body x s = Some s' -> I s') ->
  (forall x y s s', P x -> P y -> I s ->
     for_c [x; y] s body = Some s' -> for_c [y; x] s body = Some s') ->
  Permutation l k -> Forall P l -> I s -> for_c l s body = Some s' -> for_c k s body = Some s'.
Proof.
  intros Hinv Hswap HP. revert s s'.
  induction HP as [|x l k HP IH|x y l|l1 l2 l3 H1 IH1 H2 IH2]; intros s s' HF HI Hr.
  - done.
  - apply Forall_cons in HF as [Hx HF]. simpl in *. destruct (body x s) as [s1|] eqn:Hb; [|done].
    simpl in *. eapply IH; eauto.
  - apply Forall_cons in HF as [Hy HF]. apply Forall_cons in HF as [Hx HF].
    change (y :: x :: l) with ([y; x] ++ l) in Hr. change (x :: y :: l) with ([x; y] ++ l).
    rewrite for_c_app in *. destruct (for_c [y; x] s body) as [s1|] eqn:Hb; [|done].
    by rewrite (Hswap y x s s1 Hy Hx HI Hb).
  - apply IH2; [by rewrite <- H1|done|]. by apply IH1.
Qed.

(** A duplicate-free list of naturals below its own length is a permutation of
    the initial segment: what a full set of sequence numbers means. *)
Lemma NoDup_below_Permutation (l : list nat) :
  NoDup l -> (forall x, x ∈ l -> (x < length l)%nat) -> Permutation l (seq 0 (length l)).
Proof.
  intros Hnd Hb.
  apply submseteq_length_Permutation.
  - apply NoDup_submseteq; [done|].
    intros x Hx. apply elem_of_seq. specialize (Hb x Hx). lia.
  - rewrite length_seq. done.
Qed.

(** Counting the elements a boolean test selects, as the list is updated. *)
Definition countb {A} (P : A -> bool) (l : list A) : nat := length (List.filter P l).

Lemma countb_cons {A} (P : A -> bool) x l : countb P (x :: l) = (Nat.b2n (P x) + countb P l)%nat.
Proof. unfold countb. simpl. by destruct (P x). Qed.

Lemma countb_app {A} (P : A -> bool) l k : countb P (l ++ k) = (countb P l + countb P k)%nat.
Proof. induction l as [|x l IH]; [done|]. simpl app. rewrite !countb_cons. lia. Qed.

Lemma countb_insert {A} (P : A -> bool) l i x y :
  l !! i = Some x ->
  (countb P (<[i := y]> l) + Nat.b2n (P x) = countb P l + Nat.b2n (P y))%nat.
Proof.
  revert i. induction l as [|z l IH]; intros [|i] Hi; simplify_eq/=.
  - rewrite !countb_cons. lia.
  - rewrite !countb_cons. specialize (IH i Hi). lia.
Qed.

Lemma countb_zero {A} (P : A -> bool) l :
  countb P l = 0%nat <-> Forall (fun x => P x = false) l.
Proof.
  induction l as [|x l IH]; [done|]. rewrite countb_cons, Forall_cons, <- IH.
  destruct (P x); simpl; split; try lia; intros [? ?]; (done || lia).
Qed.

(** The order does not matter. *)
#[global] Instance countb_perm {A} (P : A -> bool) : Proper ((≡ₚ) ==> (=)) (countb P).
Proof. intros l k Hp. induction Hp; rewrite ?countb_cons; lia. Qed.

Lemma countb_le {A} (P : A -> bool) l : (countb P l <= length l)%nat.
Proof. induction l as [|x l IH]; [done|]. rewrite countb_cons. cbn. destruct (P x); cbn; lia. Qed.

Lemma countb_delete {A} (P : A -> bool) l i x :
  l !! i = Some x -> countb P l = (countb P (delete i l) + Nat.b2n (P x))%nat.
Proof.
  revert i. induction l as [|y l IH]; intros [|i] Hl; [done|done| |].
  - injection Hl as ->. cbn [delete list_delete]. rewrite countb_cons. lia.
  - cbn [delete list_delete]. rewrite !countb_cons, (IH i Hl). unfold delete. lia.
Qed.

Lemma countb_ext {A} (P Q : A -> bool) l : (forall x, P x = Q x) -> countb P l = countb Q l.
Proof. intros HPQ. induction l as [|x l IH]; [done|]. by rewrite !countb_cons, IH, HPQ. Qed.

Lemma countb_map {A B} (P : B -> bool) (f : A -> B) l : countb P (map f l) = countb (fun x => P (f x)) l.
Proof. induction l as [|x l IH]; [done|]. cbn [map]. by rewrite !countb_cons, IH. Qed.
