(* ===== verification/CMem.v ===== *)
(** * Byte buffers and the C string functions

    A C object of [n] bytes is a list of [n] values of [0, 256).  An access
    outside it is [None].  The functions of <string.h> the sources call are
    written over such buffers ([memchr], [strnlen], [strcmp], ...), and the
    little-endian codecs that the wire formats use are related to the reference
    pair [le_bytes]/[le_value]. *)

From S2P Require Import Prelude.
From Stdlib Require Ascii.

(** ** String literals *)

Fixpoint lit (s : string) : list Z :=
  match s with
  | EmptyString => []
  | String a s => Z.of_N (Ascii.N_of_ascii a) :: lit s
  end.

Abbreviation NUL := 0%Z (only parsing).

(** ** Access to a buffer *)

Definition bytes_ok (m : list Z) : Prop := Forall is_u8 m.

(** [overwrite m off bs] is the object after its bytes from [off] on became
    [bs]; [store] is the checked write, [load_n] the checked read. *)
Definition overwrite (m : list Z) (off : nat) (bs : list Z) : list Z :=
  take off m ++ bs ++ drop (off + length bs) m.

Definition store (m : list Z) (off : nat) (bs : list Z) : option (list Z) :=
  if bool_decide (off + length bs <= length m)%nat then Some (overwrite m off bs) else None.

Definition load_n (m : list Z) (off n : nat) : option (list Z) :=
  if bool_decide (off + n <= length m)%nat then Some (take n (drop off m)) else None.

Definition memcpy (dst : list Z) (doff : nat) (src : list Z) (soff n : nat) : option (list Z) :=
  bs ← load_n src soff n; store dst doff bs.

Definition memset (dst : list Z) (off : nat) (v : Z) (n : nat) : option (list Z) :=
  store dst off (replicate n (u8 v)).

(** A string in a zero-filled array of [n] bytes. *)
Definition pad_to (n : nat) (s : list Z) : list Z := s ++ replicate (n - length s) 0.

(** ** <string.h> *)

(** [memchr m off c n]: is [c] among the [n] bytes at [off]?  The sources use
    the answer, or the position of the first match. *)
Definition memchr (m : list Z) (off : nat) (c : Z) (n : nat) : option (option nat) :=
  bs ← load_n m off n;
  Some (fst <$> list_find (fun x => x = u8 c) bs).

Fixpoint strnlen (m : list Z) (n : nat) {struct n} : option nat :=
  match n with
  | O => Some O
  | S n =>
      match m with
      | [] => None
      | c :: m => if c =? NUL then Some O else k ← strnlen m n; Some (S k)
      end
  end.

(** The characters before the terminator; [None] when there is none, which is
    the undefined behaviour of [strlen] and of the functions built on it. *)
Fixpoint cstr (m : list Z) : option (list Z) :=
  match m with
  | [] => None
  | c :: m => if c =? NUL then Some [] else s ← cstr m; Some (c :: s)
  end.

Definition strlen (m : list Z) : option nat := length <$> cstr m.

(** [strcmp a b == 0]; stops at the first difference, as the function does. *)
Fixpoint strcmp_eq (a b : list Z) : option bool :=
  match a, b with
  | x :: a, y :: b =>
      if x =? y then (if x =? NUL then Some true else strcmp_eq a b) else Some false
  | _, _ => None
  end.

(** [strncmp a b n == 0]. *)
Fixpoint strncmp_eq (a b : list Z) (n : nat) {struct n} : option bool :=
  match n with
  | O => Some true
  | S n =>
      match a, b with
      | x :: a, y :: b =>
          if x =? y then (if x =? NUL then Some true else strncmp_eq a b n) else Some false
      | _, _ => None
      end
  end.

(** [strchr m c != NULL] for a [c] that is not the terminator. *)
Definition strchr_in (m : list Z) (c : Z) : option bool :=
  s ← cstr m; Some (bool_decide (u8 c ∈ s)).

Fixpoint is_prefix (p l : list Z) : bool :=
  match p, l with
  | [], _ => true
  | x :: p, y :: l => (x =? y) && is_prefix p l
  | _, [] => false
  end.

(** The list has [p] as a contiguous part. *)
Fixpoint contains (p l : list Z) : bool :=
  is_prefix p l || match l with [] => false | _ :: l => contains p l end.

(** [strstr m p != NULL] for a literal [p]. *)
Definition strstr_in (m p : list Z) : option bool :=
  s ← cstr m; Some (contains p s).

(** ** Little-endian integers *)

Fixpoint le_bytes (n : nat) (v : Z) : list Z :=
  match n with
  | O => []
  | S n => u8 v :: le_bytes n (Z.shiftr v 8)
  end.

Fixpoint le_value (bs : list Z) : Z :=
  match bs with
  | [] => 0
  | b :: bs => b + 256 * le_value bs
  end.

Lemma length_le_bytes n v : length (le_bytes n v) = n.
Proof. revert v; induction n; simpl; auto. Qed.

Lemma le_bytes_ok n v : bytes_ok (le_bytes n v).
Proof.
  revert v; induction n; intros v; constructor; [apply u8_range|apply IHn].
Qed.

Lemma le_value_range bs : bytes_ok bs -> in_w (8 * Z.of_nat (length bs)) (le_value bs).
Proof.
  induction 1 as [|b bs Hb _ IH]; unfold in_w in *; simpl; [lia|].
  rewrite Nat2Z.inj_succ, Z.mul_succ_r, Z.pow_add_r by lia. lia.
Qed.

Lemma le_value_bytes n v : le_value (le_bytes n v) = wrap (8 * Z.of_nat n) v.
Proof.
  unfold wrap. revert v. induction n as [|n IH]; intros v; simpl.
  { by rewrite Z.mod_1_r. }
  rewrite IH, Z.shiftr_div_pow2 by lia.
  unfold u8, wrap. rewrite Nat2Z.inj_succ, Z.mul_succ_r, Z.add_comm.
  rewrite Z.pow_add_r by lia. change (2 ^ 8) with 256.
  rewrite (Z.mul_comm (2 ^ _) 256), Z.rem_mul_r by lia. lia.
Qed.

Lemma le_bytes_value bs : bytes_ok bs -> le_bytes (length bs) (le_value bs) = bs.
Proof.
  induction 1 as [|b bs Hb _ IH]; unfold in_w in *; simpl; [done|]. f_equal.
  - unfold u8, wrap. change (2 ^ 8) with 256.
    rewrite Z.mul_comm, Z.mod_add by lia. by apply Z.mod_small.
  - replace (Z.shiftr _ 8) with (le_value bs); [done|].
    rewrite Z.shiftr_div_pow2 by lia. change (2 ^ 8) with 256 in *.
    rewrite Z.mul_comm, Z.div_add by lia.
    rewrite Z.div_small by lia. lia.
Qed.

Lemma le_value_bytes_small n v : in_w (8 * Z.of_nat n) v -> le_value (le_bytes n v) = v.
Proof. intros. rewrite le_value_bytes. by apply wrap_small. Qed.

Lemma le_bytes_app n m v :
  le_bytes (n + m) v = le_bytes n v ++ le_bytes m (Z.shiftr v (8 * Z.of_nat n)).
Proof.
  revert v. induction n as [|n IH]; intros v; simpl; [by rewrite Z.shiftr_0_r|].
  rewrite IH, Z.shiftr_shiftr by lia.
  by replace (8 + 8 * Z.of_nat n) with (8 * Z.of_nat (S n)) by lia.
Qed.

Lemma le_bytes_wrap n v : le_bytes n (wrap (8 * Z.of_nat n) v) = le_bytes n v.
Proof.
  rewrite <- (length_le_bytes n v) at 1. rewrite <- le_value_bytes.
  apply le_bytes_value, le_bytes_ok.
Qed.

Lemma lor_disjoint_add a b n :
  0 <= n -> in_w n a -> Z.lor a (Z.shiftl b n) = a + 2 ^ n * b.
Proof.
  intros Hn Ha. rewrite (Z.mul_comm (2 ^ n)), <- Z.shiftl_mul_pow2 by lia.
  assert (Hland : Z.land a (Z.shiftl b n) = 0).
  { apply Z.bits_inj'. intros i Hi. rewrite Z.land_spec, Z.bits_0, Z.shiftl_spec by lia.
    destruct (decide (i < n)).
    - rewrite (Z.testbit_neg_r b) by lia. apply andb_false_r.
    - by rewrite (testbit_above n a) by (done || lia). }
  by rewrite Z.add_nocarry_lxor, Z.lxor_lor.
Qed.

(** ** Lemmas on buffers *)

Lemma length_overwrite m off bs :
  (off + length bs <= length m)%nat -> length (overwrite m off bs) = length m.
Proof. intros. unfold overwrite. rewrite !length_app, length_take, length_drop. lia. Qed.

Lemma overwrite_nil m off : overwrite m off [] = m.
Proof. unfold overwrite. rewrite Nat.add_0_r. apply take_drop. Qed.

Lemma overwrite_app m off a b :
  (off + length a + length b <= length m)%nat ->
  overwrite (overwrite m off a) (off + length a) b = overwrite m off (a ++ b).
Proof.
  intros H. unfold overwrite.
  rewrite take_app, length_take, Nat.min_l, take_take, Nat.min_r by lia.
  replace (off + length a - off)%nat with (length a) by lia.
  rewrite take_app_length. rewrite <- !app_assoc. do 3 f_equal.
  rewrite drop_app, length_take, Nat.min_l by lia.
  rewrite (drop_ge (take _ _)) by (rewrite length_take; lia). simpl.
  rewrite drop_app, (drop_ge a) by lia. simpl.
  rewrite drop_drop, length_app. f_equal. lia.
Qed.

(** Writing over the front of what was just written. *)
Lemma overwrite_front m off a b :
  (length b <= length a)%nat -> (off + length a <= length m)%nat ->
  overwrite (overwrite m off a) off b = overwrite m off (b ++ drop (length b) a).
Proof.
  intros Hb Ha. unfold overwrite.
  rewrite take_app, length_take, Nat.min_l, take_take, Nat.min_id by lia.
  rewrite Nat.sub_diag. simpl. rewrite take_0, app_nil_r.
  rewrite <- app_assoc. do 2 f_equal.
  rewrite drop_app, length_take, Nat.min_l by lia.
  rewrite (drop_ge (take _ _)) by (rewrite length_take; lia). simpl.
  replace (off + length b - off)%nat with (length b) by lia.
  rewrite drop_app. replace (length b - length a)%nat with O by lia. rewrite drop_0.
  f_equal. rewrite !length_app, length_drop. f_equal. lia.
Qed.

Lemma overwrite_0_drop m bs :
  overwrite m 0 bs = bs ++ drop (length bs) m.
Proof. done. Qed.

Lemma store_ok m off bs :
  (off + length bs <= length m)%nat -> store m off bs = Some (overwrite m off bs).
Proof. intros. unfold store. by rewrite bool_decide_true. Qed.

(** A write that continues the previous one. *)
Lemma store_next m off a off' b :
  off' = (off + length a)%nat -> (off' + length b <= length m)%nat ->
  store (overwrite m off a) off' b = Some (overwrite m off (a ++ b)).
Proof.
  intros -> H. rewrite store_ok by (rewrite length_overwrite; lia).
  by rewrite overwrite_app by lia.
Qed.

Lemma load_n_ok m off n :
  (off + n <= length m)%nat -> load_n m off n = Some (take n (drop off m)).
Proof. intros. unfold load_n. by rewrite bool_decide_true. Qed.

Lemma load_n_length m off n bs : load_n m off n = Some bs -> length bs = n.
Proof.
  unfold load_n. case_bool_decide; [|done]. intros [= <-].
  rewrite length_take, length_drop. lia.
Qed.

(** ** Lemmas on strings *)

Lemma lit_ok s : bytes_ok (lit s).
Proof.
  induction s as [|a s IH]; constructor; [|exact IH].
  destruct a as [[] [] [] [] [] [] [] []]; split; vm_compute; congruence.
Qed.

Lemma memchr_None m off c n :
  (off + n <= length m)%nat ->
  memchr m off c n = Some None <-> Forall (fun x => x <> u8 c) (take n (drop off m)).
Proof.
  intros H. unfold memchr. rewrite load_n_ok by done. simpl.
  rewrite Forall_forall. split.
  - intros [= Hf]. intros x Hx. apply fmap_None in Hf. rewrite list_find_None in Hf.
    rewrite Forall_forall in Hf. by apply Hf.
  - intros Hf. f_equal. apply fmap_None. apply list_find_None. by apply Forall_forall.
Qed.

Lemma cstr_app s rest : Forall (fun c => c <> 0) s -> cstr (s ++ NUL :: rest) = Some s.
Proof.
  induction 1 as [|c s Hc _ IH]; simpl; [done|].
  rewrite (proj2 (Z.eqb_neq c 0)) by done. by rewrite IH.
Qed.

Lemma cstr_Some m s :
  cstr m = Some s -> Forall (fun c => c <> 0) s /\ exists rest, m = s ++ NUL :: rest.
Proof.
  revert s. induction m as [|c m IH]; simpl; [done|]. intros s.
  destruct (Z.eqb_spec c 0) as [->|Hc].
  - intros [= <-]. split; [done|]. by exists m.
  - destruct (cstr m) as [t|] eqn:E; [|done]. simpl. intros [= <-].
    destruct (IH _ eq_refl) as [Ht [rest ->]]. split; [by constructor|]. by exists rest.
Qed.

(** What [strnlen] says of a buffer of at least [n] bytes. *)
Lemma strnlen_spec m n :
  (n <= length m)%nat ->
  exists k, strnlen m n = Some k /\ (k <= n)%nat /\
    Forall (fun c => c <> 0) (take k m) /\ ((k < n)%nat -> m !! k = Some 0).
Proof.
  revert m. induction n as [|n IH]; intros m Hm.
  { exists O. split_and!; [done|lia|constructor|lia]. }
  destruct m as [|c m]; [simpl in Hm; lia|]. simpl.
  destruct (Z.eqb_spec c 0) as [->|Hc].
  - exists O. split_and!; [done|lia|constructor|done].
  - destruct (IH m) as (k & -> & Hk & Ht & Hn); [simpl in Hm; lia|].
    exists (S k). simpl. split_and!; [done|lia|by constructor|].
    intros. apply Hn. lia.
Qed.

Lemma strnlen_cstr m n k :
  (n <= length m)%nat -> strnlen m n = Some k -> (k < n)%nat -> cstr m = Some (take k m).
Proof.
  intros Hm Hk Hlt. destruct (strnlen_spec m n Hm) as (k' & Hk' & _ & Hnz & H0).
  rewrite Hk in Hk'. injection Hk' as <-. specialize (H0 Hlt).
  rewrite <- (take_drop_middle m k 0 H0) at 1. by apply cstr_app.
Qed.

Lemma strnlen_of_cstr m n s : cstr m = Some s -> strnlen m n = Some (length s `min` n)%nat.
Proof.
  revert m s. induction n as [|n IH]; intros m s Hs; simpl; [by rewrite Nat.min_0_r|].
  destruct m as [|c m]; [done|]. simpl in Hs. destruct (c =? 0); [by simplify_eq|].
  destruct (cstr m) as [t|] eqn:E; [|done]. simplify_eq/=. by rewrite (IH m t).
Qed.

Lemma cstr_pad n s :
  Forall (fun c => c <> 0) s -> (length s < n)%nat -> cstr (pad_to n s) = Some s.
Proof.
  intros Hs Hl. unfold pad_to. destruct (n - length s)%nat eqn:E; [lia|]. by apply cstr_app.
Qed.

Lemma length_pad_to n s : (length s <= n)%nat -> length (pad_to n s) = n.
Proof. intros. unfold pad_to. rewrite length_app, length_replicate. lia. Qed.

(** Copying a string with its terminator into a zeroed array. *)
Lemma memcpy_string n m s :
  cstr m = Some s -> (length s < n)%nat ->
  memcpy (replicate n 0) 0 m 0 (length s + 1) = Some (pad_to n s).
Proof.
  intros Hs Hl. apply cstr_Some in Hs as [_ [rest ->]]. unfold memcpy.
  rewrite load_n_ok by (rewrite length_app; simpl; lia). cbn [mbind option_bind].
  rewrite drop_0. replace (take (length s + 1) (s ++ NUL :: rest)) with (s ++ [NUL]).
  2: { rewrite take_app_add. by rewrite ?firstn_O. }
  rewrite store_ok by (rewrite length_app, length_replicate; simpl; lia). f_equal.
  unfold overwrite, pad_to. rewrite take_0. cbn [app]. rewrite drop_replicate, length_app.
  rewrite <- app_assoc. f_equal. change [NUL] with (replicate 1 0). rewrite <- replicate_add.
  f_equal. simpl. lia.
Qed.

Lemma bytes_ok_dec l : forallb (fun b => (0 <=? b) && (b <? 256)) l = true -> bytes_ok l.
Proof.
  intros H. apply Forall_forall. intros x Hx.
  rewrite forallb_forall in H. specialize (H x (proj1 (list_elem_of_In _ _) Hx)).
  zb. unfold in_w. lia.
Qed.

Lemma strcmp_eq_spec a b s t :
  cstr a = Some s -> cstr b = Some t -> strcmp_eq a b = Some (bool_decide (s = t)).
Proof.
  revert b s t. induction a as [|x a IH]; intros [|y b] s t; simpl; try done.
  intros Ha Hb.
  destruct (Z.eqb_spec x y) as [<-|Hxy].
  - destruct (Z.eqb_spec x 0) as [->|Hx].
    + simplify_eq/=. done.
    + destruct (cstr a) eqn:Ea; [|done]. destruct (cstr b) eqn:Eb; [|done].
      simplify_eq/=. rewrite (IH _ _ _ eq_refl Eb). f_equal. apply bool_decide_ext.
      split; [by intros ->|by intros [=]].
  - destruct (Z.eqb_spec x 0) as [->|Hx], (Z.eqb_spec y 0) as [->|Hy]; simplify_eq/=;
      rewrite ?bind_Some in *; destruct_and?;
      repeat match goal with H : exists _, _ |- _ => destruct H as (? & ? & ?) end; simplify_eq/=;
      first [done | by rewrite bool_decide_false by congruence].
Qed.

Lemma strncmp_eq_spec a p :
  is_Some (cstr a) -> Forall (fun c => c <> 0) p ->
  strncmp_eq a (p ++ [NUL]) (length p) = is_prefix p <$> cstr a.
Proof.
  intros Ha Hp. revert a Ha. induction Hp as [|x p Hx _ IH]; intros a Ha.
  { destruct Ha as [s ->]. by destruct s. }
  destruct a as [|y a]; simpl; [by destruct Ha|]. simpl in Ha.
  destruct (Z.eqb_spec y 0) as [->|Hy]; simpl.
  - by destruct x.
  - destruct (cstr a) as [s|] eqn:Es; [|by destruct Ha]. simpl.
    rewrite (Z.eqb_sym x y). destruct (Z.eqb_spec y x) as [->|]; [|done].
    rewrite (IH a) by (rewrite Es; eauto). by rewrite Es.
Qed.

Lemma is_prefix_spec p l : is_prefix p l = true <-> exists r, l = p ++ r.
Proof.
  revert l. induction p as [|x p IH]; intros l; simpl.
  - split; [eauto|done].
  - destruct l as [|y l]; [by split; [|intros [? ?]]|].
    rewrite andb_true_iff, Z.eqb_eq, IH. split.
    + intros [-> [r ->]]. by exists r.
    + intros [r [= -> ->]]. eauto.
Qed.

Lemma contains_spec p l : contains p l = true <-> exists a b, l = a ++ p ++ b.
Proof.
  induction l as [|y l IH]; simpl; rewrite orb_true_iff, is_prefix_spec.
  - split; [intros [[r ->]|]; [by exists [], r|done]|].
    intros (a & b & H). left. exists b. symmetry in H.
    apply app_eq_nil in H as [-> ->]. done.
  - rewrite IH. split.
    + intros [[r ->]|(a & b & ->)]; [by exists [], r|by exists (y :: a), b].
    + intros ([|z a] & b & H); simpl in H; [eauto|].
      injection H as -> ->. right. eauto.
Qed.

(** ** Hexadecimal numbers *)

Definition xdigit (c : Z) : option Z :=
  if (48 <=? c) && (c <=? 57) then Some (c - 48)
  else if (65 <=? c) && (c <=? 70) then Some (c - 55)
  else if (97 <=? c) && (c <=? 102) then Some (c - 87)
  else None.

Definition isxdigit (c : Z) : bool := bool_decide (is_Some (xdigit c)).

(** The digits at the front of a string: their value and what follows. *)
Fixpoint hex_digits (s : list Z) (acc : Z) : Z * list Z :=
  match s with
  | c :: rest => match xdigit c with Some d => hex_digits rest (acc * 16 + d) | None => (acc, s) end
  | [] => (acc, [])
  end.

(** [strtoul(s, &end, 16)] of a string that starts with a digit: the value, the
    rest and whether it overflowed ([errno == ERANGE]). *)
Definition strtoul16 (s : list Z) : Z * list Z * bool :=
  let digits :=
    match s with
    | z :: x :: d :: rest =>
        if (z =? 48) && ((x =? 120) || (x =? 88)) && isxdigit d then d :: rest else s
    | _ => s
    end in
  let '(v, rest) := hex_digits digits 0 in
  if 2 ^ 64 <=? v then (2 ^ 64 - 1, rest, true) else (v, rest, false).

(** The lower-case digit printf writes. *)
Definition hexd (d : Z) : Z := if d <? 10 then 48 + d else 87 + d.

Lemma xdigit_hexd d : 0 <= d < 16 -> xdigit (hexd d) = Some d.
Proof.
  intros Hd. unfold hexd, xdigit. destruct (Z.ltb_spec d 10).
  - rewrite (proj2 (Z.leb_le 48 (48 + d))), (proj2 (Z.leb_le (48 + d) 57)) by lia. cbn. f_equal. lia.
  - rewrite (proj2 (Z.leb_gt (87 + d) 57)), andb_false_r by lia.
    rewrite (proj2 (Z.leb_gt (87 + d) 70)), andb_false_r by lia.
    rewrite (proj2 (Z.leb_le 97 (87 + d))), (proj2 (Z.leb_le (87 + d) 102)) by lia. cbn. f_equal. lia.
Qed.
