(* ===== verification/WmtProtocol.v ===== *)
(** * The WMT command/reply codec (wmt-launcher/protocol.c)

    Decoder of the request frames of the kernel's command broker, encoder of
    the status and list replies, and the layout of both
    (include/linux/mtk_wmt_cmd.h).  [command_frame] and [list_frame] are the
    reference layouts; the theorems say that the decoder accepts exactly the
    former, that the encoders write exactly the latter and touch nothing else,
    and that no branch reads or writes outside its buffers. *)

From S2P Require Import Prelude CMem.

(** ** include/linux/mtk_wmt_cmd.h *)

Definition WMT_CMD2_MAGIC : Z := 0x32544d57.
Definition WMT_CMD2_VERSION : Z := 2.
Definition WMT_CMD2_COMMAND_MAX : Z := 255.
Definition WMT_CMD2_PATCH_MAX : Z := 10.
Definition WMT_CMD2_ROM_MAX : Z := 5.
Definition WMT_CMD2_FRAME_HEADER_SIZE : Z := 32.
Definition WMT_CMD2_RECORD_SIZE : Z := 264.
Definition WMT_CMD2_READ_MAX : Z := 32 + WMT_CMD2_COMMAND_MAX.
Definition WMT_CMD2_WRITE_MAX : Z := 32 + 8 + WMT_CMD2_PATCH_MAX * WMT_CMD2_RECORD_SIZE.

Definition WMT_CMD2_COMMAND : Z := 1.
Definition WMT_CMD2_STATUS : Z := 2.
Definition WMT_CMD2_PATCH_LIST : Z := 3.
Definition WMT_CMD2_ROM_LIST : Z := 4.

Record wmt_cmd2_record := mk_record {
  r_index : Z;
  r_address : list Z;
  r_name : list Z;
}.

(** ** protocol.h *)

Record wmt_command := mk_command {
  c_session : Z;
  c_transaction : Z;
  c_text : list Z;
}.

(** ** Byte order helpers *)

Definition read16 (data : list Z) (off : nat) : option Z :=
  b0 ← data !! off; b1 ← data !! (off + 1)%nat;
  Some (u16 (Z.lor b0 (Z.shiftl b1 8))).

Definition read32 (data : list Z) (off : nat) : option Z :=
  b0 ← data !! off; b1 ← data !! (off + 1)%nat;
  b2 ← data !! (off + 2)%nat; b3 ← data !! (off + 3)%nat;
  Some (Z.lor (Z.lor (Z.lor b0 (u32 (Z.shiftl b1 8))) (u32 (Z.shiftl b2 16)))
          (u32 (Z.shiftl b3 24))).

Definition read64 (data : list Z) (off : nat) : option Z :=
  lo ← read32 data off; hi ← read32 data (off + 4)%nat;
  Some (Z.lor lo (u64 (Z.shiftl hi 32))).

Definition write16 (data : list Z) (off : nat) (value : Z) : option (list Z) :=
  data ← store data off [u8 value];
  store data (off + 1) [u8 (Z.shiftr value 8)].

Definition write32 (data : list Z) (off : nat) (value : Z) : option (list Z) :=
  for_c [0; 1; 2; 3]%nat data (fun i data =>
    store data (off + i) [u8 (Z.shiftr value (8 * Z.of_nat i))]).

Definition write64 (data : list Z) (off : nat) (value : Z) : option (list Z) :=
  data ← write32 data off (u32 value);
  write32 data (off + 4) (u32 (Z.shiftr value 32)).

(** ** The decoder *)

Definition wmt_command_decode (frame : option (list Z)) (size session : Z)
    (output : option wmt_command) : option (Z * option wmt_command) :=
  match frame, output with
  | Some frame, Some _ =>
      if session =? 0 then Some (- EINVAL, output) else
      if size <? WMT_CMD2_FRAME_HEADER_SIZE then Some (- EMSGSIZE, output) else
      ret_if (magic ← read32 frame 0; Some (negb (magic =? WMT_CMD2_MAGIC)))
             ||? (version ← read16 frame 4; Some (negb (version =? WMT_CMD2_VERSION)))
        ret Some (- EPROTONOSUPPORT, output);
      ret_if (kind ← read16 frame 6; Some (negb (kind =? WMT_CMD2_COMMAND)))
             ||? (result ← read32 frame 28; Some (negb (result =? 0)))
        ret Some (- EPROTO, output);
      c_session ← read64 frame 8;
      c_transaction ← read64 frame 16;
      if negb (c_session =? session) then Some (- ESTALE, output) else
      if c_transaction =? 0 then Some (- EPROTO, output) else
      length ← read32 frame 24;
      if (length =? 0) || (WMT_CMD2_COMMAND_MAX <? length) ||
         negb (size =? WMT_CMD2_FRAME_HEADER_SIZE + length)
      then Some (- EMSGSIZE, output) else
      ret_if (p ← memchr frame 32 NUL (Z.to_nat length); Some (bool_decide (is_Some p)))
        ret Some (- EPROTO, output);
      text ← memcpy (replicate 256 0) 0 frame 32 (Z.to_nat length);
      Some (0, Some (mk_command c_session c_transaction text))
  | _, _ => Some (- EINVAL, output)
  end.

(** ** The encoders *)

Definition reply_header (command : wmt_command) (kind length result : Z)
    (frame : list Z) : option (list Z) :=
  frame ← write32 frame 0 WMT_CMD2_MAGIC;
  frame ← write16 frame 4 WMT_CMD2_VERSION;
  frame ← write16 frame 6 (u16 kind);
  frame ← write64 frame 8 (c_session command);
  frame ← write64 frame 16 (c_transaction command);
  frame ← write32 frame 24 length;
  write32 frame 28 (u32 result).

(** The result is the encoded size or a negative errno, with the frame. *)
Definition wmt_reply_status (command : option wmt_command) (result : Z)
    (frame : option (list Z)) (capacity : Z) : option (Z * option (list Z)) :=
  match command, frame with
  | Some command, Some data =>
      if (c_session command =? 0) || (c_transaction command =? 0) ||
         (0 <? result) || (result <? - 4095)
      then Some (- EINVAL, frame) else
      if capacity <? WMT_CMD2_FRAME_HEADER_SIZE then Some (- EMSGSIZE, frame) else
      data ← reply_header command WMT_CMD2_STATUS 0 result data;
      Some (WMT_CMD2_FRAME_HEADER_SIZE, Some data)
  | _, _ => Some (- EINVAL, frame)
  end.

(** One iteration of the validation loop: [inl] is the early return, [inr] the
    new value of [seen]. *)
Definition check_record (kind count : Z) (r : wmt_cmd2_record) (seen : Z) : option (Z + Z) :=
  name_length ← strnlen (r_name r) 256;
  let patch := kind =? WMT_CMD2_PATCH_LIST in
  if (if patch then (r_index r =? 0) || (count <? r_index r)
      else WMT_CMD2_ROM_MAX <=? r_index r)
  then Some (inl (- EINVAL)) else
  let index := if patch then r_index r - 1 else r_index r in
  let bit := u32 (Z.shiftl 1 index) in
  if negb (Z.land seen bit =? 0) then Some (inl (- EEXIST)) else
  ret_if Some ((name_length =? 0)%nat || (name_length =? 256)%nat)
         ||? (p ← memchr (r_name r) 0 47 name_length; Some (bool_decide (is_Some p)))
         ||? strcmp_eq (r_name r) (lit "." ++ [NUL])
         ||? strcmp_eq (r_name r) (lit ".." ++ [NUL])
    ret Some (inl (- EINVAL));
  Some (inr (Z.lor seen bit)).

Fixpoint check_records (kind count : Z) (records : list wmt_cmd2_record)
    (i n : nat) (seen : Z) : option (Z + Z) :=
  match n with
  | O => Some (inr seen)
  | S n =>
      r ← records !! i;
      x ← check_record kind count r seen;
      match x with
      | inl e => Some (inl e)
      | inr seen => check_records kind count records (S i) n seen
      end
  end.

(** One iteration of the encoding loop. *)
Definition write_record (records : list wmt_cmd2_record) (i : nat)
    (frame : list Z) : option (list Z) :=
  r ← records !! i;
  let record := (40 + i * 264)%nat in
  frame ← write32 frame record (r_index r);
  frame ← memcpy frame (record + 4) (r_address r) 0 4;
  frame ← memset frame (record + 8) 0 256;
  n ← strlen (r_name r);
  memcpy frame (record + 8) (r_name r) 0 n.

Definition wmt_reply_list (command : option wmt_command) (kind : Z)
    (records : option (list wmt_cmd2_record)) (count : Z)
    (frame : option (list Z)) (capacity : Z) : option (Z * option (list Z)) :=
  match command, frame with
  | Some command, Some data =>
      if (c_session command =? 0) || (c_transaction command =? 0) ||
         (negb (count =? 0) && bool_decide (records = None))
      then Some (- EINVAL, frame) else
      if (if kind =? WMT_CMD2_PATCH_LIST then count =? 0
          else negb (kind =? WMT_CMD2_ROM_LIST))
      then Some (- EINVAL, frame) else
      let maximum := if kind =? WMT_CMD2_PATCH_LIST then WMT_CMD2_PATCH_MAX
                     else WMT_CMD2_ROM_MAX in
      if maximum <? count then Some (- E2BIG, frame) else
      let length := 8 + count * WMT_CMD2_RECORD_SIZE in
      if capacity <? WMT_CMD2_FRAME_HEADER_SIZE + length then Some (- EMSGSIZE, frame) else
      let records := default [] records in
      x ← check_records kind count records 0 (Z.to_nat count) 0;
      match x with
      | inl e => Some (e, frame)
      | inr _ =>
          data ← reply_header command kind length 0 data;
          data ← write32 data 32 (u32 count);
          data ← write32 data 36 0;
          data ← for_c (seq 0 (Z.to_nat count)) data (write_record records);
          Some (WMT_CMD2_FRAME_HEADER_SIZE + length, Some data)
      end
  | _, _ => Some (- EINVAL, frame)
  end.

(** ** Reference layouts *)

Definition frame_header (kind session transaction length result : Z) : list Z :=
  le_bytes 4 WMT_CMD2_MAGIC ++ le_bytes 2 WMT_CMD2_VERSION ++ le_bytes 2 kind ++
  le_bytes 8 session ++ le_bytes 8 transaction ++ le_bytes 4 length ++ le_bytes 4 result.

Definition command_frame (session transaction : Z) (text : list Z) : list Z :=
  frame_header WMT_CMD2_COMMAND session transaction (Z.of_nat (length text)) 0 ++ text.

Definition record_bytes (r : wmt_cmd2_record) : list Z :=
  le_bytes 4 (r_index r) ++ r_address r ++ pad_to 256 (default [] (cstr (r_name r))).

Definition list_frame (command : wmt_command) (kind : Z) (rs : list wmt_cmd2_record) : list Z :=
  frame_header kind (c_session command) (c_transaction command)
    (8 + Z.of_nat (length rs) * WMT_CMD2_RECORD_SIZE) 0 ++
  le_bytes 4 (Z.of_nat (length rs)) ++ le_bytes 4 0 ++ concat (record_bytes <$> rs).

#[global] Arguments record_bytes : simpl never.
#[global] Arguments frame_header : simpl never.

(** A command a request frame can carry. *)
Definition command_text_ok (text : list Z) : Prop :=
  (1 <= length text <= 255)%nat /\ Forall (fun c => c <> 0) text.

Definition record_wf (r : wmt_cmd2_record) : Prop :=
  is_u32 (r_index r) /\ length (r_address r) = 4%nat /\ length (r_name r) = 256%nat.

(** The file name of a record: terminated, not empty, not a path, not [.] and
    not [..]. *)
Definition name_ok (name : list Z) : Prop :=
  exists s, cstr name = Some s /\ s <> [] /\ (47 ∉ s) /\ s <> lit "." /\ s <> lit "..".

(** The bit a record takes in [seen]. *)
Definition slot (kind : Z) (r : wmt_cmd2_record) : Z :=
  if kind =? WMT_CMD2_PATCH_LIST then r_index r - 1 else r_index r.

Definition index_ok (kind count : Z) (r : wmt_cmd2_record) : Prop :=
  if kind =? WMT_CMD2_PATCH_LIST then 1 <= r_index r <= count
  else 0 <= r_index r < WMT_CMD2_ROM_MAX.

(** What a list reply promises the kernel. *)
Definition list_ok (kind : Z) (rs : list wmt_cmd2_record) : Prop :=
  Forall (fun r => index_ok kind (Z.of_nat (length rs)) r /\ name_ok (r_name r)) rs /\
  NoDup (slot kind <$> rs).

(** ** The byte order helpers agree with the little-endian reference *)

Lemma lookup_split4 (m : list Z) off :
  (off + 4 <= length m)%nat -> exists a b c d r, drop off m = a :: b :: c :: d :: r.
Proof.
  intros H. destruct (drop off m) as [|a [|b [|c [|d r]]]] eqn:E; eauto 6;
    apply (f_equal length) in E; rewrite length_drop in E; simpl in E; lia.
Qed.

Lemma bytes_ok_drop m off : bytes_ok m -> bytes_ok (drop off m).
Proof. apply Forall_drop. Qed.

Lemma bytes_ok_take m n : bytes_ok m -> bytes_ok (take n m).
Proof. apply Forall_take. Qed.

Lemma lookup_from_drop (m : list Z) off i : m !! (off + i)%nat = drop off m !! i.
Proof. by rewrite lookup_drop. Qed.

Lemma read16_ok data off :
  bytes_ok data -> (off + 2 <= length data)%nat ->
  read16 data off = Some (le_value (take 2 (drop off data))).
Proof.
  intros Hb H. unfold read16.
  rewrite <- (Nat.add_0_r off) at 1. rewrite !lookup_from_drop.
  pose proof (bytes_ok_drop _ off Hb) as Hd.
  destruct (drop off data) as [|a [|b r]] eqn:E;
    try (apply (f_equal length) in E; rewrite length_drop in E; simpl in E; lia).
  simpl. f_equal. unfold bytes_ok in Hd. inversion_clear Hd as [|?? Ha Hd'].
  inversion_clear Hd' as [|?? Hb' _]. unfold in_w in *.
  rewrite lor_disjoint_add by (unfold in_w; lia).
  unfold u16. rewrite wrap_small by (unfold in_w; lia). lia.
Qed.

Lemma read32_ok data off :
  bytes_ok data -> (off + 4 <= length data)%nat ->
  read32 data off = Some (le_value (take 4 (drop off data))).
Proof.
  intros Hb H. unfold read32.
  rewrite <- (Nat.add_0_r off) at 1. rewrite !lookup_from_drop.
  pose proof (bytes_ok_drop _ off Hb) as Hd.
  destruct (lookup_split4 data off H) as (a & b & c & d & r & E). rewrite E in *.
  simpl. f_equal. unfold bytes_ok in Hd. rewrite !Forall_cons in Hd.
  destruct Hd as (Ha & Hb' & Hc & Hd & _). unfold in_w in *.
  assert (Hs : forall x k, 0 <= x < 256 -> 0 <= k <= 24 -> u32 (Z.shiftl x k) = Z.shiftl x k).
  { intros x k Hx Hk. apply wrap_small. rewrite Z.shiftl_mul_pow2 by lia. split; [nia|].
    apply Z.lt_le_trans with (256 * 2 ^ k); [nia|].
    change 256 with (2 ^ 8). rewrite <- Z.pow_add_r by lia. apply Z.pow_le_mono_r; lia. }
  rewrite !Hs by lia. rewrite (lor_disjoint_add a) by (unfold in_w; lia).
  rewrite (lor_disjoint_add _ c) by (unfold in_w; lia).
  rewrite lor_disjoint_add by (unfold in_w; lia). lia.
Qed.

Lemma le_value_app a b :
  le_value (a ++ b) = le_value a + 2 ^ (8 * Z.of_nat (length a)) * le_value b.
Proof.
  induction a as [|x a IH]; simpl; [lia|]. rewrite IH, Nat2Z.inj_succ, Z.mul_succ_r.
  rewrite Z.pow_add_r by lia. lia.
Qed.

Lemma read64_ok data off :
  bytes_ok data -> (off + 8 <= length data)%nat ->
  read64 data off = Some (le_value (take 8 (drop off data))).
Proof.
  intros Hb H. unfold read64. rewrite !read32_ok by (done || lia). simpl. f_equal.
  rewrite <- drop_drop.
  assert (Hlen : forall k, (k + 4 <= 8)%nat -> length (take 4 (drop k (drop off data))) = 4%nat).
  { intros. rewrite length_take, !length_drop. lia. }
  assert (Hr : forall k, (k + 4 <= 8)%nat -> is_u32 (le_value (take 4 (drop k (drop off data))))).
  { intros k Hk. specialize (Hlen k Hk).
    assert (Hb' : bytes_ok (take 4 (drop k (drop off data)))) by
      (apply bytes_ok_take, bytes_ok_drop, bytes_ok_drop; done).
    apply le_value_range in Hb'. rewrite Hlen in Hb'. exact Hb'. }
  pose proof (Hr 4%nat ltac:(lia)) as Hhi. pose proof (Hr 0%nat ltac:(lia)) as Hlo.
  rewrite drop_0 in Hlo. unfold in_w in *.
  unfold u64. rewrite wrap_small by (unfold in_w; rewrite Z.shiftl_mul_pow2 by lia; lia).
  rewrite lor_disjoint_add by (unfold in_w; lia).
  rewrite <- (take_drop 4 (take 8 (drop off data))).
  rewrite le_value_app, take_take, skipn_firstn_comm. simpl (8 - 4)%nat.
  specialize (Hlen 0%nat ltac:(lia)). rewrite drop_0 in Hlen.
  change (4 `min` 8)%nat with 4%nat. by rewrite Hlen.
Qed.

(** The encoders write a field after the bytes already written at [0]. *)
Lemma write16_next m off a v :
  off = length a -> (off + 2 <= length m)%nat ->
  write16 (overwrite m 0 a) off v = Some (overwrite m 0 (a ++ le_bytes 2 v)).
Proof.
  intros -> H. unfold write16.
  rewrite store_next by (simpl; lia). simpl mbind.
  rewrite store_next by (rewrite ?length_app; simpl; lia).
  by rewrite <- app_assoc.
Qed.

Lemma write32_next m off a v :
  off = length a -> (off + 4 <= length m)%nat ->
  write32 (overwrite m 0 a) off v = Some (overwrite m 0 (a ++ le_bytes 4 v)).
Proof.
  intros -> H. unfold write32. cbn [for_c].
  do 4 (rewrite store_next by (rewrite ?length_app; simpl; lia); cbn [mbind option_bind]).
  rewrite <- !app_assoc. cbn [app le_bytes Z.of_nat].
  rewrite !Z.shiftr_shiftr by lia. by rewrite Z.shiftr_0_r.
Qed.

Lemma write64_next m off a v :
  off = length a -> (off + 8 <= length m)%nat ->
  write64 (overwrite m 0 a) off v = Some (overwrite m 0 (a ++ le_bytes 8 v)).
Proof.
  intros -> H. unfold write64. rewrite write32_next by lia. cbn [mbind option_bind].
  rewrite write32_next by (rewrite ?length_app, ?length_le_bytes; lia).
  rewrite <- app_assoc. change (u32 v) with (wrap (8 * Z.of_nat 4) v).
  change (u32 (Z.shiftr v 32)) with (wrap (8 * Z.of_nat 4) (Z.shiftr v 32)).
  rewrite !le_bytes_wrap. change 8%nat with (4 + 4)%nat at 1.
  by rewrite (le_bytes_app 4 4 v).
Qed.

Lemma length_frame_header k s t l r : length (frame_header k s t l r) = 32%nat.
Proof. done. Qed.

Lemma reply_header_ok command kind len result frame :
  (32 <= length frame)%nat ->
  reply_header command kind len result frame =
  Some (overwrite frame 0
    (frame_header kind (c_session command) (c_transaction command) len result)).
Proof.
  intros H. unfold reply_header, frame_header.
  rewrite <- (overwrite_nil frame 0) at 1.
  rewrite write32_next by (simpl; lia). cbn [mbind option_bind app].
  do 2 (rewrite write16_next by (rewrite ?length_app, ?length_le_bytes; lia);
        cbn [mbind option_bind]).
  do 2 (rewrite write64_next by (rewrite ?length_app, ?length_le_bytes; lia);
        cbn [mbind option_bind]).
  do 2 (rewrite write32_next by (rewrite ?length_app, ?length_le_bytes; lia);
        cbn [mbind option_bind]).
  rewrite <- !app_assoc.
  change (u16 kind) with (wrap (8 * Z.of_nat 2) kind).
  change (u32 result) with (wrap (8 * Z.of_nat 4) result).
  by rewrite !le_bytes_wrap.
Qed.

(** ** Decoder *)

Definition field (frame : list Z) (off n : nat) : Z := le_value (take n (drop off frame)).

(** The decoder with its reads resolved: what is left are the tests of the code
    on the fields of the frame. *)
Lemma decode_fields frame size session out :
  bytes_ok frame -> WMT_CMD2_FRAME_HEADER_SIZE <= size <= Z.of_nat (length frame) ->
  session <> 0 ->
  let n := Z.to_nat (field frame 24 4) in
  wmt_command_decode (Some frame) size session (Some out) =
  Some
    (if negb (field frame 0 4 =? WMT_CMD2_MAGIC) || negb (field frame 4 2 =? WMT_CMD2_VERSION)
     then (- EPROTONOSUPPORT, Some out)
     else if negb (field frame 6 2 =? WMT_CMD2_COMMAND) || negb (field frame 28 4 =? 0)
     then (- EPROTO, Some out)
     else if negb (field frame 8 8 =? session) then (- ESTALE, Some out)
     else if field frame 16 8 =? 0 then (- EPROTO, Some out)
     else if (field frame 24 4 =? 0) || (WMT_CMD2_COMMAND_MAX <? field frame 24 4) ||
             negb (size =? WMT_CMD2_FRAME_HEADER_SIZE + field frame 24 4)
     then (- EMSGSIZE, Some out)
     else if bool_decide (Forall (fun x => x <> 0) (take n (drop 32 frame)))
     then (0, Some (mk_command session (field frame 16 8) (pad_to 256 (take n (drop 32 frame)))))
     else (- EPROTO, Some out)).
Proof.
  intros Hb Hs Hses n. unfold wmt_command_decode, WMT_CMD2_FRAME_HEADER_SIZE in *.
  rewrite (proj2 (Z.eqb_neq session 0)), (proj2 (Z.ltb_ge size 32)) by lia.
  rewrite !read32_ok, !read16_ok, !read64_ok by (done || lia). cbn [mbind option_bind].
  fold (field frame 0 4) (field frame 4 2) (field frame 6 2) (field frame 28 4)
       (field frame 8 8) (field frame 16 8) (field frame 24 4).
  unfold c_or. cbn [mbind option_bind].
  destruct (field frame 0 4 =? _); cbn [negb orb mbind option_bind]; [|done]. destruct (field frame 4 2 =? _); cbn [negb orb mbind option_bind]; [|done].
  destruct (field frame 6 2 =? _); cbn [negb orb mbind option_bind]; [|done]. destruct (field frame 28 4 =? _); cbn [negb orb mbind option_bind]; [|done].
  destruct (Z.eqb_spec (field frame 8 8) session) as [->|]; cbn [negb orb mbind option_bind]; [|done].
  destruct (field frame 16 8 =? 0); [done|].
  destruct (_ || _)%bool eqn:Hlen; [done|]. zb. unfold WMT_CMD2_COMMAND_MAX in *.
  assert (Hn : (32 + n <= length frame)%nat) by (unfold n; lia).
  assert (Hn255 : (n <= 255)%nat) by (unfold n; lia). fold n.
  unfold memcpy. rewrite load_n_ok by done. cbn [mbind option_bind].
  rewrite store_ok by (rewrite length_take, length_drop; simpl; lia).
  assert (Hmem := memchr_None frame 32 NUL n Hn). cbn [mbind option_bind].
  destruct (memchr frame 32 NUL n) as [[k|]|] eqn:E; cbn [mbind option_bind].
  - rewrite bool_decide_true by eauto. rewrite bool_decide_false; [done|].
    intros HF. apply Hmem in HF. done.
  - rewrite (bool_decide_false (is_Some None)) by (intros [? ?]; done).
    rewrite bool_decide_true by by apply Hmem. f_equal. f_equal. f_equal. f_equal.
    unfold pad_to, overwrite. rewrite take_0. cbn [app]. f_equal.
    rewrite drop_replicate. done.
  - exfalso. unfold memchr in E. rewrite load_n_ok in E by done. done.
Qed.

Lemma field_bytes frame off n :
  bytes_ok frame -> (off + n <= length frame)%nat ->
  le_bytes n (field frame off n) = take n (drop off frame).
Proof.
  intros Hb H. unfold field.
  rewrite <- (le_bytes_value (take n (drop off frame))) at 2
    by (apply bytes_ok_take, bytes_ok_drop; done).
  f_equal. rewrite length_take, length_drop. lia.
Qed.

Lemma field_range frame off n :
  bytes_ok frame -> (off + n <= length frame)%nat -> in_w (8 * Z.of_nat n) (field frame off n).
Proof.
  intros Hb H. unfold field.
  assert (length (take n (drop off frame)) = n) as Hl by (rewrite length_take, length_drop; lia).
  rewrite <- Hl at 1. apply le_value_range, bytes_ok_take, bytes_ok_drop, Hb.
Qed.

Lemma take_more (l : list Z) n k m :
  (n + k = m)%nat -> take n l ++ take k (drop n l) = take m l.
Proof. intros <-. apply take_take_drop. Qed.

Lemma frame_header_fields frame :
  bytes_ok frame -> (32 <= length frame)%nat ->
  take 32 frame =
  le_bytes 4 (field frame 0 4) ++ le_bytes 2 (field frame 4 2) ++ le_bytes 2 (field frame 6 2) ++
  le_bytes 8 (field frame 8 8) ++ le_bytes 8 (field frame 16 8) ++
  le_bytes 4 (field frame 24 4) ++ le_bytes 4 (field frame 28 4).
Proof.
  intros Hb H. rewrite !field_bytes by (done || lia). rewrite drop_0, !app_assoc.
  by rewrite !(take_more _ _ _ (4 + 2)), !(take_more _ _ _ (6 + 2)), !(take_more _ _ _ (8 + 8)),
    !(take_more _ _ _ (16 + 8)), !(take_more _ _ _ (24 + 4)), !(take_more _ _ _ (28 + 4)) by lia.
Qed.

Lemma field_of_command_frame s t text rest :
  is_u64 s -> is_u64 t -> command_text_ok text ->
  let f := command_frame s t text ++ rest in
  field f 0 4 = WMT_CMD2_MAGIC /\ field f 4 2 = WMT_CMD2_VERSION /\
  field f 6 2 = WMT_CMD2_COMMAND /\ field f 8 8 = s /\ field f 16 8 = t /\
  field f 24 4 = Z.of_nat (length text) /\ field f 28 4 = 0 /\
  take (length text) (drop 32 f) = text.
Proof.
  intros Hs Ht [Hl _] f. unfold f, field.
  split_and!; try exact eq_refl.
  - exact (le_value_bytes_small 8 s Hs).
  - exact (le_value_bytes_small 8 t Ht).
  - apply (le_value_bytes_small 4). unfold in_w. lia.
  - change (drop 32 (command_frame s t text ++ rest)) with (text ++ rest).
    apply take_app_length.
Qed.

(** C9: The decoder accepts exactly the well-formed request frames of the bound
    session: it returns 0 with a command if and only if the [size] bytes it was
    given are the reference layout of a request with that session, a nonzero
    transaction and a 1 to 255 byte text without NUL; the output is then that
    request, its text zero padded. *)
Theorem wmt_command_decode_iff frame size session out c :
  bytes_ok frame -> 0 <= size <= Z.of_nat (length frame) -> is_u64 session ->
  wmt_command_decode (Some frame) size session (Some out) = Some (0, Some c) <->
  session <> 0 /\ exists transaction text,
    is_u64 transaction /\ transaction <> 0 /\ command_text_ok text /\
    take (Z.to_nat size) frame = command_frame session transaction text /\
    c = mk_command session transaction (pad_to 256 text).
Proof.
  intros Hb Hs Hses. split.
  - intros H. destruct (decide (session = 0)) as [->|Hne].
    { by unfold wmt_command_decode in H. }
    split; [done|]. destruct (decide (size < 32)) as [Hlt|Hge].
    { unfold wmt_command_decode, WMT_CMD2_FRAME_HEADER_SIZE in H.
      by rewrite (proj2 (Z.eqb_neq session 0)), (proj2 (Z.ltb_lt size 32)) in H. }
    rewrite decode_fields in H by (done || unfold WMT_CMD2_FRAME_HEADER_SIZE; lia).
    repeat c_case_in H; try done. zb. simplify_eq.
    unfold WMT_CMD2_COMMAND_MAX, WMT_CMD2_FRAME_HEADER_SIZE in *.
    pose proof (field_range frame 24 4 Hb ltac:(lia)) as Hr. unfold in_w in Hr.
    exists (field frame 16 8), (take (Z.to_nat (field frame 24 4)) (drop 32 frame)).
    split_and!; [by apply (field_range frame 16 8); [|lia]|done| |..|done].
    + split; [rewrite length_take, length_drop; lia|done].
    + replace (Z.to_nat (32 + _)) with (32 + Z.to_nat (field frame 24 4))%nat by lia.
      rewrite <- take_take_drop, frame_header_fields by (done || lia).
      unfold command_frame, frame_header. rewrite length_take, length_drop.
      rewrite Nat.min_l, Z2Nat.id by lia. congruence.
  - intros (Hne & t & text & Ht & Htne & Htext & Hframe & ->).
    assert (exists rest, frame = command_frame session t text ++ rest) as [rest ->].
    { exists (drop (Z.to_nat size) frame). by rewrite <- Hframe, take_drop. }
    assert (Hsz : size = 32 + Z.of_nat (length text)).
    { apply (f_equal length) in Hframe. unfold command_frame in *.
      rewrite length_take in Hframe. rewrite !length_app in *.
      rewrite length_frame_header in *. lia. }
    pose proof (field_of_command_frame session t text rest Hses Ht Htext) as Hf.
    cbv zeta in Hf. destruct Hf as (H0 & H4 & H6 & H8 & H16 & H24 & H28 & Htx).
    destruct Htext as [Hlen Hnz].
    rewrite decode_fields by (done || unfold WMT_CMD2_FRAME_HEADER_SIZE; lia).
    rewrite H0, H4, H6, H8, H16, H24, H28, Nat2Z.id, Htx, !Z.eqb_refl. cbn [negb orb].
    unfold WMT_CMD2_COMMAND_MAX, WMT_CMD2_FRAME_HEADER_SIZE.
    rewrite (proj2 (Z.eqb_neq t 0)), (proj2 (Z.eqb_neq (Z.of_nat _) 0)),
      (proj2 (Z.ltb_ge 255 _)) by lia.
    rewrite Hsz, Z.eqb_refl. cbn [negb orb]. by rewrite bool_decide_true.
Qed.

Definition sample_request : list Z := command_frame 7 9 (lit "srh_patch").

Lemma wmt_command_decode_iff_witness :
  wmt_command_decode (Some sample_request) 41 7 (Some (mk_command 0 0 [])) =
  Some (0, Some (mk_command 7 9 (pad_to 256 (lit "srh_patch")))).
Proof.
  apply wmt_command_decode_iff;
    [by apply bytes_ok_dec | vm_compute; split; congruence | unfold in_w; lia |].
  split; [done|]. exists 9, (lit "srh_patch").
  split_and!; [unfold in_w; lia | done | | done | done].
  split; [vm_compute; lia | by repeat constructor].
Defined.

(** Decoding never reads outside the frame, whatever the arguments (null
    pointers included), and a rejected frame leaves the output untouched and is
    reported by one of the five negative codes of the function. *)
Theorem wmt_command_decode_total frame size session output :
  match frame with Some f => bytes_ok f /\ size <= Z.of_nat (length f) | None => True end ->
  exists r o, wmt_command_decode frame size session output = Some (r, o) /\
    (r = 0 /\ is_Some o \/
     o = output /\ r ∈ [- EINVAL; - EMSGSIZE; - EPROTONOSUPPORT; - EPROTO; - ESTALE]).
Proof.
  intros Hf. destruct frame as [f|];
    [|eexists _, _; split; [reflexivity|]; right; split; [done|in_list]].
  destruct output as [out|];
    [|eexists _, _; split; [reflexivity|]; right; split; [done|in_list]].
  destruct Hf as [Hb Hl].
  destruct (decide (session = 0)) as [->|Hne].
  { eexists _, _; split; [reflexivity|]; right; split; [done|in_list]. }
  destruct (decide (size < 32)) as [Hlt|Hge].
  { unfold wmt_command_decode, WMT_CMD2_FRAME_HEADER_SIZE.
    rewrite (proj2 (Z.eqb_neq session 0)), (proj2 (Z.ltb_lt size 32)) by done.
    eexists _, _; split; [reflexivity|]; right; split; [done|in_list]. }
  rewrite decode_fields by (done || unfold WMT_CMD2_FRAME_HEADER_SIZE; lia).
  repeat c_case; eexists _, _; (split; [reflexivity|]);
    first [left; by eauto | right; split; [done|in_list]].
Qed.

Lemma wmt_command_decode_total_witness :
  exists r o, wmt_command_decode (Some (lit "WMT2")) 4 7 (Some (mk_command 1 2 [])) = Some (r, o) /\
    (r = 0 /\ is_Some o \/
     o = Some (mk_command 1 2 []) /\
     r ∈ [- EINVAL; - EMSGSIZE; - EPROTONOSUPPORT; - EPROTO; - ESTALE]).
Proof.
  apply wmt_command_decode_total. split; [apply lit_ok | vm_compute; congruence].
Defined.

(** ** Status replies *)

(** The fields of a frame, read with the decoder's own helpers at the offsets
    the ABI assertions of protocol.c pin. *)
Definition read_header (frame : list Z) : option (Z * Z * Z * Z * Z * Z * Z) :=
  magic ← read32 frame 0; version ← read16 frame 4; kind ← read16 frame 6;
  session ← read64 frame 8; transaction ← read64 frame 16;
  payload ← read32 frame 24; result ← read32 frame 28;
  Some (magic, version, kind, session, transaction, payload, s32 result).

Lemma frame_header_ok k s t l r : bytes_ok (frame_header k s t l r).
Proof.
  unfold frame_header, bytes_ok. rewrite !Forall_app. split_and!; apply le_bytes_ok.
Qed.

Lemma read_header_of k s t l r rest :
  bytes_ok rest -> is_u16 k -> is_u64 s -> is_u64 t -> is_u32 l -> is_s32 r ->
  read_header (frame_header k s t l r ++ rest) =
  Some (WMT_CMD2_MAGIC, WMT_CMD2_VERSION, k, s, t, l, r).
Proof.
  intros Hb Hk Hs Ht Hl Hr.
  assert (Hok : bytes_ok (frame_header k s t l r ++ rest)).
  { apply Forall_app; split; [apply frame_header_ok|done]. }
  assert (Hlen : (32 <= length (frame_header k s t l r ++ rest))%nat).
  { rewrite length_app, length_frame_header. lia. }
  unfold read_header.
  rewrite !read32_ok, !read16_ok, !read64_ok by (done || lia). cbn [mbind option_bind].
  repeat f_equal.
  - exact (le_value_bytes_small 2 k Hk).
  - exact (le_value_bytes_small 8 s Hs).
  - exact (le_value_bytes_small 8 t Ht).
  - exact (le_value_bytes_small 4 l Hl).
  - change (s32 (le_value (le_bytes 4 r)) = r). rewrite le_value_bytes. by apply s32_u32.
Qed.

Definition command_wf (c : wmt_command) : Prop :=
  is_u64 (c_session c) /\ is_u64 (c_transaction c).

(** A status reply is total and all or nothing: with a usable command, a
    result in [-4095, 0] and room for a header it returns 32 and the 32 bytes
    read back as a STATUS header of that command's session and transaction with
    exactly that signed result, nothing after them changed; otherwise it returns
    -EINVAL or -EMSGSIZE and the frame is untouched. *)
Theorem wmt_reply_status_spec c result frame capacity :
  command_wf c -> is_s32 result -> bytes_ok frame -> capacity <= Z.of_nat (length frame) ->
  exists n frame', wmt_reply_status (Some c) result (Some frame) capacity = Some (n, Some frame') /\
    if decide (c_session c <> 0 /\ c_transaction c <> 0 /\ -4095 <= result <= 0 /\ 32 <= capacity)
    then n = 32 /\ drop 32 frame' = drop 32 frame /\ length frame' = length frame /\
         read_header frame' = Some (WMT_CMD2_MAGIC, WMT_CMD2_VERSION, WMT_CMD2_STATUS,
                                    c_session c, c_transaction c, 0, result)
    else n ∈ [- EINVAL; - EMSGSIZE] /\ frame' = frame.
Proof.
  intros [Hs Ht] Hr Hb Hc. unfold wmt_reply_status, WMT_CMD2_FRAME_HEADER_SIZE.
  destruct (_ || _)%bool eqn:E.
  { eexists _, _; split; [reflexivity|].
    rewrite decide_False by (intros ?; zb; lia). split; [in_list|done]. }
  zb. destruct (Z.ltb_spec capacity 32).
  { eexists _, _; split; [reflexivity|].
    rewrite decide_False by lia. split; [in_list|done]. }
  rewrite reply_header_ok by lia. cbn [mbind option_bind].
  eexists _, _; split; [reflexivity|]. rewrite decide_True by lia. rewrite overwrite_0_drop, length_frame_header.
  split_and!; [done| | |].
  - rewrite drop_app, length_frame_header, Nat.sub_diag, drop_0.
    by rewrite (drop_ge (frame_header _ _ _ _ _)) by (rewrite length_frame_header; lia).
  - rewrite length_app, length_drop, length_frame_header. lia.
  - apply read_header_of; try done; try (unfold in_w; lia). by apply bytes_ok_drop.
Qed.

Lemma wmt_reply_status_spec_witness :
  exists n frame', wmt_reply_status (Some (mk_command 7 9 [])) (- EOPNOTSUPP)
      (Some (replicate 40 0)) 40 = Some (n, Some frame') /\
    if decide (7 <> 0 /\ 9 <> 0 /\ -4095 <= - EOPNOTSUPP <= 0 /\ 32 <= 40)
    then n = 32 /\ drop 32 frame' = drop 32 (replicate 40 0) /\
         length frame' = length (replicate 40 0) /\
         read_header frame' = Some (WMT_CMD2_MAGIC, WMT_CMD2_VERSION, WMT_CMD2_STATUS,
                                    7, 9, 0, - EOPNOTSUPP)
    else n ∈ [- EINVAL; - EMSGSIZE] /\ frame' = replicate 40 0.
Proof.
  apply (wmt_reply_status_spec (mk_command 7 9 []));
    [split; unfold in_w; simpl; lia | unfold is_s32, EOPNOTSUPP; lia
    | apply Forall_replicate_of; unfold in_w; lia | done].
Defined.

(** ** List replies: validation *)

Lemma name_guard name k :
  length name = 256%nat -> strnlen name 256 = Some k ->
  exists b,
    Some ((k =? 0)%nat || (k =? 256)%nat)
    ||? (p ← memchr name 0 47 k; Some (bool_decide (is_Some p)))
    ||? strcmp_eq name (lit "." ++ [NUL]) ||? strcmp_eq name (lit ".." ++ [NUL]) = Some b /\
    (b = false <-> name_ok name).
Proof.
  intros Hl Hk. destruct (strnlen_spec name 256) as (k' & Hk' & Hle & Hnz & H0); [lia|].
  rewrite Hk in Hk'. injection Hk' as <-. unfold c_or. cbn [mbind option_bind].
  destruct (Nat.eqb_spec k 0) as [->|Hk0]; cbn [orb].
  { eexists; split; [reflexivity|]. split; [done|]. intros (s & Hs & Hne & _).
    rewrite (strnlen_cstr name 256 0) in Hs by (done || lia). injection Hs as <-. done. }
  destruct (Nat.eqb_spec k 256) as [->|Hk256]; cbn [orb].
  { eexists; split; [reflexivity|]. split; [done|]. intros (s & Hs & _).
    apply cstr_Some in Hs as [_ [rest ->]]. rewrite take_ge in Hnz by lia.
    rewrite Forall_app, Forall_cons in Hnz. by destruct Hnz as (_ & Hz & _). }
  assert (Hc : cstr name = Some (take k name)) by (eapply strnlen_cstr; [|exact Hk|]; lia).
  assert (Hm := memchr_None name 0 47 k ltac:(lia)). rewrite drop_0 in Hm.
  assert (Hmem : is_Some (memchr name 0 47 k)).
  { unfold memchr. rewrite load_n_ok by lia. by eexists. }
  destruct Hmem as [p Hp]. rewrite Hp in *. cbn [mbind option_bind].
  rewrite (strcmp_eq_spec _ (lit "." ++ _) _ (lit ".") Hc) by done.
  rewrite (strcmp_eq_spec _ (lit ".." ++ _) _ (lit "..") Hc) by done.
  assert (Hok : name_ok name <-> p = None /\ take k name <> lit "." /\ take k name <> lit "..").
  { unfold name_ok. rewrite Hc. split.
    - intros (s & [= <-] & _ & Hsl & H1 & H2). split_and!; [|done..].
      assert (Some p = Some None) as [=]; [|done]. apply Hm.
      apply Forall_forall. intros x Hx ->. done.
    - intros (-> & H1 & H2). eexists. split_and!; [done| |..|done|done].
      + intros Hnil. apply (f_equal length) in Hnil. rewrite length_take in Hnil. simpl in Hnil. lia.
      + intros Hin. destruct Hm as [Hm _]. specialize (Hm eq_refl).
        rewrite Forall_forall in Hm. by apply (Hm 47). }
  setoid_rewrite Hok. destruct p as [j|].
  { rewrite (bool_decide_true (is_Some (Some j))) by eauto. eexists; split; [reflexivity|].
    split; [done|]. by intros (? & _). }
  rewrite (bool_decide_false (is_Some None)) by (by intros [? ?]).
  repeat case_bool_decide; eexists; (split; [reflexivity|]); (split; [first [discriminate | tauto] | by intros (_ & ? & ?)]).
Qed.

(** The bits of [seen] are the slots already taken. *)
Definition seen_bits (seen : Z) (l : list Z) : Prop :=
  forall j, 0 <= j -> Z.testbit seen j = true <-> j ∈ l.

Lemma check_record_spec kind count r seen taken :
  record_wf r -> count <= WMT_CMD2_PATCH_MAX -> seen_bits seen taken ->
  (index_ok kind count r /\ name_ok (r_name r) /\ (slot kind r ∉ taken) /\
   exists seen', check_record kind count r seen = Some (inr seen') /\
     seen_bits seen' (slot kind r :: taken)) \/
  (~ (index_ok kind count r /\ name_ok (r_name r) /\ (slot kind r ∉ taken)) /\
   exists e, check_record kind count r seen = Some (inl e) /\ e ∈ [- EINVAL; - EEXIST]).
Proof.
  intros (Hi & Ha & Hn) Hc Hseen. unfold check_record.
  destruct (strnlen_spec (r_name r) 256) as (k & Hk & _); [lia|]. rewrite Hk. cbn [mbind option_bind].
  destruct (name_guard _ _ Hn Hk) as (b & -> & Hb). cbn [mbind option_bind].
  unfold slot, index_ok. unfold in_w, WMT_CMD2_ROM_MAX, WMT_CMD2_PATCH_MAX in *.
  set (patch := kind =? WMT_CMD2_PATCH_LIST).
  destruct (if patch then (_ || _)%bool else _) eqn:Eidx.
  { right. split; [|eexists; split; [reflexivity|in_list]].
    destruct patch; zb; intros (? & _); lia. }
  set (idx := if patch then r_index r - 1 else r_index r).
  assert (Hidx : 0 <= idx < 32) by (unfold idx; destruct patch; zb; lia).
  assert (Hu : u32 (Z.shiftl 1 idx) = Z.shiftl 1 idx).
  { apply wrap_small. unfold in_w. rewrite Z.shiftl_1_l.
    split; [apply Z.pow_nonneg; lia|apply Z.pow_lt_mono_r; lia]. }
  rewrite Hu, land_bit_testbit, negb_involutive by lia.
  destruct (Z.testbit seen idx) eqn:Et.
  { right. split; [|eexists; split; [reflexivity|in_list]].
    intros (_ & _ & Hnot). apply Hnot, Hseen; [lia|done]. }
  assert (Hni : idx ∉ taken).
  { intros Hin. apply Hseen in Hin; [congruence|lia]. }
  destruct b.
  { right. split; [|eexists; split; [reflexivity|in_list]]. intros (_ & Hname & _).
    by apply Hb in Hname. }
  left. split_and!; [destruct patch; zb; lia|by apply Hb|done|].
  eexists; split; [reflexivity|]. intros j Hj.
  rewrite testbit_lor_bit, elem_of_cons, orb_true_iff, Z.eqb_eq by lia.
  rewrite (Hseen j Hj). fold idx. tauto.
Qed.

(** The loop, on the records left: it succeeds exactly when they are all good
    and take fresh, distinct slots. *)
Lemma check_records_spec kind count records :
  count <= WMT_CMD2_PATCH_MAX -> Forall record_wf records ->
  forall n i seen taken, (i + n)%nat = length records -> seen_bits seen taken ->
  let rest := drop i records in
  let good := Forall (fun r => index_ok kind count r /\ name_ok (r_name r)) rest /\
              NoDup (slot kind <$> rest) /\
              (forall r, r ∈ rest -> (slot kind r ∉ taken)) in
  (good /\ exists seen', check_records kind count records i n seen = Some (inr seen')) \/
  (~ good /\ exists e, check_records kind count records i n seen = Some (inl e) /\
                       e ∈ [- EINVAL; - EEXIST]).
Proof.
  intros Hc Hwf. induction n as [|n IH]; intros i seen taken Hi Hseen rest good.
  { left. split; [|by eexists]. unfold good, rest. rewrite drop_ge by lia.
    split_and!; [done|apply NoDup_nil_2|intros r Hr; by apply not_elem_of_nil in Hr]. }
  destruct (lookup_lt_is_Some_2 records i) as [r Hr]; [lia|].
  cbn [check_records]. rewrite Hr. cbn [mbind option_bind].
  assert (Hrest : rest = r :: drop (S i) records) by (by apply drop_S).
  pose proof (Forall_lookup_1 _ _ _ _ Hwf Hr) as Hrwf.
  destruct (check_record_spec kind count r seen taken Hrwf Hc Hseen)
    as [(Hidx & Hname & Hfresh & seen' & -> & Hseen')|(Hbad & e & -> & He)];
    cbn [mbind option_bind].
  2: { right. split; [|by eexists]. unfold good. rewrite Hrest, Forall_cons.
       intros (Hf & _ & Ht). apply Hbad. split_and!; [apply Hf|apply Hf|].
       apply Ht. by left. }
  destruct (IH (S i) seen' (slot kind r :: taken)) as [[Hg Hs]|[Hg He]]; [lia|done| |].
  - left. split; [|done]. destruct Hg as (Hg1 & Hg2 & Hg3). unfold good. rewrite Hrest.
    split_and!; [by constructor| |].
    + rewrite fmap_cons, NoDup_cons. split; [|done].
      intros Hin. apply list_elem_of_fmap in Hin as (r' & Heq & Hr').
      apply (Hg3 _ Hr'). rewrite Heq. by left.
    + intros r' [->|Hr']%elem_of_cons; [done|]. intros Hin. apply (Hg3 _ Hr'). by right.
  - right. split; [|done]. intros Hgood. apply Hg. unfold good in Hgood. rewrite Hrest in Hgood.
    rewrite Forall_cons, fmap_cons, NoDup_cons in Hgood.
    destruct Hgood as ((_ & Hg1) & (Hg2 & Hg3) & Hg4). split_and!; [done|done|].
    intros r' Hr'. rewrite elem_of_cons. intros [Heq|Hin].
    + apply Hg2. apply list_elem_of_fmap. exists r'. by rewrite Heq.
    + apply (Hg4 r'); [by right|done].
Qed.

(** ** List replies: encoding *)

Lemma overwrite_tail m x z s :
  (length s <= length z)%nat -> (length x + length z <= length m)%nat ->
  overwrite (overwrite m 0 (x ++ z)) (length x) s = overwrite m 0 (x ++ s ++ drop (length s) z).
Proof.
  intros Hs Hm. rewrite <- (overwrite_app m 0 x z) by lia. simpl.
  rewrite overwrite_front by (rewrite ?length_overwrite; lia).
  rewrite (overwrite_app m 0 x) by (rewrite length_app, length_drop; lia). done.
Qed.

Lemma length_record_bytes r :
  record_wf r -> name_ok (r_name r) -> length (record_bytes r) = 264%nat.
Proof.
  intros (_ & Ha & Hn) (s & Hs & _). unfold record_bytes, pad_to. rewrite Hs.
  apply cstr_Some in Hs as [_ [rest Hs]]. apply (f_equal length) in Hs.
  rewrite !length_app, length_le_bytes, Ha. simpl default. rewrite length_replicate.
  rewrite length_app in Hs. simpl in Hs. lia.
Qed.

Lemma write_record_next records i r m a :
  records !! i = Some r -> record_wf r -> name_ok (r_name r) ->
  length a = (40 + i * 264)%nat -> (length a + 264 <= length m)%nat ->
  write_record records i (overwrite m 0 a) = Some (overwrite m 0 (a ++ record_bytes r)).
Proof.
  intros Hr (_ & Ha & Hn) (s & Hs & _) Hl Hm. unfold write_record. rewrite Hr.
  cbn [mbind option_bind].
  rewrite write32_next by lia. cbn [mbind option_bind].
  unfold memcpy. rewrite (load_n_ok (r_address r)) by lia. cbn [mbind option_bind].
  rewrite drop_0, take_ge by lia.
  rewrite store_next by (rewrite ?length_app, ?length_le_bytes; simpl; lia).
  cbn [mbind option_bind]. unfold memset.
  rewrite store_next by (rewrite ?length_app, ?length_le_bytes, ?length_replicate; lia).
  cbn [mbind option_bind]. unfold strlen. rewrite Hs. cbn [fmap option_fmap option_map mbind option_bind].
  destruct (cstr_Some _ _ Hs) as [_ [rest Hname]].
  assert (Hsl : (length s < 256)%nat).
  { apply (f_equal length) in Hname. rewrite length_app in Hname. simpl in Hname. lia. }
  rewrite (load_n_ok (r_name r)) by lia. cbn [mbind option_bind].
  rewrite drop_0, Hname, take_app_length.
  rewrite store_ok by (rewrite ?length_overwrite, ?length_app, ?length_le_bytes, ?length_replicate;
    rewrite ?length_app, ?length_le_bytes, ?length_replicate; lia).
  f_equal.
  replace (40 + i * 264 + 8)%nat with (length ((a ++ le_bytes 4 (r_index r)) ++ r_address r))
    by (rewrite !length_app, length_le_bytes; lia).
  rewrite overwrite_tail by (rewrite ?length_app, ?length_le_bytes, ?length_replicate; lia).
  unfold record_bytes, pad_to. rewrite Hs, drop_replicate, <- !app_assoc. done.
Qed.

Lemma write_records_ok records m a :
  Forall record_wf records -> Forall (fun r => name_ok (r_name r)) records ->
  (length a + length records * 264 <= length m)%nat -> length a = 40%nat ->
  for_c (seq 0 (length records)) (overwrite m 0 a) (write_record records) =
  Some (overwrite m 0 (a ++ concat (record_bytes <$> records))).
Proof.
  intros Hwf Hn Hm Ha.
  enough (Hgen : forall n i, (i + n)%nat = length records ->
    for_c (seq i n) (overwrite m 0 (a ++ concat (record_bytes <$> take i records)))
      (write_record records) = Some (overwrite m 0 (a ++ concat (record_bytes <$> records)))).
  { specialize (Hgen (length records) 0%nat eq_refl).
    rewrite take_0 in Hgen. cbn in Hgen. by rewrite app_nil_r in Hgen. }
  assert (Hcl : forall i, (i <= length records)%nat ->
    length (concat (record_bytes <$> take i records)) = (i * 264)%nat).
  { induction i as [|i IH]; intros Hi; [by rewrite take_0|].
    destruct (lookup_lt_is_Some_2 records i) as [r Hr]; [lia|].
    rewrite (take_S_r _ _ _ Hr), fmap_app, concat_app, length_app, IH by lia.
    change (concat (record_bytes <$> [r])) with (record_bytes r ++ []).
    rewrite app_nil_r, length_record_bytes; [lia| |].
    - exact (Forall_lookup_1 _ _ _ _ Hwf Hr).
    - exact (Forall_lookup_1 _ _ _ _ Hn Hr). }
  induction n as [|n IH]; intros i Hi; cbn [for_c seq].
  { by rewrite take_ge by lia. }
  destruct (lookup_lt_is_Some_2 records i) as [r Hr]; [lia|].
  rewrite (write_record_next records i r).
  - cbn [mbind option_bind]. rewrite <- app_assoc. specialize (IH (S i) ltac:(lia)).
    rewrite (take_S_r _ _ _ Hr), fmap_app, concat_app in IH.
    change (concat (record_bytes <$> [r])) with (record_bytes r ++ []) in IH.
    by rewrite app_nil_r in IH.
  - done.
  - exact (Forall_lookup_1 _ _ _ _ Hwf Hr).
  - exact (Forall_lookup_1 _ _ _ _ Hn Hr).
  - rewrite length_app, Hcl by lia. lia.
  - rewrite length_app, Hcl by lia. lia.
Qed.

Definition max_records (kind : Z) : Z :=
  if kind =? WMT_CMD2_PATCH_LIST then WMT_CMD2_PATCH_MAX else WMT_CMD2_ROM_MAX.

(** The preconditions a list reply checks before it looks at the records. *)
Definition list_args_ok (c : wmt_command) (kind count capacity : Z) : Prop :=
  c_session c <> 0 /\ c_transaction c <> 0 /\
  (kind = WMT_CMD2_PATCH_LIST /\ count <> 0 \/ kind = WMT_CMD2_ROM_LIST) /\
  count <= max_records kind /\ 40 + count * 264 <= capacity.

Lemma list_ok_ok kind rs : list_ok kind rs <->
  Forall (fun r => index_ok kind (Z.of_nat (length rs)) r /\ name_ok (r_name r)) rs /\
  NoDup (slot kind <$> rs) /\ (forall r, r ∈ rs -> (slot kind r ∉ [])).
Proof.
  unfold list_ok. split; [intros [? ?]|intros (? & ? & ?)]; split_and!; try done.
  intros r _ Hin. by apply not_elem_of_nil in Hin.
Qed.

Lemma reply_list_cases c kind rs frame capacity :
  command_wf c -> Forall record_wf rs -> capacity <= Z.of_nat (length frame) ->
  let count := Z.of_nat (length rs) in
  (list_args_ok c kind count capacity /\ list_ok kind rs /\
   wmt_reply_list (Some c) kind (Some rs) count (Some frame) capacity =
     Some (40 + count * 264, Some (overwrite frame 0 (list_frame c kind rs)))) \/
  (~ (list_args_ok c kind count capacity /\ list_ok kind rs) /\
   exists e, wmt_reply_list (Some c) kind (Some rs) count (Some frame) capacity =
     Some (e, Some frame) /\ e ∈ [- EINVAL; - E2BIG; - EMSGSIZE; - EEXIST]).
Proof.
  intros Hc Hwf Hcap count. unfold wmt_reply_list, list_args_ok, max_records.
  unfold WMT_CMD2_FRAME_HEADER_SIZE, WMT_CMD2_RECORD_SIZE.
  rewrite (bool_decide_false (Some rs = None)), andb_false_r, orb_false_r by done.
  destruct (_ || _)%bool eqn:E1; [|zb].
  { right. split; [|by eexists; split; [reflexivity|in_list]]. intros [(? & ? & _) _].
    zb; destruct E1; zb; lia. }
  destruct (if kind =? WMT_CMD2_PATCH_LIST then count =? 0 else _) eqn:E2.
  { right. split; [|by eexists; split; [reflexivity|in_list]].
    intros [(_ & _ & Hk & _) _]. destruct (Z.eqb_spec kind WMT_CMD2_PATCH_LIST); zb; unfold WMT_CMD2_PATCH_LIST, WMT_CMD2_ROM_LIST in *; lia. }
  destruct (Z.ltb_spec (if kind =? WMT_CMD2_PATCH_LIST then WMT_CMD2_PATCH_MAX
                        else WMT_CMD2_ROM_MAX) count) as [E3|E3].
  { right. split; [|by eexists; split; [reflexivity|in_list]]. intros [(_ & _ & _ & ? & _) _]. lia. }
  destruct (Z.ltb_spec capacity (32 + (8 + count * 264))) as [E4|E4].
  { right. split; [|by eexists; split; [reflexivity|in_list]]. intros [(_ & _ & _ & _ & ?) _]. lia. }
  assert (Hmax : count <= WMT_CMD2_PATCH_MAX).
  { unfold WMT_CMD2_PATCH_MAX, WMT_CMD2_ROM_MAX in *. destruct (kind =? _); lia. }
  change (default [] (Some rs)) with rs. replace (Z.to_nat count) with (length rs) by (unfold count; lia).
  destruct (check_records_spec kind count rs Hmax Hwf (length rs) 0 0 []) as [[Hg [s' ->]]|[Hg (e & -> & He)]];
    [done| |..]; [by intros j Hj; rewrite Z.bits_0; split; [|intros ?%not_elem_of_nil]|..];
    cbn [mbind option_bind]; rewrite drop_0 in Hg; rewrite list_ok_ok; fold count.
  2: { right. split; [tauto|]. eexists; split; [reflexivity|].
       clear -He. rewrite !elem_of_cons in *. tauto. }
  left. split_and!; [tauto|..| |tauto|tauto| |]; try (zb; lia); try apply Hg.
  { destruct (Z.eqb_spec kind WMT_CMD2_PATCH_LIST); zb; tauto. }
  rewrite reply_header_ok by lia. cbn [mbind option_bind].
  do 2 (rewrite write32_next by (rewrite ?length_app, ?length_frame_header, ?length_le_bytes; lia);
        cbn [mbind option_bind]).
  rewrite write_records_ok; [|done| |..].
  - cbn [mbind option_bind]. replace (32 + (8 + count * 264)) with (40 + count * 264) by lia.
    unfold list_frame. fold count.
    rewrite <- !app_assoc. change (u32 count) with (wrap (8 * Z.of_nat 4) count).
    by rewrite le_bytes_wrap.
  - eapply Forall_impl; [apply Hg|]. simpl. tauto.
  - rewrite !length_app, length_frame_header, !length_le_bytes. lia.
  - rewrite !length_app, length_frame_header, !length_le_bytes. lia.
Qed.

(** A list reply is total and all or nothing.  Either the arguments and
    records are acceptable, and the call returns the encoded size with the frame
    holding exactly the reference layout (bytes beyond it unchanged); or they are
    not, and it returns a negative errno with the frame untouched. *)
Theorem wmt_reply_list_spec c kind rs frame capacity :
  command_wf c -> Forall record_wf rs -> capacity <= Z.of_nat (length frame) ->
  let count := Z.of_nat (length rs) in
  (list_args_ok c kind count capacity /\ list_ok kind rs /\
   wmt_reply_list (Some c) kind (Some rs) count (Some frame) capacity =
     Some (40 + count * 264, Some (overwrite frame 0 (list_frame c kind rs)))) \/
  (~ (list_args_ok c kind count capacity /\ list_ok kind rs) /\
   exists e, wmt_reply_list (Some c) kind (Some rs) count (Some frame) capacity =
     Some (e, Some frame) /\ e ∈ [- EINVAL; - E2BIG; - EMSGSIZE; - EEXIST]).
Proof. exact (reply_list_cases c kind rs frame capacity). Qed.

Definition sample_record (i : Z) (name : string) : wmt_cmd2_record :=
  mk_record i [0; 1; 2; 3] (pad_to 256 (lit name)).

Definition sample_records : list wmt_cmd2_record :=
  [sample_record 2 "ROMv2_lm_patch_1_1_hdr.bin"; sample_record 1 "ROMv2_lm_patch_1_0_hdr.bin"].

Lemma sample_records_wf : Forall record_wf sample_records.
Proof. repeat constructor; unfold in_w; simpl; lia. Qed.

Lemma wmt_reply_list_spec_witness :
  let c := mk_command 7 9 [] in
  let frame := replicate 2680 0 in
  (list_args_ok c WMT_CMD2_PATCH_LIST 2 2680 /\ list_ok WMT_CMD2_PATCH_LIST sample_records /\
   wmt_reply_list (Some c) WMT_CMD2_PATCH_LIST (Some sample_records) 2 (Some frame) 2680 =
     Some (568, Some (overwrite frame 0 (list_frame c WMT_CMD2_PATCH_LIST sample_records)))) \/
  (~ (list_args_ok c WMT_CMD2_PATCH_LIST 2 2680 /\ list_ok WMT_CMD2_PATCH_LIST sample_records) /\
   exists e, wmt_reply_list (Some c) WMT_CMD2_PATCH_LIST (Some sample_records) 2
     (Some frame) 2680 = Some (e, Some frame) /\ e ∈ [- EINVAL; - E2BIG; - EMSGSIZE; - EEXIST]).
Proof.
  exact (wmt_reply_list_spec (mk_command 7 9 []) WMT_CMD2_PATCH_LIST sample_records
    (replicate 2680 0) 2680 ltac:(split; unfold in_w; simpl; lia) sample_records_wf
    ltac:(vm_compute; congruence)).
Defined.

(** The reply of the sample records is accepted and is 568 bytes long. *)
Example sample_reply_size :
  fst <$> wmt_reply_list (Some (mk_command 7 9 [])) WMT_CMD2_PATCH_LIST (Some sample_records) 2
    (Some (replicate 2680 0)) 2680 = Some 568.
Proof. vm_compute. reflexivity. Qed.

(** What a positive answer entails. *)
Lemma reply_list_accepted c kind rs frame capacity n frame' :
  command_wf c -> Forall record_wf rs -> capacity <= Z.of_nat (length frame) ->
  wmt_reply_list (Some c) kind (Some rs) (Z.of_nat (length rs)) (Some frame) capacity =
    Some (n, Some frame') -> 0 < n ->
  list_args_ok c kind (Z.of_nat (length rs)) capacity /\ list_ok kind rs /\
  frame' = overwrite frame 0 (list_frame c kind rs).
Proof.
  intros Hc Hwf Hcap Hr Hn.
  destruct (reply_list_cases c kind rs frame capacity Hc Hwf Hcap)
    as [(? & ? & Heq)|(_ & e & Heq & He)]; cbv zeta in *; rewrite Hr in Heq; simplify_eq; [done|].
  exfalso. rewrite !elem_of_cons in He.
  unfold EINVAL, E2BIG, EMSGSIZE, EEXIST in He.
  destruct He as [?|[?|[?|[?|?%not_elem_of_nil]]]]; lia || done.
Qed.

(** A patch list the encoder accepts names a complete set: its sequence
    numbers are the numbers 1 to count, each once, in some order. *)
Theorem patch_list_complete c rs frame capacity n frame' :
  command_wf c -> Forall record_wf rs -> capacity <= Z.of_nat (length frame) ->
  wmt_reply_list (Some c) WMT_CMD2_PATCH_LIST (Some rs) (Z.of_nat (length rs)) (Some frame)
    capacity = Some (n, Some frame') -> 0 < n ->
  Permutation (r_index <$> rs) (seqZ 1 (Z.of_nat (length rs))).
Proof.
  intros Hc Hwf Hcap Hr Hn.
  destruct (reply_list_accepted _ _ _ _ _ _ _ Hc Hwf Hcap Hr Hn) as (_ & [Hok Hnd] & _).
  apply submseteq_length_Permutation.
  - apply NoDup_submseteq.
    + apply (NoDup_fmap_1 (fun i => i - 1)). rewrite <- list_fmap_compose. exact Hnd.
    + intros i (r & -> & Hin)%list_elem_of_fmap. apply elem_of_seqZ.
      rewrite Forall_forall in Hok. destruct (Hok r Hin) as [Hi _]. unfold index_ok in Hi.
      simpl in Hi. lia.
  - rewrite length_seqZ, length_fmap. lia.
Qed.

Lemma patch_list_complete_witness :
  Permutation (r_index <$> sample_records) (seqZ 1 2).
Proof.
  refine (patch_list_complete (mk_command 7 9 []) sample_records (replicate 2680 0) 2680 568 _
    ltac:(split; unfold in_w; simpl; lia) sample_records_wf ltac:(vm_compute; congruence) _ _);
    [vm_compute; reflexivity | done].
Defined.

Lemma record_bytes_ok r :
  bytes_ok (r_address r) -> bytes_ok (r_name r) -> bytes_ok (record_bytes r).
Proof.
  intros Ha Hn. unfold record_bytes, pad_to, bytes_ok in *. rewrite !Forall_app.
  split_and!; [apply le_bytes_ok|done| |apply Forall_replicate_of; unfold in_w; lia].
  destruct (cstr (r_name r)) as [t|] eqn:E; [|constructor].
  apply cstr_Some in E as [_ [rest E]]. rewrite E in Hn. by apply Forall_app in Hn as [? _].
Qed.

Lemma drop_list_frame c kind rs rest i r :
  Forall record_wf rs -> Forall (fun r => name_ok (r_name r)) rs -> rs !! i = Some r ->
  exists tl, drop (40 + i * 264) (list_frame c kind rs ++ rest) = record_bytes r ++ tl.
Proof.
  intros Hwf Hn Hi.
  change (drop (40 + i * 264) (list_frame c kind rs ++ rest))
    with (drop (i * 264) (concat (record_bytes <$> rs) ++ rest)).
  revert i Hi. induction rs as [|r0 rs IH]; intros i Hi; [done|].
  apply Forall_cons in Hwf as [Hwf0 Hwf]. apply Forall_cons in Hn as [Hn0 Hn].
  change (concat (record_bytes <$> r0 :: rs)) with (record_bytes r0 ++ concat (record_bytes <$> rs)).
  rewrite <- app_assoc. destruct i as [|i]; simpl in Hi.
  - injection Hi as ->. rewrite drop_0. by eexists.
  - replace (S i * 264)%nat with (length (record_bytes r0) + i * 264)%nat
      by (rewrite length_record_bytes by done; lia).
    rewrite <- drop_drop, drop_app_length. by apply IH.
Qed.

Lemma list_frame_parts c kind rs rest :
  Forall (fun r => bytes_ok (r_address r)) rs -> Forall (fun r => bytes_ok (r_name r)) rs ->
  bytes_ok rest ->
  bytes_ok (le_bytes 4 (Z.of_nat (length rs)) ++ le_bytes 4 0 ++
            concat (record_bytes <$> rs) ++ rest) /\
  bytes_ok (list_frame c kind rs ++ rest).
Proof.
  intros Ha Hn Hrest.
  assert (Hbody : bytes_ok (concat (record_bytes <$> rs))).
  { apply Forall_concat, Forall_fmap, Forall_forall. intros r Hin.
    rewrite Forall_forall in Ha, Hn. apply record_bytes_ok; auto. }
  unfold list_frame, bytes_ok in *. rewrite !Forall_app.
  split_and!; try apply le_bytes_ok; try apply frame_header_ok; done.
Qed.

(** One record of an encoded list, read at its documented offset. *)
Lemma read_record c kind rs rest i r :
  Forall record_wf rs -> Forall (fun r => name_ok (r_name r)) rs -> rs !! i = Some r ->
  bytes_ok (list_frame c kind rs ++ rest) ->
  let frame := list_frame c kind rs ++ rest in
  read32 frame (40 + i * 264) = Some (r_index r) /\
  load_n frame (44 + i * 264) 4 = Some (r_address r) /\
  cstr (drop (48 + i * 264) frame) = cstr (r_name r).
Proof.
  intros Hwf Hnames Hi Hall frame.
  destruct (drop_list_frame c kind rs rest i r Hwf Hnames Hi) as [tl Htl]. fold frame in Hall, Htl.
  pose proof (Forall_lookup_1 _ _ _ _ Hwf Hi) as Hrw.
  pose proof (Forall_lookup_1 _ _ _ _ Hnames Hi) as Hrn.
  pose proof (length_record_bytes r Hrw Hrn) as Hrl. destruct Hrw as (Hri & Hra & Hrnl).
  assert (Hlen : (40 + i * 264 + 264 <= length frame)%nat).
  { apply (f_equal length) in Htl. rewrite length_drop, (length_app (record_bytes r)) in Htl. lia. }
  split_and!.
  - rewrite read32_ok by (done || lia). rewrite Htl. f_equal.
    by apply (le_value_bytes_small 4).
  - rewrite load_n_ok by lia. f_equal.
    replace (44 + i * 264)%nat with (40 + i * 264 + 4)%nat by lia.
    rewrite <- drop_drop, Htl.
    change (take 4 ((r_address r ++ pad_to 256 (default [] (cstr (r_name r)))) ++ tl) = r_address r).
    rewrite <- app_assoc. rewrite <- Hra at 1. apply take_app_length.
  - replace (48 + i * 264)%nat with (40 + i * 264 + 8)%nat by lia.
    rewrite <- drop_drop, Htl. destruct Hrn as (s & Hs & _).
    replace (drop 8 (record_bytes r ++ tl)) with (pad_to 256 s ++ tl).
    2: { unfold record_bytes. rewrite Hs.
         change (pad_to 256 s ++ tl = drop 4 ((r_address r ++ pad_to 256 s) ++ tl)).
         rewrite <- app_assoc. rewrite <- Hra. by rewrite drop_app_length. }
    rewrite Hs. apply cstr_Some in Hs as [Hnz [rest' Hs]].
    apply (f_equal length) in Hs. rewrite length_app in Hs. simpl in Hs. unfold pad_to.
    destruct (256 - length s)%nat eqn:E; [lia|]. simpl replicate. rewrite <- app_assoc.
    by apply cstr_app.
Qed.

(** Round trip of a list reply: from the encoded frame the documented
    offsets read back the header of the command, the count, and for every record
    its index, its address and its file name. *)
Theorem wmt_reply_list_readback c kind rs frame capacity n frame' :
  command_wf c -> Forall record_wf rs -> Forall (fun r => bytes_ok (r_address r)) rs ->
  bytes_ok frame -> Forall (fun r => bytes_ok (r_name r)) rs ->
  capacity <= Z.of_nat (length frame) ->
  wmt_reply_list (Some c) kind (Some rs) (Z.of_nat (length rs)) (Some frame) capacity =
    Some (n, Some frame') -> 0 < n ->
  read_header frame' = Some (WMT_CMD2_MAGIC, WMT_CMD2_VERSION, kind, c_session c,
                             c_transaction c, n - 32, 0) /\
  read32 frame' 32 = Some (Z.of_nat (length rs)) /\
  forall i r, rs !! i = Some r ->
    read32 frame' (40 + i * 264) = Some (r_index r) /\
    load_n frame' (44 + i * 264) 4 = Some (r_address r) /\
    cstr (drop (48 + i * 264) frame') = cstr (r_name r).
Proof.
  intros Hc Hwf Ha Hb Hnm Hcap Hr Hn.
  destruct (reply_list_accepted _ _ _ _ _ _ _ Hc Hwf Hcap Hr Hn) as (Hargs & Hok & ->).
  destruct (reply_list_cases c kind rs frame capacity Hc Hwf Hcap) as [(_ & _ & Heq)|[? _]];
    cbv zeta in *; [|tauto].
  rewrite Hr in Heq. injection Heq as ->. destruct Hargs as (_ & _ & Hkind & Hmax & _).
  assert (Hnames : Forall (fun r => name_ok (r_name r)) rs).
  { eapply Forall_impl; [apply Hok|]. simpl. tauto. }
  rewrite overwrite_0_drop. set (rest := drop _ frame).
  assert (Hcount : Z.of_nat (length rs) <= 10).
  { unfold max_records, WMT_CMD2_PATCH_MAX, WMT_CMD2_ROM_MAX in Hmax.
    destruct (kind =? _); lia. }
  destruct (list_frame_parts c kind rs rest Ha Hnm) as [Hcb Hall]; [by apply bytes_ok_drop|].
  split_and!; [| |intros i r Hi; by apply read_record].
  - unfold list_frame, WMT_CMD2_RECORD_SIZE. rewrite <- !app_assoc.
    replace (40 + Z.of_nat (length rs) * 264 - 32) with (8 + Z.of_nat (length rs) * 264) by lia.
    apply read_header_of; try apply Hc; try done; unfold in_w, is_s32; try lia.
    destruct Hkind as [[-> _]| ->]; unfold WMT_CMD2_PATCH_LIST, WMT_CMD2_ROM_LIST; lia.
  - rewrite read32_ok; [|done|].
    + f_equal. apply (le_value_bytes_small 4). unfold in_w. lia.
    + unfold list_frame. rewrite !length_app, length_frame_header, !length_le_bytes. lia.
Qed.

Lemma wmt_reply_list_readback_witness :
  exists frame', forall i r, sample_records !! i = Some r ->
    read32 frame' (40 + i * 264) = Some (r_index r) /\
    load_n frame' (44 + i * 264) 4 = Some (r_address r) /\
    cstr (drop (48 + i * 264) frame') = cstr (r_name r).
Proof.
  eexists.
  refine (proj2 (proj2 (wmt_reply_list_readback (mk_command 7 9 []) WMT_CMD2_PATCH_LIST
    sample_records (replicate 2680 0) 2680 568
    (overwrite (replicate 2680 0) 0
      (list_frame (mk_command 7 9 []) WMT_CMD2_PATCH_LIST sample_records)) _ _ _ _ _ _ _ _)));
    [split; unfold in_w; simpl; lia | exact sample_records_wf
    | unfold sample_records; rewrite !Forall_cons; split_and!; [by apply bytes_ok_dec..|constructor]
    | apply Forall_replicate_of; unfold in_w; lia
    | unfold sample_records; rewrite !Forall_cons; split_and!; [by apply bytes_ok_dec..|constructor]
    | vm_compute; congruence | vm_compute; reflexivity | done].
Defined.
