(* ===== verification/WmtPatch.v ===== *)
(** * Patch metadata (wmt-launcher/patch.c)

    The decoder of the 28-byte patch header and the set of patches a firmware
    search collects.  [contents] is the abstraction of a set: a finite map from
    slots to metadata.  The theorems characterise the accepted headers, show that
    [wmt_patch_set_add] refines insertion into that map and preserves the
    well-formedness invariant, that [wmt_patch_set_complete] decides whether
    every slot is filled, and that the result does not depend on the order in
    which the directory delivered the files. *)

From S2P Require Import Prelude CMem.

Definition WMT_PATCH_HEADER_SIZE : Z := 28.
Definition WMT_PATCH_NAME_SIZE : Z := 256.
Definition WMT_MAX_PATCHES : Z := 10.

Record wmt_patch_info := mk_patch_info {
  pi_sequence : Z;
  pi_address : list Z;
  pi_name : list Z;
}.

Record wmt_patch_file := mk_patch_file {
  pf_count : Z;
  pf_info : wmt_patch_info;
}.

Record wmt_patch_set := mk_patch_set {
  ps_count : Z;
  ps_seen : Z;
  ps_records : list wmt_patch_info;
}.

#[global] Instance wmt_patch_info_eq_dec : EqDecision wmt_patch_info.
Proof. solve_decision. Defined.
#[global] Instance wmt_patch_file_eq_dec : EqDecision wmt_patch_file.
Proof. solve_decision. Defined.

Definition zero_patch_info : wmt_patch_info :=
  mk_patch_info 0 (replicate 4 0) (replicate 256 0).

(** The zero-initialized set a search starts from. *)
Definition zero_patch_set : wmt_patch_set :=
  mk_patch_set 0 0 (replicate 10 zero_patch_info).

Definition wmt_patch_build_version (header : option (list Z)) (size : Z)
    (version : option (list Z)) : option (Z * option (list Z)) :=
  match header, version with
  | Some header, Some v =>
      if size <? 16 then Some (- EMSGSIZE, version) else
      v ← memcpy v 0 header 0 15;
      v ← store v 15 [NUL];
      Some (0, Some v)
  | _, _ => Some (- EINVAL, version)
  end.

Definition wmt_patch_parse (header : option (list Z)) (size : Z) (basename : option (list Z))
    (firmware : Z) (output : option wmt_patch_file) : option (Z * option wmt_patch_file) :=
  match header, basename, output with
  | Some header, Some basename, Some _ =>
      if size <? WMT_PATCH_HEADER_SIZE then Some (- EMSGSIZE, output) else
      name_length ← strnlen basename 256;
      ret_if Some ((name_length =? 0)%nat || (name_length =? 256)%nat)
             ||? strchr_in basename 47
        ret Some (- EINVAL, output);
      h23 ← header !! 23%nat;
      if negb (h23 =? Z.land firmware 0xff) then Some (1, output) else
      h24 ← header !! 24%nat;
      let count := Z.shiftr h24 4 in
      let sequence := Z.land h24 0x0f in
      if (count =? 0) || (WMT_MAX_PATCHES <? count) ||
         (sequence =? 0) || (count <? sequence)
      then Some (- EINVAL, output) else
      address ← memcpy (replicate 4 0) 1 header 25 3;
      name ← memcpy (replicate 256 0) 0 basename 0 (name_length + 1);
      Some (0, Some (mk_patch_file count (mk_patch_info sequence address name)))
  | _, _, _ => Some (- EINVAL, output)
  end.

Definition wmt_patch_set_add (set : option wmt_patch_set) (file : option wmt_patch_file)
    : option (Z * option wmt_patch_set) :=
  match set, file with
  | Some s, Some file =>
      let info := pf_info file in
      ret_if Some ((pf_count file =? 0) || (WMT_MAX_PATCHES <? pf_count file) ||
                   (pi_sequence info =? 0) || (pf_count file <? pi_sequence info))
             ||? (p ← memchr (pi_name info) 0 NUL 256; Some (bool_decide (p = None)))
        ret Some (- EINVAL, set);
      if negb (ps_count s =? 0) && negb (ps_count s =? pf_count file)
      then Some (- EINVAL, set) else
      let bit := u32 (Z.shiftl 1 (pi_sequence info - 1)) in
      if negb (Z.land (ps_seen s) bit =? 0) then Some (- EEXIST, set) else
      let i := Z.to_nat (pi_sequence info - 1) in
      _ ← ps_records s !! i;
      Some (0, Some (mk_patch_set (pf_count file) (Z.lor (ps_seen s) bit)
                       (<[i := info]> (ps_records s))))
  | _, _ => Some (- EINVAL, set)
  end.

Definition wmt_patch_set_complete (set : option wmt_patch_set) : Z :=
  match set with
  | Some s =>
      if WMT_MAX_PATCHES <? ps_count s then - EINVAL else
      if ps_count s =? 0 then - ENOENT else
      if ps_seen s =? u32 (Z.shiftl 1 (ps_count s)) - 1 then 0 else - ENODATA
  | None => - EINVAL
  end.

(** ** Well-formed metadata *)

Definition info_wf (i : wmt_patch_info) : Prop :=
  length (pi_address i) = 4%nat /\ length (pi_name i) = 256%nat.

(** Metadata that names one patch of a set: what [wmt_patch_parse] produces and
    [wmt_patch_set_add] insists on. *)
Definition file_ok (f : wmt_patch_file) : Prop :=
  1 <= pi_sequence (pf_info f) <= pf_count f /\ pf_count f <= WMT_MAX_PATCHES /\
  is_Some (cstr (pi_name (pf_info f))).

Definition file_wf (f : wmt_patch_file) : Prop := info_wf (pf_info f) /\ is_u32 (pf_count f) /\
  is_u32 (pi_sequence (pf_info f)).

#[global] Instance file_ok_dec f : Decision (file_ok f).
Proof. unfold file_ok. apply _. Defined.

(** ** Invariant and abstraction of a set *)

Definition present (s : wmt_patch_set) (i : nat) : bool := Z.testbit (ps_seen s) (Z.of_nat i).

Definition contents (s : wmt_patch_set) : gmap nat wmt_patch_info :=
  filter (fun ix => present s ix.1 = true) (map_seq 0 (ps_records s)).

(** [seen] has no bit at or above [count]; a set with a count has at least one
    patch; and every present slot holds the patch of its own sequence. *)
Definition set_wf (s : wmt_patch_set) : Prop :=
  0 <= ps_count s <= WMT_MAX_PATCHES /\ length (ps_records s) = 10%nat /\ 0 <= ps_seen s /\
  (forall i, 0 <= i -> Z.testbit (ps_seen s) i = true -> i < ps_count s) /\
  (forall i, present s i = true ->
     pi_sequence <$> ps_records s !! i = Some (Z.of_nat i + 1)).

(** The abstract operation. *)
Definition add_spec (s : wmt_patch_set) (f : wmt_patch_file) : Z :=
  if decide (file_ok f) then
    if decide (ps_count s <> 0 /\ ps_count s <> pf_count f) then - EINVAL
    else if decide (is_Some (contents s !! Z.to_nat (pi_sequence (pf_info f) - 1)))
    then - EEXIST else 0
  else - EINVAL.

Lemma zero_patch_set_wf : set_wf zero_patch_set.
Proof.
  split_and!; simpl; try done.
  - intros i _. by rewrite Z.bits_0.
  - intros i. unfold present. simpl. by rewrite Z.bits_0.
Qed.

Lemma lookup_contents s i :
  contents s !! i = if present s i then ps_records s !! i else None.
Proof.
  unfold contents. apply option_eq. intros x.
  rewrite map_lookup_filter_Some, lookup_map_seq_0. simpl.
  destruct (present s i); [tauto|]. split; [by intros [_ ?]|done].
Qed.

(** ** The header decoder *)

Lemma patch_parse_cases header basename s firmware out :
  bytes_ok header -> (28 <= length header)%nat -> cstr basename = Some s ->
  exists r o,
    wmt_patch_parse (Some header) 28 (Some basename) firmware (Some out) = Some (r, Some o) /\
    let h i := default 0 (header !! i) in
    if decide (s = [] \/ (256 <= length s)%nat \/ 47 ∈ s) then r = - EINVAL /\ o = out
    else if decide (h 23%nat <> firmware mod 256) then r = 1 /\ o = out
    else if decide (1 <= h 24%nat mod 16 <= h 24%nat / 16 /\ h 24%nat / 16 <= 10) then
      r = 0 /\ o = mk_patch_file (h 24%nat / 16)
        (mk_patch_info (h 24%nat mod 16) [0; h 25%nat; h 26%nat; h 27%nat] (pad_to 256 s))
    else r = - EINVAL /\ o = out.
Proof.
  intros Hb Hl Hs. unfold wmt_patch_parse, WMT_PATCH_HEADER_SIZE, WMT_MAX_PATCHES.
  cbn [Z.ltb Z.compare Pos.compare Pos.compare_cont].
  rewrite (strnlen_of_cstr _ _ _ Hs). cbn [mbind option_bind]. unfold strchr_in. rewrite Hs.
  cbn [mbind option_bind]. unfold c_or. cbn [mbind option_bind].
  destruct (_ || _)%bool eqn:E1; cbn [mbind option_bind].
  { eexists _, _; split; [reflexivity|]. cbv zeta. rewrite decide_True; [done|].
    apply orb_true_iff in E1 as [E%Nat.eqb_eq|E%Nat.eqb_eq]; [left|lia].
    destruct s; [done|simpl in E; lia]. }
  apply orb_false_iff in E1 as [E1%Nat.eqb_neq E2%Nat.eqb_neq].
  change (u8 47) with 47. case_bool_decide.
  { eexists _, _; split; [reflexivity|]. cbv zeta. rewrite decide_True; [done|tauto]. }
  destruct (lookup_lt_is_Some_2 header 23) as [h23 H23]; [lia|].
  destruct (lookup_lt_is_Some_2 header 24) as [h24 H24]; [lia|].
  destruct (lookup_lt_is_Some_2 header 25) as [h25 H25]; [lia|].
  destruct (lookup_lt_is_Some_2 header 26) as [h26 H26]; [lia|].
  destruct (lookup_lt_is_Some_2 header 27) as [h27 H27]; [lia|].
  rewrite H23, H24, H25, H26, H27. cbn [mbind option_bind from_option id].
  pose proof (Forall_lookup_1 _ _ _ _ Hb H24) as Hb24. unfold in_w in Hb24.
  assert (Hnot : ~ (s = [] \/ (256 <= length s)%nat \/ 47 ∈ s)).
  { intros [->|[?|?]]; [by apply E1|lia|done]. }
  change 0xff with (Z.ones 8). rewrite Z.land_ones by lia. change (2 ^ 8) with 256.
  destruct (Z.eqb_spec h23 (firmware mod 256)) as [E3|E3]; cbn [negb].
  2: { eexists _, _; split; [reflexivity|]. by rewrite decide_False, decide_True by done. }
  change 0x0f with (Z.ones 4). rewrite Z.land_ones, Z.shiftr_div_pow2 by lia.
  change (2 ^ 4) with 16.
  destruct (_ || _)%bool eqn:E4.
  { eexists _, _; split; [reflexivity|]. rewrite decide_False by exact Hnot.
    rewrite decide_False by (intros Hn; by apply Hn). rewrite decide_False; [done|]. intros ?. zb.
    repeat (destruct E4 as [E4|E4]; zb); lia. }
  zb. rewrite Nat.min_l by (destruct (decide (256 <= length s)%nat); [tauto|lia]).
  rewrite memcpy_string by (done || (destruct (decide (256 <= length s)%nat); [tauto|lia])).
  assert (Hld : load_n header 25 3 = Some [h25; h26; h27]).
  { rewrite load_n_ok by lia. f_equal. rewrite (drop_S _ _ _ H25), (drop_S _ _ _ H26), (drop_S _ _ _ H27).
    done. }
  unfold memcpy at 1. rewrite Hld. cbn [mbind option_bind].
  eexists _, _; split; [reflexivity|]. rewrite decide_False by exact Hnot.
  rewrite decide_False by (intros Hn; by apply Hn). rewrite decide_True; [done|]. pose proof (Z.mod_pos_bound h24 16 ltac:(lia)). lia.
Qed.

(** A patch header is accepted exactly when its name is a nonempty file name
    of at most 255 bytes, its firmware byte is the low byte of the requested
    version, and its packed byte holds a sequence within a count of at most 10;
    the output is then that metadata, the address bytes shifted by one and the
    name zero padded.  A firmware byte that differs is the only reason for the
    answer 1, and every answer but 0 leaves the output untouched. *)
Theorem wmt_patch_parse_spec header basename s firmware out :
  bytes_ok header -> (28 <= length header)%nat -> cstr basename = Some s ->
  exists r o,
    wmt_patch_parse (Some header) 28 (Some basename) firmware (Some out) = Some (r, Some o) /\
    let h i := default 0 (header !! i) in
    if decide (s = [] \/ (256 <= length s)%nat \/ 47 ∈ s) then r = - EINVAL /\ o = out
    else if decide (h 23%nat <> firmware mod 256) then r = 1 /\ o = out
    else if decide (1 <= h 24%nat mod 16 <= h 24%nat / 16 /\ h 24%nat / 16 <= 10) then
      r = 0 /\ o = mk_patch_file (h 24%nat / 16)
        (mk_patch_info (h 24%nat mod 16) [0; h 25%nat; h 26%nat; h 27%nat] (pad_to 256 s))
    else r = - EINVAL /\ o = out.
Proof. apply patch_parse_cases. Qed.

Definition sample_header (packed : Z) : list Z :=
  replicate 22 32 ++ [0x8a; 0x10; packed; 0xa; 0xb; 0xc].

Lemma wmt_patch_parse_spec_witness :
  exists r o,
    wmt_patch_parse (Some (sample_header 0x21)) 28 (Some (lit "ROMv2_lm_patch_1_0_hdr.bin" ++ [NUL]))
      0x8a10 (Some (mk_patch_file 0 zero_patch_info)) = Some (r, Some o) /\
    let h i := default 0 (sample_header 0x21 !! i) in
    if decide (lit "ROMv2_lm_patch_1_0_hdr.bin" = [] \/
               (256 <= length (lit "ROMv2_lm_patch_1_0_hdr.bin"))%nat \/
               47 ∈ lit "ROMv2_lm_patch_1_0_hdr.bin")
    then r = - EINVAL /\ o = mk_patch_file 0 zero_patch_info
    else if decide (h 23%nat <> 0x8a10 mod 256) then r = 1 /\ o = mk_patch_file 0 zero_patch_info
    else if decide (1 <= h 24%nat mod 16 <= h 24%nat / 16 /\ h 24%nat / 16 <= 10) then
      r = 0 /\ o = mk_patch_file (h 24%nat / 16)
        (mk_patch_info (h 24%nat mod 16) [0; h 25%nat; h 26%nat; h 27%nat]
           (pad_to 256 (lit "ROMv2_lm_patch_1_0_hdr.bin")))
    else r = - EINVAL /\ o = mk_patch_file 0 zero_patch_info.
Proof.
  apply wmt_patch_parse_spec; [by apply bytes_ok_dec | simpl; lia | done].
Defined.

(** The packed byte 0x21 is patch 1 of 2. *)
Example sample_header_parsed :
  wmt_patch_parse (Some (sample_header 0x21)) 28 (Some (lit "p" ++ [NUL])) 0x8a10
    (Some (mk_patch_file 0 zero_patch_info)) =
  Some (0, Some (mk_patch_file 2 (mk_patch_info 1 [0; 0xa; 0xb; 0xc] (pad_to 256 (lit "p"))))).
Proof. reflexivity. Qed.

(** ** The set *)

Lemma memchr_NUL name :
  length name = 256%nat ->
  exists p, memchr name 0 NUL 256 = Some p /\ (p = None <-> ~ is_Some (cstr name)).
Proof.
  intros Hl. pose proof (memchr_None name 0 NUL 256 ltac:(lia)) as Hm.
  unfold memchr in *. rewrite load_n_ok in * by lia. cbn [mbind option_bind] in *.
  eexists; split; [reflexivity|]. rewrite drop_0, take_ge in * by lia.
  transitivity (Forall (fun x => x <> u8 NUL) name).
  { rewrite <- Hm. split; [by intros ->|by intros [=]]. }
  clear. split.
  - intros HF [s Hs]. apply cstr_Some in Hs as [_ [rest ->]].
    rewrite Forall_app, Forall_cons in HF. by destruct HF as (_ & ? & _).
  - intros Hn. apply Forall_forall. intros x Hx ->. apply Hn.
    apply list_elem_of_split in Hx as (l1 & l2 & ->). change (u8 NUL) with 0. clear.
    induction l1 as [|c l1 IH]; simpl; [by eexists|].
    destruct (c =? 0); [by eexists|]. destruct IH as [t ->]. by eexists.
Qed.

Lemma seq_bit n : 1 <= n <= 10 -> u32 (Z.shiftl 1 (n - 1)) = Z.shiftl 1 (n - 1).
Proof.
  intros H. apply wrap_small. unfold in_w. rewrite Z.shiftl_1_l.
  split; [apply Z.pow_nonneg; lia|apply Z.pow_lt_mono_r; lia].
Qed.

(** The operation with its undefined branches resolved. *)
Lemma set_add_eq s f :
  set_wf s -> file_wf f ->
  let i := Z.to_nat (pi_sequence (pf_info f) - 1) in
  wmt_patch_set_add (Some s) (Some f) = Some (add_spec s f, Some
    (if add_spec s f =? 0 then
       mk_patch_set (pf_count f)
         (Z.lor (ps_seen s) (Z.shiftl 1 (pi_sequence (pf_info f) - 1)))
         (<[i := pf_info f]> (ps_records s))
     else s)).
Proof.
  intros (Hc & Hr & Hs & Hbits & Hseq) ((Ha & Hn) & Hfc & Hfs) i.
  unfold wmt_patch_set_add, add_spec, file_ok, WMT_MAX_PATCHES, in_w in *.
  destruct (memchr_NUL _ Hn) as (p & -> & Hp). unfold c_or. cbn [mbind option_bind].
  destruct (_ || _)%bool eqn:E1; cbn [mbind option_bind].
  { rewrite decide_False; [done|]. intros (? & ? & _). lia. }
  zb. case_bool_decide as Ep.
  { rewrite decide_False; [done|]. intros (_ & _ & ?). tauto. }
  rewrite decide_True.
  2: { split_and!; [lia..|]. destruct (cstr (pi_name (pf_info f))) eqn:E; [done|].
       exfalso. apply Ep, Hp. by intros [? ?]. }
  destruct (_ && _)%bool eqn:E2.
  { zb. rewrite decide_True by lia. done. }
  rewrite decide_False by (zb; destruct E2; zb; lia).
  rewrite seq_bit, land_bit_testbit, negb_involutive by lia.
  assert (Hi : Z.of_nat i = pi_sequence (pf_info f) - 1) by (unfold i; lia).
  fold i. rewrite lookup_contents. unfold present. rewrite Hi.
  destruct (lookup_lt_is_Some_2 (ps_records s) i) as [x Hx]; [lia|]. rewrite Hx.
  destruct (Z.testbit _ _); [by rewrite decide_True by eauto|].
  rewrite decide_False by (by intros [? ?]). done.
Qed.

Lemma set_add_wf s f :
  set_wf s -> file_wf f -> add_spec s f = 0 ->
  let i := Z.to_nat (pi_sequence (pf_info f) - 1) in
  let s' := mk_patch_set (pf_count f)
         (Z.lor (ps_seen s) (Z.shiftl 1 (pi_sequence (pf_info f) - 1)))
         (<[i := pf_info f]> (ps_records s)) in
  set_wf s' /\ contents s' = <[i := pf_info f]> (contents s).
Proof.
  intros (Hc & Hr & Hs & Hbits & Hseq) Hfwf Hadd i s'. unfold add_spec in Hadd.
  destruct (decide (file_ok f)) as [(Hq & Hcnt & Hstr)|]; [|done].
  destruct (decide (_ /\ _)) as [|Hcount]; [done|].
  unfold WMT_MAX_PATCHES in *.
  assert (Hi : Z.of_nat i = pi_sequence (pf_info f) - 1) by (unfold i; lia).
  assert (Hpres : forall j, present s' j = (present s j || bool_decide (j = i))%bool).
  { intros j. unfold present, s'. simpl. rewrite testbit_lor_bit by lia. f_equal.
    rewrite <- Hi. destruct (Z.eqb_spec (Z.of_nat j) (Z.of_nat i));
      [rewrite bool_decide_true|rewrite bool_decide_false]; lia || done. }
  split.
  - split_and!; simpl; try (unfold WMT_MAX_PATCHES; lia); try (by rewrite length_insert).
    + apply Z.lor_nonneg. split; [done|]. apply Z.shiftl_nonneg. lia.
    + intros j Hj. rewrite testbit_lor_bit, orb_true_iff, Z.eqb_eq by lia.
      intros [Hb| ->]; [|lia]. specialize (Hbits j Hj Hb). lia.
    + intros j. rewrite Hpres, orb_true_iff, bool_decide_eq_true.
      destruct (decide (j = i)) as [->|Hne].
      * intros _. rewrite list_lookup_insert_eq by lia. simpl. f_equal. lia.
      * intros [Hb|?]; [|done]. rewrite list_lookup_insert_ne by done. by apply Hseq.
  - apply map_eq. intros j. rewrite lookup_insert, !lookup_contents, Hpres.
    destruct (decide (i = j)) as [<-|Hne].
    + rewrite (bool_decide_true (i = i)), orb_true_r by done. simpl.
      apply list_lookup_insert_eq. lia.
    + rewrite (bool_decide_false (j = i)), orb_false_r by done.
      destruct (present s j); [|done]. simpl. by apply list_lookup_insert_ne.
Qed.

(** Adding a file refines insertion into the map of collected patches and
    keeps the set invariant: the answer is the one the abstract operation gives
    (bad metadata or a differing count -EINVAL, a slot already taken -EEXIST),
    success inserts the metadata at the slot of its sequence, and every failure
    leaves the set untouched. *)
Theorem wmt_patch_set_add_refines s f :
  set_wf s -> file_wf f ->
  exists s', wmt_patch_set_add (Some s) (Some f) = Some (add_spec s f, Some s') /\ set_wf s' /\
    if decide (add_spec s f = 0)
    then contents s' = <[Z.to_nat (pi_sequence (pf_info f) - 1) := pf_info f]> (contents s) /\
         ps_count s' = pf_count f
    else s' = s.
Proof.
  intros Hs Hf. rewrite set_add_eq by done. eexists; split; [reflexivity|].
  destruct (decide (add_spec s f = 0)) as [E|E].
  - rewrite E, Z.eqb_refl. destruct (set_add_wf s f Hs Hf E) as [? ?]. done.
  - by rewrite (proj2 (Z.eqb_neq _ 0)).
Qed.

Definition sample_file (i : Z) : wmt_patch_file :=
  mk_patch_file 2 (mk_patch_info i [0; 1; 2; 3] (pad_to 256 (lit "p"))).

Lemma sample_file_wf i : 0 <= i <= 15 -> file_wf (sample_file i).
Proof. intros. repeat split; simpl; lia. Qed.

Lemma wmt_patch_set_add_refines_witness :
  exists s', wmt_patch_set_add (Some zero_patch_set) (Some (sample_file 2)) =
      Some (add_spec zero_patch_set (sample_file 2), Some s') /\ set_wf s' /\
    if decide (add_spec zero_patch_set (sample_file 2) = 0)
    then contents s' = <[1%nat := pf_info (sample_file 2)]> (contents zero_patch_set) /\
         ps_count s' = 2
    else s' = zero_patch_set.
Proof.
  apply (wmt_patch_set_add_refines zero_patch_set (sample_file 2));
    [exact zero_patch_set_wf | apply sample_file_wf; lia].
Defined.

Lemma ones_bits n i : 0 <= n -> 0 <= i -> Z.testbit (Z.ones n) i = (i <? n).
Proof.
  intros Hn Hi. destruct (Z.ltb_spec i n).
  - apply Z.ones_spec_low. lia.
  - apply Z.ones_spec_high. lia.
Qed.

Lemma patch_set_complete_cases s :
  set_wf s ->
  wmt_patch_set_complete (Some s) =
    if decide (ps_count s = 0) then - ENOENT
    else if decide (Forall (fun i => is_Some (contents s !! Z.to_nat i)) (seqZ 0 (ps_count s)))
    then 0 else - ENODATA.
Proof.
  intros (Hc & Hr & Hs & Hbits & Hseq). unfold wmt_patch_set_complete, WMT_MAX_PATCHES in *.
  rewrite (proj2 (Z.ltb_ge 10 _)) by lia.
  destruct (Z.eqb_spec (ps_count s) 0) as [E|E]; [by rewrite decide_True|].
  rewrite decide_False by done.
  assert (Hones : u32 (Z.shiftl 1 (ps_count s)) - 1 = Z.ones (ps_count s)).
  { unfold u32. rewrite wrap_small, Z.ones_equiv, Z.shiftl_1_l; [lia|].
    unfold in_w. rewrite Z.shiftl_1_l.
    split; [apply Z.pow_nonneg; lia|apply Z.pow_lt_mono_r; lia]. }
  rewrite Hones.
  assert (Hiff : ps_seen s = Z.ones (ps_count s) <->
    Forall (fun i => is_Some (contents s !! Z.to_nat i)) (seqZ 0 (ps_count s))).
  { rewrite Forall_forall. split.
    - intros Hseen i Hi%elem_of_seqZ. rewrite lookup_contents. unfold present.
      rewrite Z2Nat.id, Hseen, ones_bits by lia.
      rewrite (proj2 (Z.ltb_lt i _)) by lia. apply lookup_lt_is_Some. lia.
    - intros Hall. apply Z.bits_inj'. intros i Hi. rewrite ones_bits by lia.
      destruct (Z.ltb_spec i (ps_count s)) as [Hlt|Hge].
      + destruct (Hall i) as [x Hx]; [apply elem_of_seqZ; lia|].
        rewrite lookup_contents in Hx. unfold present in Hx. rewrite Z2Nat.id in Hx by lia.
        by destruct (Z.testbit (ps_seen s) i).
      + destruct (Z.testbit (ps_seen s) i) eqn:Et; [|done].
        specialize (Hbits i Hi Et). lia. }
  destruct (Z.eqb_spec (ps_seen s) (Z.ones (ps_count s))) as [Eq|Eq].
  - rewrite decide_True; [done|]. by apply Hiff.
  - rewrite decide_False; [done|]. intros H. apply Eq, Hiff, H.
Qed.

(** Completeness of a collected set is decided exactly: 0 when every slot
    below the count holds its patch, -ENOENT when nothing was collected, and
    -ENODATA when some slot is missing. *)
Theorem wmt_patch_set_complete_spec s :
  set_wf s ->
  wmt_patch_set_complete (Some s) =
    if decide (ps_count s = 0) then - ENOENT
    else if decide (Forall (fun i => is_Some (contents s !! Z.to_nat i)) (seqZ 0 (ps_count s)))
    then 0 else - ENODATA.
Proof. apply patch_set_complete_cases. Qed.

Lemma wmt_patch_set_complete_spec_witness :
  wmt_patch_set_complete (Some zero_patch_set) =
    if decide (ps_count zero_patch_set = 0) then - ENOENT
    else if decide (Forall (fun i => is_Some (contents zero_patch_set !! Z.to_nat i))
                      (seqZ 0 (ps_count zero_patch_set)))
    then 0 else - ENODATA.
Proof. apply wmt_patch_set_complete_spec. exact zero_patch_set_wf. Defined.

(** ** Order independence *)

(** Adding the files of a directory in the order it delivers them; [None] stops
    at the first one that is refused. *)
Fixpoint add_all (s : wmt_patch_set) (fs : list wmt_patch_file) : option wmt_patch_set :=
  match fs with
  | [] => Some s
  | f :: fs =>
      match wmt_patch_set_add (Some s) (Some f) with
      | Some (0, Some s') => add_all s' fs
      | _ => None
      end
  end.

Lemma add_all_cons s f fs :
  set_wf s -> file_wf f ->
  add_all s (f :: fs) =
  if decide (add_spec s f = 0) then
    add_all (mk_patch_set (pf_count f)
         (Z.lor (ps_seen s) (Z.shiftl 1 (pi_sequence (pf_info f) - 1)))
         (<[Z.to_nat (pi_sequence (pf_info f) - 1) := pf_info f]> (ps_records s))) fs
  else None.
Proof.
  intros Hs Hf. cbn [add_all]. rewrite set_add_eq by done.
  destruct (decide (add_spec s f = 0)) as [->|E]; [done|].
  destruct (add_spec s f); done.
Qed.

Lemma add_spec_0 s f :
  add_spec s f = 0 <->
  file_ok f /\ (ps_count s = 0 \/ ps_count s = pf_count f) /\
  contents s !! Z.to_nat (pi_sequence (pf_info f) - 1) = None.
Proof.
  unfold add_spec. destruct (decide (file_ok f)); [|split; [done|tauto]].
  destruct (decide _); [split; [done|tauto]|].
  destruct (decide _) as [[x Hx]|Hn].
  - rewrite Hx. split; [done|by intros (_ & _ & ?)].
  - split; [|done]. intros _. split_and!; [done| |by apply eq_None_not_Some].
    destruct (decide (ps_count s = 0)); [tauto|].
    destruct (decide (ps_count s = pf_count f)); tauto.
Qed.

Lemma add_all_swap s f g fs :
  set_wf s -> file_wf f -> file_wf g ->
  is_Some (add_all s (f :: g :: fs)) ->
  add_all s (f :: g :: fs) = add_all s (g :: f :: fs).
Proof.
  intros Hs Hf Hg. rewrite !add_all_cons by done.
  destruct (decide (add_spec s f = 0)) as [Ef|]; [|by intros [? ?]].
  destruct (set_add_wf s f Hs Hf Ef) as [Hs1 Hc1]. cbv zeta in Hs1, Hc1.
  rewrite add_all_cons by done. set (s1 := mk_patch_set _ _ _) in *.
  destruct (decide (add_spec s1 g = 0)) as [Eg|]; [intros _|by intros [? ?]].
  apply add_spec_0 in Ef as Ef'. destruct Ef' as (Fok & Fcount & Ffree).
  apply add_spec_0 in Eg as Eg'. destruct Eg' as (Gok & Gcount & Gfree).
  simpl in Gcount. rewrite Hc1, lookup_insert_None in Gfree. destruct Gfree as [Gfree Hne].
  assert (Hcnt : pf_count g = pf_count f) by (destruct Fok as (? & _ & _); lia).
  assert (Eg0 : add_spec s g = 0) by (apply add_spec_0; split_and!; [done|lia|done]).
  rewrite (add_all_cons s g), decide_True by done.
  destruct (set_add_wf s g Hs Hg Eg0) as [Hs2 Hc2]. cbv zeta in Hs2, Hc2.
  rewrite add_all_cons by done. set (s2 := mk_patch_set (pf_count g) (Z.lor (ps_seen s) _) _) in *.
  assert (Ef2 : add_spec s2 f = 0).
  { apply add_spec_0. split_and!; [done|simpl; lia|].
    rewrite Hc2, lookup_insert_None. done. }
  rewrite decide_True by done. unfold s1, s2. simpl. f_equal. f_equal.
  - done.
  - rewrite <- !Z.lor_assoc. f_equal. apply Z.lor_comm.
  - by apply list_insert_insert_ne.
Qed.

(** The collected set is independent of the directory order: if the files
    are accepted in one order, they are accepted in every order and the very same
    set results. *)
Theorem add_all_order_independent fs fs' s :
  Permutation fs fs' -> Forall file_wf fs ->
  add_all zero_patch_set fs = Some s -> add_all zero_patch_set fs' = Some s.
Proof.
  intros HP HF. pose proof zero_patch_set_wf as Hz. revert Hz HF.
  generalize zero_patch_set as z. revert s.
  induction HP as [|f fs fs' HP IH|f g fs|fs1 fs2 fs3 HP1 IH1 HP2 IH2]; intros s z Hz HF H.
  - done.
  - apply Forall_cons in HF as [Hf HF]. rewrite add_all_cons in * by done.
    destruct (decide _) as [E|]; [|done]. apply IH; [|done..]. by apply set_add_wf.
  - apply Forall_cons in HF as [Hg HF]. apply Forall_cons in HF as [Hf HF].
    rewrite <- add_all_swap; [done..|]. by eexists.
  - apply IH2; [done| |by apply IH1]. by rewrite <- HP1.
Qed.

Lemma add_all_order_independent_witness :
  is_Some (add_all zero_patch_set [sample_file 1; sample_file 2]) /\
  add_all zero_patch_set [sample_file 2; sample_file 1] =
  add_all zero_patch_set [sample_file 1; sample_file 2].
Proof.
  split; [vm_compute; by eexists|].
  destruct (add_all zero_patch_set [sample_file 1; sample_file 2]) as [s|] eqn:E;
    [|vm_compute in E; discriminate].
  refine (add_all_order_independent [sample_file 1; sample_file 2] _ s _ _ E).
  - apply Permutation_swap.
  - repeat constructor; simpl; lia.
Defined.
