(* ===== verification/WmtSearch.v ===== *)
(** * Searching the firmware directory (wmt-launcher/firmware.c, patches)

    [read_exact] over files whose reads may be short, interrupted or fail;
    [search_directory] over the entries a directory delivers, with every call of
    the loop allowed to fail; [read_patch] and [wmt_firmware_search].  The file
    system is data: what each call will answer.  A log records the descriptors
    that are opened and closed. *)

From S2P Require Import Prelude CMem WmtPatch.

(** ** Files *)

(** The answers of successive [read] calls on one file: an error, or at most
    [S k] bytes (at least one unless the file has ended).  After the script every
    read is answered in full. *)
Inductive read_step := RdFail (errno : Z) | RdChunk (k : nat).

Record file := mk_file { f_data : list Z; f_pos : nat; f_script : list read_step }.

Inductive read_result := ROk (bs : list Z) | RErr (errno : Z).

Definition read (f : file) (n : nat) : read_result * file :=
  let avail m := take m (drop (f_pos f) (f_data f)) in
  match f_script f with
  | RdFail e :: s => (RErr e, mk_file (f_data f) (f_pos f) s)
  | RdChunk k :: s =>
      let bs := avail (n `min` S k)%nat in
      (ROk bs, mk_file (f_data f) (f_pos f + length bs) s)
  | [] => let bs := avail n in (ROk bs, mk_file (f_data f) (f_pos f + length bs) [])
  end.

(** The loop: [acc] is what the buffer holds so far, [size] what is missing. *)
Fixpoint read_exact_loop (fuel : nat) (f : file) (size : nat) (acc : list Z)
    : option (Z * list Z * file) :=
  match fuel with
  | O => None
  | S fuel =>
      if (size =? 0)%nat then Some (0, acc, f) else
      match read f size with
      | (RErr e, f) =>
          if e =? EINTR then read_exact_loop fuel f size acc else Some (- e, acc, f)
      | (ROk [], f) => Some (- EMSGSIZE, acc, f)
      | (ROk bs, f) => read_exact_loop fuel f (size - length bs) (acc ++ bs)
      end
  end.

(** Every iteration uses up an answer, the last two need none. *)
Definition read_exact (f : file) (size : nat) : option (Z * list Z * file) :=
  read_exact_loop (length (f_script f) + 2) f size [].

(** ** Directories *)

(** An entry with what open, fstat, lseek and close will answer (0 or an errno)
    and the file behind it. *)
Record dirent := mk_dirent {
  d_name : list Z;
  d_open : Z;
  d_fstat : Z;
  d_regular : bool;
  d_size : Z;
  d_file : file;
  d_malloc : bool;   (* memory for the whole file is found *)
  d_lseek : Z;
  d_close : Z;
}.

Record dir := mk_dir {
  dir_open : Z;
  dir_entries : list dirent;
  dir_end : Z;     (* errno when readdir returns NULL *)
  dir_close : Z;
}.

Inductive fs_event := EvOpendir | EvOpen (name : list Z) | EvClose (name : list Z) | EvClosedir.

Section Search.
Context {R : Type}.
Context (consume : dirent -> list Z -> Z -> R -> option (Z * R)).
Context (prefix : list Z) (firmware : Z).

(** The candidate's body of the loop, from openat to close. *)
Definition visit (e : dirent) (result : R) : option (Z * R * list fs_event) :=
  if negb (d_open e =? 0) then Some (- d_open e, result, []) else
  '(error, result) ←
    (if negb (d_fstat e =? 0) then Some (- d_fstat e, result)
     else if negb (d_regular e) then Some (- EINVAL, result)
     else consume e (d_name e) firmware result);
  let error := if negb (d_close e =? 0) && (error =? 0) then - d_close e else error in
  Some (error, result, [EvOpen (d_name e); EvClose (d_name e)]).

Fixpoint search_loop (d : dir) (entries : list dirent) (result : R) (log : list fs_event)
    : option (Z * R * list fs_event) :=
  match entries with
  | [] => Some (- dir_end d, result, log)
  | e :: entries =>
      same ← strncmp_eq (d_name e) (prefix ++ [NUL]) (length prefix);
      if negb same then search_loop d entries result log else
      '(error, result, ev) ← visit e result;
      if negb (error =? 0) then Some (error, result, log ++ ev)
      else search_loop d entries result (log ++ ev)
  end.

Definition search_directory (d : dir) (result : R) : option (Z * R * list fs_event) :=
  if negb (dir_open d =? 0) then Some (- dir_open d, result, []) else
  '(error, result, log) ← search_loop d (dir_entries d) result [EvOpendir];
  let error := if negb (dir_close d =? 0) && (error =? 0) then - dir_close d else error in
  Some (error, result, log ++ [EvClosedir]).
End Search.

(** ** Patches *)

Record wmt_firmware_result := mk_firmware {
  fw_patches : wmt_patch_set;
  fw_versions : list (list Z);
}.

Definition zero_firmware : wmt_firmware_result :=
  mk_firmware zero_patch_set (replicate 10 (replicate 16 0)).

Definition zero_patch_file : wmt_patch_file := mk_patch_file 0 zero_patch_info.

Definition read_patch (e : dirent) (name : list Z) (firmware : Z) (found : wmt_firmware_result)
    : option (Z * wmt_firmware_result) :=
  '(error, header, _) ← read_exact (d_file e) 28;
  if negb (error =? 0) then Some (error, found) else
  '(error, f) ← wmt_patch_parse (Some header) 28 (Some name) firmware (Some zero_patch_file);
  if negb (error =? 0) then Some (if error =? 1 then 0 else error, found) else
  f ← f;
  '(error, patches) ← wmt_patch_set_add (Some (fw_patches found)) (Some f);
  patches ← patches;
  let found := mk_firmware patches (fw_versions found) in
  if negb (error =? 0) then Some (error, found) else
  let i := Z.to_nat (pi_sequence (pf_info f) - 1) in
  old ← fw_versions found !! i;
  '(error, v) ← wmt_patch_build_version (Some header) 28 (Some old);
  v ← v;
  Some (error, mk_firmware patches (<[i := v]> (fw_versions found))).

(** [directory] is the path, [fs] what the file system answers for it. *)
Definition wmt_firmware_search (directory : option (list Z)) (fs : dir) (firmware : Z)
    (output : option wmt_firmware_result)
    : option (Z * option wmt_firmware_result * list fs_event) :=
  match directory, output with
  | Some [], Some _ => None
  | Some (c :: _), Some _ =>
      if c =? NUL then Some (- EINVAL, output, []) else
      '(error, found, log) ← search_directory read_patch (lit "ROMv2_lm_patch") firmware fs zero_firmware;
      let error := if error =? 0 then wmt_patch_set_complete (Some (fw_patches found)) else error in
      Some (error, if error =? 0 then Some found else output, log)
  | _, _ => Some (- EINVAL, output, [])
  end.

(** ** Exact reads *)

Definition step_ok (r : read_step) : Prop := match r with RdFail e => 0 < e | RdChunk _ => True end.

(** No error but interruption. *)
Definition benign (r : read_step) : Prop := match r with RdFail e => e = EINTR | RdChunk _ => True end.

Definition remaining (f : file) : nat := (length (f_data f) - f_pos f)%nat.

(** The outcome of reading [size] more bytes after [acc]. *)
Definition exact_outcome (f : file) (size : nat) (acc : list Z) (r : Z * list Z * file) : Prop :=
  let '(err, bs, f') := r in
  f_data f' = f_data f /\ (exists used, f_script f = used ++ f_script f') /\
  (err = 0 -> bs = acc ++ take size (drop (f_pos f) (f_data f)) /\ (size <= remaining f)%nat /\
     f_pos f' = (f_pos f + size)%nat) /\
  (err <> 0 -> (err = - EMSGSIZE /\ (remaining f < size)%nat) \/
     exists e, RdFail e ∈ f_script f /\ e <> EINTR /\ err = - e).

(** What a read that delivered bytes leaves to do. *)
Lemma exact_outcome_step f m size acc script r :
  let bs := take m (drop (f_pos f) (f_data f)) in
  (m <= size)%nat -> (exists used, f_script f = used ++ script) ->
  exact_outcome (mk_file (f_data f) (f_pos f + length bs) script) (size - length bs) (acc ++ bs) r ->
  exact_outcome f size acc r.
Proof.
  intros bs Hm (used & Hu). destruct r as [[err out] f']. unfold exact_outcome, remaining. simpl.
  assert (length bs = m `min` (length (f_data f) - f_pos f))%nat as Hl
    by (unfold bs; by rewrite length_take, length_drop).
  assert (bs = take (length bs) (drop (f_pos f) (f_data f))) as Hbs.
  { unfold bs at 1. rewrite Hl. destruct (decide (m <= length (f_data f) - f_pos f)%nat).
    - by rewrite Nat.min_l.
    - rewrite Nat.min_r by lia. rewrite !take_ge by (rewrite length_drop; lia). done. }
  intros (Hd & (u2 & Hu2) & Hok & Herr). split_and!; [done| | |].
  - exists (used ++ u2). by rewrite Hu, Hu2, (assoc_L (++)).
  - intros H0. destruct (Hok H0) as (-> & Hs & Hp). split_and!; [|lia|lia].
    rewrite <- (assoc_L (++)). f_equal. rewrite Hbs at 1. rewrite <- drop_drop.
    rewrite take_take_drop. f_equal. lia.
  - intros H0. destruct (Herr H0) as [[? ?]|(e & He & ?)]; [left; split; [done|lia]|right].
    exists e. split; [|done]. rewrite Hu. apply elem_of_app. by right.
Qed.

Lemma read_exact_end fuel f size acc :
  f_script f = [] -> (1 <= fuel)%nat -> size = 0%nat \/ (remaining f = 0)%nat ->
  exists r, read_exact_loop fuel f size acc = Some r /\ exact_outcome f size acc r.
Proof.
  intros Hs Hf Hc. destruct fuel as [|fuel]; [lia|]. cbn [read_exact_loop].
  destruct (Nat.eqb_spec size 0) as [ ->|].
  { eexists. split; [reflexivity|]. unfold exact_outcome. rewrite take_0, app_nil_r.
    split_and!; [done|by exists []|intros _; split_and!; [done|lia|lia]|done]. }
  destruct Hc as [|Hr]; [done|]. unfold remaining in Hr. unfold read. rewrite Hs.
  rewrite drop_ge, take_nil by lia. cbn [length]. eexists. split; [reflexivity|].
  unfold exact_outcome. split_and!; [done|exists []; by rewrite Hs|done|].
  intros _. left. split; [done|]. unfold remaining. lia.
Qed.

Lemma read_exact_loop_ok fuel f size acc :
  (length (f_script f) + 2 <= fuel)%nat -> Forall step_ok (f_script f) ->
  exists r, read_exact_loop fuel f size acc = Some r /\ exact_outcome f size acc r.
Proof.
  revert f size acc. induction fuel as [|fuel IH]; intros f size acc Hf Hok; [lia|].
  cbn [read_exact_loop]. destruct (Nat.eqb_spec size 0) as [ ->|Hn].
  { eexists. split; [reflexivity|]. unfold exact_outcome. rewrite take_0, app_nil_r.
    split_and!; [done|by exists []|intros _; split_and!; [done|lia|lia]|done]. }
  unfold read. destruct (f_script f) as [|[e|k] script] eqn:Hs.
  - set (bs := take size _). assert (length bs = size `min` remaining f)%nat as Hl
      by (unfold bs, remaining; by rewrite length_take, length_drop).
    destruct bs as [|b bs'] eqn:Hb.
    { eexists. split; [reflexivity|]. unfold exact_outcome. split_and!; [done|exists []; by rewrite Hs|done|].
      intros _. left. split; [done|]. simpl in Hl. lia. }
    rewrite <- Hb in *. destruct (read_exact_end fuel (mk_file (f_data f) (f_pos f + length bs) [])
      (size - length bs) (acc ++ bs)) as (r & Hr & Ho); [done|simpl in Hf; lia|unfold remaining in *; simpl; lia|].
    exists r. split; [by rewrite Hb in *|]. refine (exact_outcome_step f size size acc [] r _ _ Ho); [lia|by exists []; rewrite Hs].
  - inversion_clear Hok as [|? ? He Hok']. simpl in He. destruct (Z.eqb_spec e EINTR) as [ ->|Hne].
    + destruct (IH (mk_file (f_data f) (f_pos f) script) size acc) as ([[err out] f'] & Hr & Ho);
        [simpl in *; lia|done|]. eexists. split; [exact Hr|].
      destruct Ho as (Hd & (u & Hu) & Ho & He2). split_and!; [done| |done|].
      * exists (RdFail EINTR :: u). rewrite Hs. simpl in Hu. by rewrite Hu.
      * intros H0. destruct (He2 H0) as [?|(e & Hin & ?)]; [by left|right]. exists e. split; [|done].
        rewrite Hs. by apply list_elem_of_further.
    + eexists. split; [reflexivity|]. unfold exact_outcome. split_and!; [done| |lia|].
      * exists [RdFail e]. by rewrite Hs.
      * intros _. right. exists e. split; [|done]. rewrite Hs. by apply list_elem_of_here.
  - inversion_clear Hok as [|? ? _ Hok']. set (bs := take _ _).
    assert (length bs = (size `min` S k) `min` remaining f)%nat as Hl
      by (unfold bs, remaining; by rewrite length_take, length_drop).
    destruct bs as [|b bs'] eqn:Hb.
    { eexists. split; [reflexivity|]. unfold exact_outcome. split_and!; [done| |done|].
      - exists [RdChunk k]. by rewrite Hs.
      - intros _. left. split; [done|]. simpl in Hl. lia. }
    rewrite <- Hb in *. destruct (IH (mk_file (f_data f) (f_pos f + length bs) script)
      (size - length bs)%nat (acc ++ bs)) as (r & Hr & Ho); [simpl in *; lia|done|].
    exists r. split; [by rewrite Hb in *|].
    refine (exact_outcome_step f (size `min` S k) size acc script r _ _ Ho); [lia|by exists [RdChunk k]; rewrite Hs].
Qed.

(** read_exact fills the buffer with exactly the next bytes of the file however
    the kernel cuts or interrupts the reads, and always returns: 0 with those
    bytes, -EMSGSIZE exactly when the file ends first, or the first error that is
    not an interruption.  Without such an error the answer depends on the length
    of the file alone. *)
Theorem read_exact_spec f size :
  Forall step_ok (f_script f) ->
  exists err bs f', read_exact f size = Some (err, bs, f') /\ f_data f' = f_data f /\
    (err = 0 -> bs = take size (drop (f_pos f) (f_data f)) /\ length bs = size /\
       f_pos f' = (f_pos f + size)%nat) /\
    (err <> 0 -> (err = - EMSGSIZE /\ (remaining f < size)%nat) \/
       exists e, RdFail e ∈ f_script f /\ e <> EINTR /\ err = - e) /\
    (Forall benign (f_script f) -> err = if decide (size <= remaining f)%nat then 0 else - EMSGSIZE).
Proof.
  intros Hok. destruct (read_exact_loop_ok (length (f_script f) + 2) f size [] ltac:(lia) Hok)
    as ([[err bs] f'] & Hr & Hd & _ & H0 & Hn).
  exists err, bs, f'. split; [exact Hr|]. split; [done|]. split_and!; [|done|].
  - intros He. destruct (H0 He) as (-> & Hs & Hp). split_and!; [done| |done].
    simpl. rewrite length_take, length_drop. unfold remaining in Hs. lia.
  - intros Hb. destruct (Z.eq_dec err 0) as [He|He].
    + destruct (H0 He) as (_ & Hs & _). by rewrite decide_True.
    + destruct (Hn He) as [[-> Hs]|(e & Hin & Hne & _)]; [by rewrite decide_False by lia|].
      apply (proj1 (Forall_forall _ _) Hb) in Hin. done.
Qed.

(** Twelve bytes delivered in pieces, with an interruption between. *)
Definition sample_chunks : file := mk_file (seqZ 0 12) 2 [RdChunk 3; RdFail EINTR; RdChunk 0].

Lemma read_exact_spec_witness :
  exists f', read_exact sample_chunks 8 = Some (0, seqZ 2 8, f').
Proof.
  destruct (read_exact_spec sample_chunks 8) as (err & bs & f' & Hr & _ & H0 & _ & Hb).
  { repeat constructor. }
  rewrite decide_True in Hb by (vm_compute; lia). specialize (Hb ltac:(repeat constructor)).
  destruct (H0 Hb) as [Hbs _]. exists f'. rewrite Hr, Hb, Hbs. reflexivity.
Defined.

(** ** What an entry contributes *)

Inductive candidate :=
  | Bad (err : Z)
  | Skip
  | Patch (f : wmt_patch_file) (version : list Z).

(** The header alone decides. *)
Definition classify (firmware : Z) (e : dirent) : candidate :=
  match read_exact (d_file e) 28 with
  | None => Bad (- EIO)
  | Some (err, header, _) =>
      if negb (err =? 0) then Bad err else
      match wmt_patch_parse (Some header) 28 (Some (d_name e)) firmware (Some zero_patch_file) with
      | Some (r, Some f) =>
          if r =? 0 then Patch f (take 15 header ++ [NUL])
          else if r =? 1 then Skip else Bad r
      | _ => Bad (- EIO)
      end
  end.

Record entry_ok (e : dirent) : Prop := {
  eo_name : is_Some (cstr (d_name e));
  eo_bytes : bytes_ok (f_data (d_file e));
  eo_script : Forall step_ok (f_script (d_file e));
  eo_errnos : 0 <= d_open e /\ 0 <= d_fstat e /\ 0 <= d_close e /\ 0 <= d_lseek e;
}.

Definition fw_ok (r : wmt_firmware_result) : Prop :=
  set_wf (fw_patches r) /\ length (fw_versions r) = 10%nat /\
  Forall (fun v => length v = 16%nat) (fw_versions r).

Lemma zero_firmware_ok : fw_ok zero_firmware.
Proof. split_and!; [apply zero_patch_set_wf|done|by repeat constructor]. Qed.

(** The set and the versions after a patch was added. *)
Definition with_patch (f : wmt_patch_file) (v : list Z) (r : wmt_firmware_result) : wmt_firmware_result :=
  let i := Z.to_nat (pi_sequence (pf_info f) - 1) in
  mk_firmware (mk_patch_set (pf_count f)
                 (Z.lor (ps_seen (fw_patches r)) (Z.shiftl 1 (pi_sequence (pf_info f) - 1)))
                 (<[i := pf_info f]> (ps_records (fw_patches r))))
    (<[i := v]> (fw_versions r)).

Lemma read_exact_bytes f size err bs f' :
  bytes_ok (f_data f) -> Forall step_ok (f_script f) -> read_exact f size = Some (err, bs, f') ->
  err = 0 -> bytes_ok bs /\ length bs = size.
Proof.
  intros Hb Hok Hr He.
  destruct (read_exact_loop_ok (length (f_script f) + 2) f size [] ltac:(lia) Hok)
    as ([[err' bs'] f''] & Hr' & _ & _ & H0 & _). unfold read_exact in Hr. simplify_eq.
  destruct (H0 eq_refl) as (-> & Hs & _). simpl. split; [by apply Forall_take, Forall_drop|].
  rewrite length_take, length_drop. unfold remaining in Hs. lia.
Qed.

(** What a parsed patch looks like. *)
Lemma classify_patch firmware e f v :
  entry_ok e -> classify firmware e = Patch f v ->
  file_wf f /\ file_ok f /\ length v = 16%nat.
Proof.
  intros [[nm Hn] Hb Hs _]. unfold classify.
  destruct (read_exact (d_file e) 28) as [[[err header] f']|] eqn:Hr; [|done].
  destruct (Z.eqb_spec err 0) as [He|]; [|done]. cbn [negb].
  destruct (read_exact_bytes _ _ _ _ _ Hb Hs Hr He) as [Hhb Hhl].
  destruct (patch_parse_cases header (d_name e) nm firmware zero_patch_file Hhb ltac:(lia) Hn)
    as (r & o & -> & Hc). cbv zeta in Hc.
  destruct (decide _) as [|Hgood]; [destruct Hc as [-> ->]; done|].
  destruct (decide _); [destruct Hc as [-> ->]; done|].
  destruct (decide _) as [Hseq|]; destruct Hc as [-> ->]; [|done]. cbn [Z.eqb]. intros [= <- <-].
  assert (length nm < 256)%nat as Hlen by (destruct (decide (256 <= length nm)%nat); [tauto|lia]).
  destruct (lookup_lt_is_Some_2 header 24) as [h24 H24]; [lia|]. rewrite H24 in *. cbn [from_option id] in *.
  pose proof (Forall_lookup_1 _ _ _ _ Hhb H24) as Hr24. unfold in_w in Hr24.
  split_and!; cbn [pf_info pf_count pi_sequence pi_name]; try lia.
  - split; [split; [done|]|split; split]; cbn [pf_info pf_count pi_sequence pi_name]; try lia.
    apply length_pad_to. lia.
  - split_and!; cbn [pf_info pf_count pi_sequence pi_name]; [lia|lia|unfold WMT_MAX_PATCHES; lia|].
    rewrite cstr_pad; [by eexists| |done]. by apply cstr_Some in Hn as [Hnz _].
  - by rewrite length_app, length_take, Hhl.
Qed.

(** The version of a header, in full. *)
Lemma build_version_eq header size old :
  (15 <= length header)%nat -> 16 <= size -> length old = 16%nat ->
  wmt_patch_build_version (Some header) size (Some old) = Some (0, Some (take 15 header ++ [NUL])).
Proof.
  intros Hl Hs Hol. unfold wmt_patch_build_version.
  rewrite (proj2 (Z.ltb_ge size 16)) by lia. unfold memcpy. rewrite load_n_ok by lia. cbn [mbind option_bind].
  assert (length (take 15 (drop 0 header)) = 15%nat) as Ht15 by (rewrite drop_0, length_take; lia).
  rewrite store_ok by lia. cbn [mbind option_bind].
  rewrite store_next by (simpl; lia). cbn [mbind option_bind].
  rewrite overwrite_0_drop, (drop_ge old) by (rewrite length_app; simpl; lia).
  by rewrite app_nil_r, drop_0.
Qed.

(** read_patch by cases on the candidate. *)
Lemma read_patch_eq firmware e found :
  entry_ok e -> fw_ok found ->
  read_patch e (d_name e) firmware found =
  match classify firmware e with
  | Bad err => Some (err, found)
  | Skip => Some (0, found)
  | Patch f v => Some (add_spec (fw_patches found) f,
                   if add_spec (fw_patches found) f =? 0 then with_patch f v found else found)
  end.
Proof.
  intros He (Hset & Hvl & Hv16). destruct (classify firmware e) as [err| |f v] eqn:Hcl.
  all: pose proof Hcl as Hcl2; unfold classify in Hcl; unfold read_patch.
  all: destruct He as [[nm Hn] Hb Hs Hen].
  all: destruct (read_exact_loop_ok (length (f_script (d_file e)) + 2) (d_file e) 28 [] ltac:(lia) Hs)
         as ([[re header] f'] & Hr & _ & _ & _); change (read_exact (d_file e) 28 = Some (re, header, f')) in Hr.
  all: rewrite Hr in Hcl |- *; cbn [mbind option_bind].
  all: destruct (Z.eqb_spec re 0) as [Hre|]; cbn [negb] in *; try (by simplify_eq).
  all: destruct (read_exact_bytes _ _ _ _ _ Hb Hs Hr Hre) as [Hhb Hhl].
  all: destruct (patch_parse_cases header (d_name e) nm firmware zero_patch_file Hhb ltac:(lia) Hn)
    as (r & o & Hp & _); rewrite Hp in Hcl |- *; cbn [mbind option_bind].
  all: destruct (Z.eqb_spec r 0) as [ ->|]; cbn [negb] in *; try (by destruct (r =? 1); simplify_eq); try discriminate.
  injection Hcl as <- <-.
  destruct (classify_patch firmware e o (take 15 header ++ [NUL])) as (Hwf & Hfok & Hlen);
    [by split; [exists nm|..]|done|].
  rewrite set_add_eq by done. cbn [mbind option_bind].
  destruct (Z.eqb_spec (add_spec (fw_patches found) o) 0) as [Ha|Ha]; cbn [negb]; [|by destruct found].
  cbn [fw_versions]. destruct Hfok as (Hq & Hc10 & _). unfold WMT_MAX_PATCHES in Hc10.
  destruct (lookup_lt_is_Some_2 (fw_versions found) (Z.to_nat (pi_sequence (pf_info o) - 1))) as [old Hold]; [lia|].
  rewrite Hold. cbn [mbind option_bind].
  pose proof (Forall_lookup_1 _ _ _ _ Hv16 Hold) as Hol. simpl in Hol.
  rewrite build_version_eq by lia. by rewrite Ha.
Qed.

Lemma with_patch_ok f v r :
  fw_ok r -> file_wf f -> length v = 16%nat -> add_spec (fw_patches r) f = 0 -> fw_ok (with_patch f v r).
Proof.
  intros (Hs & Hl & H16) Hf Hv Ha. destruct (set_add_wf _ _ Hs Hf Ha) as [Hs' _].
  split_and!; [exact Hs'|simpl; by rewrite length_insert|]. simpl. by apply Forall_insert.
Qed.

(** ** The search as a fold *)

Definition patch_prefix : list Z := lit "ROMv2_lm_patch".

(** The name starts with the prefix. *)
Definition is_candidate (prefix : list Z) (e : dirent) : bool :=
  match cstr (d_name e) with Some s => is_prefix prefix s | None => false end.

(** The calls around a candidate succeed. *)
Definition readable (e : dirent) : bool :=
  (d_open e =? 0) && (d_fstat e =? 0) && d_regular e && (d_close e =? 0).

(** The effect of a readable candidate, [None] when it stops the search. *)
Definition contribute (firmware : Z) (e : dirent) (r : wmt_firmware_result) : option wmt_firmware_result :=
  match classify firmware e with
  | Bad _ => None
  | Skip => Some r
  | Patch f v => if add_spec (fw_patches r) f =? 0 then Some (with_patch f v r) else None
  end.

(** The effect of an entry. *)
Definition patch_step (firmware : Z) (e : dirent) (r : wmt_firmware_result) : option wmt_firmware_result :=
  if negb (is_candidate patch_prefix e) then Some r else
  if negb (readable e) then None else contribute firmware e r.

Definition dir_ok (d : dir) : Prop :=
  Forall entry_ok (dir_entries d) /\ 0 <= dir_open d /\ 0 <= dir_end d /\ 0 <= dir_close d.

(** Opened and closed in pairs. *)
Fixpoint paired (log : list fs_event) : Prop :=
  match log with
  | [] => True
  | EvOpen n :: EvClose n' :: log => n = n' /\ paired log
  | _ => False
  end.

Lemma paired_app a b : paired a -> paired b -> paired (a ++ b).
Proof.
  revert b. induction a as [a IH] using (induction_ltof1 _ (@length _)). unfold ltof in IH.
  intros b Ha Hb. destruct a as [|[|n|n|] [|[|n'|n'|] a]]; simpl in *; try done.
  destruct Ha as [-> Ha]. split; [done|]. apply IH; [lia|done|done].
Qed.

Lemma strncmp_prefix e prefix :
  is_Some (cstr (d_name e)) -> Forall (fun c => c <> 0) prefix ->
  strncmp_eq (d_name e) (prefix ++ [NUL]) (length prefix) = Some (is_candidate prefix e).
Proof.
  intros [s Hs] Hp. unfold is_candidate. rewrite Hs. apply cstr_Some in Hs as (Hnz & rest & ->).
  induction prefix as [|c p IH] in s, Hnz, Hp |- *; [done|]. inversion_clear Hp as [|? ? Hc Hp'].
  destruct s as [|x s]; cbn -[Z.eqb].
  - rewrite (proj2 (Z.eqb_neq 0 c)) by congruence. done.
  - inversion_clear Hnz as [|? ? Hx Hnz']. rewrite (Z.eqb_sym x c).
    destruct (Z.eqb_spec c x) as [ ->|]; [|done]. rewrite (proj2 (Z.eqb_neq _ 0)) by done. by apply IH.
Qed.

Lemma classify_bad firmware e err : classify firmware e = Bad err -> err <> 0.
Proof.
  unfold classify. destruct (read_exact _ _) as [[[r h] f]|]; [|by intros [= <-]].
  destruct (Z.eqb_spec r 0); cbn [negb]; [|by intros [= <-]].
  destruct (wmt_patch_parse _ _ _ _ _) as [[q [o|]]|]; [|by intros [= <-]..].
  destruct (Z.eqb_spec q 0); [done|]. destruct (q =? 1); [done|]. by intros [= <-].
Qed.

(** One candidate, against the fold. *)
Lemma visit_patch_spec firmware e r :
  entry_ok e -> fw_ok r ->
  exists err r' ev, visit read_patch firmware e r = Some (err, r', ev) /\ paired ev /\ fw_ok r' /\
    (if readable e then contribute firmware e r else None) = if err =? 0 then Some r' else None.
Proof.
  intros He Hr. pose proof (eo_errnos _ He) as (Ho & Hf & Hc & _). unfold visit, readable.
  destruct (Z.eqb_spec (d_open e) 0) as [|Hno]; cbn [negb andb].
  2: { eexists _, r, []. split_and!; try done. by rewrite (proj2 (Z.eqb_neq _ _)) by lia. }
  destruct (Z.eqb_spec (d_fstat e) 0) as [|Hnf]; cbn [negb andb].
  2: { cbn [mbind option_bind]. eexists _, r, _. split; [reflexivity|]. split_and!; try done.
       rewrite (proj2 (Z.eqb_neq (- d_fstat e) 0)), andb_false_r by lia.
       by rewrite (proj2 (Z.eqb_neq _ _)) by lia. }
  destruct (d_regular e); cbn [negb andb mbind option_bind].
  2: { eexists _, r, _. split; [reflexivity|]. split_and!; try done. by rewrite andb_false_r. }
  rewrite read_patch_eq by done. unfold contribute.
  assert (forall err r', fw_ok r' ->
    exists err2 r2 ev, Some (if negb (d_close e =? 0) && (err =? 0) then - d_close e else err, r',
      [EvOpen (d_name e); EvClose (d_name e)]) = Some (err2, r2, ev) /\ paired ev /\ fw_ok r2 /\
    (if d_close e =? 0 then (if err =? 0 then Some r' else None) else None) =
      if err2 =? 0 then Some r2 else None) as Hend.
  { intros err r' Hr'. eexists _, _, _. split; [reflexivity|]. split; [done|]. split; [done|].
    destruct (Z.eqb_spec (d_close e) 0); cbn [negb andb]; [done|].
    destruct (Z.eqb_spec err 0); [by rewrite (proj2 (Z.eqb_neq _ _)) by lia|].
    by rewrite (proj2 (Z.eqb_neq _ _)) by lia. }
  destruct (classify firmware e) as [err| |f v] eqn:Hcl; cbn [mbind option_bind].
  - pose proof (classify_bad _ _ _ Hcl) as Hne. specialize (Hend err r Hr).
    rewrite (proj2 (Z.eqb_neq err 0)) in * by done. exact Hend.
  - exact (Hend 0 r Hr).
  - destruct (classify_patch _ _ _ _ He Hcl) as (Hwf & _ & H16).
    destruct (Z.eqb_spec (add_spec (fw_patches r) f) 0) as [Ha|Ha].
    + rewrite Ha. apply (Hend 0). by apply with_patch_ok.
    + specialize (Hend (add_spec (fw_patches r) f) r Hr).
      rewrite (proj2 (Z.eqb_neq (add_spec (fw_patches r) f) 0)) in * by done. exact Hend.
Qed.

(** The loop is the fold, and everything it opened it closed. *)
Lemma search_loop_spec firmware d entries r log :
  Forall entry_ok entries -> fw_ok r -> 0 <= dir_end d ->
  exists err r' ev, search_loop read_patch patch_prefix firmware d entries r log = Some (err, r', log ++ ev) /\
    paired ev /\ fw_ok r' /\
    (if dir_end d =? 0 then for_c entries r (patch_step firmware) else None) =
      if err =? 0 then Some r' else None.
Proof.
  intros Hok Hr Hd. revert r log Hr. induction Hok as [|e entries He _ IH]; intros r log Hr.
  { simpl. eexists _, r, []. rewrite app_nil_r. split_and!; try done.
    destruct (Z.eqb_spec (dir_end d) 0) as [ ->|]; [done|]. by rewrite (proj2 (Z.eqb_neq _ _)) by lia. }
  cbn [search_loop for_c]. rewrite strncmp_prefix; [|apply He|by repeat constructor].
  assert (patch_step firmware e r = if is_candidate patch_prefix e then
    (if readable e then contribute firmware e r else None) else Some r) as ->
    by (unfold patch_step; by destruct (is_candidate _ _), (readable e)).
  cbn [mbind option_bind]. destruct (is_candidate patch_prefix e); cbn [negb].
  2: { cbn [mbind option_bind]. by apply IH. }
  destruct (visit_patch_spec firmware e r He Hr) as (err & r' & ev & -> & Hev & Hr' & Hc).
  cbn [mbind option_bind]. destruct (Z.eqb_spec err 0) as [->|Hne]; cbn [negb].
  - destruct (IH r' (log ++ ev) Hr') as (err2 & r2 & ev2 & H2 & Hp2 & Hr2 & Hc2).
    exists err2, r2, (ev ++ ev2). rewrite H2, (assoc_L (++)). split_and!; [done|by apply paired_app|done|].
    rewrite <- Hc2, Hc. done.
  - exists err, r', ev. split_and!; [done..|]. rewrite (proj2 (Z.eqb_neq err 0)) by done.
    rewrite Hc. by destruct (dir_end d =? 0).
Qed.

(** Any consumer that always answers, and extends an invariant on the entries
    seen so far when it succeeds, makes the search answer, close what it opened,
    and establish the invariant for the whole directory when it succeeds. *)
Section SearchTotal.
Context {R : Type} (consume : dirent -> list Z -> Z -> R -> option (Z * R)).
Context (I : list dirent -> R -> Prop) (prefix : list Z) (firmware : Z).
Context (Hskip : forall seen e r, is_candidate prefix e = false -> I seen r -> I (seen ++ [e]) r).
Context (Hcons : forall seen e r, entry_ok e -> is_candidate prefix e = true -> I seen r ->
  exists err r', consume e (d_name e) firmware r = Some (err, r') /\ (err = 0 -> I (seen ++ [e]) r')).
Context (Hpre : Forall (fun c => c <> 0) prefix).

Lemma visit_total seen e r :
  entry_ok e -> is_candidate prefix e = true -> I seen r ->
  exists err r' ev, visit consume firmware e r = Some (err, r', ev) /\
    (err = 0 -> I (seen ++ [e]) r') /\ paired ev.
Proof.
  intros He Hc Hr. unfold visit. destruct (Z.eqb_spec (d_open e) 0); cbn [negb].
  2: { eexists _, r, []. split_and!; [done|lia|done]. }
  destruct (Z.eqb_spec (d_fstat e) 0) as [Hf|Hf]; cbn [negb].
  2: { eexists _, r, _. split; [reflexivity|]. rewrite (proj2 (Z.eqb_neq (- d_fstat e) 0)), andb_false_r by lia.
       split; [lia|done]. }
  destruct (d_regular e); cbn [negb].
  2: { eexists _, r, _. split; [reflexivity|]. rewrite andb_false_r. done. }
  destruct (Hcons seen e r He Hc Hr) as (err & r' & -> & Hi). cbn [mbind option_bind].
  eexists _, r', _. split; [reflexivity|]. split; [|done].
  destruct (Z.eqb_spec err 0) as [ ->|]; [intros _; by apply Hi|]. by rewrite andb_false_r.
Qed.

Lemma search_loop_total d entries seen r log :
  Forall entry_ok entries -> I seen r ->
  exists err r' ev, search_loop consume prefix firmware d entries r log = Some (err, r', log ++ ev) /\
    (err = 0 -> I (seen ++ entries) r') /\ paired ev.
Proof.
  revert seen r log. induction entries as [|e entries IH]; intros seen r log Hf Hr.
  { eexists _, r, []. rewrite !app_nil_r. done. }
  apply Forall_cons in Hf as [He Hf]. cbn [search_loop].
  rewrite strncmp_prefix by (done || apply He). cbn [mbind option_bind].
  replace (seen ++ e :: entries) with ((seen ++ [e]) ++ entries) by (by rewrite <- (assoc_L (++))).
  destruct (is_candidate prefix e) eqn:Hc; cbn [negb]; [|apply IH; auto].
  destruct (visit_total seen e r He Hc Hr) as (err & r1 & ev & -> & H1 & Hp).
  cbn [mbind option_bind]. destruct (Z.eqb_spec err 0) as [H0|H0]; cbn [negb].
  - destruct (IH (seen ++ [e]) r1 (log ++ ev) Hf (H1 H0)) as (err2 & r2 & ev2 & -> & ? & ?).
    exists err2, r2, (ev ++ ev2). rewrite (assoc_L (++)). split_and!; try done. by apply paired_app.
  - exists err, r1, ev. split_and!; done.
Qed.

Lemma search_directory_total d r :
  dir_ok d -> I [] r ->
  exists err r' log, search_directory consume prefix firmware d r = Some (err, r', log) /\
    (err = 0 -> I (dir_entries d) r') /\
    (log = [] \/ exists ev, log = EvOpendir :: ev ++ [EvClosedir] /\ paired ev).
Proof.
  intros (Hent & Ho & _ & _) Hr. unfold search_directory. destruct (Z.eqb_spec (dir_open d) 0); cbn [negb].
  2: { eexists _, r, []. split_and!; [done|lia|by left]. }
  destruct (search_loop_total d (dir_entries d) [] r [EvOpendir] Hent Hr) as (err & r' & ev & -> & Hi & ?).
  cbn [mbind option_bind]. eexists _, r', _. split; [reflexivity|]. split.
  - destruct (Z.eqb_spec err 0) as [ ->|]; [intros _; by apply Hi|]. by rewrite andb_false_r.
  - right. exists ev. by rewrite <- (assoc_L (++)).
Qed.
End SearchTotal.

(** What a successful search found: the fold over the directory's entries, with
    every slot of the count filled. *)
Definition found_by (fs : dir) (firmware : Z) (found : wmt_firmware_result) : Prop :=
  dir_open fs = 0 /\ dir_end fs = 0 /\ dir_close fs = 0 /\
  for_c (dir_entries fs) zero_firmware (patch_step firmware) = Some found /\
  wmt_patch_set_complete (Some (fw_patches found)) = 0.

Lemma firmware_search_cases path fs firmware out c rest :
  dir_ok fs -> path = c :: rest -> c <> NUL ->
  exists err out' log, wmt_firmware_search (Some path) fs firmware (Some out) = Some (err, Some out', log) /\
    (log = [] \/ exists ev, log = EvOpendir :: ev ++ [EvClosedir] /\ paired ev) /\
    (err <> 0 -> out' = out) /\ (err = 0 <-> exists found, found_by fs firmware found) /\
    (forall found, found_by fs firmware found -> out' = found).
Proof.
  intros (Hent & Ho & He & Hc) -> Hnz. unfold wmt_firmware_search, search_directory.
  rewrite (proj2 (Z.eqb_neq c NUL)) by done. fold patch_prefix.
  destruct (Z.eqb_spec (dir_open fs) 0) as [Ho0|Ho0]; cbn [negb mbind option_bind].
  2: { rewrite (proj2 (Z.eqb_neq (- dir_open fs) 0)) by lia. rewrite (proj2 (Z.eqb_neq (- dir_open fs) 0)) by lia.
       eexists _, _, _. split; [reflexivity|]. split; [by left|]. split; [done|].
       split; [split; [lia|intros (? & ? & _); lia]|intros ? (? & _); lia]. }
  destruct (search_loop_spec firmware fs (dir_entries fs) zero_firmware [EvOpendir] Hent zero_firmware_ok He)
    as (err & r & ev & -> & Hev & _ & Hfold). cbn [mbind option_bind].
  set (err2 := if negb (dir_close fs =? 0) && (err =? 0) then - dir_close fs else err).
  set (err3 := if err2 =? 0 then wmt_patch_set_complete (Some (fw_patches r)) else err2).
  assert (err3 = 0 <-> dir_end fs = 0 /\ dir_close fs = 0 /\
    for_c (dir_entries fs) zero_firmware (patch_step firmware) = Some r /\
    wmt_patch_set_complete (Some (fw_patches r)) = 0) as Hiff.
  { unfold err3, err2. destruct (Z.eqb_spec (dir_end fs) 0) as [He0|He0].
    - rewrite Hfold. destruct (Z.eqb_spec err 0) as [ ->|Hne].
      + destruct (Z.eqb_spec (dir_close fs) 0) as [Hc0|Hc0]; cbn [negb andb Z.eqb].
        * rewrite Hc0. tauto.
        * rewrite (proj2 (Z.eqb_neq (- dir_close fs) 0)) by lia. lia.
      + rewrite andb_false_r, (proj2 (Z.eqb_neq err 0)) by done. split; [done|by intros (_ & _ & ? & _)].
    - destruct (Z.eqb_spec err 0) as [ ->|Hne]; [done|]. rewrite andb_false_r, (proj2 (Z.eqb_neq err 0)) by done.
      split; [done|by intros (? & _)]. }
  assert (forall found, found_by fs firmware found -> found = r /\ err3 = 0) as Hby.
  { intros found (_ & He0 & Hc0 & Hf & Hcomp). rewrite He0 in Hfold. cbn [Z.eqb] in Hfold.
    rewrite Hf in Hfold. destruct (err =? 0) eqn:Herr; [|done]. injection Hfold as <-.
    split; [done|]. by apply Hiff. }
  exists err3, (if err3 =? 0 then r else out), (([EvOpendir] ++ ev) ++ [EvClosedir]).
  split_and!.
  - by destruct (err3 =? 0).
  - right. exists ev. by rewrite <- (assoc_L (++)).
  - intros Hne. by rewrite (proj2 (Z.eqb_neq err3 0)).
  - split; [|intros [found Hf]; by apply Hby in Hf as [_ ?]]. intros H0. exists r.
    apply Hiff in H0 as (? & ? & ? & ?). done.
  - intros found Hf. apply Hby in Hf as [-> H0]. by rewrite H0.
Qed.

(** The effect of an entry does not depend on what was found before. *)
Definition effect (firmware : Z) (e : dirent) : candidate :=
  if negb (is_candidate patch_prefix e) then Skip else
  if negb (readable e) then Bad (- EIO) else classify firmware e.

Lemma patch_step_effect firmware e r :
  patch_step firmware e r =
  match effect firmware e with
  | Bad _ => None
  | Skip => Some r
  | Patch f v => if add_spec (fw_patches r) f =? 0 then Some (with_patch f v r) else None
  end.
Proof. unfold patch_step, contribute, effect. by destruct (is_candidate _ _), (readable e). Qed.

Lemma effect_patch firmware e f v :
  entry_ok e -> effect firmware e = Patch f v -> file_wf f /\ file_ok f /\ length v = 16%nat.
Proof.
  intros He. unfold effect. destruct (negb _); [done|]. destruct (negb _); [done|]. by apply classify_patch.
Qed.

Lemma patch_step_ok firmware e r r' :
  entry_ok e -> fw_ok r -> patch_step firmware e r = Some r' -> fw_ok r'.
Proof.
  intros He Hr. rewrite patch_step_effect. destruct (effect firmware e) as [| |f v] eqn:Hef;
    [done|by intros [= <-]|]. destruct (effect_patch _ _ _ _ He Hef) as (? & _ & ?).
  destruct (Z.eqb_spec (add_spec (fw_patches r) f) 0); [|done]. intros [= <-]. by apply with_patch_ok.
Qed.

(** Two patches that can be added in one order can be added in the other. *)
Lemma with_patch_swap f v g w r :
  fw_ok r -> file_wf f -> file_wf g -> file_ok f -> file_ok g ->
  add_spec (fw_patches r) f = 0 -> add_spec (fw_patches (with_patch f v r)) g = 0 ->
  add_spec (fw_patches r) g = 0 /\ add_spec (fw_patches (with_patch g w r)) f = 0 /\
  with_patch g w (with_patch f v r) = with_patch f v (with_patch g w r).
Proof.
  intros (Hs & _) Hf Hg Fok Gok Ef Eg. pose proof (set_add_wf _ _ Hs Hf Ef) as [_ Hc1].
  apply add_spec_0 in Ef as (_ & Fcount & Ffree). apply add_spec_0 in Eg as (_ & Gcount & Gfree).
  simpl in Gcount, Gfree. cbv zeta in Hc1. rewrite Hc1, lookup_insert_None in Gfree.
  destruct Gfree as [Gfree Hne].
  assert (pf_count g = pf_count f) as Hcnt by (destruct Fok as (? & _ & _); lia).
  assert (add_spec (fw_patches r) g = 0) as Eg0 by (apply add_spec_0; split_and!; [done|lia|done]).
  pose proof (set_add_wf _ _ Hs Hg Eg0) as [_ Hc2]. cbv zeta in Hc2.
  split_and!; [done| |].
  - apply add_spec_0. split_and!; [done|simpl; lia|]. simpl. rewrite Hc2, lookup_insert_None. done.
  - unfold with_patch. simpl. f_equal; [f_equal; [done| |]|].
    + rewrite <- !Z.lor_assoc. f_equal. apply Z.lor_comm.
    + symmetry. by apply list_insert_insert_ne.
    + symmetry. by apply list_insert_insert_ne.
Qed.

(** Entries commute whenever both succeed. *)
Lemma patch_step_swap firmware x y r r' :
  entry_ok x -> entry_ok y -> fw_ok r ->
  for_c [x; y] r (patch_step firmware) = Some r' -> for_c [y; x] r (patch_step firmware) = Some r'.
Proof.
  intros Hx Hy Hr. cbn [for_c]. rewrite !patch_step_effect.
  destruct (effect firmware x) as [| |f v] eqn:Cx, (effect firmware y) as [| |g w] eqn:Cy; try done;
    cbn [mbind option_bind]; try rewrite patch_step_effect, Cy; try rewrite patch_step_effect, Cx; try done.
  - by destruct (add_spec _ g =? 0); cbn [mbind option_bind]; rewrite ?patch_step_effect, ?Cx.
  - by destruct (add_spec _ f =? 0); cbn [mbind option_bind]; rewrite ?patch_step_effect, ?Cx, ?Cy.
  - by destruct (add_spec _ f =? 0); cbn [mbind option_bind]; rewrite ?patch_step_effect, ?Cx, ?Cy.
  - destruct (effect_patch _ _ _ _ Hx Cx) as (Fwf & Fok & _), (effect_patch _ _ _ _ Hy Cy) as (Gwf & Gok & _).
    destruct (Z.eqb_spec (add_spec (fw_patches r) f) 0) as [Ef|]; cbn [mbind option_bind]; [|done].
    rewrite patch_step_effect, Cy. destruct (Z.eqb_spec (add_spec (fw_patches (with_patch f v r)) g) 0) as [Eg|];
      cbn [mbind option_bind]; [|done]. intros [= <-].
    destruct (with_patch_swap f v g w r) as (Eg0 & Ef2 & Heq); try done.
    rewrite Eg0. cbn [Z.eqb mbind option_bind]. by rewrite patch_step_effect, Cx, Ef2, Heq.
Qed.

(** C7: A firmware search is all-or-nothing and leaks nothing.  Whatever the
    directory, its files and the calls on them do, it returns; every file that was
    opened was closed before the next, and the directory stream is closed; a
    nonzero answer leaves the output untouched; and 0 is returned, with exactly
    the collected patches and versions as output, precisely when every call on
    the directory and on its candidates succeeds, each candidate is another
    firmware's or a patch that fits the set, and the set is complete. *)
Theorem wmt_firmware_search_spec path fs firmware out c rest :
  dir_ok fs -> path = c :: rest -> c <> NUL ->
  exists err out' log, wmt_firmware_search (Some path) fs firmware (Some out) = Some (err, Some out', log) /\
    (log = [] \/ exists ev, log = EvOpendir :: ev ++ [EvClosedir] /\ paired ev) /\
    (err <> 0 -> out' = out) /\ (err = 0 <-> exists found, found_by fs firmware found) /\
    (forall found, found_by fs firmware found -> out' = found).
Proof. apply firmware_search_cases. Qed.

(** C37: The order in which a directory delivers its entries does not matter: when
    the search succeeds for one order it succeeds for every order with the same
    output, patches and version strings included. *)
Theorem firmware_search_order_independent path fs entries firmware out found log c rest :
  dir_ok fs -> path = c :: rest -> c <> NUL -> Permutation (dir_entries fs) entries ->
  wmt_firmware_search (Some path) fs firmware (Some out) = Some (0, Some found, log) ->
  exists log', wmt_firmware_search (Some path) (mk_dir (dir_open fs) entries (dir_end fs) (dir_close fs))
    firmware (Some out) = Some (0, Some found, log').
Proof.
  intros Hd Hp Hc HP Hr.
  destruct (firmware_search_cases path fs firmware out c rest Hd Hp Hc) as (e1 & o1 & l1 & H1 & _ & _ & Hz1 & Ho1).
  rewrite H1 in Hr. injection Hr as -> -> ->. destruct (proj1 Hz1 eq_refl) as [f Hf].
  rewrite (Ho1 f Hf) in *. destruct Hf as (F1 & F2 & F3 & F4 & F5).
  set (fs' := mk_dir _ _ _ _). destruct Hd as (Hent & Hrest).
  assert (dir_ok fs') as Hd' by (split; [simpl; by rewrite <- HP|done]).
  assert (found_by fs' firmware f) as Hf'.
  { split_and!; try done. simpl.
    eapply (for_c_permutation (patch_step firmware) fw_ok entry_ok); eauto using zero_firmware_ok.
    - intros; by eapply patch_step_ok.
    - intros; by eapply patch_step_swap. }
  destruct (firmware_search_cases path fs' firmware out c rest Hd' Hp Hc) as (e2 & o2 & l2 & H2 & _ & _ & Hz2 & Ho2).
  exists l2. rewrite H2, (Ho2 f Hf'). do 3 f_equal. apply Hz2. by exists f.
Qed.

(** ** A sample directory *)

Definition sample_patch_header (seq : Z) : list Z :=
  lit "20200101120000a" ++ replicate 8 0 ++ [0x01; 0x20 + seq; 0; 0x10; 0xf0].

Definition sample_entry (name : string) (data : list Z) : dirent :=
  mk_dirent (lit name ++ [NUL]) 0 0 true (Z.of_nat (length data)) (mk_file data 0 [RdChunk 9; RdFail EINTR])
    true 0 0.

Definition sample_entries : list dirent :=
  [sample_entry "README" []; sample_entry "ROMv2_lm_patch_1_1_hdr.bin" (sample_patch_header 2 ++ [1; 2; 3]);
   sample_entry "ROMv2_lm_patch_1_0_hdr.bin" (sample_patch_header 1)].

Definition sample_dir : dir := mk_dir 0 sample_entries 0 0.
Definition sample_path : list Z := lit "/vendor/firmware/" ++ [NUL].

Lemma sample_entry_ok name data : forallb (fun b => (0 <=? b) && (b <? 256)) data = true ->
  entry_ok (sample_entry name data).
Proof.
  intros Hd. split; simpl.
  - induction name as [|a s IH]; simpl; [by eexists|]. destruct (_ =? 0); [by eexists|].
    destruct IH as [t ->]. by eexists.
  - by apply bytes_ok_dec.
  - by repeat constructor.
  - lia.
Qed.

Lemma sample_dir_ok : dir_ok sample_dir.
Proof.
  split; [|simpl; lia]. simpl. unfold sample_entries. rewrite !Forall_cons.
  split_and!; [apply sample_entry_ok; vm_compute; reflexivity..|done].
Qed.

Lemma wmt_firmware_search_spec_witness :
  exists err out' log, wmt_firmware_search (Some sample_path) sample_dir 1 (Some zero_firmware) =
    Some (err, Some out', log) /\
    (log = [] \/ exists ev, log = EvOpendir :: ev ++ [EvClosedir] /\ paired ev).
Proof.
  destruct (wmt_firmware_search_spec sample_path sample_dir 1 zero_firmware 47
    (lit "vendor/firmware/" ++ [NUL]) sample_dir_ok eq_refl ltac:(done)) as (err & out' & log & Hr & Hl & _).
  by exists err, out', log.
Defined.

Definition sample_found : wmt_firmware_result :=
  match wmt_firmware_search (Some sample_path) sample_dir 1 (Some zero_firmware) with
  | Some (_, Some r, _) => r
  | _ => zero_firmware
  end.

Lemma firmware_search_order_independent_witness :
  ps_count (fw_patches sample_found) = 2 /\
  exists log, wmt_firmware_search (Some sample_path) (mk_dir 0 (rev sample_entries) 0 0) 1 (Some zero_firmware) =
    Some (0, Some sample_found, log).
Proof.
  split; [vm_compute; reflexivity|].
  refine (firmware_search_order_independent sample_path sample_dir (rev sample_entries) 1 zero_firmware
    sample_found [EvOpendir; EvOpen (lit "ROMv2_lm_patch_1_1_hdr.bin" ++ [NUL]);
      EvClose (lit "ROMv2_lm_patch_1_1_hdr.bin" ++ [NUL]);
      EvOpen (lit "ROMv2_lm_patch_1_0_hdr.bin" ++ [NUL]);
      EvClose (lit "ROMv2_lm_patch_1_0_hdr.bin" ++ [NUL]); EvClosedir]
    47 (lit "vendor/firmware/" ++ [NUL]) sample_dir_ok eq_refl ltac:(done) _ _).
  - apply Permutation_rev.
  - vm_compute. reflexivity.
Defined.
