(* ===== verification/WmtRom.v ===== *)
(** * Searching the ROM files (wmt-launcher/firmware.c, ROMs)

    The Bluetooth version text inside a RAM image, the ROM header, and
    [wmt_rom_search].  A file is a byte list; positions in it replace pointers.
    The theorems: the version text is always a terminated string of the file
    without a newline, and a search is all-or-nothing and yields a record set
    whose parts agree. *)

From S2P Require Import Prelude CMem WmtPatch WmtSearch.

Definition WMT_ROM_TYPES : Z := 5.
Definition WMT_ROM_HEADER_SIZE : Z := 32.
Definition WMT_BT_VERSION_SIZE : Z := 92.
Definition WMT_BT_VERSION_FILE_LIMIT : Z := 1024 * 1024.

Record wmt_rom_info := mk_rom_info { ri_type : Z; ri_address : list Z; ri_name : list Z }.

Record wmt_rom_set := mk_rom_set {
  rs_count : Z;
  rs_seen : Z;
  rs_records : list wmt_rom_info;
  rs_has_wifi : bool;
  rs_has_bt : bool;
  rs_wifi : list Z;
  rs_bt : list Z;
}.

Definition zero_rom_info : wmt_rom_info := mk_rom_info 0 (replicate 4 0) (replicate 256 0).
Definition zero_rom_set : wmt_rom_set :=
  mk_rom_set 0 0 (replicate 5 zero_rom_info) false false (replicate 16 0) (replicate 92 0).

(** ** The Bluetooth version *)

(** The first position of [text] in [data]. *)
Definition find_bytes (data text : list Z) : option nat :=
  if (length data <? length text)%nat then None else
  List.find (fun i => bool_decide (take (length text) (drop i data) = text))
    (seq 0 (length data - length text + 1)).

Definition start_marker : list Z := lit "BABEFACEBABEFACE".
Definition end_marker : list Z := lit "DEADBEEFDEADBEEF".

(** Where the text starts and how long it is, between the two markers. *)
Definition bt_text (data : list Z) (start end_ : nat) : option (option (nat * nat)) :=
  nul ← memchr data start NUL (end_ - start);
  let span := match nul with Some n => n | None => (end_ - start)%nat end in
  let interval := take span (drop start data) in
  match find_bytes interval (lit "t-neptune") with
  | Some t => Some (Some ((start + t)%nat, (end_ - (start + t))%nat))
  | None =>
      match find_bytes interval (lit "= debug") with
      | Some _ => Some (Some (0%nat, 14%nat))
      | None => Some None
      end
  end.

(** [strchr(version, '\n')], with the cut. *)
Definition cut_newline (version : list Z) : option (list Z) :=
  s ← cstr version;
  match list_find (fun c => c = 10) s with
  | Some (i, _) => Some (<[i := NUL]> version)
  | None => Some version
  end.

(** The answer, the version array and [*present]. *)
Definition bt_version (data version : list Z) : option (Z * list Z * bool) :=
  match find_bytes data start_marker with
  | None =>
      Some (match find_bytes data end_marker with Some _ => - EBADMSG | None => 0 end, version, false)
  | Some start =>
      match find_bytes (drop (start + 16) data) end_marker with
      | None => Some (- EBADMSG, version, false)
      | Some k =>
          text ← bt_text data start (start + 16 + k);
          match text with
          | None => Some (0, version, false)
          | Some (off, length) =>
              let length := if (92 <=? length)%nat then 91%nat else length in
              version ← memcpy version 0 data off length;
              version ← store version length [NUL];
              version ← cut_newline version;
              Some (0, version, true)
          end
      end
  end.

(** One more byte, past interruptions. *)
Fixpoint read_extra (fuel : nat) (f : file) : option read_result :=
  match fuel with
  | O => None
  | S fuel =>
      match read f 1 with
      | (RErr e, f) => if e =? EINTR then read_extra fuel f else Some (RErr e)
      | (r, _) => Some r
      end
  end.

Definition read_bt_version (e : dirent) (f : file) (version : list Z) : option (Z * list Z * bool) :=
  if d_size e <? WMT_ROM_HEADER_SIZE then Some (- EMSGSIZE, version, false) else
  if WMT_BT_VERSION_FILE_LIMIT <? d_size e then Some (- EFBIG, version, false) else
  let size := Z.to_nat (d_size e) in
  if negb (d_malloc e) then Some (- ENOMEM, version, false) else
  if negb (d_lseek e =? 0) then Some (- d_lseek e, version, false) else
  '(error, data, f) ← read_exact (mk_file (f_data f) 0 (f_script f)) size;
  if negb (error =? 0) then Some (error, version, false) else
  r ← read_extra (S (length (f_script f))) f;
  match r with
  | RErr errno => Some (- errno, version, false)
  | ROk (_ :: _) => Some (- ESTALE, version, false)
  | ROk [] => bt_version data version
  end.

(** ** ROM headers *)

(** The Wi-Fi version, which all Wi-Fi images must share. *)
Definition rom_wifi (header name : list Z) (found : wmt_rom_set) : option (Z * wmt_rom_set) :=
  wifi ← strstr_in name (lit "ram_wifi");
  if (wifi : bool) then
    '(error, v) ← wmt_patch_build_version (Some header) 32 (Some (replicate 16 0));
    v ← v;
    if negb (error =? 0) then Some (error, found) else
    differs ← (if rs_has_wifi found then negb <$> strcmp_eq (rs_wifi found) v else Some false);
    if (differs : bool) then Some (- EINVAL, found) else
    Some (0, mk_rom_set (rs_count found) (rs_seen found) (rs_records found) true (rs_has_bt found) v
               (rs_bt found))
  else Some (0, found).

(** The Bluetooth version likewise. *)
Definition rom_bt (e : dirent) (f : file) (name : list Z) (found : wmt_rom_set) : option (Z * wmt_rom_set) :=
  bt ← strstr_in name (lit "ram_bt");
  if (bt : bool) then
    '(error, v, present) ← read_bt_version e f (replicate 92 0);
    if negb (error =? 0) then Some (error, found) else
    if (present : bool) then
      differs ← (if rs_has_bt found then negb <$> strcmp_eq (rs_bt found) v else Some false);
      if (differs : bool) then Some (- EINVAL, found) else
      Some (0, mk_rom_set (rs_count found) (rs_seen found) (rs_records found) (rs_has_wifi found) true
                 (rs_wifi found) v)
    else Some (0, found)
  else Some (0, found).

Definition read_rom (e : dirent) (name : list Z) (firmware : Z) (found : wmt_rom_set)
    : option (Z * wmt_rom_set) :=
  name_size ← strnlen name 256;
  ret_if Some ((name_size =? 0)%nat || (name_size =? 256)%nat) ||? strchr_in name 47
    ret Some (- EINVAL, found);
  '(error, header, f) ← read_exact (d_file e) 32;
  if negb (error =? 0) then Some (error, found) else
  h23 ← header !! 23%nat;
  if negb (h23 =? Z.land firmware 0xff) then Some (0, found) else
  type ← header !! 31%nat;
  h27 ← header !! 27%nat;
  if (Z.land h27 0xf0 =? 0) || (WMT_ROM_TYPES <=? type) then Some (- EINVAL, found) else
  let bit := u32 (Z.shiftl 1 type) in
  if negb (Z.land (rs_seen found) bit =? 0) then Some (- EEXIST, found) else
  address ← memcpy (replicate 4 0) 1 header 25 3;
  nm ← memcpy (replicate 256 0) 0 name 0 (name_size + 1);
  let file := mk_rom_info type address nm in
  '(error, found) ← rom_wifi header name found;
  if negb (error =? 0) then Some (error, found) else
  '(error, found) ← rom_bt e f name found;
  if negb (error =? 0) then Some (error, found) else
  _ ← rs_records found !! Z.to_nat type;
  Some (0, mk_rom_set (u32 (rs_count found + 1)) (Z.lor (rs_seen found) bit)
             (<[Z.to_nat type := file]> (rs_records found)) (rs_has_wifi found) (rs_has_bt found)
             (rs_wifi found) (rs_bt found)).

Definition rom_prefix : list Z := lit "soc1_0_ram".

Definition wmt_rom_search (directory : option (list Z)) (fs : dir) (firmware : Z)
    (output : option wmt_rom_set) : option (Z * option wmt_rom_set * list fs_event) :=
  match directory, output with
  | Some [], Some _ => None
  | Some (c :: _), Some _ =>
      if c =? NUL then Some (- EINVAL, output, []) else
      '(error, found, log) ← search_directory read_rom rom_prefix firmware fs zero_rom_set;
      Some (error, if error =? 0 then Some found else output, log)
  | _, _ => Some (- EINVAL, output, [])
  end.

(** ** The version text *)

Lemma find_bytes_Some data text i :
  find_bytes data text = Some i ->
  (i + length text <= length data)%nat /\ take (length text) (drop i data) = text.
Proof.
  unfold find_bytes. destruct (Nat.ltb_spec (length data) (length text)); [done|].
  intros Hf. apply find_some in Hf as [Hin Hb]. apply in_seq in Hin. zb. split; [lia|done].
Qed.

Lemma find_bytes_None data text i :
  find_bytes data text = None -> (i + length text <= length data)%nat ->
  take (length text) (drop i data) <> text.
Proof.
  unfold find_bytes. destruct (Nat.ltb_spec (length data) (length text)); [lia|].
  intros Hf Hi. assert (In i (seq 0 (length data - length text + 1))) as Hin by (apply in_seq; lia).
  pose proof (find_none _ _ Hf i Hin) as Hx. simpl in Hx. by apply bool_decide_eq_false in Hx.
Qed.

(** A string cut at [c]: the rest is empty or starts with it. *)
Definition cut_at (c : Z) (tail : list Z) : Prop := tail = [] \/ head tail = Some c.

(** A terminated copy of [bs]. *)
Lemma cstr_copy bs rest :
  exists s tail, cstr (bs ++ NUL :: rest) = Some s /\ bs = s ++ tail /\ cut_at NUL tail.
Proof.
  induction bs as [|c bs (s & tail & Hs & Hb & Ht)]; [exists [], []; split_and!; [done..|by left]|]. simpl.
  destruct (Z.eqb_spec c 0) as [ ->|].
  - exists [], (0 :: bs). split_and!; [done..|by right].
  - rewrite Hs. exists (c :: s), tail. by rewrite Hb.
Qed.

Lemma list_find_10 (s : list Z) i c :
  list_find (fun x => x = 10) s = Some (i, c) -> (i < length s)%nat /\ s !! i = Some 10 /\ 10 ∉ take i s.
Proof.
  intros Hf. apply list_find_Some in Hf as (Hi & -> & Hno). split_and!; [by eapply lookup_lt_Some|done|].
  intros Hin. apply list_elem_of_lookup in Hin as (j & Hj). apply lookup_take_Some in Hj as [Hj Hlt].
  by apply (Hno j 10 Hj Hlt).
Qed.

Lemma cut_newline_spec v s :
  cstr v = Some s ->
  exists v' s' tail, cut_newline v = Some v' /\ cstr v' = Some s' /\ s = s' ++ tail /\ cut_at 10 tail /\
    (10 ∉ s') /\ length v' = length v.
Proof.
  intros Hs. unfold cut_newline. rewrite Hs. cbn [mbind option_bind].
  destruct (list_find (fun c => c = 10) s) as [[i c]|] eqn:Hf.
  - apply list_find_10 in Hf as (Hi & H10 & Hno). apply cstr_Some in Hs as (Hnz & rest & ->).
    exists (<[i := NUL]> (s ++ NUL :: rest)), (take i s), (drop i s).
    split_and!; [done| |by rewrite take_drop| |done|by rewrite length_insert].
    2: { right. by rewrite (drop_S _ _ _ H10). }
    rewrite insert_app_l by done. rewrite <- (take_drop i s) at 1.
    rewrite insert_app_r_alt by (rewrite length_take; lia).
    rewrite length_take, Nat.min_l, Nat.sub_diag by lia.
    destruct (drop i s) as [|x xs] eqn:Hd; [apply (f_equal length) in Hd; rewrite length_drop in Hd; simpl in Hd; lia|].
    simpl. rewrite <- (assoc_L (++)). simpl. apply cstr_app. by apply Forall_take.
  - exists v, s, []. rewrite app_nil_r. split_and!; try done; [by left|]. intros Hin.
    apply list_find_None in Hf. by apply (proj1 (Forall_forall _ _) Hf 10 Hin).
Qed.

(** The interval between the markers lies in the file. *)
Lemma bt_text_spec data start k :
  find_bytes data start_marker = Some start ->
  find_bytes (drop (start + 16) data) end_marker = Some k ->
  (start + 16 + k + 16 <= length data)%nat /\
  exists r, bt_text data start (start + 16 + k) = Some r /\
    match r with
    | Some (off, len) => (off + len <= length data)%nat /\ (9 <= len)%nat /\
        ((off = 0%nat /\ len = 14%nat) \/ take 9 (drop off data) = lit "t-neptune")
    | None => True
    end.
Proof.
  intros Hs Hk. apply find_bytes_Some in Hs as [Hs _], Hk as [Hk _]. rewrite length_drop in Hk.
  change (length start_marker) with 16%nat in Hs. change (length end_marker) with 16%nat in Hk.
  split; [lia|]. unfold bt_text, memchr. rewrite load_n_ok by lia. cbn [mbind option_bind].
  set (span := match _ with Some n => n | None => _ end).
  assert (span <= 16 + k)%nat as Hspan.
  { unfold span. destruct (list_find _ _) as [[n c]|] eqn:Hf; simpl; [|lia].
    apply list_find_Some in Hf as (Hn & _). apply lookup_lt_Some in Hn.
    rewrite length_take, length_drop in Hn. lia. }
  destruct (find_bytes _ (lit "t-neptune")) as [t|] eqn:Ht.
  - apply find_bytes_Some in Ht as [Hl Ht]. rewrite length_take, length_drop in Hl.
    change (length (lit "t-neptune")) with 9%nat in *. eexists. split; [reflexivity|].
    split_and!; [lia|lia|right]. rewrite take_drop_commute, take_take, Nat.min_l, <- take_drop_commute, drop_drop in Ht by lia. done.
  - destruct (find_bytes _ (lit "= debug")) as [t|]; [|by eexists].
    eexists. split; [reflexivity|]. split_and!; [lia|lia|by left].
Qed.

(** A run that starts with a word free of both cut characters keeps it. *)
Lemma cut_keeps_prefix w s tl tail rest :
  Forall (fun c => c <> NUL /\ c <> 10) w -> cut_at 10 tl -> cut_at NUL tail ->
  (length w <= length (s ++ tl ++ tail))%nat ->
  take (length w) (s ++ tl ++ tail ++ rest) = w -> is_prefix w s = true.
Proof.
  intros Hw H10 H0 Hl Ht. apply is_prefix_spec.
  destruct (decide (length w <= length s)%nat) as [Hle|Hlt].
  { exists (drop (length w) s). rewrite take_app_le in Ht by done. rewrite <- Ht at 1. by rewrite take_drop. }
  exfalso. assert (exists c, (c = 10 \/ c = NUL) /\ w !! length s = Some c) as (c & Hc & Hi).
  { rewrite <- Ht. assert (length s < length w)%nat by lia.
    rewrite lookup_take_lt by done. rewrite lookup_app_r, Nat.sub_diag by lia.
    destruct tl as [|x tl]; [|exists x; destruct H10 as [|[= ->]]; [done|by auto]].
    destruct tail as [|x tail]; [rewrite !length_app in Hl; simpl in Hl; lia|].
    exists x. destruct H0 as [|[= ->]]; [done|by auto]. }
  apply (Forall_lookup_1 _ _ _ _ Hw) in Hi as [? ?]. by destruct Hc.
Qed.

Lemma bt_version_cases data version :
  length version = 92%nat ->
  exists r v present, bt_version data version = Some (r, v, present) /\ length v = 92%nat /\
    (r = 0 \/ r = - EBADMSG) /\
    if (present : bool) then
      r = 0 /\ exists s off rest, cstr v = Some s /\ (length s <= 91)%nat /\ (10 ∉ s) /\
        drop off data = s ++ rest /\
        ((off = 0%nat /\ (length s <= 14)%nat) \/ is_prefix (lit "t-neptune") s = true)
    else v = version.
Proof.
  intros Hv. unfold bt_version. destruct (find_bytes data start_marker) as [start|] eqn:Hs.
  2: { eexists _, _, _. split; [reflexivity|]. destruct (find_bytes data end_marker); auto. }
  destruct (find_bytes (drop (start + 16) data) end_marker) as [k|] eqn:Hk; [|eexists _, _, _; by auto].
  destruct (bt_text_spec data start k Hs Hk) as (Hlen & r & -> & Hr). cbn [mbind option_bind].
  destruct r as [[off len]|]; [|eexists _, _, _; by auto].
  destruct Hr as (Hol & H9 & Hcase). set (n := if (92 <=? len)%nat then 91%nat else len).
  assert (n <= 91 /\ n <= len /\ 9 <= n)%nat as (Hn & Hn2 & Hn9)
    by (unfold n; destruct (Nat.leb_spec 92 len); lia).
  unfold memcpy. rewrite load_n_ok by lia. cbn [mbind option_bind].
  set (bs := take n (drop off data)).
  assert (length bs = n) as Hbs by (unfold bs; rewrite length_take, length_drop; lia).
  rewrite store_ok by lia. cbn [mbind option_bind]. rewrite store_next by (simpl; lia). cbn [mbind option_bind].
  rewrite overwrite_0_drop, <- (assoc_L (++)). cbn [app].
  destruct (cstr_copy bs (drop (length (bs ++ [NUL])) version)) as (s & tail & Hcs & Htail & Hcut).
  destruct (cut_newline_spec _ _ Hcs) as (v' & s' & tl & -> & Hc' & Hss & Hcut' & Hno & Hlv). cbn [mbind option_bind].
  eexists _, v', true. split; [reflexivity|].
  assert (drop off data = s' ++ (tl ++ tail) ++ drop (off + n) data) as Hrun.
  { rewrite <- (take_drop n (drop off data)) at 1. fold bs. rewrite drop_drop, Htail, Hss. by rewrite !(assoc_L (++)). }
  assert (length s' <= n)%nat as Hls.
  { pose proof (f_equal length Htail) as Hlt. pose proof (f_equal length Hss) as Hlt2.
    rewrite length_app in Hlt, Hlt2. lia. }
  split_and!; [|auto|done|].
  - rewrite Hlv, ?length_app. simpl. rewrite ?length_drop, ?length_app. simpl. lia.
  - exists s', off, ((tl ++ tail) ++ drop (off + n) data). split_and!; [done|lia|done|done|].
    destruct Hcase as [[-> ->]|Hnep]; [left; split; [done|]; unfold n in Hls; simpl in Hls; lia|right].
    apply (cut_keeps_prefix (lit "t-neptune") s' tl tail (drop (off + n) data)); [|done|done| |].
    + by repeat constructor.
    + rewrite (assoc_L (++)), <- Hss, <- Htail, Hbs. exact Hn9.
    + change (length (lit "t-neptune")) with 9%nat. rewrite (assoc_L (++) tl), <- Hrun. exact Hnep.
Qed.

(** The Bluetooth version never leaves its file or its array: for any file
    contents the extraction is defined; when it reports a version, the 92-byte
    array holds a terminated string of at most 91 characters without a newline
    that is a run of the file, starting with "t-neptune" or taken from the first
    14 bytes of the file; otherwise the array is untouched.  An end marker without
    a start marker, or the reverse, is -EBADMSG. *)
Theorem bt_version_spec data version :
  length version = 92%nat ->
  exists r v present, bt_version data version = Some (r, v, present) /\ length v = 92%nat /\
    (r = 0 \/ r = - EBADMSG) /\
    if (present : bool) then
      r = 0 /\ exists s off rest, cstr v = Some s /\ (length s <= 91)%nat /\ (10 ∉ s) /\
        drop off data = s ++ rest /\
        ((off = 0%nat /\ (length s <= 14)%nat) \/ is_prefix (lit "t-neptune") s = true)
    else v = version.
Proof. apply bt_version_cases. Qed.

(** A file whose two markers enclose a version text. *)
Definition sample_image : list Z :=
  replicate 32 7 ++ start_marker ++ lit "xx t-neptune-1.2" ++ [10] ++ lit "rest" ++ end_marker.

Lemma bt_version_spec_witness :
  exists v s, bt_version sample_image (replicate 92 0) = Some (0, v, true) /\
    cstr v = Some s /\ is_prefix (lit "t-neptune") s = true.
Proof.
  destruct (bt_version_spec sample_image (replicate 92 0)) as (r & v & present & Hr & _ & _ & Hp); [reflexivity|].
  destruct present; [|exfalso; clear Hp; vm_compute in Hr; discriminate].
  destruct Hp as (-> & s & off & rest & Hs & _ & _ & Hd & Hc). exists v, s. split_and!; [done|done|].
  destruct Hc as [[-> Hl]|Hc]; [|done]. exfalso.
  vm_compute in Hr. injection Hr as <-. vm_compute in Hs. injection Hs as <-. discriminate.
Defined.

(** ** Reading a version from a file *)

Lemma read_extra_ok fuel f :
  (length (f_script f) < fuel)%nat -> Forall step_ok (f_script f) ->
  exists r, read_extra fuel f = Some r /\
    match r with
    | ROk [] => (length (f_data f) <= f_pos f)%nat
    | ROk _ => True
    | RErr e => 0 < e
    end.
Proof.
  revert f. induction fuel as [|fuel IH]; intros f Hf Hok; [lia|]. cbn [read_extra]. unfold read.
  assert (forall m, (1 <= m)%nat -> take m (drop (f_pos f) (f_data f)) = [] -> (length (f_data f) <= f_pos f)%nat)
    as Hend.
  { intros m Hm Ht. apply (f_equal length) in Ht. rewrite length_take, length_drop in Ht. simpl in Ht. lia. }
  destruct (f_script f) as [|[e|k] script] eqn:Hs.
  - eexists. split; [reflexivity|]. destruct (take _ _) eqn:Ht; [by eapply (Hend 1%nat)|done].
  - inversion_clear Hok as [|? ? He Hok']. simpl in He. destruct (e =? EINTR).
    + apply (IH (mk_file (f_data f) (f_pos f) script)); [simpl in *; lia|done].
    + eexists. split; [reflexivity|done].
  - eexists. split; [reflexivity|]. destruct (take _ _) eqn:Ht; [|done].
    eapply (Hend (1 `min` S k)%nat); [lia|exact Ht].
Qed.

(** The whole file, of the size fstat gave, was searched. *)
Lemma read_bt_version_ok e f v0 :
  Forall step_ok (f_script f) -> 0 <= d_lseek e -> length v0 = 92%nat ->
  exists r v present, read_bt_version e f v0 = Some (r, v, present) /\ length v = 92%nat /\
    (r = 0 -> d_size e = Z.of_nat (length (f_data f)) /\ bt_version (f_data f) v0 = Some (0, v, present)).
Proof.
  intros Hok Hls Hv. unfold read_bt_version, WMT_ROM_HEADER_SIZE, WMT_BT_VERSION_FILE_LIMIT.
  destruct (Z.ltb_spec (d_size e) 32); [eexists _, _, _; by split_and!|].
  destruct (Z.ltb_spec (1024 * 1024) (d_size e)); [eexists _, _, _; by split_and!|].
  destruct (d_malloc e); cbn [negb]; [|eexists _, _, _; by split_and!].
  destruct (Z.eqb_spec (d_lseek e) 0); cbn [negb].
  2: { eexists _, _, _. split_and!; [done..|lia]. }
  destruct (read_exact_loop_ok (length (f_script f) + 2) (mk_file (f_data f) 0 (f_script f)) (Z.to_nat (d_size e)) []
    ltac:(simpl; lia) Hok) as ([[err data] f'] & Hr & Hd & (used & Hu) & Hz & _).
  unfold read_exact. cbn [f_script]. rewrite Hr. cbn [mbind option_bind]. simpl in Hu, Hd.
  destruct (Z.eqb_spec err 0) as [He|He]; cbn [negb]; [|eexists _, _, _; by split_and!].
  destruct (Hz He) as (Hbs & Hrem & Hpos). unfold remaining in Hrem. simpl in Hbs, Hrem, Hpos. rewrite drop_0 in Hbs.
  assert (Forall step_ok (f_script f')) as Hok' by (rewrite Hu in Hok; by apply Forall_app in Hok as [_ ?]).
  destruct (read_extra_ok (S (length (f_script f'))) f' ltac:(lia) Hok') as (rr & -> & Hrr). cbn [mbind option_bind].
  destruct rr as [[|b bs]|errno]; [|eexists _, _, _; by split_and!|].
  2: { eexists _, _, _. split_and!; [done..|lia]. }
  rewrite Hd, Hpos in Hrr. rewrite take_ge in Hbs by lia. subst data.
  destruct (bt_version_cases (f_data f) v0 Hv) as (r & v & present & Hbt & Hlv & _).
  exists r, v, present. split_and!; [done|done|]. intros ->. split; [lia|done].
Qed.

(** ** What a search finds *)

Definition entry_name (e : dirent) : list Z := default [] (cstr (d_name e)).
Definition rom_header (e : dirent) : list Z := take 32 (drop (f_pos (d_file e)) (f_data (d_file e))).
Definition rom_type (e : dirent) : Z := default 0 (rom_header e !! 31%nat).

(** A candidate for this firmware. *)
Definition rom_match (firmware : Z) (e : dirent) : bool :=
  is_candidate rom_prefix e && bool_decide (rom_header e !! 23%nat = Some (Z.land firmware 0xff)).

(** Its record: type, big-endian address with a zero first byte, name. *)
Definition rom_entry (e : dirent) : wmt_rom_info :=
  mk_rom_info (rom_type e) (0 :: take 3 (drop 25 (rom_header e))) (pad_to 256 (entry_name e)).

(** The version texts an entry carries. *)
Definition wifi_of (e : dirent) : option (list Z) :=
  if contains (lit "ram_wifi") (entry_name e) then cstr (take 15 (rom_header e) ++ [NUL]) else None.

Definition bt_of (e : dirent) : option (list Z) :=
  if contains (lit "ram_bt") (entry_name e) then
    match bt_version (f_data (d_file e)) (replicate 92 0) with
    | Some (_, v, true) => cstr v
    | _ => None
    end
  else None.

(** The reported version is the one every matching entry that has one carries. *)
Definition agrees (firmware : Z) (src : dirent -> option (list Z)) (seen : list dirent) (has : bool)
    (v : list Z) : Prop :=
  is_Some (cstr v) /\
  (forall e, e ∈ seen -> rom_match firmware e = true -> src e = None \/ (has = true /\ src e = cstr v)) /\
  (has = true -> exists e, e ∈ seen /\ rom_match firmware e = true /\ src e = cstr v).

Record roms_of (firmware : Z) (seen : list dirent) (found : wmt_rom_set) : Prop := {
  ro_len : length (rs_records found) = 5%nat;
  ro_seen : is_u32 (rs_seen found);
  ro_count : rs_count found = Z.of_nat (countb (rom_match firmware) seen);
  ro_bits : rs_count found = Z.of_nat (countb (Z.testbit (rs_seen found)) (seqZ 0 5));
  ro_bit : forall t, 0 <= t ->
    (Z.testbit (rs_seen found) t = true <-> exists e, e ∈ seen /\ rom_match firmware e = true /\ rom_type e = t);
  ro_rec : forall e, e ∈ seen -> rom_match firmware e = true ->
    0 <= rom_type e < 5 /\ rs_records found !! Z.to_nat (rom_type e) = Some (rom_entry e) /\
    (0 < length (entry_name e) < 256)%nat /\ (47 ∉ entry_name e) /\ length (rom_header e) = 32%nat;
  ro_wifi : agrees firmware wifi_of seen (rs_has_wifi found) (rs_wifi found);
  ro_bt : agrees firmware bt_of seen (rs_has_bt found) (rs_bt found);
}.

Lemma agrees_skip firmware src seen e has v :
  rom_match firmware e = false \/ src e = None -> agrees firmware src seen has v ->
  agrees firmware src (seen ++ [e]) has v.
Proof.
  intros He (H1 & H2 & H3). split_and!; [done| |].
  - intros x Hx Hm. apply elem_of_app in Hx as [Hx|Hx]; [by apply H2|].
    apply list_elem_of_singleton in Hx as ->. destruct He; [congruence|by left].
  - intros Hh. destruct (H3 Hh) as (x & Hx & ?). exists x. split; [|done]. apply elem_of_app. by left.
Qed.

(** A version that the earlier ones, if any, agree with becomes the reported one. *)
Lemma agrees_add firmware src seen e has v v' s :
  rom_match firmware e = true -> src e = Some s -> cstr v' = Some s -> (has = true -> cstr v = Some s) ->
  agrees firmware src seen has v -> agrees firmware src (seen ++ [e]) true v'.
Proof.
  intros Hm He Hv' Hv (H1 & H2 & H3). split_and!; [by rewrite Hv'| |].
  - intros x Hx Hmx. apply elem_of_app in Hx as [Hx|Hx].
    + destruct (H2 x Hx Hmx) as [?|[Hh ?]]; [by left|right]. split; [done|]. by rewrite Hv', <- (Hv Hh).
    + apply list_elem_of_singleton in Hx as ->. right. split; [done|congruence].
  - intros _. exists e. split_and!; [apply elem_of_app; right; by apply list_elem_of_singleton|done|congruence].
Qed.

Lemma roms_of_skip firmware seen e found :
  rom_match firmware e = false -> roms_of firmware seen found -> roms_of firmware (seen ++ [e]) found.
Proof.
  intros He [? ? Hc ? Hbit Hrec Hw Hb]. split; try done; [| | |by apply agrees_skip; [left|]..].
  - rewrite countb_app, countb_cons, He. simpl. rewrite Hc. unfold countb at 3. simpl. lia.
  - intros t Ht. rewrite Hbit by done. split; intros (x & Hx & Hm & ?); exists x; (split; [|done]).
    + apply elem_of_app. by left.
    + apply elem_of_app in Hx as [?|Hx]; [done|]. apply list_elem_of_singleton in Hx as ->. congruence.
  - intros x Hx Hm. apply Hrec; [|done]. apply elem_of_app in Hx as [?|Hx]; [done|].
    apply list_elem_of_singleton in Hx as ->. congruence.
Qed.

(** The five type bits, with one more set. *)
Lemma countb_bits x t :
  0 <= t < 5 -> Z.testbit x t = false ->
  countb (Z.testbit (Z.lor x (Z.shiftl 1 t))) (seqZ 0 5) = S (countb (Z.testbit x) (seqZ 0 5)).
Proof.
  intros Ht Hx. change (seqZ 0 5) with [0; 1; 2; 3; 4]. rewrite !countb_cons, !testbit_lor_bit by lia.
  assert (t = 0 \/ t = 1 \/ t = 2 \/ t = 3 \/ t = 4) as Hc by lia.
  destruct Hc as [ ->|[ ->|[ ->|[ ->| ->]]]]; rewrite Hx; simpl; rewrite ?orb_false_r; unfold countb; simpl; lia.
Qed.

Lemma roms_of_add firmware seen e found hw w hb b :
  roms_of firmware seen found -> rom_match firmware e = true -> 0 <= rom_type e < 5 ->
  Z.testbit (rs_seen found) (rom_type e) = false ->
  (0 < length (entry_name e) < 256)%nat -> (47 ∉ entry_name e) -> length (rom_header e) = 32%nat ->
  agrees firmware wifi_of (seen ++ [e]) hw w -> agrees firmware bt_of (seen ++ [e]) hb b ->
  roms_of firmware (seen ++ [e])
    (mk_rom_set (u32 (rs_count found + 1)) (Z.lor (rs_seen found) (u32 (Z.shiftl 1 (rom_type e))))
       (<[Z.to_nat (rom_type e) := rom_entry e]> (rs_records found)) hw hb w b).
Proof.
  intros [Hlen Hseen Hcount Hbits Hbit Hrec _ _] Hm Ht Hnew Hn1 Hn2 Hhl Hw Hb.
  assert (u32 (Z.shiftl 1 (rom_type e)) = Z.shiftl 1 (rom_type e)) as ->.
  { apply wrap_small. rewrite Z.shiftl_1_l. split; [apply Z.pow_nonneg; lia|apply Z.pow_lt_mono_r; lia]. }
  pose proof (countb_bits _ _ Ht Hnew) as Hb1.
  assert (countb (Z.testbit (Z.lor (rs_seen found) (Z.shiftl 1 (rom_type e)))) (seqZ 0 5) <= 5)%nat as Hle
    by apply (List.filter_length_le _ (seqZ 0 5)).
  assert (u32 (rs_count found + 1) = rs_count found + 1) as Hu by (apply wrap_small; unfold in_w; lia).
  split; cbn [rs_records rs_seen rs_count rs_has_wifi rs_has_bt rs_wifi rs_bt]; rewrite ?Hu; try done.
  - by rewrite length_insert.
  - apply in_w_bits; [lia|apply Z.lor_nonneg; split; [apply Hseen|apply Z.shiftl_nonneg; lia]|].
    intros i Hi. rewrite testbit_lor_bit, (testbit_above 32 _ i Hseen) by lia. simpl. apply Z.eqb_neq. lia.
  - rewrite countb_app, countb_cons, Hm, Hcount. unfold countb at 3. simpl. lia.
  - lia.
  - intros t Hp. rewrite testbit_lor_bit, orb_true_iff, Hbit, Z.eqb_eq by lia. split.
    + intros [(x & Hx & ?)|Heq]; [exists x; split; [apply elem_of_app; by left|done]|].
      exists e. split; [apply elem_of_app; right; by apply list_elem_of_singleton|]. split; [exact Hm|by symmetry].
    + intros (x & Hx & Hmx & Htx). apply elem_of_app in Hx as [Hx|Hx]; [left; by exists x|].
      apply list_elem_of_singleton in Hx as ->. by right.
  - intros x Hx Hmx. apply elem_of_app in Hx as [Hx|Hx].
    + destruct (Hrec x Hx Hmx) as (Htx & Hr & Hnm). split; [exact Htx|]. split; [|exact Hnm].
      rewrite list_lookup_insert_ne; [done|]. intros Heq.
      assert (Z.testbit (rs_seen found) (rom_type x) = true) as Hb' by (apply Hbit; [lia|]; by exists x).
      assert (rom_type x = rom_type e) as Heq' by lia. congruence.
    + apply list_elem_of_singleton in Hx as ->. split_and!; try lia; try done.
      apply list_lookup_insert_eq. lia.
Qed.

(** Everything but the Wi-Fi version is kept, and the version agrees. *)
Lemma rom_wifi_ok firmware seen e found nm :
  cstr (d_name e) = Some nm -> rom_match firmware e = true -> length (rom_header e) = 32%nat ->
  agrees firmware wifi_of seen (rs_has_wifi found) (rs_wifi found) ->
  exists err hw w, rom_wifi (rom_header e) (d_name e) found =
    Some (err, mk_rom_set (rs_count found) (rs_seen found) (rs_records found) hw (rs_has_bt found) w (rs_bt found)) /\
    (err = 0 -> agrees firmware wifi_of (seen ++ [e]) hw w).
Proof.
  intros Hn Hm Hl Ha. unfold rom_wifi, strstr_in. rewrite Hn. cbn [mbind option_bind].
  destruct (contains (lit "ram_wifi") nm) eqn:Hc.
  2: { eexists _, (rs_has_wifi found), (rs_wifi found). split; [by destruct found|]. intros _.
       apply agrees_skip; [right|done]. unfold wifi_of, entry_name. rewrite Hn. cbn [default from_option id]. by rewrite Hc. }
  rewrite build_version_eq by (done || lia). cbn [mbind option_bind negb Z.eqb].
  destruct (cstr_copy (take 15 (rom_header e)) []) as (s & tail & Hs & _).
  assert (wifi_of e = Some s) as Hw by (unfold wifi_of, entry_name; rewrite Hn; cbn [default from_option id]; by rewrite Hc).
  assert (exists d, (if rs_has_wifi found then negb <$> strcmp_eq (rs_wifi found) (take 15 (rom_header e) ++ [NUL])
    else Some false) = Some d /\ (d = false -> rs_has_wifi found = true -> cstr (rs_wifi found) = Some s)) as (d & -> & Hd).
  { destruct (rs_has_wifi found); [|by exists false]. destruct Ha as ([old Ho] & _).
    rewrite (strcmp_eq_spec _ _ _ _ Ho Hs). eexists. split; [reflexivity|]. intros Hd _.
    zb. by subst. }
  cbn [mbind option_bind]. destruct d.
  { eexists _, (rs_has_wifi found), (rs_wifi found). split; [by destruct found|done]. }
  eexists _, _, _. split; [reflexivity|]. intros _. exact (agrees_add firmware wifi_of seen e (rs_has_wifi found) (rs_wifi found) _ s Hm Hw Hs (Hd eq_refl) Ha).
Qed.

Lemma rom_bt_ok firmware seen e f found nm :
  cstr (d_name e) = Some nm -> rom_match firmware e = true ->
  Forall step_ok (f_script f) -> f_data f = f_data (d_file e) -> 0 <= d_lseek e ->
  agrees firmware bt_of seen (rs_has_bt found) (rs_bt found) ->
  exists err hb b, rom_bt e f (d_name e) found =
    Some (err, mk_rom_set (rs_count found) (rs_seen found) (rs_records found) (rs_has_wifi found) hb (rs_wifi found) b) /\
    (err = 0 -> agrees firmware bt_of (seen ++ [e]) hb b).
Proof.
  intros Hn Hm Hok Hdat Hls Ha. unfold rom_bt, strstr_in. rewrite Hn. cbn [mbind option_bind].
  assert (entry_name e = nm) as Hen by (unfold entry_name; by rewrite Hn).
  assert (Some (0, found) = Some (0, mk_rom_set (rs_count found) (rs_seen found) (rs_records found)
    (rs_has_wifi found) (rs_has_bt found) (rs_wifi found) (rs_bt found))) as Hid by (by destruct found).
  destruct (contains (lit "ram_bt") nm) eqn:Hc.
  2: { eexists _, _, _. split; [exact Hid|]. intros _. apply agrees_skip; [right|done]. unfold bt_of. by rewrite Hen, Hc. }
  destruct (read_bt_version_ok e f (replicate 92 0) Hok Hls ltac:(done)) as (r & v & present & -> & Hlv & Hr).
  cbn [mbind option_bind]. destruct (Z.eqb_spec r 0) as [H0|H0]; cbn [negb].
  2: { eexists _, (rs_has_bt found), (rs_bt found). split; [by destruct found|done]. }
  destruct (Hr H0) as [_ Hbt]. rewrite Hdat in Hbt. destruct present.
  2: { eexists _, _, _. split; [exact Hid|]. intros _. apply agrees_skip; [right|done]. unfold bt_of. by rewrite Hen, Hc, Hbt. }
  destruct (bt_version_cases (f_data (d_file e)) (replicate 92 0) ltac:(done)) as (r' & v' & p' & Hbt' & _ & _ & Hp).
  rewrite Hbt in Hbt'. injection Hbt' as <- <- <-. destruct Hp as (_ & s & _ & _ & Hs & _).
  assert (bt_of e = Some s) as Hw by (unfold bt_of; by rewrite Hen, Hc, Hbt).
  assert (exists d, (if rs_has_bt found then negb <$> strcmp_eq (rs_bt found) v else Some false) = Some d /\
    (d = false -> rs_has_bt found = true -> cstr (rs_bt found) = Some s)) as (d & -> & Hd).
  { destruct (rs_has_bt found); [|by exists false]. destruct Ha as ([old Ho] & _).
    rewrite (strcmp_eq_spec _ _ _ _ Ho Hs). eexists. split; [reflexivity|]. intros Hd _. zb. by subst. }
  cbn [mbind option_bind]. destruct d.
  { eexists _, (rs_has_bt found), (rs_bt found). split; [by destruct found|done]. }
  eexists _, _, _. split; [reflexivity|]. intros _. exact (agrees_add firmware bt_of seen e (rs_has_bt found) (rs_bt found) _ s Hm Hw Hs (Hd eq_refl) Ha).
Qed.

(** The address field of a record. *)
Lemma rom_address header :
  length header = 32%nat ->
  memcpy (replicate 4 0) 1 header 25 3 = Some (0 :: take 3 (drop 25 header)).
Proof.
  intros Hl. unfold memcpy. rewrite load_n_ok by lia. cbn [mbind option_bind].
  assert (length (take 3 (drop 25 header)) = 3%nat) as H3 by (rewrite length_take, length_drop; lia).
  rewrite store_ok by (rewrite H3; simpl; lia). unfold overwrite. rewrite H3. simpl. by rewrite app_nil_r.
Qed.

Lemma rom_header_ok e err header f' :
  entry_ok e -> read_exact (d_file e) 32 = Some (err, header, f') -> err = 0 ->
  header = rom_header e /\ length (rom_header e) = 32%nat /\ bytes_ok (rom_header e) /\
  f_data f' = f_data (d_file e) /\ Forall step_ok (f_script f').
Proof.
  intros [_ Hb Hs _] Hr He.
  destruct (read_exact_loop_ok (length (f_script (d_file e)) + 2) (d_file e) 32 [] ltac:(lia) Hs)
    as ([[err' bs'] f''] & Hr' & Hd & (used & Hu) & Hz & _). unfold read_exact in Hr. rewrite Hr' in Hr.
  injection Hr as -> -> ->. destruct (Hz He) as (-> & Hrem & _). unfold remaining in Hrem.
  split_and!; [done|unfold rom_header; rewrite length_take, length_drop; lia|
    by apply Forall_take, Forall_drop|done|]. rewrite Hu in Hs. by apply Forall_app in Hs as [_ ?].
Qed.

Lemma rom_match_eq firmware e h :
  is_candidate rom_prefix e = true -> rom_header e !! 23%nat = Some h -> rom_match firmware e = (h =? Z.land firmware 0xff).
Proof.
  intros Hcand Hh. unfold rom_match. rewrite Hcand, Hh. cbn [andb]. destruct (Z.eqb_spec h (Z.land firmware 0xff)) as [->|].
  - by apply bool_decide_eq_true.
  - apply bool_decide_eq_false. by intros [=].
Qed.

(** The bit of a type fits the mask. *)
Lemma type_bit_small h : 0 <= h < 32 -> u32 (Z.shiftl 1 h) = Z.shiftl 1 h.
Proof.
  intros Hh. apply wrap_small. rewrite Z.shiftl_1_l. split; [apply Z.pow_nonneg; lia|apply Z.pow_lt_mono_r; lia].
Qed.

Lemma read_rom_ok firmware seen e found :
  entry_ok e -> is_candidate rom_prefix e = true -> roms_of firmware seen found ->
  exists err found', read_rom e (d_name e) firmware found = Some (err, found') /\
    (err = 0 -> roms_of firmware (seen ++ [e]) found').
Proof.
  intros He Hcand Hro. pose proof He as [[nm Hn] Hb Hs Hen].
  assert (entry_name e = nm) as Hname by (unfold entry_name; by rewrite Hn).
  unfold read_rom, strchr_in. rewrite (strnlen_of_cstr _ 256 _ Hn), Hn. cbn [mbind option_bind c_or].
  destruct ((_ =? 0)%nat || _) eqn:Hsz; cbn [mbind option_bind c_or]; [eexists _, found; by split|].
  apply orb_false_iff in Hsz as [Hs0 Hs256]. apply Nat.eqb_neq in Hs0, Hs256.
  assert (0 < length nm < 256)%nat as Hnl by lia. rewrite (Nat.min_l (length nm)) in * by lia.
  destruct (bool_decide (u8 47 ∈ nm)) eqn:Hslash; [eexists _, found; by split|].
  apply bool_decide_eq_false in Hslash. change (u8 47) with 47 in Hslash.
  destruct (read_exact_loop_ok (length (f_script (d_file e)) + 2) (d_file e) 32 [] ltac:(lia) Hs)
    as ([[re header] f'] & Hr & _). change (read_exact (d_file e) 32 = Some (re, header, f')) in Hr.
  rewrite Hr. cbn [mbind option_bind].
  destruct (Z.eqb_spec re 0) as [Hre|Hre]; cbn [negb]; [|eexists _, found; by split].
  destruct (rom_header_ok e _ _ _ He Hr Hre) as (-> & Hl & Hbh & Hdat & Hsc).
  destruct (lookup_lt_is_Some_2 (rom_header e) 23) as [h23 H23]; [lia|].
  destruct (lookup_lt_is_Some_2 (rom_header e) 27) as [h27 H27]; [lia|].
  destruct (lookup_lt_is_Some_2 (rom_header e) 31) as [h31 H31]; [lia|].
  rewrite H23, H27, H31. cbn [mbind option_bind].
  assert (rom_type e = h31) as Hty by (unfold rom_type; by rewrite H31).
  pose proof (rom_match_eq firmware e h23 Hcand H23) as Hm.
  destruct (h23 =? Z.land firmware 0xff); cbn [negb].
  2: { eexists _, found. split; [reflexivity|]. intros _. by apply roms_of_skip. }
  destruct (_ || (WMT_ROM_TYPES <=? h31)) eqn:Hbad; [eexists _, found; by split|].
  apply orb_false_iff in Hbad as [_ Hh31]. apply Z.leb_gt in Hh31. unfold WMT_ROM_TYPES in Hh31.
  pose proof (Forall_lookup_1 _ _ _ _ Hbh H31) as Hr31. unfold in_w in Hr31.
  pose proof (type_bit_small h31 ltac:(lia)) as Hbit.
  rewrite Hbit, land_bit_testbit, negb_involutive by lia. rewrite <- Hbit.
  destruct (Z.testbit (rs_seen found) h31) eqn:Htb; [eexists _, found; by split|].
  rewrite rom_address by done. cbn [mbind option_bind].
  rewrite (memcpy_string 256 (d_name e) nm Hn) by lia. cbn [mbind option_bind].
  destruct (rom_wifi_ok firmware seen e found nm Hn Hm Hl (ro_wifi _ _ _ Hro)) as (e1 & hw & w & -> & Hw).
  cbn [mbind option_bind]. destruct (Z.eqb_spec e1 0) as [He1|He1]; cbn [negb]; [|by eexists _, _].
  set (found1 := mk_rom_set _ _ _ _ _ _ _).
  destruct (rom_bt_ok firmware seen e f' found1 nm Hn Hm Hsc Hdat ltac:(lia) (ro_bt _ _ _ Hro))
    as (e2 & hb & b & -> & Hbt).
  cbn [mbind option_bind]. destruct (Z.eqb_spec e2 0) as [He2|He2]; cbn [negb]; [|by eexists _, _].
  cbn [found1 rs_records rs_count rs_seen rs_has_wifi rs_has_bt rs_wifi rs_bt].
  destruct (lookup_lt_is_Some_2 (rs_records found) (Z.to_nat h31)) as [old ->]; [rewrite (ro_len _ _ _ Hro); lia|].
  cbn [mbind option_bind]. eexists _, _. split; [reflexivity|]. intros _.
  pose proof (roms_of_add firmware seen e found hw w hb b Hro Hm) as Hadd. unfold rom_entry in Hadd.
  rewrite Hty, Hname in Hadd. apply Hadd; auto; lia.
Qed.

Lemma zero_roms_of firmware : roms_of firmware [] zero_rom_set.
Proof.
  split; try done.
  - intros t Ht. simpl. rewrite Z.bits_0. split; [done|]. intros (e & Hx & _). by apply not_elem_of_nil in Hx.
  - intros e Hx. by apply not_elem_of_nil in Hx.
  - split_and!; [by eexists|intros e Hx; by apply not_elem_of_nil in Hx|done].
  - split_and!; [by eexists|intros e Hx; by apply not_elem_of_nil in Hx|done].
Qed.

Lemma rom_search_cases path fs firmware out c rest :
  dir_ok fs -> path = c :: rest -> c <> NUL ->
  exists err out' log, wmt_rom_search (Some path) fs firmware (Some out) = Some (err, Some out', log) /\
    (log = [] \/ exists ev, log = EvOpendir :: ev ++ [EvClosedir] /\ paired ev) /\
    (err <> 0 -> out' = out) /\ (err = 0 -> roms_of firmware (dir_entries fs) out').
Proof.
  intros Hd -> Hc. unfold wmt_rom_search. rewrite (proj2 (Z.eqb_neq c NUL)) by done.
  destruct (search_directory_total read_rom (roms_of firmware) rom_prefix firmware) with (d := fs) (r := zero_rom_set)
    as (err & found & log & -> & Hi & Hlog); try done.
  - intros seen e r Hn. apply roms_of_skip. unfold rom_match. by rewrite Hn.
  - intros seen e r. apply read_rom_ok.
  - by repeat constructor.
  - apply zero_roms_of.
  - cbn [mbind option_bind]. exists err, (if err =? 0 then found else out), log.
    split; [by destruct (err =? 0)|]. split; [exact Hlog|].
    destruct (Z.eqb_spec err 0) as [H0|H0]; (split; [done|]); [intros _; by apply Hi|done].
Qed.

(** C13: A ROM search is all-or-nothing, leaks nothing and reports exactly the ROMs
    of the chip.  Whatever the directory and its files do, it returns, closes
    every file it opened and the stream, and leaves the output untouched unless
    it succeeds.  On success the output describes the directory: the count is the
    number of matching files and of type bits, a type bit is set exactly when a
    file of that type matches, the record of each such type is that file's type,
    address and name, and the Wi-Fi and Bluetooth versions are the ones every
    matching image that carries one agrees on. *)
Theorem wmt_rom_search_spec path fs firmware out c rest :
  dir_ok fs -> path = c :: rest -> c <> NUL ->
  exists err out' log, wmt_rom_search (Some path) fs firmware (Some out) = Some (err, Some out', log) /\
    (log = [] \/ exists ev, log = EvOpendir :: ev ++ [EvClosedir] /\ paired ev) /\
    (err <> 0 -> out' = out) /\ (err = 0 -> roms_of firmware (dir_entries fs) out').
Proof. apply rom_search_cases. Qed.

(** Two matching images and one of another firmware. *)
Definition sample_rom_header (fw type : Z) : list Z :=
  lit "20200101120000a" ++ replicate 8 0 ++ [fw; 0; 0x12; 0x34; 0x56; 0; 0; 0; type].

Definition sample_roms : dir :=
  mk_dir 0 [sample_entry "soc1_0_ram_bt_1_1_hdr.bin" (sample_rom_header 1 0 ++ sample_image);
            sample_entry "soc1_0_ram_wifi_1_1_hdr.bin" (sample_rom_header 1 3);
            sample_entry "soc1_0_ram_mcu_2_1_hdr.bin" (sample_rom_header 2 1)] 0 0.

Lemma sample_roms_ok : dir_ok sample_roms.
Proof.
  split; [|simpl; lia]. unfold sample_roms. cbn [dir_entries]. rewrite !Forall_cons.
  split_and!; [apply sample_entry_ok; vm_compute; reflexivity..|done].
Qed.

Lemma wmt_rom_search_spec_witness :
  exists out' log, wmt_rom_search (Some sample_path) sample_roms 1 (Some zero_rom_set) = Some (0, Some out', log) /\
    rs_count out' = 2 /\ Z.testbit (rs_seen out') 3 = true.
Proof.
  destruct (wmt_rom_search_spec sample_path sample_roms 1 zero_rom_set 47
    (lit "vendor/firmware/" ++ [NUL]) sample_roms_ok eq_refl ltac:(done)) as (err & out' & log & Hr & _ & _ & Hi).
  assert (err = 0) as -> by (vm_compute in Hr; by injection Hr).
  exists out', log. split; [done|]. destruct (Hi eq_refl) as [_ _ Hcount _ Hbit _ _ _]. split.
  - rewrite Hcount. vm_compute. reflexivity.
  - apply Hbit; [lia|]. exists (sample_entry "soc1_0_ram_wifi_1_1_hdr.bin" (sample_rom_header 1 3)).
    split; [right; left|]. split; vm_compute; reflexivity.
Defined.
