(* ===== verification/Calls.v ===== *)
(** * Programs over calls on an environment

    The services talk to drivers, properties, files and other threads.  A [call] is
    one such request with the type of its answer; the environment is a strategy that
    answers each call from the whole history, so it may behave in any way.  A program
    is a function of the history that extends it; [None] is undefined behaviour or a
    loop that has not ended within its fuel.  Each service has its own type of calls. *)

From S2P Require Import Prelude.

Section Programs.
Context {call : Type -> Type}.

Inductive event : Type :=
  | Ev (A : Type) (c : call A) (a : A).

Definition history : Type := list event.
Definition strategy : Type := forall A, history -> call A -> A.

(** ** Programs *)

Definition M (A : Type) : Type := history -> option (A * history).

#[global] Instance M_ret : MRet M := fun A a h => Some (a, h).
#[global] Instance M_bind : MBind M := fun A B k m h =>
  match m h with Some (a, h) => k a h | None => None end.

Definition lift {A} (o : option A) : M A := fun h => match o with Some a => Some (a, h) | None => None end.
Definition stuck {A} : M A := fun _ => None.

Definition ask (env : strategy) {A} (c : call A) : M A := fun h =>
  let a := env A h c in Some (a, h ++ [Ev A c a]).

(** The program ends in a state [Q] allows. *)
Definition wp {A} (m : M A) (Q : A -> history -> Prop) (h : history) : Prop :=
  match m h with Some (a, h) => Q a h | None => False end.

Section Wp.
Context {A B : Type}.
Implicit Types (h : history).

Lemma wp_ret (a : A) Q h : Q a h -> wp (mret a) Q h.
Proof. done. Qed.

Lemma wp_bind (m : M A) (k : A -> M B) Q h :
  wp m (fun a h => wp (k a) Q h) h -> wp (m ≫= k) Q h.
Proof. unfold wp, mbind, M_bind. by destruct (m h) as [[a h']|]. Qed.

Lemma wp_mono (m : M A) (Q R : A -> history -> Prop) h :
  wp m Q h -> (forall a h, Q a h -> R a h) -> wp m R h.
Proof. unfold wp. destruct (m h) as [[a h']|]; auto. Qed.

Lemma wp_lift (o : option A) a Q h : o = Some a -> Q a h -> wp (lift o) Q h.
Proof. by intros ->. Qed.

Lemma wp_ask env (c : call A) Q h :
  Q (env A h c) (h ++ [Ev A c (env A h c)]) -> wp (ask env c) Q h.
Proof. done. Qed.

Lemma wp_result (m : M A) Q h : wp m Q h -> exists a h', m h = Some (a, h') /\ Q a h'.
Proof. unfold wp. destruct (m h) as [[a h']|]; [|done]. by exists a, h'. Qed.
End Wp.

End Programs.
#[global] Arguments event : clear implicits.
#[global] Arguments history : clear implicits.
#[global] Arguments strategy : clear implicits.
#[global] Arguments M : clear implicits.
#[global] Arguments Ev {call A} c a.
