(* ===== verification/WmtCalls.v ===== *)
(** * The launcher's calls on its environment (wmt-launcher/main.c)

    The service talks to the driver, the property store, the file system and its
    own worker threads.  [call] is the type of these requests; the other threads and
    the signal handler are part of the environment that answers them. *)

From S2P Require Import Prelude CMem WmtProtocol WmtSearch Calls.

(** ** The driver's interface *)

Definition _IOC (dir size nr : Z) : Z :=
  Z.lor (Z.lor (Z.shiftl dir 30) (Z.shiftl size 16)) (Z.lor (Z.shiftl 0xa0 8) nr).
Definition _IOW (nr size : Z) : Z := _IOC 1 size nr.
Definition _IOR (nr size : Z) : Z := _IOC 2 size nr.

Definition WMT_SET_HIF : Z := _IOW 5 4.
Definition WMT_POWER : Z := _IOW 7 4.
Definition WMT_CHIP_INFO : Z := _IOR 12 4.
Definition WMT_KILL_CLEAR : Z := _IOW 13 4.
Definition WMT_CHIP_ID : Z := _IOR 22 4.
Definition WMT_FWLOG : Z := _IOR 29 4.
Definition WMT_DYNAMIC_DUMP : Z := _IOR 30 8.

Definition WMT_CMD2_BIND : Z := 1.
Definition WMT_CMD2_UNBIND : Z := 2.

Record wmt_cmd2_session := mk_session {
  ss_version : Z;
  ss_action : Z;
  ss_session_id : Z;
  ss_max_read_bytes : Z;
  ss_max_write_bytes : Z;
  ss_flags : Z;
  ss_reserved : Z;
}.

(** ** Calls and histories *)

Inductive thread := PowerThread | LogThread.

#[global] Instance thread_eq_dec : EqDecision thread.
Proof. solve_decision. Defined.

(** Integers answer as in C, with [- errno] for a failure.  A property value is
    its string.  [IoctlDump] shows the bytes the driver copies. *)
Inductive call : Type -> Type :=
  | PropertyGet (key : string) : call (list Z)
  | PropertySet (key : string) (value : list Z) : call Z
  | Sigaction (signal : Z) : call Z
  | Open : call Z
  | Close (fd : Z) : call Z
  | Ioctl (fd request argument : Z) : call Z
  | IoctlSession (fd : Z) (s : wmt_cmd2_session) : call (Z * wmt_cmd2_session)
  | IoctlDump (fd : Z) (bytes : list Z) : call Z
  | Poll (fd : Z) : call (Z * Z)
  | Read (fd size : Z) : call read_result
  | Write (fd : Z) (bytes : list Z) : call Z
  | StopRequested : call bool
  | Usleep (us : Z) : call unit
  | StoreStopping (t : thread) (v : bool) : call unit
  | LoadStopping (t : thread) : call bool
  | StoreFinished (t : thread) (v : bool) : call unit
  | LoadFinished (t : thread) : call bool
  | PowerResult : call Z
  | Create (t : thread) (fd argument : Z) : call Z
  | Join (t : thread) : call Z
  | SearchDir (directory : list Z) : call dir.

Notation event := (Calls.event call).
Notation history := (Calls.history call).
Notation strategy := (Calls.strategy call).
Notation M := (Calls.M call).

(** The signal handler has run once the history is [n] long. *)
Definition stops_by (env : strategy) (n : nat) : Prop :=
  forall h, (n <= length h)%nat -> env bool h StopRequested = true.
