(* ===== verification/WmtCommand.v ===== *)
(** * Answering one command (wmt-launcher/main.c, handle_command)

    [send_frame] and [handle_command] with the search, the record arrays and the
    publication of the version properties.  The theorem: every command gets one
    reply, which is the complete list the search found or its error, and the
    properties are written exactly when the driver accepted that list. *)

From S2P Require Import Prelude CMem WmtProtocol WmtPatch WmtSearch WmtRom Calls WmtCalls.

Definition PATCH_VERSION : string := "persist.vendor.connsys.patch.version".
Definition WIFI_VERSION : string := "persist.vendor.connsys.wifi_fw_ver".
Definition BT_VERSION : string := "persist.vendor.connsys.bt_fw_ver".

Definition supported_chip (chip : Z) : bool := (chip =? 0x6755) || (chip =? 0x0326).

(** ** The record arrays *)

Definition zero_record : wmt_cmd2_record := mk_record 0 (replicate 4 0) (replicate 256 0).

Definition copy_record (records : list wmt_cmd2_record) (i : nat) (index : Z) (address name : list Z)
    : option (list wmt_cmd2_record) :=
  r ← records !! i;
  a ← memcpy (r_address r) 0 address 0 4;
  n ← memcpy (r_name r) 0 name 0 256;
  Some (<[i := mk_record index a n]> records).

Definition patch_records (set : wmt_patch_set) (records : list wmt_cmd2_record)
    : option (list wmt_cmd2_record) :=
  for_c (seq 0 (Z.to_nat (ps_count set))) records (fun i records =>
    p ← ps_records set !! i;
    copy_record records i (pi_sequence p) (pi_address p) (pi_name p)).

Definition rom_records (set : wmt_rom_set) (records : list wmt_cmd2_record)
    : option (list wmt_cmd2_record * nat) :=
  for_c (seqZ 0 WMT_ROM_TYPES) (records, 0%nat) (fun type '(records, count) =>
    if Z.land (rs_seen set) (u32 (Z.shiftl 1 type)) =? 0 then Some (records, count) else
    p ← rs_records set !! Z.to_nat type;
    records ← copy_record records count type (ri_address p) (ri_name p);
    Some (records, S count)).

(** ** The reply *)

(** The reply to a search that ended with [result]: the result the command has
    then, the size of the frame or an error, and the frame. *)
Definition build_reply (normal : bool) (command : wmt_command) (result : Z)
    (firmware : wmt_firmware_result) (rom : wmt_rom_set) (frame : list Z)
    : option (Z * Z * list Z) :=
  '(result, size, frame) ←
    (if result =? 0 then
       '(records, count) ←
         (if normal then
            records ← patch_records (fw_patches firmware) (replicate 10 zero_record);
            Some (records, ps_count (fw_patches firmware))
          else
            '(records, count) ← rom_records rom (replicate 10 zero_record);
            Some (records, Z.of_nat count));
       '(size, frame) ← wmt_reply_list (Some command)
          (if normal then WMT_CMD2_PATCH_LIST else WMT_CMD2_ROM_LIST)
          (Some records) count (Some frame) WMT_CMD2_WRITE_MAX;
       frame ← frame;
       Some (if size <? 0 then size else result, size, frame)
     else Some (result, 0, frame));
  if negb (result =? 0) then
    '(size, frame) ← wmt_reply_status (Some command) result (Some frame) WMT_CMD2_WRITE_MAX;
    frame ← frame;
    Some (result, size, frame)
  else Some (result, size, frame).

Section Command.
Context (env : strategy).
Context (fuel : nat).
Context (uninit : list Z).     (* what the stack holds in [frame] *)

Definition publish (key : string) (value : list Z) : M unit :=
  s ← lift (cstr value);
  _ ← ask env (PropertySet key s);
  mret ().

Fixpoint send_frame_loop (fuel : nat) (fd : Z) (bytes : list Z) : M Z :=
  match fuel with
  | O => stuck
  | S fuel =>
      written ← ask env (Write fd bytes);
      if written =? - EINTR then
        stop ← ask env StopRequested;
        if (stop : bool) then mret (- EINTR) else send_frame_loop fuel fd bytes
      else if written <? 0 then mret written
      else mret (if written =? Z.of_nat (length bytes) then 0 else - EPROTO)
  end.

Definition send_frame (fd : Z) (frame : list Z) (size : Z) : M Z :=
  bytes ← lift (load_n frame 0 (Z.to_nat size));
  send_frame_loop fuel fd bytes.

(** The search for a known command, or none for another. *)
Definition search (fd : Z) (directory : list Z) (normal is_rom : bool)
    : M (Z * wmt_firmware_result * wmt_rom_set) :=
  if negb (normal || is_rom) then mret (- EOPNOTSUPP, zero_firmware, zero_rom_set) else
  chip ← ask env (Ioctl fd WMT_CHIP_INFO 0);
  if chip <? 0 then mret (chip, zero_firmware, zero_rom_set)
  else if negb (supported_chip (u32 chip)) then mret (- ENODEV, zero_firmware, zero_rom_set)
  else
    version ← ask env (Ioctl fd WMT_CHIP_INFO 2);
    if version <? 0 then mret (version, zero_firmware, zero_rom_set)
    else if UINT16_MAX <? version then mret (- ERANGE, zero_firmware, zero_rom_set)
    else
      fs ← ask env (SearchDir directory);
      if normal then
        '(result, firmware, _) ← lift (wmt_firmware_search (Some directory) fs version (Some zero_firmware));
        firmware ← lift firmware;
        mret (result, firmware, zero_rom_set)
      else
        '(result, rom, _) ← lift (wmt_rom_search (Some directory) fs version (Some zero_rom_set));
        rom ← lift rom;
        mret (result, zero_firmware, rom).

(** The properties of an accepted result. *)
Definition publish_versions (result : Z) (normal is_rom : bool) (firmware : wmt_firmware_result)
    (rom : wmt_rom_set) : M unit :=
  _ ← (if (result =? 0) && normal then
         v ← lift (fw_versions firmware !! 0%nat);
         publish PATCH_VERSION v
       else mret ());
  _ ← (if (result =? 0) && is_rom && rs_has_wifi rom then publish WIFI_VERSION (rs_wifi rom) else mret ());
  if (result =? 0) && is_rom && rs_has_bt rom then publish BT_VERSION (rs_bt rom) else mret ().

Definition handle_command (fd : Z) (directory : list Z) (command : wmt_command) : M Z :=
  normal ← lift (strcmp_eq (c_text command) (lit "srh_patch" ++ [NUL]));
  is_rom ← lift (strcmp_eq (c_text command) (lit "srh_rom_patch" ++ [NUL]));
  '(result, firmware, rom) ← search fd directory normal is_rom;
  '(result, size, frame) ← lift (build_reply normal command result firmware rom uninit);
  if size <? 0 then mret size else
  sent ← send_frame fd frame size;
  if negb (sent =? 0) then mret sent else
  _ ← publish_versions result normal is_rom firmware rom;
  mret 0.
End Command.

(** ** The record arrays in full *)

Lemma copy_record_next (prior : list wmt_cmd2_record) k index address name :
  length address = 4%nat -> length name = 256%nat ->
  copy_record (prior ++ replicate (S k) zero_record) (length prior) index address name =
    Some ((prior ++ [mk_record index address name]) ++ replicate k zero_record).
Proof.
  intros Ha Hn. unfold copy_record. rewrite lookup_app_r, Nat.sub_diag by lia.
  change (replicate (S k) zero_record) with (zero_record :: replicate k zero_record).
  cbn [lookup list_lookup mbind option_bind zero_record r_address r_name]. unfold memcpy.
  rewrite (load_n_ok address), drop_0, take_ge by lia. cbn [mbind option_bind].
  rewrite store_ok by (rewrite length_replicate; lia). cbn [mbind option_bind].
  rewrite (load_n_ok name), drop_0, (take_ge name) by lia. cbn [mbind option_bind].
  rewrite store_ok by (rewrite length_replicate; lia). cbn [mbind option_bind].
  rewrite !overwrite_0_drop, !drop_ge, !app_nil_r by (rewrite length_replicate; lia).
  f_equal. rewrite <- (assoc_L (++)). rewrite insert_app_r_alt, Nat.sub_diag by lia. done.
Qed.

Definition patch_record (p : wmt_patch_info) : wmt_cmd2_record :=
  mk_record (pi_sequence p) (pi_address p) (pi_name p).

Lemma patch_records_eq set n :
  ps_count set = Z.of_nat n -> (n <= 10)%nat -> (n <= length (ps_records set))%nat ->
  Forall info_wf (take n (ps_records set)) ->
  patch_records set (replicate 10 zero_record) =
    Some ((patch_record <$> take n (ps_records set)) ++ replicate (10 - n) zero_record).
Proof.
  intros Hc Hn Hl Hwf. unfold patch_records. rewrite Hc, Nat2Z.id. clear Hc.
  induction n as [|n IH]; [done|].
  rewrite seq_S, for_c_app, IH; [|lia|lia|].
  2: { apply (Forall_take _ n) in Hwf. by rewrite take_take, Nat.min_l in Hwf by lia. }
  destruct (lookup_lt_is_Some_2 (ps_records set) n) as [p Hp]; [lia|].
  rewrite (take_S_r _ _ _ Hp), Forall_app, Forall_singleton in Hwf. destruct Hwf as (_ & Ha & Hnm).
  cbn [for_c mbind option_bind]. rewrite Nat.add_0_l, Hp. cbn [mbind option_bind].
  replace (10 - n)%nat with (S (10 - S n)) by lia.
  assert (length (patch_record <$> take n (ps_records set)) = n) as Hlen by (rewrite length_fmap, length_take; lia).
  pose proof (copy_record_next (patch_record <$> take n (ps_records set)) (10 - S n)
    (pi_sequence p) (pi_address p) (pi_name p) Ha Hnm) as Hnext.
  rewrite Hlen in Hnext. rewrite Hnext. cbn [mbind option_bind]. by rewrite (take_S_r _ _ _ Hp), fmap_app.
Qed.

Definition rom_record (set : wmt_rom_set) (type : Z) : option wmt_cmd2_record :=
  if Z.testbit (rs_seen set) type then
    (fun p => mk_record type (ri_address p) (ri_name p)) <$> rs_records set !! Z.to_nat type
  else None.

Definition rom_list (set : wmt_rom_set) : list wmt_cmd2_record := omap (rom_record set) (seqZ 0 5).

Lemma rom_records_loop set types prior k :
  Forall (fun t => 0 <= t < 5) types -> (length types <= k)%nat ->
  (forall t, 0 <= t < 5 -> Z.testbit (rs_seen set) t = true ->
     exists p, rs_records set !! Z.to_nat t = Some p /\ length (ri_address p) = 4%nat /\ length (ri_name p) = 256%nat) ->
  exists k', for_c types (prior ++ replicate k zero_record, length prior) (fun type '(records, count) =>
    if Z.land (rs_seen set) (u32 (Z.shiftl 1 type)) =? 0 then Some (records, count) else
    p ← rs_records set !! Z.to_nat type;
    records ← copy_record records count type (ri_address p) (ri_name p);
    Some (records, S count)) =
  Some ((prior ++ omap (rom_record set) types) ++ replicate k' zero_record,
        length (prior ++ omap (rom_record set) types)).
Proof.
  intros Ht Hk Hrec. revert prior k Hk. induction Ht as [|t types Ht _ IH]; intros prior k Hk.
  { exists k. simpl. by rewrite app_nil_r. }
  simpl in Hk. cbn [for_c].
  assert (u32 (Z.shiftl 1 t) = Z.shiftl 1 t) as ->.
  { apply wrap_small. rewrite Z.shiftl_1_l. split; [apply Z.pow_nonneg; lia|apply Z.pow_lt_mono_r; lia]. }
  rewrite land_bit_testbit by lia. destruct (Z.testbit (rs_seen set) t) eqn:Hb; cbn [negb].
  - destruct (Hrec t Ht Hb) as (p & Hp & Ha & Hn). rewrite Hp. cbn [mbind option_bind].
    destruct k as [|k]; [lia|]. rewrite copy_record_next by done. cbn [mbind option_bind].
    destruct (IH (prior ++ [mk_record t (ri_address p) (ri_name p)]) k ltac:(lia)) as (k' & Hk').
    exists k'. rewrite length_app, Nat.add_1_r in Hk'. simpl in Hk'. rewrite Hk'.
    assert (omap (rom_record set) (t :: types) = mk_record t (ri_address p) (ri_name p) :: omap (rom_record set) types) as ->
      by (simpl; unfold rom_record at 1; by rewrite Hb, Hp).
    by rewrite <- !(assoc_L (++)).
  - cbn [mbind option_bind]. destruct (IH prior k ltac:(lia)) as (k' & Hk'). exists k'. rewrite Hk'.
    assert (omap (rom_record set) (t :: types) = omap (rom_record set) types) as -> by (simpl; unfold rom_record at 1; by rewrite Hb).
    done.
Qed.

(** ** Replies *)

(** The encoder does not look past the records it is told to send. *)
Lemma check_records_prefix kind count rs ex n i seen :
  (i + n <= length rs)%nat ->
  check_records kind count (rs ++ ex) i n seen = check_records kind count rs i n seen.
Proof.
  revert i seen. induction n as [|n IH]; intros i seen Hi; [done|]. simpl.
  rewrite lookup_app_l by lia. destruct (rs !! i); [|done]. simpl.
  destruct (check_record kind count w seen) as [[e|s]|]; simpl; [done| |done]. apply IH. lia.
Qed.

Lemma write_records_prefix rs ex l data :
  Forall (fun i => (i < length rs)%nat) l ->
  for_c l data (write_record (rs ++ ex)) = for_c l data (write_record rs).
Proof.
  intros Hl. revert data. induction Hl as [|i l Hi _ IH]; intros data; [done|]. simpl.
  assert (write_record (rs ++ ex) i data = write_record rs i data) as ->
    by (unfold write_record; by rewrite lookup_app_l).
  destruct (write_record rs i data); simpl; [apply IH|done].
Qed.

Lemma reply_list_prefix c kind rs ex frame cap :
  wmt_reply_list (Some c) kind (Some (rs ++ ex)) (Z.of_nat (length rs)) (Some frame) cap =
  wmt_reply_list (Some c) kind (Some rs) (Z.of_nat (length rs)) (Some frame) cap.
Proof.
  unfold wmt_reply_list. rewrite !(bool_decide_false (Some _ = None)) by done.
  repeat (case_match; [done|]). cbn [default from_option id]. rewrite Nat2Z.id, check_records_prefix by lia.
  destruct (check_records _ _ rs _ _ _) as [[e|s]|]; cbn [mbind option_bind]; try done.
  destruct (reply_header _ _ _ _ _); cbn [mbind option_bind]; try done.
  destruct (write32 _ 32 _); cbn [mbind option_bind]; try done.
  destruct (write32 _ 36 _); cbn [mbind option_bind]; try done.
  rewrite write_records_prefix; [done|]. apply Forall_forall. intros i Hi. apply elem_of_seq in Hi. lia.
Qed.

(** ** What the searches hand over is always an acceptable list *)

(** A record made from a file of the directory: its padded name starts with the
    prefix of the search. *)
Definition named (prefix address name : list Z) : Prop :=
  length address = 4%nat /\
  exists nm, name = pad_to 256 nm /\ is_prefix prefix nm = true /\ (length nm < 256)%nat /\
    (47 ∉ nm) /\ Forall (fun c => c <> 0) nm.

Lemma named_lengths prefix address name :
  named prefix address name -> length address = 4%nat /\ length name = 256%nat.
Proof. intros (Ha & nm & -> & _ & Hl & _). split; [done|]. apply length_pad_to. lia. Qed.

(** Neither prefix can start a directory's own name. *)
Lemma named_ok c prefix address name : c <> 46 -> named (c :: prefix) address name -> name_ok name.
Proof.
  intros Hc (_ & nm & -> & Hp & Hl & Hs & Hnz). exists nm. apply is_prefix_spec in Hp as (r & ->).
  split_and!; [by apply cstr_pad|done|done| |]; intros [= ? ?]; by apply Hc.
Qed.

Definition fw_named (r : wmt_firmware_result) : Prop :=
  (forall i p, contents (fw_patches r) !! i = Some p -> named patch_prefix (pi_address p) (pi_name p)) /\
  Forall (fun v => is_Some (cstr v)) (fw_versions r).

Lemma effect_named firmware e f v :
  entry_ok e -> effect firmware e = Patch f v ->
  named patch_prefix (pi_address (pf_info f)) (pi_name (pf_info f)) /\ is_Some (cstr v).
Proof.
  intros [[nm Hn] Hb Hs _]. unfold effect, is_candidate. rewrite Hn.
  destruct (is_prefix patch_prefix nm) eqn:Hpre; [|done]. cbn [negb]. destruct (negb (readable e)); [done|].
  unfold classify. destruct (read_exact (d_file e) 28) as [[[err header] f']|] eqn:Hr; [|done].
  destruct (Z.eqb_spec err 0) as [He|]; [|done]. cbn [negb].
  destruct (read_exact_bytes _ _ _ _ _ Hb Hs Hr He) as [Hhb Hhl].
  destruct (patch_parse_cases header (d_name e) nm firmware zero_patch_file Hhb ltac:(lia) Hn)
    as (r & o & -> & Hc). cbv zeta in Hc.
  destruct (decide _) as [|Hgood]; [destruct Hc as [-> ->]; done|].
  destruct (decide _); [destruct Hc as [-> ->]; done|].
  destruct (decide _) as [Hseq|]; destruct Hc as [-> ->]; [|done]. cbn [Z.eqb]. intros [= <- <-].
  cbn [pf_info pi_address pi_name]. split.
  - split; [done|]. exists nm. split_and!; [done|done| |tauto|by apply cstr_Some in Hn as [? _]].
    destruct (decide (256 <= length nm)%nat); [tauto|lia].
  - destruct (cstr_copy (take 15 header) []) as (s & tail & -> & _). by eexists.
Qed.

Lemma zero_firmware_named : fw_named zero_firmware.
Proof. split; [|by repeat constructor]. intros i p. rewrite lookup_contents. unfold present. simpl. by rewrite Z.bits_0. Qed.

Lemma patch_step_named firmware e r r' :
  entry_ok e -> fw_ok r -> fw_named r -> patch_step firmware e r = Some r' -> fw_named r'.
Proof.
  intros He (Hs & _) [Hnm Hv]. rewrite patch_step_effect. destruct (effect firmware e) as [| |f v] eqn:Hef;
    [done|by intros [= <-]|]. destruct (Z.eqb_spec (add_spec (fw_patches r) f) 0) as [Ha|]; [|done]. intros [= <-].
  destruct (effect_patch _ _ _ _ He Hef) as (Hwf & _), (effect_named _ _ _ _ He Hef) as [Hfn Hfv].
  destruct (set_add_wf _ _ Hs Hwf Ha) as [_ Hc]. cbv zeta in Hc. split.
  - intros i p. cbn [with_patch fw_patches]. rewrite Hc, lookup_insert. destruct (decide _); [by intros [= <-]|apply Hnm].
  - cbn [with_patch fw_versions]. by apply Forall_insert.
Qed.

(** Both invariants of a collected result. *)
Lemma found_by_named fs firmware found :
  dir_ok fs -> found_by fs firmware found -> fw_ok found /\ fw_named found.
Proof.
  intros (Hent & _) (_ & _ & _ & Hf & _). revert Hf Hent.
  generalize (conj zero_firmware_ok zero_firmware_named). generalize zero_firmware.
  induction (dir_entries fs) as [|e l IH]; intros r [Hok Hnm] Hf Hent; [by simplify_eq/=|].
  apply Forall_cons in Hent as [He Hent]. cbn [for_c] in Hf.
  destruct (patch_step firmware e r) as [r1|] eqn:Hst; [|done]. cbn [mbind option_bind] in Hf.
  apply (IH r1); [|done|done]. split; [by eapply patch_step_ok|by eapply patch_step_named].
Qed.

(** The list a complete set is sent as. *)
Definition patch_list (r : wmt_firmware_result) : list wmt_cmd2_record :=
  patch_record <$> take (Z.to_nat (ps_count (fw_patches r))) (ps_records (fw_patches r)).

Lemma complete_records r i :
  fw_ok r -> fw_named r -> wmt_patch_set_complete (Some (fw_patches r)) = 0 ->
  (i < Z.to_nat (ps_count (fw_patches r)))%nat ->
  exists p, ps_records (fw_patches r) !! i = Some p /\ pi_sequence p = Z.of_nat i + 1 /\
    named patch_prefix (pi_address p) (pi_name p).
Proof.
  intros (Hs & _) [Hnm _] Hc Hi. rewrite patch_set_complete_cases in Hc by done.
  destruct (decide _) as [|Hne]; [done|]. destruct (decide _) as [Hall|]; [|done].
  rewrite Forall_forall in Hall. destruct (Hall (Z.of_nat i)) as [p Hp]; [apply elem_of_seqZ; lia|].
  rewrite Nat2Z.id in Hp. exists p. pose proof (Hnm _ _ Hp). rewrite lookup_contents in Hp.
  destruct (present _ i) eqn:Hpr; [|done]. destruct Hs as (_ & _ & _ & _ & Hseq). specialize (Hseq i Hpr).
  rewrite Hp in Hseq. simpl in Hseq. by simplify_eq.
Qed.

Lemma patch_list_ok r :
  fw_ok r -> fw_named r -> wmt_patch_set_complete (Some (fw_patches r)) = 0 ->
  1 <= ps_count (fw_patches r) <= 10 /\ Z.of_nat (length (patch_list r)) = ps_count (fw_patches r) /\
  Forall record_wf (patch_list r) /\ list_ok WMT_CMD2_PATCH_LIST (patch_list r).
Proof.
  intros Hok Hnm Hc. pose proof Hok as ((Hcount & Hlen & _) & _). unfold WMT_MAX_PATCHES in Hcount.
  assert (ps_count (fw_patches r) <> 0) as Hne.
  { intros H0. rewrite patch_set_complete_cases in Hc by apply Hok. by rewrite decide_True in Hc. }
  assert (length (patch_list r) = Z.to_nat (ps_count (fw_patches r))) as Hl
    by (unfold patch_list; rewrite length_fmap, length_take; lia).
  assert (forall i x, patch_list r !! i = Some x -> r_index x = Z.of_nat i + 1 /\
    (i < Z.to_nat (ps_count (fw_patches r)))%nat /\ named patch_prefix (r_address x) (r_name x)) as Hat.
  { intros i x Hx. pose proof (lookup_lt_Some _ _ _ Hx) as Hi. rewrite Hl in Hi.
    destruct (complete_records r i Hok Hnm Hc Hi) as (p & Hp & Hseq & Hn). unfold patch_list in Hx.
    rewrite list_lookup_fmap, lookup_take_lt, Hp in Hx by done. simpl in Hx. by simplify_eq/=. }
  split_and!; [lia|lia|lia| |].
  - apply Forall_lookup_2. intros i x Hx. destruct (Hat i x Hx) as (Hix & Hi & Hn). apply named_lengths in Hn as [? ?].
    split_and!; [unfold in_w; lia|done|done].
  - split.
    + apply Forall_lookup_2. intros i x Hx. destruct (Hat i x Hx) as (Hix & Hi & Hn).
      split; [unfold index_ok; simpl; lia|]. by eapply (named_ok 82).
    + apply NoDup_alt. intros i j x Hi Hj. rewrite list_lookup_fmap in Hi, Hj.
      destruct (patch_list r !! i) as [a|] eqn:Ei; [|done]. destruct (patch_list r !! j) as [b|] eqn:Ej; [|done].
      destruct (Hat _ _ Ei) as (Ha & _), (Hat _ _ Ej) as (Hb & _). unfold slot in *. simplify_eq/=. lia.
Qed.

(** ROMs. *)
Lemma rom_record_named firmware seen set t r :
  roms_of firmware seen set -> Forall entry_ok seen -> 0 <= t -> rom_record set t = Some r ->
  r_index r = t /\ t < 5 /\ named rom_prefix (r_address r) (r_name r).
Proof.
  intros Hro Hent Ht. unfold rom_record. destruct (Z.testbit (rs_seen set) t) eqn:Hb; [|done].
  apply (ro_bit _ _ _ Hro t Ht) in Hb as (e & He & Hm & <-).
  destruct (ro_rec _ _ _ Hro e He Hm) as (Hty & Hrec & Hlen & Hs & Hhl). rewrite Hrec. intros [= <-].
  simpl. split_and!; [done|lia|].
  unfold rom_match in Hm. apply andb_true_iff in Hm as [Hc _].
  assert (exists nm, cstr (d_name e) = Some nm) as (nm & Hn)
    by (rewrite Forall_forall in Hent; apply Hent in He as [[nm Hn] _ _ _]; eauto).
  unfold is_candidate in Hc. unfold entry_name in *. rewrite Hn in *. cbn [default from_option id] in *. split.
  - simpl. rewrite length_take, length_drop. lia.
  - exists nm. split_and!; [done|done|lia|done|by apply cstr_Some in Hn as [? _]].
Qed.

Lemma rom_list_ok firmware seen set :
  roms_of firmware seen set -> Forall entry_ok seen ->
  (length (rom_list set) <= 5)%nat /\ Forall record_wf (rom_list set) /\ list_ok WMT_CMD2_ROM_LIST (rom_list set).
Proof.
  intros Hro Hent.
  assert (forall r, r ∈ rom_list set -> 0 <= r_index r < 5 /\ named rom_prefix (r_address r) (r_name r)) as Hat.
  { intros r (t & Ht & Hr)%list_elem_of_omap. apply elem_of_seqZ in Ht.
    destruct (rom_record_named _ _ _ t _ Hro Hent ltac:(lia) Hr) as (-> & ? & ?). split; [lia|done]. }
  split_and!.
  - unfold rom_list. change (seqZ 0 5) with [0; 1; 2; 3; 4]. simpl. by repeat (case_match; simpl); lia.
  - apply Forall_forall. intros r Hr. destruct (Hat r Hr) as [? Hn]. apply named_lengths in Hn as [? ?].
    split_and!; [unfold in_w; lia|done|done].
  - split.
    + apply Forall_forall. intros r Hr. destruct (Hat r Hr) as [? Hn].
      split; [unfold index_ok, WMT_CMD2_ROM_MAX; simpl; lia|]. by eapply (named_ok 115).
    + assert (forall l, Forall (Z.le 0) l -> slot WMT_CMD2_ROM_LIST <$> omap (rom_record set) l `sublist_of` l) as Hsub.
      { induction 1 as [|t l Ht _ IH]; [done|]. simpl. destruct (rom_record set t) as [r|] eqn:Hr; [|by constructor].
        destruct (rom_record_named _ _ _ _ _ Hro Hent Ht Hr) as (Hix & _). simpl. unfold slot at 1. simpl.
        rewrite Hix. by constructor. }
      eapply sublist_NoDup; [apply (NoDup_seqZ 0 5)|apply Hsub]. by repeat constructor.
Qed.

(** ** The contract of a command *)

(** How a command can turn out. *)
Inductive outcome := Patches (r : wmt_firmware_result) | Roms (r : wmt_rom_set) | Failed (e : Z).

Definition srh_patch : list Z := lit "srh_patch".
Definition srh_rom_patch : list Z := lit "srh_rom_patch".

Section Contract.
Context (fd : Z) (directory : list Z).

Definition asked_chip (chip : Z) : event := Ev (Ioctl fd WMT_CHIP_INFO 0) chip.
Definition asked_version (version : Z) : event := Ev (Ioctl fd WMT_CHIP_INFO 2) version.

(** The questions a command asks and what their answers make of it. *)
Inductive searched (text : list Z) : list event -> outcome -> Prop :=
  | searched_unknown : text <> srh_patch -> text <> srh_rom_patch ->
      searched text [] (Failed (- EOPNOTSUPP))
  | searched_chip_error chip : text = srh_patch \/ text = srh_rom_patch -> chip < 0 ->
      searched text [asked_chip chip] (Failed chip)
  | searched_chip_unsupported chip : text = srh_patch \/ text = srh_rom_patch -> 0 <= chip ->
      supported_chip (u32 chip) = false -> searched text [asked_chip chip] (Failed (- ENODEV))
  | searched_version_error chip version : text = srh_patch \/ text = srh_rom_patch -> 0 <= chip ->
      supported_chip (u32 chip) = true -> version < 0 ->
      searched text [asked_chip chip; asked_version version] (Failed version)
  | searched_version_range chip version : text = srh_patch \/ text = srh_rom_patch -> 0 <= chip ->
      supported_chip (u32 chip) = true -> UINT16_MAX < version ->
      searched text [asked_chip chip; asked_version version] (Failed (- ERANGE))
  | searched_failed chip version fs e : 0 <= chip ->
      supported_chip (u32 chip) = true -> 0 <= version <= UINT16_MAX -> e <> 0 ->
      (exists o log, text = srh_patch /\
         wmt_firmware_search (Some directory) fs version (Some zero_firmware) = Some (e, o, log)) \/
      (exists o log, text = srh_rom_patch /\
         wmt_rom_search (Some directory) fs version (Some zero_rom_set) = Some (e, o, log)) ->
      searched text [asked_chip chip; asked_version version; Ev (SearchDir directory) fs] (Failed e)
  | searched_patches chip version fs r : text = srh_patch -> 0 <= chip ->
      supported_chip (u32 chip) = true -> 0 <= version <= UINT16_MAX -> dir_ok fs -> found_by fs version r ->
      searched text [asked_chip chip; asked_version version; Ev (SearchDir directory) fs] (Patches r)
  | searched_roms chip version fs r : text = srh_rom_patch -> 0 <= chip ->
      supported_chip (u32 chip) = true -> 0 <= version <= UINT16_MAX -> dir_ok fs ->
      roms_of version (dir_entries fs) r ->
      searched text [asked_chip chip; asked_version version; Ev (SearchDir directory) fs] (Roms r).

(** The one reply of an outcome, and the properties its acceptance publishes. *)
Definition reply_bytes (c : wmt_command) (out : outcome) : list Z :=
  match out with
  | Patches r => list_frame c WMT_CMD2_PATCH_LIST (patch_list r)
  | Roms r => list_frame c WMT_CMD2_ROM_LIST (rom_list r)
  | Failed e => frame_header WMT_CMD2_STATUS (c_session c) (c_transaction c) 0 e
  end.

Definition publications (out : outcome) : list (string * list Z) :=
  match out with
  | Patches r => [(PATCH_VERSION, default [] (fw_versions r !! 0%nat ≫= cstr))]
  | Roms r =>
      (if rs_has_wifi r then [(WIFI_VERSION, default [] (cstr (rs_wifi r)))] else []) ++
      (if rs_has_bt r then [(BT_VERSION, default [] (cstr (rs_bt r)))] else [])
  | Failed _ => []
  end.

(** A status outside the errno range has no encoding. *)
Definition sendable (out : outcome) : Prop :=
  match out with Failed e => -4095 <= e <= 0 | _ => True end.

(** Writes of one frame: interrupted ones, then one that decides. *)
Inductive attempts (bytes : list Z) : list event -> Z -> Prop :=
  | attempts_last a : a <> - EINTR ->
      attempts bytes [Ev (Write fd bytes) a]
        (if a <? 0 then a else if a =? Z.of_nat (length bytes) then 0 else - EPROTO)
  | attempts_stop : attempts bytes [Ev (Write fd bytes) (- EINTR); Ev StopRequested true] (- EINTR)
  | attempts_retry evs r : attempts bytes evs r ->
      attempts bytes (Ev (Write fd bytes) (- EINTR) :: Ev StopRequested false :: evs) r.

Definition published (l : list (string * list Z)) (evs : list event) : Prop :=
  Forall2 (fun kv e => exists a, e = Ev (PropertySet kv.1 kv.2) a) l evs.

Inductive answered (c : wmt_command) (text : list Z) (h : history) : Z -> history -> Prop :=
  | answered_unsendable queries out : searched text queries out -> ~ sendable out ->
      answered c text h (- EINVAL) (h ++ queries)
  | answered_sent queries out writes r pubs : searched text queries out -> sendable out ->
      attempts (reply_bytes c out) writes r ->
      published (if r =? 0 then publications out else []) pubs ->
      answered c text h r (h ++ queries ++ writes ++ pubs).
End Contract.

(** ** Proofs *)

Lemma sent_ok env fd bytes n fuel h :
  stops_by env n -> (n < length h + fuel)%nat -> (0 < fuel)%nat ->
  wp (send_frame_loop env fuel fd bytes)
    (fun r h' => exists writes, h' = h ++ writes /\ attempts fd bytes writes r) h.
Proof.
  intros Hstop. revert h. induction fuel as [|fuel IH]; intros h Hn Hf; [lia|].
  cbn [send_frame_loop]. apply wp_bind, wp_ask. set (a := env _ _ _).
  destruct (Z.eqb_spec a (- EINTR)) as [Ha|Ha].
  2: { pose proof (attempts_last fd bytes a Ha) as Hl. destruct (a <? 0); apply wp_ret; by eexists. }
  apply wp_bind, wp_ask. set (h1 := h ++ _). destruct (env bool h1 StopRequested) eqn:Hs.
  { apply wp_ret. exists [Ev (Write fd bytes) a; Ev StopRequested true]. unfold h1.
    rewrite <- (assoc_L (++)), Ha. split; [done|constructor]. }
  assert (length h1 = S (length h)) as Hl by (unfold h1; rewrite length_app; simpl; lia).
  assert (length h1 < n)%nat as Hlt.
  { destruct (decide (length h1 < n)%nat); [done|]. rewrite (Hstop h1) in Hs by lia. done. }
  eapply wp_mono; [apply IH; rewrite ?length_app; simpl; lia|]. intros r h' (writes & -> & Hw).
  exists (Ev (Write fd bytes) a :: Ev StopRequested false :: writes). unfold h1.
  rewrite <- !(assoc_L (++)), Ha. split; [done|by constructor].
Qed.

(** What the search reports, as an outcome. *)
Definition outcome_of (normal : bool) (result : Z) (fw : wmt_firmware_result) (rom : wmt_rom_set) : outcome :=
  if result =? 0 then if normal then Patches fw else Roms rom else Failed result.

Lemma search_ok (env : strategy) fd directory text h c rest :
  directory = c :: rest -> c <> NUL -> (forall h d, dir_ok (env dir h (SearchDir d))) ->
  let normal := bool_decide (text = srh_patch) in
  let is_rom := bool_decide (text = srh_rom_patch) in
  wp (search env fd directory normal is_rom) (fun '(result, fw, rom) h' => exists queries,
    h' = h ++ queries /\ searched fd directory text queries (outcome_of normal result fw rom)) h.
Proof.
  intros Hdir Hc Hfs normal is_rom. unfold search. destruct (normal || is_rom) eqn:Hk; cbn [negb].
  2: { apply wp_ret. exists []. rewrite app_nil_r. apply orb_false_iff in Hk as [H1 H2].
       unfold normal, is_rom in *. zb. split; [done|]. by constructor. }
  assert (text = srh_patch \/ text = srh_rom_patch) as Hknown
    by (apply orb_true_iff in Hk as [Hk|Hk]; unfold normal, is_rom in Hk; zb; auto).
  apply wp_bind, wp_ask. set (chip := env _ _ _). set (h1 := h ++ _).
  destruct (Z.ltb_spec chip 0) as [Hchip|Hchip].
  { apply wp_ret. eexists. split; [reflexivity|]. unfold outcome_of.
    rewrite (proj2 (Z.eqb_neq chip 0)) by lia. by constructor. }
  destruct (supported_chip (u32 chip)) eqn:Hsup; cbn [negb].
  2: { apply wp_ret. eexists. split; [reflexivity|]. by constructor. }
  apply wp_bind, wp_ask. set (version := env _ _ _). set (h2 := h1 ++ _).
  assert (h2 = h ++ [asked_chip fd chip; asked_version fd version]) as Hh2 by (unfold h2, h1; by rewrite <- (assoc_L (++))).
  destruct (Z.ltb_spec version 0) as [Hver|Hver].
  { apply wp_ret. eexists. split; [exact Hh2|]. unfold outcome_of.
    rewrite (proj2 (Z.eqb_neq version 0)) by lia. by constructor. }
  destruct (Z.ltb_spec UINT16_MAX version) as [Hmax|Hmax].
  { apply wp_ret. eexists. split; [exact Hh2|]. by constructor. }
  apply wp_bind, wp_ask. set (fs := env _ _ _). pose proof (Hfs h2 directory : dir_ok fs) as Hd.
  set (h3 := h2 ++ _).
  assert (h3 = h ++ [asked_chip fd chip; asked_version fd version; Ev (SearchDir directory) fs]) as Hh3
    by (unfold h3; rewrite Hh2, <- (assoc_L (++)); done).
  destruct normal eqn:Hn.
  - assert (text = srh_patch) as Ht by (unfold normal in Hn; by zb).
    destruct (firmware_search_cases directory fs version zero_firmware c rest Hd Hdir Hc)
      as (err & out' & log & Hr & _ & _ & Hz & Ho).
    apply wp_bind. eapply wp_lift; [exact Hr|]. apply wp_bind. eapply wp_lift; [reflexivity|]. apply wp_ret.
    eexists. split; [exact Hh3|]. unfold outcome_of. destruct (Z.eqb_spec err 0) as [H0|H0].
    + destruct (proj1 Hz H0) as [f Hf]. rewrite (Ho f Hf). by constructor.
    + constructor; try done. left. eauto.
  - assert (text = srh_rom_patch) as Ht.
    { destruct Hknown as [Ht|Ht]; [|done]. unfold normal in Hn. zb. done. }
    destruct (rom_search_cases directory fs version zero_rom_set c rest Hd Hdir Hc)
      as (err & out' & log & Hr & _ & _ & Hz).
    apply wp_bind. eapply wp_lift; [exact Hr|]. apply wp_bind. eapply wp_lift; [reflexivity|]. apply wp_ret.
    eexists. split; [exact Hh3|]. unfold outcome_of. destruct (Z.eqb_spec err 0) as [H0|H0].
    + constructor; try done. by apply Hz.
    + constructor; try done. right. eauto.
Qed.

Lemma take_overwrite m bs : take (length bs) (overwrite m 0 bs) = bs.
Proof. rewrite overwrite_0_drop. apply take_app_length. Qed.

Lemma length_list_frame c kind rs :
  Forall record_wf rs -> Forall (fun r => name_ok (r_name r)) rs ->
  length (list_frame c kind rs) = (40 + length rs * 264)%nat.
Proof.
  intros Hwf Hn. unfold list_frame. rewrite !length_app, length_frame_header, !length_le_bytes.
  assert (length (concat (record_bytes <$> rs)) = (length rs * 264)%nat) as ->; [|lia].
  induction rs as [|r rs IH]; [done|]. apply Forall_cons in Hwf as [Hr Hwf]. apply Forall_cons in Hn as [Hnr Hn].
  rewrite fmap_cons. cbn [concat]. rewrite length_app, length_record_bytes, IH by done. simpl. lia.
Qed.

(** An acceptable list is sent in full. *)
Lemma list_reply c kind rs ex frame :
  command_wf c -> c_session c <> 0 -> c_transaction c <> 0 -> length frame = 2680%nat ->
  Forall record_wf rs -> list_ok kind rs ->
  (kind = WMT_CMD2_PATCH_LIST /\ (1 <= length rs <= 10)%nat \/ kind = WMT_CMD2_ROM_LIST /\ (length rs <= 5)%nat) ->
  exists size frame', wmt_reply_list (Some c) kind (Some (rs ++ ex)) (Z.of_nat (length rs)) (Some frame)
      WMT_CMD2_WRITE_MAX = Some (size, Some frame') /\ 0 <= size /\
    load_n frame' 0 (Z.to_nat size) = Some (list_frame c kind rs).
Proof.
  intros Hc Hs Ht Hl Hwf Hok Hkind. rewrite reply_list_prefix.
  assert (length (list_frame c kind rs) = (40 + length rs * 264)%nat) as Hlen.
  { apply length_list_frame; [done|]. eapply Forall_impl; [apply Hok|]. by intros r [_ ?]. }
  destruct (reply_list_cases c kind rs frame WMT_CMD2_WRITE_MAX Hc Hwf) as [(_ & _ & Heq)|(Hno & _)].
  { rewrite Hl. vm_compute. discriminate. }
  - eexists _, _. split; [exact Heq|]. split; [lia|].
    replace (Z.to_nat (40 + Z.of_nat (length rs) * 264)) with (length (list_frame c kind rs)) by lia.
    rewrite load_n_ok by (rewrite overwrite_0_drop, length_app, Hlen; lia). rewrite drop_0. by rewrite take_overwrite.
  - exfalso. apply Hno. split; [|done]. unfold list_args_ok, max_records, WMT_CMD2_WRITE_MAX, WMT_CMD2_PATCH_MAX,
      WMT_CMD2_RECORD_SIZE, WMT_CMD2_ROM_MAX in *.
    destruct Hkind as [[-> ?]|[-> ?]]; cbn -[Z.of_nat]; (split; [done|]); (split; [done|]).
    + split; [left; split; [done|lia]|lia].
    + split; [by right|lia].
Qed.

Lemma status_reply c e frame :
  c_session c <> 0 -> c_transaction c <> 0 -> length frame = 2680%nat ->
  exists size frame', wmt_reply_status (Some c) e (Some frame) WMT_CMD2_WRITE_MAX = Some (size, Some frame') /\
    if decide (-4095 <= e <= 0) then 0 <= size /\
      load_n frame' 0 (Z.to_nat size) = Some (frame_header WMT_CMD2_STATUS (c_session c) (c_transaction c) 0 e)
    else size = - EINVAL.
Proof.
  intros Hs Ht Hl. unfold wmt_reply_status.
  rewrite (proj2 (Z.eqb_neq (c_session c) 0)), (proj2 (Z.eqb_neq (c_transaction c) 0)) by done. cbn [orb].
  destruct (Z.ltb_spec 0 e), (Z.ltb_spec e (-4095)); cbn [orb];
    try (eexists _, _; split; [reflexivity|]; by rewrite decide_False by lia).
  change (WMT_CMD2_WRITE_MAX <? WMT_CMD2_FRAME_HEADER_SIZE) with false. cbn [negb].
  rewrite reply_header_ok by lia. cbn [mbind option_bind]. eexists _, _. split; [reflexivity|].
  rewrite decide_True by lia. split; [done|]. change (Z.to_nat WMT_CMD2_FRAME_HEADER_SIZE) with 32%nat.
  rewrite load_n_ok by (rewrite overwrite_0_drop, length_app, length_frame_header; lia). rewrite drop_0.
  done.
Qed.

Lemma build_reply_ok fd directory text queries normal command result fw rom frame :
  command_wf command -> c_session command <> 0 -> c_transaction command <> 0 -> length frame = 2680%nat ->
  let out := outcome_of normal result fw rom in
  searched fd directory text queries out ->
  exists size frame', build_reply normal command result fw rom frame = Some (result, size, frame') /\
    ((sendable out /\ 0 <= size /\ load_n frame' 0 (Z.to_nat size) = Some (reply_bytes command out)) \/
     (~ sendable out /\ size = - EINVAL)).
Proof.
  intros Hc Hs Ht Hl out Hq. unfold build_reply. destruct (Z.eqb_spec result 0) as [Hr|Hr].
  2: { cbn [mbind option_bind]. rewrite (proj2 (Z.eqb_neq result 0)) by done. cbn [negb].
       destruct (status_reply command result frame Hs Ht Hl) as (size & frame' & -> & Hd). cbn [mbind option_bind].
       eexists _, _. split; [reflexivity|]. unfold out, outcome_of. rewrite (proj2 (Z.eqb_neq result 0)) by done.
       cbn [sendable reply_bytes]. destruct (decide _); [by left|by right]. }
  assert (out = if normal then Patches fw else Roms rom) as Hout by (unfold out, outcome_of; by rewrite Hr).
  clearbody out. subst result. destruct normal; subst out; inversion Hq as [| | | | | |? ? fs ? ? ? ? ? Hd Hf|? ? fs ? ? ? ? ? Hd Hf]; subst.
  - destruct (found_by_named _ _ _ Hd Hf) as [Hok Hnm]. destruct Hf as (_ & _ & _ & _ & Hcomp).
    destruct (patch_list_ok fw Hok Hnm Hcomp) as (Hcnt & Hlen & Hwf & Hlist).
    pose proof Hok as ((_ & Hrl & _) & _).
    rewrite (patch_records_eq _ (Z.to_nat (ps_count (fw_patches fw)))); [|lia|lia|lia|].
    2: { apply Forall_lookup_2. intros i p Hp. apply lookup_take_Some in Hp as [Hp Hi].
         destruct (complete_records fw i Hok Hnm Hcomp Hi) as (q & Hq' & _ & Hn). simplify_eq.
         by apply named_lengths in Hn. }
    cbn [mbind option_bind]. fold (patch_list fw). rewrite <- Hlen.
    destruct (list_reply command WMT_CMD2_PATCH_LIST (patch_list fw) (replicate (10 - Z.to_nat (ps_count (fw_patches fw))) zero_record) frame)
      as (size & frame' & Heq & Hpos & Hld); [done..|left; split; [done|lia]|].
    rewrite Hlen in Heq |- *. rewrite Heq. cbn [mbind option_bind]. rewrite (proj2 (Z.ltb_ge size 0)) by done. cbn [mbind option_bind negb Z.eqb].
    eexists _, _. split; [reflexivity|]. by left.
  - destruct Hd as (Hent & _). destruct (rom_list_ok _ _ _ Hf Hent) as (Hlen & Hwf & Hlist).
    destruct (rom_records_loop rom (seqZ 0 WMT_ROM_TYPES) [] 10) as (k' & Hk); [by repeat constructor|simpl; lia| |].
    { intros t Htt Hb. assert (exists r, rom_record rom t = Some r) as [r Hr].
      { unfold rom_record. rewrite Hb. destruct (lookup_lt_is_Some_2 (rs_records rom) (Z.to_nat t)) as [p ->];
          [rewrite (ro_len _ _ _ Hf); lia|]. by eexists. }
      destruct (rom_record_named _ _ _ t _ Hf Hent ltac:(lia) Hr) as (_ & _ & Hn). apply named_lengths in Hn.
      unfold rom_record in Hr. rewrite Hb in Hr. destruct (rs_records rom !! Z.to_nat t) as [p|]; [|done].
      simplify_eq/=. by exists p. }
    assert (rom_records rom (replicate 10 zero_record) =
      Some (rom_list rom ++ replicate k' zero_record, length (rom_list rom))) as -> by exact Hk.
    cbn [mbind option_bind].
    destruct (list_reply command WMT_CMD2_ROM_LIST (rom_list rom) (replicate k' zero_record) frame)
      as (size & frame' & Heq & Hpos & Hld); [done..|by right|].
    rewrite Heq. cbn [mbind option_bind]. rewrite (proj2 (Z.ltb_ge size 0)) by done. cbn [mbind option_bind negb Z.eqb].
    eexists _, _. split; [reflexivity|]. by left.
Qed.

Lemma publish_ok env key v s Q h :
  cstr v = Some s -> (forall a, Q tt (h ++ [Ev (PropertySet key s) a])) -> wp (publish env key v) Q h.
Proof.
  intros Hs HQ. unfold publish. apply wp_bind. eapply wp_lift; [exact Hs|]. apply wp_bind, wp_ask, wp_ret, HQ.
Qed.

(** Publishing under a condition. *)
Lemma publish_if_ok env (b : bool) key v h :
  is_Some (cstr v) ->
  wp (if b then publish env key v else mret ())
    (fun _ h' => exists pubs, h' = h ++ pubs /\
       published (if b then [(key, default [] (cstr v))] else []) pubs) h.
Proof.
  intros [s Hs]. destruct b.
  - eapply publish_ok; [exact Hs|]. intros a. eexists. split; [reflexivity|]. rewrite Hs.
    repeat constructor. by eexists.
  - apply wp_ret. exists []. rewrite app_nil_r. split; [done|constructor].
Qed.

Lemma publish_versions_ok env fd directory text queries result fw rom h :
  let normal := bool_decide (text = srh_patch) in
  let is_rom := bool_decide (text = srh_rom_patch) in
  let out := outcome_of normal result fw rom in
  searched fd directory text queries out ->
  wp (publish_versions env result normal is_rom fw rom)
    (fun _ h' => exists pubs, h' = h ++ pubs /\ published (publications out) pubs) h.
Proof.
  intros normal is_rom out Hq. unfold publish_versions, out, outcome_of in *.
  destruct (Z.eqb_spec result 0) as [Hr|Hr]; cbn [andb].
  2: { apply wp_bind, wp_ret, wp_bind, wp_ret, wp_ret. exists []. rewrite app_nil_r. split; [done|constructor]. }
  destruct normal eqn:Hn; inversion Hq as [| | | | | |? ? fs ? Htx ? ? ? Hd Hf|? ? fs ? Htx ? ? ? Hd Hf]; subst.
  - destruct (found_by_named _ _ _ Hd Hf) as [(_ & Hvl & _) [_ Hv]].
    destruct (lookup_lt_is_Some_2 (fw_versions fw) 0) as [v Hv0]; [lia|].
    destruct (Forall_lookup_1 _ _ _ _ Hv Hv0) as [s Hs].
    apply wp_bind, wp_bind. eapply wp_lift; [exact Hv0|]. eapply publish_ok; [exact Hs|]. intros a.
    assert (is_rom = false) as -> by (unfold is_rom; by apply bool_decide_eq_false).
    apply wp_bind, wp_ret, wp_ret. eexists. split; [reflexivity|]. simpl. rewrite Hv0. simpl. rewrite Hs.
    repeat constructor. by eexists.
  - assert (is_rom = true) as -> by (unfold is_rom; by apply bool_decide_eq_true).
    apply wp_bind, wp_ret, wp_bind. cbn [andb].
    eapply wp_mono; [apply publish_if_ok, (ro_wifi _ _ _ Hf)|]. intros _ h1 (p1 & -> & Hp1).
    eapply wp_mono; [apply publish_if_ok, (ro_bt _ _ _ Hf)|]. intros _ h2 (p2 & -> & Hp2).
    exists (p1 ++ p2). rewrite (assoc_L (++)). split; [done|]. by apply Forall2_app.
Qed.

Lemma handle_command_answered (env : strategy) fuel n uninit fd directory c rest command text h :
  command_wf command -> c_session command <> 0 -> c_transaction command <> 0 ->
  cstr (c_text command) = Some text -> length uninit = 2680%nat ->
  directory = c :: rest -> c <> NUL -> (forall h d, dir_ok (env dir h (SearchDir d))) ->
  stops_by env n -> (n < fuel)%nat ->
  exists r h', handle_command env fuel uninit fd directory command h = Some (r, h') /\
    answered fd directory command text h r h'.
Proof.
  intros Hwf Hs Ht Htext Hun Hdir Hc Hfs Hstop Hfuel.
  apply wp_result. unfold handle_command.
  apply wp_bind. eapply wp_lift; [apply (strcmp_eq_spec _ _ _ srh_patch Htext); reflexivity|].
  apply wp_bind. eapply wp_lift; [apply (strcmp_eq_spec _ _ _ srh_rom_patch Htext); reflexivity|].
  apply wp_bind. eapply wp_mono; [by apply (search_ok env fd directory text h c rest)|].
  intros [[result fw] rom] h1 (queries & -> & Hq).
  destruct (build_reply_ok fd directory text queries _ command result fw rom uninit Hwf Hs Ht Hun Hq)
    as (size & frame' & Hb & Hcase).
  apply wp_bind. eapply wp_lift; [exact Hb|]. cbv zeta in Hcase.
  set (out := outcome_of _ _ _ _) in *.
  destruct Hcase as [(Hsend & Hpos & Hld)|[Hno ->]].
  2: { apply wp_ret. by econstructor. }
  rewrite (proj2 (Z.ltb_ge size 0)) by done. apply wp_bind. unfold send_frame.
  apply wp_bind. eapply wp_lift; [exact Hld|].
  eapply wp_mono; [eapply sent_ok; [exact Hstop|lia|lia]|]. intros r h2 (writes & -> & Hw).
  destruct (Z.eqb_spec r 0) as [Hr|Hr]; cbn [negb].
  2: { apply wp_ret. pose proof (answered_sent fd directory command text h queries out writes r [] Hq Hsend Hw) as Ha.
       rewrite (proj2 (Z.eqb_neq r 0)), app_nil_r in Ha by done. rewrite <- (assoc_L (++)). apply Ha. constructor. }
  apply wp_bind. eapply wp_mono; [by apply (publish_versions_ok env fd directory text queries)|].
  intros _ h3 (pubs & -> & Hp). apply wp_ret. rewrite <- !(assoc_L (++)). subst r.
  by apply (answered_sent fd directory command text h queries out writes 0 pubs).
Qed.

(** C2: Every command is answered once, and properties follow acceptance.  For any
    command of a bound session and any behaviour of the driver, the directory and
    the property store, handle_command returns; the driver is asked for the chip,
    then the version, then the directory is searched, each only if the step before
    allows it; one reply frame follows (written again only while interrupted and
    not stopping): the complete list of what the search found, which the encoder
    always accepts, or a status with the error that stopped the search; and the
    version properties of exactly that result are published if and only if the
    driver took the whole frame.  A status outside the errno range is not sent. *)
Theorem handle_command_spec (env : strategy) fuel n uninit fd directory c rest command text h :
  command_wf command -> c_session command <> 0 -> c_transaction command <> 0 ->
  cstr (c_text command) = Some text -> length uninit = 2680%nat ->
  directory = c :: rest -> c <> NUL -> (forall h d, dir_ok (env dir h (SearchDir d))) ->
  stops_by env n -> (n < fuel)%nat ->
  exists r h', handle_command env fuel uninit fd directory command h = Some (r, h') /\
    answered fd directory command text h r h'.
Proof. apply handle_command_answered. Qed.

(** ** A sample environment: a supported chip, firmware version 1, two patches *)

Definition sample_session : wmt_cmd2_session := mk_session 2 1 7 287 2680 0 0.

Definition sample_env : strategy := fun A h c =>
  match c in call A return A with
  | PropertyGet _ => lit "yes"
  | PropertySet _ _ => 0
  | Sigaction _ => 0
  | Open => 3
  | Close _ => 0
  | Ioctl _ request argument =>
      if request =? WMT_CHIP_INFO then if argument =? 2 then 1 else 0x6755
      else if request =? WMT_CHIP_ID then 0x6755 else 0
  | IoctlSession _ s => (0, sample_session)
  | IoctlDump _ _ => 0
  | Poll _ => (1, 1)
  | Read _ size => ROk (take (Z.to_nat size) sample_request)
  | Write _ bytes => Z.of_nat (length bytes)
  | StopRequested => (20 <=? length h)%nat
  | Usleep _ => tt
  | StoreStopping _ _ => tt
  | LoadStopping _ => false
  | StoreFinished _ _ => tt
  | LoadFinished _ => true
  | PowerResult => 0
  | Create _ _ _ => 0
  | Join _ => 0
  | SearchDir _ => sample_dir
  end.

Definition sample_command : wmt_command := mk_command 7 9 (pad_to 256 srh_patch).

Lemma sample_env_stops : stops_by sample_env 20.
Proof. intros h Hh. apply Nat.leb_le. exact Hh. Qed.

Lemma handle_command_spec_witness :
  exists r h', handle_command sample_env 21 (replicate 2680 0) 3 sample_path sample_command [] = Some (r, h') /\
    r = 0 /\ answered 3 sample_path sample_command srh_patch [] r h'.
Proof.
  destruct (handle_command_spec sample_env 21 20 (replicate 2680 0) 3 sample_path 47
    (lit "vendor/firmware/" ++ [NUL]) sample_command srh_patch []) as (r & h' & Hr & Ha).
  - split; unfold in_w; simpl; lia.
  - done.
  - done.
  - vm_compute. reflexivity.
  - reflexivity.
  - reflexivity.
  - done.
  - intros h d. exact sample_dir_ok.
  - exact sample_env_stops.
  - lia.
  - exists r, h'. split; [exact Hr|]. split; [|exact Ha].
    assert (fst <$> handle_command sample_env 21 (replicate 2680 0) 3 sample_path sample_command [] = Some 0) as H0
      by (vm_compute; reflexivity).
    rewrite Hr in H0. by injection H0.
Defined.
