(* ===== verification/WmtLauncher.v ===== *)
(** * The launcher service (wmt-launcher/main.c)

    The chip check, the two worker threads, the optional controls, the command
    loop and [main], as programs over the calls of [WmtCalls].  [getopt]'s
    deliveries are an argument of [main]; each thread is a program of its own,
    and what one thread sees of another is an answer of the environment. *)

From S2P Require Import Prelude CMem WmtProtocol WmtPatch WmtSearch WmtRom Calls WmtCalls WmtCommand.

Definition DRIVER_READY : string := "vendor.connsys.driver.ready".
Definition LAUNCHER_READY : string := "vendor.connsys.formeta.ready".
Definition CHIP_PROPERTY : string := "persist.vendor.connsys.chipid".
Definition FWLOG_PROPERTY : string := "persist.vendor.connsys.fwlog.status".
Definition DUMP_PROPERTY : string := "persist.vendor.connsys.dynamic.dump".
Definition PROPERTY_VALUE_MAX : nat := 92.
Definition DYNAMIC_DUMP_BYTES : nat := 109.
Definition PATH_MAX : nat := 4096.
Definition SIGTERM : Z := 15.
Definition SIGINT : Z := 2.
Definition POLLIN : Z := 1.
Definition POLLERR : Z := 8.
Definition POLLHUP : Z := 16.
Definition POLLNVAL : Z := 32.

Definition yes : list Z := lit "yes" ++ [NUL].

Record log_task := mk_log { lg_fd : Z; lg_enabled : Z; lg_created : bool }.

Record optional_controls := mk_controls {
  oc_fwlog : list Z;
  oc_dump : list Z;
  oc_log : log_task;
}.

Definition zero_controls : optional_controls :=
  mk_controls (replicate 92 0) (replicate 92 0) (mk_log 0 0 false).

Definition with_created (b : bool) (c : optional_controls) : optional_controls :=
  mk_controls (oc_fwlog c) (oc_dump c) (mk_log (lg_fd (oc_log c)) (lg_enabled (oc_log c)) b).
Definition with_fwlog (v : list Z) (c : optional_controls) : optional_controls :=
  mk_controls v (oc_dump c) (oc_log c).
Definition with_dump (v : list Z) (c : optional_controls) : optional_controls :=
  mk_controls (oc_fwlog c) v (oc_log c).

Section Launcher.
Context (env : strategy).
Context (fuel : nat).
Context (uninit : list Z).    (* what the stack holds in the reply frame *)

(** [property_get] into a buffer: the length and the buffer. *)
Definition property_get (key : string) (buffer : list Z) : M (Z * list Z) :=
  s ← ask env (PropertyGet key);
  b ← lift (store buffer 0 (s ++ [NUL]));
  mret (Z.of_nat (length s), b).

Definition cached_chip : M bool :=
  '(n, value) ← property_get CHIP_PROPERTY (replicate PROPERTY_VALUE_MAX 0);
  v0 ← lift (value !! 0%nat);
  if (n <=? 0) || negb (isxdigit v0) then mret false else
  s ← lift (cstr value);
  let '(chip, rest, range) := strtoul16 s in
  mret (negb range && bool_decide (rest = []) && supported_chip chip).

(** ** Opening the driver *)

Fixpoint open_driver (fuel : nat) : M Z :=
  match fuel with
  | O => stuck
  | S fuel =>
      stop ← ask env StopRequested;
      if (stop : bool) then mret (-1) else
      '(_, ready) ← property_get DRIVER_READY (replicate PROPERTY_VALUE_MAX 0);
      up ← lift (strcmp_eq ready yes);
      let again := _ ← ask env (Usleep 300000); open_driver fuel in
      if (up : bool) then
        fd ← ask env Open;
        if 0 <=? fd then mret fd
        else if negb (fd =? - ENOENT) && negb (fd =? - ENODEV) && negb (fd =? - EINTR) then mret (-1)
        else again
      else again
  end.

Fixpoint chip_loop (fuel : nat) (fd : Z) : M Z :=
  match fuel with
  | O => stuck
  | S fuel =>
      stop ← ask env StopRequested;
      if (stop : bool) then mret (- EINTR) else
      chip ← ask env (Ioctl fd WMT_CHIP_ID 0);
      if 0 <=? chip then mret (if supported_chip (u32 chip) then 0 else - ENODEV)
      else if negb (chip =? - EAGAIN) && negb (chip =? - ENODEV) && negb (chip =? - EPERM) &&
              negb (chip =? - EINTR) then mret chip
      else
        _ ← ask env (Usleep 300000);
        chip_loop fuel fd
  end.

Definition check_chip (fd : Z) : M Z :=
  cached ← cached_chip;
  if (cached : bool) then mret 0 else chip_loop fuel fd.

(** ** The worker threads *)

Fixpoint power_loop (n : nat) (fd argument attempt result : Z) : M Z :=
  match n with
  | O => mret result
  | S n =>
      stopping ← ask env (LoadStopping PowerThread);
      if (stopping : bool) then mret result else
      r ← ask env (Ioctl fd WMT_POWER argument);
      if r =? 0 then mret 0 else
      let result := if r <? 0 then r else - EIO in
      stopping ← ask env (LoadStopping PowerThread);
      if (stopping : bool) then mret result else
      _ ← ask env (Ioctl fd WMT_POWER 0);
      _ ← (if attempt + 1 <? 20 then ask env (Usleep 1000000) else mret ());
      power_loop n fd argument (attempt + 1) result
  end.

Definition power_on (fd argument : Z) : M Z :=
  result ← power_loop 20 fd argument 0 (- ECANCELED);
  _ ← ask env (StoreFinished PowerThread true);
  mret result.

Fixpoint log_loop (fuel : nat) (fd enabled : Z) : M unit :=
  match fuel with
  | O => stuck
  | S fuel =>
      stopping ← ask env (LoadStopping LogThread);
      if (stopping : bool) then mret () else
      r ← ask env (Ioctl fd WMT_FWLOG enabled);
      if r <? 0 then mret () else
      _ ← ask env (Usleep 100000);
      log_loop fuel fd enabled
  end.

Definition set_firmware_log (fd enabled : Z) : M unit :=
  _ ← log_loop fuel fd enabled;
  ask env (StoreFinished LogThread true).

(** ** The optional controls *)

Definition stop_firmware_log (fd : Z) (controls : optional_controls) : M (Z * optional_controls) :=
  '(error, controls) ←
    (if lg_created (oc_log controls) then
       _ ← ask env (StoreStopping LogThread true);
       error ← ask env (Join LogThread);
       mret (error, if error =? 0 then with_created false controls else controls)
     else mret (0, controls));
  if negb (error =? 0) then mret (- error, controls) else
  r ← ask env (Ioctl fd WMT_FWLOG 0);
  mret (if r <? 0 then r else 0, controls).

(** A wanted worker: reap one that has finished, start one if there is none. *)
Definition want_firmware_log (fd : Z) (fwlog : list Z) (controls : optional_controls)
    : M optional_controls :=
  finished ← (if lg_created (oc_log controls) then ask env (LoadFinished LogThread) else mret false);
  controls ←
    (if (finished : bool) then
       error ← ask env (Join LogThread);
       mret (if error =? 0 then with_created false controls else controls)
     else mret controls);
  if lg_created (oc_log controls) then mret controls else
  let controls := mk_controls (oc_fwlog controls) (oc_dump controls) (mk_log fd 1 false) in
  _ ← ask env (StoreStopping LogThread false);
  _ ← ask env (StoreFinished LogThread false);
  error ← ask env (Create LogThread fd 1);
  if negb (error =? 0) then mret controls else
  v ← lift (memcpy (oc_fwlog controls) 0 fwlog 0 PROPERTY_VALUE_MAX);
  mret (with_fwlog v (with_created true controls)).

Definition check_optional_controls (fd : Z) (controls : optional_controls) : M optional_controls :=
  '(_, fwlog) ← property_get FWLOG_PROPERTY (replicate PROPERTY_VALUE_MAX 0);
  wanted ← lift (strcmp_eq fwlog yes);
  controls ←
    (if (wanted : bool) then want_firmware_log fd fwlog controls else
     same ← lift (strcmp_eq fwlog (oc_fwlog controls));
     if (same : bool) then mret controls else
     '(result, controls) ← stop_firmware_log fd controls;
     if negb (result =? 0) then mret controls else
     v ← lift (memcpy (oc_fwlog controls) 0 fwlog 0 PROPERTY_VALUE_MAX);
     mret (with_fwlog v controls));
  '(_, dump) ← property_get DUMP_PROPERTY (replicate (DYNAMIC_DUMP_BYTES + 1) 0);
  same ← lift (strcmp_eq dump (oc_dump controls));
  if (same : bool) then mret controls else
  bytes ← lift (load_n dump 0 DYNAMIC_DUMP_BYTES);
  r ← ask env (IoctlDump fd bytes);
  if r <? 0 then mret controls else
  v ← lift (memcpy (oc_dump controls) 0 dump 0 PROPERTY_VALUE_MAX);
  mret (with_dump v controls).

(** ** The command loop *)

Definition discarded (result : Z) : bool :=
  (result =? - ESTALE) || (result =? - ECANCELED) || (result =? - ETIMEDOUT) || (result =? - ENOENT).

(** One pass after the stop test: [None] continues, [Some r] returns [r]; with the
    controls and [power_checked]. *)
Definition loop_body (fd session : Z) (directory : list Z) (controls : optional_controls)
    (power_checked : bool) : M (option Z * optional_controls * bool) :=
  finished ← ask env (LoadFinished PowerThread);
  result ← (if (finished : bool) && negb power_checked then ask env PowerResult else mret 0);
  if negb (result =? 0) then mret (Some result, controls, power_checked) else
  let power_checked := power_checked || finished in
  controls ← (if (finished : bool) then check_optional_controls fd controls else mret controls);
  '(ready, revents) ← ask env (Poll fd);
  if ready <? 0 then mret (if ready =? - EINTR then None else Some ready, controls, power_checked) else
  if negb (Z.land revents (Z.lor POLLERR (Z.lor POLLHUP POLLNVAL)) =? 0)
  then mret (Some (- ENODEV), controls, power_checked) else
  if Z.land revents POLLIN =? 0 then mret (None, controls, power_checked) else
  r ← ask env (Read fd WMT_CMD2_READ_MAX);
  match r with
  | RErr e => mret (if (e =? EINTR) || (e =? EAGAIN) || (e =? ETIMEDOUT) then None else Some (- e),
                    controls, power_checked)
  | ROk bytes =>
      frame ← lift (store (replicate 287 0) 0 bytes);
      '(result, command) ← lift (wmt_command_decode (Some frame) (Z.of_nat (length bytes)) session
                                   (Some (mk_command 0 0 (replicate 256 0))));
      if negb (result =? 0) then mret (Some result, controls, power_checked) else
      command ← lift command;
      result ← handle_command env fuel uninit fd directory command;
      mret (if discarded result then None else if negb (result =? 0) then Some result else None,
            controls, power_checked)
  end.

Fixpoint command_loop (fuel : nat) (fd session : Z) (directory : list Z) (controls : optional_controls)
    (power_checked : bool) : M (Z * optional_controls) :=
  match fuel with
  | O => stuck
  | S fuel =>
      stop ← ask env StopRequested;
      if (stop : bool) then mret (0, controls) else
      '(next, controls, power_checked) ← loop_body fd session directory controls power_checked;
      match next with
      | Some result => mret (result, controls)
      | None => command_loop fuel fd session directory controls power_checked
      end
  end.

(** ** main *)

(** What the exit path looks at. *)
Record service := mk_service {
  sv_result : Z;
  sv_bound : bool;
  sv_session_id : Z;
  sv_advertised : bool;
  sv_power_started : bool;
  sv_controls : optional_controls;
}.

Definition bind_session : wmt_cmd2_session := mk_session WMT_CMD2_VERSION WMT_CMD2_BIND 0 0 0 0 0.
Definition unbind_session (id : Z) : wmt_cmd2_session :=
  mk_session WMT_CMD2_VERSION WMT_CMD2_UNBIND id 0 0 0 0.

(** The negotiated limits are the ones this source was built for. *)
Definition session_ok (s : wmt_cmd2_session) : bool :=
  (ss_version s =? WMT_CMD2_VERSION) && negb (ss_session_id s =? 0) &&
  (ss_max_read_bytes s =? WMT_CMD2_READ_MAX) && (ss_max_write_bytes s =? WMT_CMD2_WRITE_MAX) &&
  (ss_flags s =? 0) && (ss_reserved s =? 0).

(** From the open driver to the label [out]. *)
Definition serve (fd : Z) (directory : list Z) (argument : Z) : M service :=
  result ← check_chip fd;
  if negb (result =? 0) then mret (mk_service result false 0 false false zero_controls) else
  '(r, session) ← ask env (IoctlSession fd bind_session);
  if r <? 0 then mret (mk_service r false 0 false false zero_controls) else
  let id := ss_session_id session in
  if negb (session_ok session) then mret (mk_service (- EPROTO) true id false false zero_controls) else
  r ← ask env (Ioctl fd WMT_SET_HIF 0x23);
  r ← (if r <? 0 then mret r else ask env (Ioctl fd WMT_KILL_CLEAR 0));
  if r <? 0 then mret (mk_service r true id false false zero_controls) else
  r ← ask env (PropertySet LAUNCHER_READY (lit "yes"));
  if negb (r =? 0) then mret (mk_service (- EIO) true id false false zero_controls) else
  error ← ask env (Create PowerThread fd argument);
  if negb (error =? 0) then mret (mk_service (- error) true id true false zero_controls) else
  '(result, controls) ← command_loop fuel fd id directory zero_controls false;
  mret (mk_service result true id true true controls).

(** From the label [out] to the close. *)
Definition shutdown (fd : Z) (s : service) : M unit :=
  _ ← ask env (StoreStopping PowerThread true);
  _ ← (if sv_bound s then _ ← ask env (IoctlSession fd (unbind_session (sv_session_id s))); mret () else mret ());
  _ ← (if sv_power_started s then _ ← ask env (Join PowerThread); mret () else mret ());
  logging ← lift (strcmp_eq (oc_fwlog (sv_controls s)) yes);
  _ ← (if lg_created (oc_log (sv_controls s)) || logging
       then _ ← stop_firmware_log fd (sv_controls s); mret () else mret ());
  _ ← (if sv_advertised s then _ ← ask env (PropertySet LAUNCHER_READY (lit "no")); mret () else mret ());
  _ ← ask env (Close fd);
  mret ().

(** The options [getopt] delivers: [inl] is the exit status of a bad or [-h] one. *)
Fixpoint options (l : list (Z * list Z)) (directory : list Z) (argument : Z) : option (Z + (list Z * Z)) :=
  match l with
  | [] => Some (inr (directory, argument))
  | (o, optarg) :: l =>
      if o =? 112 then options l optarg argument else
      zero ← (if o =? 111 then strcmp_eq optarg (lit "0" ++ [NUL]) else Some false);
      one ← (if o =? 111 then strcmp_eq optarg (lit "1" ++ [NUL]) else Some false);
      if (zero : bool) || one then options l directory (if (one : bool) then 2 else 1)
      else Some (inl (if o =? 104 then 0 else 2))
  end.

Definition default_directory : list Z := lit "/vendor/firmware/" ++ [NUL].

(** [delivered] is what [getopt] delivers for the arguments, [operands] whether
    any are left.  The answer is the exit status. *)
Definition main (delivered : list (Z * list Z)) (operands : bool) : M Z :=
  parsed ← lift (options delivered default_directory 1);
  match parsed with
  | inl status => mret status
  | inr (directory, argument) =>
      d0 ← lift (directory !! 0%nat);
      n ← lift (strnlen directory PATH_MAX);
      if operands || (d0 =? NUL) || (n =? PATH_MAX)%nat then mret 2 else
      r ← ask env (Sigaction SIGTERM);
      r ← (if negb (r =? 0) then mret r else ask env (Sigaction SIGINT));
      if negb (r =? 0) then mret 1 else
      fd ← open_driver fuel;
      if fd <? 0 then
        stop ← ask env StopRequested;
        mret (if (stop : bool) then 0 else 1)
      else
        s ← serve fd directory argument;
        _ ← shutdown fd s;
        if sv_result s =? 0 then mret 0 else
        _ ← ask env StopRequested;     (* for the message *)
        stop ← ask env StopRequested;
        mret (if (stop : bool) then 0 else 1)
  end.
End Launcher.

(** ** The power worker *)

Section Power.
Context (fd argument : Z).

(** A failed attempt with its cleanup; the pause is left out after the last. *)
Definition failed_round (r off : Z) (pause : bool) : list event :=
  [Ev (LoadStopping PowerThread) false; Ev (Ioctl fd WMT_POWER argument) r;
   Ev (LoadStopping PowerThread) false; Ev (Ioctl fd WMT_POWER 0) off] ++
  if pause then [Ev (Usleep 1000000) tt] else [].

(** The result a failed attempt leaves. *)
Definition failure (r : Z) : Z := if r <? 0 then r else - EIO.

(** [n] attempts are left and [result] is what the last one gave. *)
Inductive power_run : nat -> Z -> list event -> Z -> Prop :=
  | run_exhausted result : power_run 0 result [] result
  | run_cancelled n result : power_run (S n) result [Ev (LoadStopping PowerThread) true] result
  | run_success n result :
      power_run (S n) result [Ev (LoadStopping PowerThread) false; Ev (Ioctl fd WMT_POWER argument) 0] 0
  | run_cancelled_after n result r : r <> 0 ->
      power_run (S n) result
        [Ev (LoadStopping PowerThread) false; Ev (Ioctl fd WMT_POWER argument) r;
         Ev (LoadStopping PowerThread) true] (failure r)
  | run_failed n result r off evs final : r <> 0 -> power_run n (failure r) evs final ->
      power_run (S n) result (failed_round r off (0 <? n)%nat ++ evs) final.

Lemma power_loop_ok env n attempt result h :
  attempt = 20 - Z.of_nat n -> (n <= 20)%nat ->
  wp (power_loop env n fd argument attempt result)
    (fun r h' => exists evs, h' = h ++ evs /\ power_run n result evs r) h.
Proof.
  revert attempt result h. induction n as [|n IH]; intros attempt result h Ha Hn.
  { apply wp_ret. exists []. rewrite app_nil_r. split; [done|constructor]. }
  cbn [power_loop]. apply wp_bind, wp_ask. set (h1 := h ++ _). destruct (env bool h _) eqn:Hs1; subst h1.
  { apply wp_ret. eexists. split; [reflexivity|constructor]. }
  apply wp_bind, wp_ask. set (r := env Z _ _). destruct (Z.eqb_spec r 0) as [Hr|Hr].
  { apply wp_ret. eexists. rewrite <- (assoc_L (++)), Hr. split; [reflexivity|constructor]. }
  cbv zeta. fold (failure r). apply wp_bind, wp_ask. set (h2 := (h ++ _) ++ _).
  destruct (env bool h2 _) eqn:Hs2; subst h2.
  { apply wp_ret. eexists. rewrite <- !(assoc_L (++)). split; [reflexivity|by constructor]. }
  apply wp_bind, wp_ask. set (off := env Z _ _). set (h3 := _ ++ [Ev (Ioctl fd WMT_POWER 0) off]).
  apply wp_bind. eapply (wp_mono _ (fun _ h4 => h4 = h3 ++ if (0 <? n)%nat then [Ev (Usleep 1000000) tt] else [])).
  - destruct (Z.ltb_spec (attempt + 1) 20), (Nat.ltb_spec 0 n); try lia.
    + apply wp_ask. by destruct (env unit _ _).
    + apply wp_ret. by rewrite app_nil_r.
  - intros _ h4 ->. eapply wp_mono; [apply (IH (attempt + 1)); lia|]. intros final h' (evs & -> & Hrun).
    exists (failed_round r off (0 <? n)%nat ++ evs). split; [|by constructor].
    unfold h3, failed_round. by rewrite <- !(assoc_L (++)).
Qed.

(** The attempts and the cleanups of a run. *)
Definition is_up (e : event) : bool :=
  match e with Ev (Ioctl _ request a) _ => (request =? WMT_POWER) && (a =? argument) | _ => false end.
Definition is_off (e : event) : bool :=
  match e with Ev (Ioctl _ request a) _ => (request =? WMT_POWER) && (a =? 0) | _ => false end.

Context (Harg : argument <> 0).

Lemma failed_round_counts r off pause :
  countb is_up (failed_round r off pause) = 1%nat /\ countb is_off (failed_round r off pause) = 1%nat.
Proof.
  unfold failed_round, countb. rewrite !List.filter_app. cbn -[WMT_POWER Z.eqb].
  rewrite !Z.eqb_refl, (proj2 (Z.eqb_neq 0 argument)), (proj2 (Z.eqb_neq argument 0)) by done.
  by destruct pause.
Qed.

(** No attempt runs on top of another that was not cleaned up. *)
Lemma power_run_counts n result evs final :
  power_run n result evs final ->
  (countb is_up evs <= n)%nat /\ (countb is_off evs <= countb is_up evs <= S (countb is_off evs))%nat.
Proof.
  induction 1 as [result|n result|n result|n result r Hr|n result r off evs final Hr Hrun IH].
  1-4: unfold countb; cbn -[WMT_POWER Z.eqb]; rewrite ?Z.eqb_refl, ?(proj2 (Z.eqb_neq argument 0)) by done; simpl; lia.
  rewrite !countb_app. destruct (failed_round_counts r off (0 <? n)%nat) as [-> ->]. lia.
Qed.

Lemma power_run_success n result evs final :
  power_run n result evs final -> result <> 0 -> final = 0 ->
  exists pre, evs = pre ++ [Ev (LoadStopping PowerThread) false; Ev (Ioctl fd WMT_POWER argument) 0] /\
    countb is_up pre = countb is_off pre.
Proof.
  induction 1 as [result|n result|n result|n result r Hr|n result r off evs final Hr Hrun IH]; intros Hres H0; try done.
  - by exists [].
  - unfold failure in H0. destruct (Z.ltb_spec r 0); [lia|done].
  - destruct IH as (pre & -> & Hc); [unfold failure; destruct (Z.ltb_spec r 0); [lia|done]|done|].
    exists (failed_round r off (0 <? n)%nat ++ pre). rewrite (assoc_L (++)). split; [done|].
    rewrite !countb_app. destruct (failed_round_counts r off (0 <? n)%nat) as [-> ->]. lia.
Qed.

Lemma power_run_exhausted n result evs final :
  power_run n result evs final -> final <> 0 -> (Ev (LoadStopping PowerThread) true ∉ evs) ->
  countb is_up evs = n /\ countb is_off evs = n.
Proof.
  induction 1 as [result|n result|n result|n result r Hr|n result r off evs final Hr Hrun IH]; intros H0 Hno; try done.
  - exfalso. apply Hno. by repeat constructor.
  - exfalso. apply Hno. by repeat constructor.
  - rewrite !countb_app. destruct (failed_round_counts r off (0 <? n)%nat) as [-> ->].
    destruct IH as [-> ->]; [done| |lia]. intros Hin. apply Hno, elem_of_app. by right.
Qed.
End Power.

(** The power worker makes at most 20 attempts and always returns.  Whatever
    the driver and the stop flag do, its run is a sequence of failed attempts,
    each followed by a power-off before the next attempt, and then one ending: a
    success, after which nothing more is sent; the stop flag, seen before an
    attempt or after a failed one; or the end of the 20 attempts.  It reports 0
    exactly for a success, else the error of the last attempt, or -ECANCELED if
    there was none; unless it was stopped, a failure means that all 20 attempts
    were made and cleaned up.  Setting the finished flag is its last act. *)
Theorem power_on_spec (env : strategy) fd argument h :
  argument <> 0 ->
  exists r evs, power_on env fd argument h = Some (r, h ++ evs ++ [Ev (StoreFinished PowerThread true) tt]) /\
    power_run fd argument 20 (- ECANCELED) evs r /\
    (countb (is_up argument) evs <= 20)%nat /\
    (countb is_off evs <= countb (is_up argument) evs <= S (countb is_off evs))%nat /\
    (r = 0 -> exists pre, evs = pre ++ [Ev (LoadStopping PowerThread) false; Ev (Ioctl fd WMT_POWER argument) 0] /\
       countb (is_up argument) pre = countb is_off pre) /\
    (r <> 0 -> Ev (LoadStopping PowerThread) true ∉ evs ->
       countb (is_up argument) evs = 20%nat /\ countb is_off evs = 20%nat).
Proof.
  intros Harg.
  assert (wp (power_on env fd argument) (fun r h' => exists evs,
    h' = h ++ evs ++ [Ev (StoreFinished PowerThread true) tt] /\ power_run fd argument 20 (- ECANCELED) evs r) h) as Hwp.
  { unfold power_on. apply wp_bind. eapply wp_mono; [by apply (power_loop_ok fd argument env 20 0)|].
    intros r h' (evs & -> & Hrun). apply wp_bind, wp_ask, wp_ret. exists evs.
    rewrite (assoc_L (++)). by destruct (env unit _ _). }
  apply wp_result in Hwp as (r & h' & Hr & evs & -> & Hrun). exists r, evs.
  destruct (power_run_counts fd argument Harg _ _ _ _ Hrun) as [? ?]. split_and!; try done; try lia.
  - intros Hz. by eapply power_run_success.
  - intros Hz Hno. by eapply power_run_exhausted.
Qed.

Lemma power_on_spec_witness :
  exists r evs, power_on sample_env 3 2 [] = Some (r, [] ++ evs ++ [Ev (StoreFinished PowerThread true) tt]) /\
    power_run 3 2 20 (- ECANCELED) evs r.
Proof.
  destruct (power_on_spec sample_env 3 2 [] ltac:(done)) as (r & evs & Hr & Hrun & _). by exists r, evs.
Defined.

(** ** The log worker *)

(** What it asks of the driver. *)
Inductive log_event (fd enabled : Z) : event -> Prop :=
  | log_stopping b : log_event fd enabled (Ev (LoadStopping LogThread) b)
  | log_enable r : log_event fd enabled (Ev (Ioctl fd WMT_FWLOG enabled) r)
  | log_pause u : log_event fd enabled (Ev (Usleep 100000) u).

(** Once told to stop it ends, having only repeated its own request; setting the
    finished flag is its last act. *)
Lemma set_firmware_log_ok (env : strategy) n fuel fd enabled h :
  (forall h, (n <= length h)%nat -> env bool h (LoadStopping LogThread) = true) -> (n < fuel)%nat ->
  wp (set_firmware_log env fuel fd enabled) (fun _ h' => exists evs u,
    h' = h ++ evs ++ [Ev (StoreFinished LogThread true) u] /\ Forall (log_event fd enabled) evs) h.
Proof.
  intros Hstop Hfuel. unfold set_firmware_log. apply wp_bind.
  eapply (wp_mono _ (fun _ h' => exists evs, h' = h ++ evs /\ Forall (log_event fd enabled) evs)).
  2: { intros _ h' (evs & -> & He). apply wp_ask. exists evs, (env unit (h ++ evs) (StoreFinished LogThread true)).
       by rewrite (assoc_L (++)). }
  assert (n < length h + fuel)%nat as Hn by lia. assert (0 < fuel)%nat as Hf by lia. clear Hfuel. revert h Hn.
  induction fuel as [|fuel IH]; intros h Hn; [lia|]. cbn [log_loop]. apply wp_bind, wp_ask.
  destruct (env bool h (LoadStopping LogThread)) eqn:Hs.
  { apply wp_ret. eexists. split; [reflexivity|]. repeat constructor. }
  assert (length h < n)%nat as Hlt.
  { destruct (decide (length h < n)%nat); [done|]. rewrite (Hstop h) in Hs by lia. done. }
  apply wp_bind, wp_ask. set (r := env Z _ _). destruct (r <? 0).
  { apply wp_ret. eexists. rewrite <- (assoc_L (++)). split; [reflexivity|]. repeat constructor. }
  apply wp_bind, wp_ask. set (u := env unit _ _).
  eapply wp_mono; [apply IH; rewrite ?length_app; simpl; lia|]. intros _ h' (evs & -> & He).
  eexists. rewrite <- !(assoc_L (++)). split; [reflexivity|]. by repeat constructor.
Qed.
