(* ===== verification/WmtLifecycle.v ===== *)
(** * The launcher's lifecycle (wmt-launcher/main.c)

    [life_step] is the abstract protocol the service owes the driver, the property
    store and its own threads: which call is allowed when.  The theorem is that
    every run of [main] is a run of this protocol that ends with everything given
    up, and that what is left is what the environment refused to take back. *)

From S2P Require Import Prelude CMem WmtProtocol WmtPatch WmtSearch WmtRom Calls WmtCalls WmtCommand WmtLauncher.

(** ** The protocol *)

(** What the service holds of its environment, the third form being what it asked
    to give up and the environment refused to take: a thread whose join failed, a
    session the driver did not unbind, a property that could not be set back. *)
Inductive worker := Absent | Live | Lost.
Inductive session := Unbound | Bound (id : Z) | Unreleased (id : Z).
Inductive readiness := NotReady | Ready | StaleReady.

#[global] Instance worker_eq_dec : EqDecision worker.
Proof. solve_decision. Defined.
#[global] Instance session_eq_dec : EqDecision session.
Proof. solve_decision. Defined.
#[global] Instance readiness_eq_dec : EqDecision readiness.
Proof. solve_decision. Defined.

Definition is_bound (x : session) : bool := match x with Bound _ => true | _ => false end.
Definition is_ready (x : readiness) : bool := match x with Ready => true | _ => false end.

Record life := mk_life {
  l_fd : option Z;         (* the open driver *)
  l_session : session;
  l_ready : readiness;
  l_power : worker;
  l_power_seen : bool;     (* its finished flag was seen *)
  l_stopping : bool;       (* the power worker was told to stop *)
  l_log : worker;
  l_log_ending : bool;     (* it was told to stop or seen to have finished *)
  l_closed : bool;
}.

Definition life0 : life := mk_life None Unbound NotReady Absent false false Absent false false.

#[global] Instance life_eq_dec : EqDecision life.
Proof. solve_decision. Defined.

Definition set_fd v l := mk_life v (l_session l) (l_ready l) (l_power l) (l_power_seen l) (l_stopping l) (l_log l) (l_log_ending l) (l_closed l).
Definition set_session v l := mk_life (l_fd l) v (l_ready l) (l_power l) (l_power_seen l) (l_stopping l) (l_log l) (l_log_ending l) (l_closed l).
Definition set_ready v l := mk_life (l_fd l) (l_session l) v (l_power l) (l_power_seen l) (l_stopping l) (l_log l) (l_log_ending l) (l_closed l).
Definition set_power v l := mk_life (l_fd l) (l_session l) (l_ready l) v (l_power_seen l) (l_stopping l) (l_log l) (l_log_ending l) (l_closed l).
Definition set_power_seen v l := mk_life (l_fd l) (l_session l) (l_ready l) (l_power l) v (l_stopping l) (l_log l) (l_log_ending l) (l_closed l).
Definition set_stopping v l := mk_life (l_fd l) (l_session l) (l_ready l) (l_power l) (l_power_seen l) v (l_log l) (l_log_ending l) (l_closed l).
Definition set_log v e l := mk_life (l_fd l) (l_session l) (l_ready l) (l_power l) (l_power_seen l) (l_stopping l) v e (l_closed l).
Definition set_closed l := mk_life None (l_session l) (l_ready l) (l_power l) (l_power_seen l) (l_stopping l) (l_log l) (l_log_ending l) true.

(** The driver is open on this descriptor. *)
Definition holds (l : life) (fd : Z) : bool := bool_decide (l_fd l = Some fd).

(** Commands are being served: a session is bound, readiness is advertised and
    the power worker runs. *)
Definition serving (l : life) (fd : Z) : bool :=
  holds l fd && is_bound (l_session l) && is_ready (l_ready l) && bool_decide (l_power l = Live).

(** A join: it succeeds or the thread is lost. *)
Definition joined (a : Z) : worker := if a =? 0 then Absent else Lost.

Definition guard (b : bool) (l : life) : option life := if b then Some l else None.

Definition life_call {A} (c : call A) (l : life) : A -> option life :=
  match c in call A return A -> option life with
  | PropertyGet _ | StopRequested | Usleep _ => fun _ => Some l
  | Sigaction _ => fun _ => guard (bool_decide (l = life0)) l
  | Open => fun a => guard (bool_decide (l = life0)) (if 0 <=? a then set_fd (Some a) l else l)
  | Ioctl fd request argument => fun _ =>
      if request =? WMT_CHIP_ID then guard (holds l fd && bool_decide (l_session l = Unbound)) l
      else if (request =? WMT_SET_HIF) || (request =? WMT_KILL_CLEAR) then
        guard (holds l fd && is_bound (l_session l) && negb (is_ready (l_ready l))) l
      else if request =? WMT_CHIP_INFO then guard (serving l fd) l
      else if request =? WMT_FWLOG then
        (* the disable never races the worker's enable *)
        guard (holds l fd && (argument =? 0) && bool_decide (l_log l = Absent)) l
      else None
  | IoctlSession fd s => fun a =>
      if ss_action s =? WMT_CMD2_BIND then
        guard (holds l fd && bool_decide (l_session l = Unbound) && (ss_session_id s =? 0))
          (if a.1 <? 0 then l else set_session (Bound (ss_session_id a.2)) l)
      else
        (* unbinding its own session, once the power worker was told to stop *)
        guard ((ss_action s =? WMT_CMD2_UNBIND) && holds l fd &&
               bool_decide (l_session l = Bound (ss_session_id s)) && l_stopping l)
          (set_session (if a.1 <? 0 then Unreleased (ss_session_id s) else Unbound) l)
  | IoctlDump fd bytes => fun _ => guard (serving l fd && (length bytes =? 109)%nat) l
  | Poll fd => fun _ => guard (serving l fd) l
  | Read fd _ => fun _ => guard (serving l fd) l
  | Write fd _ => fun _ => guard (serving l fd) l
  | SearchDir _ => fun _ => guard (bool_decide (l_power l = Live)) l
  | PropertySet key value => fun a =>
      if bool_decide (key = LAUNCHER_READY) then
        if bool_decide (value = lit "yes") then
          guard (is_bound (l_session l) && negb (is_ready (l_ready l)) && bool_decide (l_power l = Absent))
            (if a =? 0 then set_ready Ready l else l)
        else
          (* withdrawn after the session and the power worker *)
          guard (bool_decide (value = lit "no") && is_ready (l_ready l) && negb (is_bound (l_session l)) &&
                 negb (bool_decide (l_power l = Live)))
            (set_ready (if a =? 0 then NotReady else StaleReady) l)
      else guard (is_bound (l_session l) && bool_decide (l_power l = Live)) l
  | Create PowerThread fd _ => fun a =>
      guard (holds l fd && is_bound (l_session l) && is_ready (l_ready l) && bool_decide (l_power l = Absent))
        (if a =? 0 then set_power Live l else l)
  | Create LogThread fd argument => fun a =>
      (* one worker at a time *)
      guard (serving l fd && (argument =? 1) && bool_decide (l_log l = Absent))
        (if a =? 0 then set_log Live false l else l)
  | Join PowerThread => fun a =>
      (* the session is given up first, so a blocked power call can end *)
      guard (bool_decide (l_power l = Live) && l_stopping l && negb (is_bound (l_session l)))
        (set_power (joined a) l)
  | Join LogThread => fun a =>
      guard (negb (bool_decide (l_log l = Absent)) && l_log_ending l) (set_log (joined a) (l_log_ending l) l)
  | StoreStopping PowerThread v => fun _ => guard v (set_stopping true l)
  | StoreStopping LogThread v => fun _ =>
      if v then guard (negb (bool_decide (l_log l = Absent))) (set_log (l_log l) true l)
      else guard (bool_decide (l_log l = Absent)) l
  | StoreFinished LogThread v => fun _ => guard (negb v && bool_decide (l_log l = Absent)) l
  | StoreFinished PowerThread _ => fun _ => None
  | LoadStopping _ => fun _ => None
  | LoadFinished PowerThread => fun a =>
      guard (bool_decide (l_power l = Live)) (if a : bool then set_power_seen true l else l)
  | LoadFinished LogThread => fun a =>
      guard (negb (bool_decide (l_log l = Absent))) (if a : bool then set_log (l_log l) true l else l)
  | PowerResult =>
      (* the plain field is read only after the flag that publishes it *)
      fun _ => guard (l_power_seen l) l
  | Close fd => fun _ =>
      (* Linux releases the descriptor whatever close returns *)
      guard (holds l fd && negb (is_bound (l_session l)) && negb (is_ready (l_ready l)) &&
             negb (bool_decide (l_power l = Live)) && negb (bool_decide (l_log l = Live))) (set_closed l)
  end.

Definition life_step (l : life) (e : event) : option life :=
  match e with Ev c a => life_call c l a end.

Fixpoint life_run (l : life) (h : history) : option life :=
  match h with
  | [] => Some l
  | e :: h => l ← life_step l e; life_run l h
  end.

(** Everything was given up: the driver is closed, and the service asked for the
    session to be unbound, for the readiness to be withdrawn and for each thread it
    created to be joined. *)
Definition released (l : life) : Prop :=
  l_fd l = None /\ is_bound (l_session l) = false /\ is_ready (l_ready l) = false /\
  l_power l <> Live /\ l_log l <> Live.

(** What may be left, and whether it is. *)
Inductive leftover := SessionLeft | ReadyLeft | ThreadLeft (t : thread).

Definition left_over (l : life) (w : leftover) : Prop :=
  match w with
  | SessionLeft => l_session l <> Unbound
  | ReadyLeft => l_ready l <> NotReady
  | ThreadLeft PowerThread => l_power l <> Absent
  | ThreadLeft LogThread => l_log l <> Absent
  end.

(** The environment declined to take something back: the driver failed the unbind,
    the property store failed to set the value back, a join failed. *)
Definition declined (e : event) (w : leftover) : Prop :=
  match w with
  | SessionLeft => exists fd x a, e = Ev (IoctlSession fd x) a /\ ss_action x = WMT_CMD2_UNBIND /\ a.1 < 0
  | ReadyLeft => exists a, e = Ev (PropertySet LAUNCHER_READY (lit "no")) a /\ a <> 0
  | ThreadLeft t => exists a, e = Ev (Join t) a /\ a <> 0
  end.

Lemma life_run_app l h1 h2 : life_run l (h1 ++ h2) = l' ← life_run l h1; life_run l' h2.
Proof.
  revert l. induction h1 as [|e h1 IH]; intros l; [done|]. simpl. destruct (life_step l e); simpl; [apply IH|done].
Qed.

(** Each form of "refused" is recorded only for a call the environment declined. *)
Definition accounted (l : life) (h : history) : Prop :=
  (forall id, l_session l = Unreleased id -> exists e, e ∈ h /\ declined e SessionLeft) /\
  (l_ready l = StaleReady -> exists e, e ∈ h /\ declined e ReadyLeft) /\
  (l_power l = Lost -> exists e, e ∈ h /\ declined e (ThreadLeft PowerThread)) /\
  (l_log l = Lost -> exists e, e ∈ h /\ declined e (ThreadLeft LogThread)).

Lemma accounted_step l l' h e :
  accounted l h -> life_step l e = Some l' -> accounted l' (h ++ [e]).
Proof.
  intros (Hs & Hr & Hp & Hl) Hstep.
  assert (forall w, (exists x, x ∈ h /\ declined x w) \/ declined e w ->
    exists x, x ∈ h ++ [e] /\ declined x w) as Hin.
  { intros w [(x & ? & ?)|?]; [exists x|exists e]; rewrite elem_of_app, list_elem_of_singleton; auto. }
  assert (forall w, (exists x, x ∈ h /\ declined x w) -> exists x, x ∈ h ++ [e] /\ declined x w) as Hold by auto.
  assert (accounted l (h ++ [e])) as Hsame by (split_and!; eauto).
  destruct e as [A c a]. unfold life_step in Hstep.
  destruct c; cbn -[bool_decide Z.eqb Z.ltb Z.leb lit] in Hstep; unfold guard in Hstep;
    repeat case_match; simplify_eq; try exact Hsame; try done;
    (split_and!; cbn -[declined]; eauto; intros; try done; apply Hin; right; cbn -[lit]).
  - zb. subst key value. eexists. split; [reflexivity|done].
  - zb. eexists _, _, _. split; [reflexivity|done].
  - unfold joined in *. case_match; [done|]. zb. by eexists.
  - unfold joined in *. case_match; [done|]. zb. by eexists.
Qed.

Lemma life_run_accounted h l : life_run life0 h = Some l -> accounted l h.
Proof.
  revert l. induction h as [|e h IH] using rev_ind; intros l Hl; [injection Hl as <-; by split_and!|].
  rewrite life_run_app in Hl. destruct (life_run life0 h) as [l1|]; [|done]. simpl in Hl.
  destruct (life_step l1 e) as [l2|] eqn:He; [|done]. injection Hl as <-.
  eapply accounted_step; [by apply IH|exact He].
Qed.

(** What a released service leaves was declined. *)
Lemma left_over_declined h l w :
  life_run life0 h = Some l -> released l -> left_over l w -> exists e, e ∈ h /\ declined e w.
Proof.
  intros Hl (_ & Hs & Hr & Hp & Hg) Hw. destruct (life_run_accounted _ _ Hl) as (As & Ar & Ap & Ag).
  destruct w as [| |[]]; cbn in Hw.
  - destruct (l_session l) eqn:?; try done. by eapply As.
  - destruct (l_ready l); try done. by apply Ar.
  - destruct (l_power l); try done. by apply Ap.
  - destruct (l_log l); try done. by apply Ag.
Qed.

(** ** Programs that follow the protocol *)

(** What the environment's answers respect: property values and frames fit their
    buffers, identifiers their types, directories as in the search. *)
Definition legal {A} (c : call A) : A -> Prop :=
  match c in call A return A -> Prop with
  | PropertyGet _ => fun s => (length s <= 91)%nat /\ Forall (fun c => c <> 0) s
  | Read _ size => fun r => match r with ROk bs => bytes_ok bs /\ (length bs <= Z.to_nat size)%nat | RErr e => 0 < e end
  | IoctlSession _ _ => fun r => is_u64 (ss_session_id r.2)
  | SearchDir _ => fun d => dir_ok d
  | _ => fun _ => True
  end.

Section Follows.
Context (env : strategy) (n : nat).
Context (Hlegal : forall A h (c : call A), legal c (env A h c)).
Context (Hstop : stops_by env n).

(** From state [l] after [k] calls the program follows the protocol and ends in a
    state [Q] allows. *)
Definition follows {A} (l : life) (k : nat) (m : M A) (Q : A -> life -> nat -> Prop) : Prop :=
  forall h, life_run life0 h = Some l -> length h = k ->
    wp m (fun a h' => exists l', life_run life0 h' = Some l' /\ Q a l' (length h')) h.

Lemma follows_ret {A} l k (a : A) Q : Q a l k -> follows l k (mret a) Q.
Proof. intros HQ h Hl <-. apply wp_ret. by exists l. Qed.

Lemma follows_bind {A B} l k (m : M A) (f : A -> M B) Q :
  follows l k m (fun a l k => follows l k (f a) Q) -> follows l k (m ≫= f) Q.
Proof.
  intros Hm h Hl Hk. apply wp_bind. eapply wp_mono; [by apply Hm|]. intros a h' (l' & Hl' & Hf). by apply Hf.
Qed.

Lemma follows_mono {A} l k (m : M A) (Q R : A -> life -> nat -> Prop) :
  follows l k m Q -> (forall a l k, Q a l k -> R a l k) -> follows l k m R.
Proof.
  intros Hm HQR h Hl Hk. eapply wp_mono; [by apply Hm|]. intros a h' (l' & Hl' & HQ). exists l'. auto.
Qed.

Lemma follows_lift {A} l k (o : option A) a Q : o = Some a -> Q a l k -> follows l k (lift o) Q.
Proof. intros Ho HQ h Hl <-. eapply wp_lift; [exact Ho|]. by exists l. Qed.

Lemma follows_ask {A} l k (c : call A) Q :
  (forall a, legal c a -> exists l', life_call c l a = Some l' /\ Q a l' (S k)) -> follows l k (ask env c) Q.
Proof.
  intros HQ h Hl <-. apply wp_ask. destruct (HQ _ (Hlegal A h c)) as (l' & Hs & HQ'). exists l'.
  rewrite life_run_app, Hl. simpl. rewrite Hs. split; [done|]. by rewrite length_app, Nat.add_1_r.
Qed.

(** The stop flag: while it is not set, the history is shorter than [n]. *)
Lemma follows_stop l k Q :
  Q true l (S k) -> ((k < n)%nat -> Q false l (S k)) -> follows l k (ask env StopRequested) Q.
Proof.
  intros Ht Hf h Hl <-. apply wp_ask. exists l. rewrite life_run_app, Hl. simpl. split; [done|].
  rewrite length_app, Nat.add_1_r. destruct (env bool h StopRequested) eqn:Hs; [exact Ht|]. apply Hf.
  destruct (decide (length h < n)%nat); [done|]. rewrite (Hstop h) in Hs by lia. done.
Qed.

Lemma property_get_follows l k key size Q :
  (92 <= size)%nat ->
  (forall s, (length s <= 91)%nat -> Forall (fun c => c <> 0) s ->
     Q (Z.of_nat (length s), pad_to size s) l (S k)) ->
  follows l k (property_get env key (replicate size 0)) Q.
Proof.
  intros Hs HQ. unfold property_get. apply follows_bind, follows_ask. intros s [Hl Hnz]. exists l. split; [done|].
  apply follows_bind. eapply follows_lift; [|apply follows_ret, (HQ s Hl Hnz)].
  rewrite store_ok by (rewrite length_app, length_replicate; simpl; lia). f_equal.
  unfold overwrite, pad_to. rewrite take_0, drop_replicate, length_app. simpl.
  rewrite <- (assoc_L (++)). f_equal. replace (size - length s)%nat with (S (size - (length s + 1))) by lia. done.
Qed.

(** ** The phases of the service *)

Definition opened (fd : Z) : life := mk_life (Some fd) Unbound NotReady Absent false false Absent false false.
Definition bound (fd id : Z) : life := mk_life (Some fd) (Bound id) NotReady Absent false false Absent false false.
Definition advertised (fd id : Z) : life := mk_life (Some fd) (Bound id) Ready Absent false false Absent false false.
Definition served (fd id : Z) (seen : bool) (log : worker) (ending : bool) : life :=
  mk_life (Some fd) (Bound id) Ready Live seen false log ending false.

Lemma holds_fd l fd : l_fd l = Some fd -> holds l fd = true.
Proof. intros. by apply bool_decide_eq_true. Qed.

Lemma serving_served fd id seen log ending : serving (served fd id seen log ending) fd = true.
Proof. unfold serving. rewrite holds_fd by done. done. Qed.

(** A call that the protocol allows in the present state. *)
Ltac allowed :=
  cbn [life_call]; unfold guard;
  rewrite ?serving_served, ?holds_fd by done; cbn -[Z.eqb Z.ltb];
  rewrite ?Z.eqb_refl, ?bool_decide_true by (done || by eexists); cbn -[Z.eqb Z.ltb]; reflexivity.

Ltac asks := apply follows_bind, follows_ask; intros ? _; eexists; split; [allowed|].

Lemma strcmp_pad size s t :
  (length s < size)%nat -> Forall (fun c => c <> 0) s -> Forall (fun c => c <> 0) t ->
  strcmp_eq (pad_to size s) (t ++ [NUL]) = Some (bool_decide (s = t)).
Proof. intros Hl Hs Ht. apply strcmp_eq_spec; [by apply cstr_pad|by apply cstr_app]. Qed.

Lemma yes_nonzero : Forall (fun c => c <> 0) (lit "yes").
Proof. by repeat constructor. Qed.

(** Waiting for the driver. *)
Lemma open_driver_follows fuel k :
  (n < k + fuel)%nat -> (0 < fuel)%nat ->
  follows life0 k (open_driver env fuel) (fun fd l _ => l = if fd <? 0 then life0 else opened fd).
Proof.
  revert k. induction fuel as [|fuel IH]; intros k Hn Hf; [lia|]. cbn [open_driver].
  apply follows_bind, follows_stop; [by apply follows_ret|]. intros Hk. cbn [negb].
  apply follows_bind, property_get_follows; [unfold PROPERTY_VALUE_MAX; lia|]. intros s Hl Hnz.
  apply follows_bind. eapply follows_lift; [apply strcmp_pad; [unfold PROPERTY_VALUE_MAX; lia|done|apply yes_nonzero]|].
  cbv zeta.
  assert (forall k', (k < k')%nat -> follows life0 k' (_ ← ask env (Usleep 300000); open_driver env fuel)
    (fun fd l _ => l = if fd <? 0 then life0 else opened fd)) as Hagain.
  { intros k' Hk'. asks. apply IH; lia. }
  case_bool_decide; [|apply Hagain; lia].
  apply follows_bind, follows_ask. intros fd _. eexists. split; [allowed|].
  destruct (Z.leb_spec 0 fd).
  - apply follows_ret. rewrite (proj2 (Z.ltb_ge fd 0)) by done. done.
  - destruct (_ && _); [by apply follows_ret|]. apply Hagain. lia.
Qed.

(** The chip check leaves the state alone. *)
Lemma check_chip_follows fuel fd k :
  (n < fuel)%nat ->
  follows (opened fd) k (check_chip env fuel fd) (fun _ l k' => l = opened fd /\ (k <= k')%nat).
Proof.
  intros Hf. unfold check_chip, cached_chip. apply follows_bind, follows_bind, property_get_follows; [unfold PROPERTY_VALUE_MAX; lia|].
  intros s Hl Hnz. unfold PROPERTY_VALUE_MAX.
  destruct (lookup_lt_is_Some_2 (pad_to 92 s) 0) as [v0 Hv0]; [rewrite length_pad_to; lia|].
  apply follows_bind. eapply follows_lift; [exact Hv0|].
  assert (forall fuel k', (k <= k')%nat -> (n < k' + fuel)%nat -> (0 < fuel)%nat ->
    follows (opened fd) k' (chip_loop env fuel fd) (fun _ l k' => l = opened fd /\ (k <= k')%nat)) as Hloop.
  { clear -Hlegal Hstop. intros fuel. induction fuel as [|fuel IH]; intros k' Hk Hn Hf; [lia|]. cbn [chip_loop].
    apply follows_bind, follows_stop; [apply follows_ret; split; [done|lia]|]. intros Hk'. cbn [negb].
    apply follows_bind, follows_ask. intros chip _. eexists. split; [allowed|].
    destruct (0 <=? chip); [apply follows_ret; split; [done|lia]|].
    destruct (_ && _); [apply follows_ret; split; [done|lia]|]. asks. apply IH; lia. }
  assert (forall b k', (k <= k')%nat -> follows (opened fd) k' (if (b : bool) then mret 0 else chip_loop env fuel fd)
    (fun _ l k' => l = opened fd /\ (k <= k')%nat)) as Hend.
  { intros [] k' Hk; [by apply follows_ret|apply Hloop; lia]. }
  destruct ((_ <=? 0) || _); [apply follows_ret, (Hend false); lia|].
  apply follows_bind. eapply follows_lift; [apply cstr_pad; [done|lia]|].
  destruct (strtoul16 s) as [[chip rest] range]. apply follows_ret, Hend. lia.
Qed.

(** ** The optional controls *)

(** A property value as its array holds it. *)
Definition holds_value (v : list Z) : Prop :=
  exists s, v = pad_to 92 s /\ (length s <= 91)%nat /\ Forall (fun c => c <> 0) s.

(** The record of the worker is right. *)
Definition ctl_ok (c : optional_controls) (log : worker) : Prop :=
  holds_value (oc_fwlog c) /\ holds_value (oc_dump c) /\
  lg_created (oc_log c) = negb (bool_decide (log = Absent)).

Lemma memcpy_value v size s :
  holds_value v -> (92 <= size)%nat -> (length s <= 91)%nat ->
  memcpy v 0 (pad_to size s) 0 92 = Some (pad_to 92 s).
Proof.
  intros (t & -> & Ht & _) Hsz Hs. unfold memcpy. rewrite load_n_ok by (rewrite length_pad_to; lia).
  cbn [mbind option_bind]. rewrite drop_0. assert (take 92 (pad_to size s) = pad_to 92 s) as ->.
  { unfold pad_to. rewrite take_app_ge by lia. f_equal. rewrite take_replicate. f_equal. lia. }
  rewrite store_ok by (rewrite !length_pad_to; lia). f_equal. rewrite overwrite_0_drop, drop_ge, app_nil_r; [done|].
  rewrite !length_pad_to by lia. lia.
Qed.

Lemma strcmp_value size s v :
  holds_value v -> (length s < size)%nat -> Forall (fun c => c <> 0) s ->
  exists b, strcmp_eq (pad_to size s) v = Some b.
Proof.
  intros (t & -> & Ht & Hnz) Hs Hns. eexists. apply (strcmp_eq_spec _ _ s t); apply cstr_pad; done || lia.
Qed.

(** Stopping the log worker: it is joined, or lost, and disabling follows a join. *)
Lemma stop_log_follows l k fd c :
  l_fd l = Some fd -> ctl_ok c (l_log l) ->
  follows l k (stop_firmware_log env fd c) (fun rc l' k' => exists log' ending',
    l' = set_log log' ending' l /\ ctl_ok rc.2 log' /\ log' <> Live /\ (k <= k')%nat).
Proof.
  intros Hfd (Hf & Hd & Hc). unfold stop_firmware_log. rewrite Hc.
  assert (forall l' k', l_fd l' = Some fd -> l_log l' = Absent ->
    (exists log' e', l' = set_log log' e' l) -> (k <= k')%nat -> forall c', ctl_ok c' Absent ->
    follows l' k' (r ← ask env (Ioctl fd WMT_FWLOG 0); mret (if r <? 0 then r else 0, c'))
      (fun rc l' k' => exists log' ending', l' = set_log log' ending' l /\ ctl_ok rc.2 log' /\ log' <> Live /\ (k <= k')%nat))
    as Hdis.
  { intros l' k' Hfd' Hlog (log' & e' & Hl') Hk c' Hc'. apply follows_bind, follows_ask. intros r _. exists l'. split.
    { cbn [life_call]. unfold guard. rewrite holds_fd, Hlog by done. done. }
    apply follows_ret. exists log', e'. subst l'. cbn in Hlog. subst log'. split_and!; [done|done|done|lia]. }
  destruct (bool_decide (l_log l = Absent)) eqn:Hab; cbn [negb].
  - apply bool_decide_eq_true in Hab. apply follows_bind, follows_ret. cbn [negb Z.eqb].
    apply Hdis; try done. { exists (l_log l), (l_log_ending l). by destruct l. }
  - apply follows_bind, follows_bind, follows_ask. intros u _. eexists. split.
    { cbn [life_call]. unfold guard. rewrite Hab. cbn [negb]. reflexivity. }
    apply follows_bind, follows_ask. intros a _. eexists. split.
    { cbn [life_call]. unfold guard. cbn [set_log l_log l_log_ending]. rewrite Hab. cbn [negb andb]. reflexivity. }
    apply follows_ret. unfold joined. destruct (Z.eqb_spec a 0) as [ ->|Ha]; cbn [negb].
    + apply Hdis; try done; [by eexists _, _|lia].
    + apply follows_ret. exists Lost, true. split_and!; [done| |done|lia].
      split_and!; done.
Qed.

(** A wanted log worker: reaped if finished, started if absent. *)
Lemma want_log_follows k fd id seen log ending s c :
  ctl_ok c log -> (length s <= 91)%nat -> Forall (fun c => c <> 0) s ->
  follows (served fd id seen log ending) k (want_firmware_log env fd (pad_to 92 s) c)
    (fun c' l' k' => exists log' ending', l' = served fd id seen log' ending' /\ ctl_ok c' log' /\ (k <= k')%nat).
Proof.
  intros (Hf & Hd & Hc) Hs Hnz. unfold want_firmware_log. rewrite Hc.
  assert (forall k' log' ending' c', (k <= k')%nat -> ctl_ok c' log' ->
    follows (served fd id seen log' ending') k'
      (if lg_created (oc_log c') then mret c' else
       let controls := mk_controls (oc_fwlog c') (oc_dump c') (mk_log fd 1 false) in
       _ ← ask env (StoreStopping LogThread false); _ ← ask env (StoreFinished LogThread false);
       error ← ask env (Create LogThread fd 1);
       if negb (error =? 0) then mret controls else
       v ← lift (memcpy (oc_fwlog controls) 0 (pad_to 92 s) 0 PROPERTY_VALUE_MAX);
       mret (with_fwlog v (with_created true controls)))
      (fun c' l' k' => exists log' ending', l' = served fd id seen log' ending' /\ ctl_ok c' log' /\ (k <= k')%nat))
    as Hstart.
  { intros k' log' ending' c' Hk (Hf' & Hd' & Hc'). rewrite Hc'.
    destruct (bool_decide (log' = Absent)) eqn:Hab; cbn [negb].
    2: { apply follows_ret. exists log', ending'. split_and!; [done|unfold ctl_ok; by rewrite Hab|done]. }
    apply bool_decide_eq_true in Hab as ->. cbv zeta. asks. asks.
    apply follows_bind, follows_ask. intros err _. eexists. split; [allowed|].
    destruct (Z.eqb_spec err 0); cbn [negb].
    - apply follows_bind. eapply follows_lift; [by apply (memcpy_value _ 92)|]. apply follows_ret.
      exists Live, false. split_and!; [done| |lia]. split_and!; [by exists s|done|done].
    - apply follows_ret. exists Absent, ending'. split_and!; [done| |lia]. split_and!; done. }
  destruct (bool_decide (log = Absent)) eqn:Hab; cbn [negb].
  { apply follows_bind, follows_ret, follows_bind, follows_ret, Hstart; [lia|unfold ctl_ok; by rewrite Hab]. }
  apply follows_bind, follows_ask. intros fin _. eexists. split.
  { cbn [life_call]. unfold guard. cbn [served l_log]. rewrite Hab. cbn [negb]. reflexivity. }
  destruct fin.
  - apply follows_bind, follows_bind, follows_ask. intros a _. eexists. split.
    { cbn [life_call]. unfold guard. cbn [served set_log l_log l_log_ending]. rewrite Hab. cbn [negb andb]. reflexivity. }
    apply follows_ret. change (set_log (joined a) _ _) with (served fd id seen (joined a) true). apply Hstart; [lia|].
    unfold joined. destruct (a =? 0); split_and!; done.
  - apply follows_bind, follows_ret, Hstart; [lia|unfold ctl_ok; by rewrite Hab].
Qed.

Lemma check_controls_follows k fd id seen log ending c :
  ctl_ok c log ->
  follows (served fd id seen log ending) k (check_optional_controls env fd c)
    (fun c' l' k' => exists log' ending', l' = served fd id seen log' ending' /\ ctl_ok c' log' /\ (k <= k')%nat).
Proof.
  intros Hc. unfold check_optional_controls, PROPERTY_VALUE_MAX.
  apply follows_bind, property_get_follows; [lia|]. intros s Hs Hnz.
  apply follows_bind. eapply follows_lift; [apply strcmp_pad; [lia|done|apply yes_nonzero]|].
  apply follows_bind. eapply follows_mono.
  { instantiate (1 := fun c' l' k' => exists log' ending', l' = served fd id seen log' ending' /\ ctl_ok c' log' /\ (k <= k')%nat).
    case_bool_decide.
    - eapply follows_mono; [by apply want_log_follows|]. intros c' l' k' (log' & e' & ? & ? & ?). exists log', e'. split_and!; [done|done|lia].
    - pose proof Hc as (Hf & Hd & Hcr). destruct (strcmp_value 92 s (oc_fwlog c) Hf ltac:(lia) Hnz) as [same Hsame].
      apply follows_bind. eapply follows_lift; [exact Hsame|]. destruct same.
      { apply follows_ret. exists log, ending. split_and!; [done|done|lia]. }
      apply follows_bind. eapply follows_mono; [by apply stop_log_follows|].
      intros [r c'] l' k' (log' & e' & -> & Hc' & _ & Hk'). cbn [fst snd] in *.
      destruct (negb (r =? 0)).
      { apply follows_ret. exists log', e'. split_and!; [done|done|lia]. }
      destruct Hc' as (Hf' & Hd' & Hcr'). apply follows_bind. eapply follows_lift; [by apply (memcpy_value _ 92)|].
      apply follows_ret. exists log', e'. split_and!; [done| |lia]. split_and!; [by exists s|done|done]. }
  intros c' l' k' (log' & e' & -> & (Hf & Hd & Hcr) & Hk').
  apply follows_bind, property_get_follows; [unfold DYNAMIC_DUMP_BYTES; lia|]. intros d Hdl Hdn.
  unfold DYNAMIC_DUMP_BYTES in *. change (109 + 1)%nat with 110%nat.
  destruct (strcmp_value 110 d (oc_dump c') Hd ltac:(lia) Hdn) as [same Hsame].
  apply follows_bind. eapply follows_lift; [exact Hsame|]. destruct same.
  { apply follows_ret. exists log', e'. split_and!; [done|by split_and!|lia]. }
  apply follows_bind. eapply follows_lift; [apply load_n_ok; rewrite length_pad_to; lia|].
  apply follows_bind, follows_ask. intros r _. eexists. split.
  { cbn [life_call]. unfold guard. rewrite serving_served, length_take, length_drop, length_pad_to by lia. reflexivity. }
  destruct (r <? 0).
  { apply follows_ret. exists log', e'. split_and!; [done|by split_and!|lia]. }
  apply follows_bind. eapply follows_lift; [by apply (memcpy_value _ 110); [| lia |]|].
  apply follows_ret. exists log', e'. split_and!; [done| |lia]. split_and!; [done|by exists d|done].
Qed.

(** ** Commands *)

(** A decoded command can be answered. *)
Lemma decode_ok frame size session out :
  bytes_ok frame -> 0 <= size <= Z.of_nat (length frame) -> is_u64 session -> session <> 0 ->
  exists r c, wmt_command_decode (Some frame) size session (Some out) = Some (r, Some c) /\
    (r = 0 -> command_wf c /\ c_session c <> 0 /\ c_transaction c <> 0 /\ is_Some (cstr (c_text c))).
Proof.
  intros Hb Hs Hu Hne. destruct (decide (size < 32)) as [Hlt|Hge].
  { unfold wmt_command_decode, WMT_CMD2_FRAME_HEADER_SIZE.
    rewrite (proj2 (Z.eqb_neq session 0)), (proj2 (Z.ltb_lt size 32)) by done. by eexists _, _. }
  rewrite decode_fields by (done || unfold WMT_CMD2_FRAME_HEADER_SIZE; lia).
  repeat c_case; eexists _, _; (split; [reflexivity|]); try done. intros _. zb.
  split_and!; [split; [done|]|done|done|]; cbn [c_session c_transaction c_text].
  - apply (field_range frame 16 8); [done|lia].
  - unfold WMT_CMD2_COMMAND_MAX in *. pose proof (field_range frame 24 4 Hb ltac:(lia)) as Hr. unfold in_w in Hr.
    rewrite cstr_pad; [by eexists|done|]. rewrite length_take. lia.
Qed.

Definition neutral (l : life) (e : event) : Prop := life_step l e = Some l.

Lemma neutral_run l h : Forall (neutral l) h -> life_run l h = Some l.
Proof. induction 1 as [|e h He _ IH]; [done|]. simpl. unfold neutral in He. by rewrite He. Qed.

Section Neutral.
Context (fd id : Z) (seen : bool) (log : worker) (ending : bool).
Let l := served fd id seen log ending.

Lemma searched_neutral directory text queries out :
  searched fd directory text queries out -> Forall (neutral l) queries.
Proof.
  assert (forall chip, neutral l (asked_chip fd chip)) as Hc by (intros; unfold neutral, l; cbn; allowed).
  assert (forall v, neutral l (asked_version fd v)) as Hv by (intros; unfold neutral, l; cbn; allowed).
  destruct 1; repeat constructor; auto.
Qed.

Lemma attempts_neutral bytes writes r : attempts fd bytes writes r -> Forall (neutral l) writes.
Proof.
  assert (forall a, neutral l (Ev (Write fd bytes) a)) as Hw by (intros; unfold neutral, l; cbn; allowed).
  induction 1; repeat constructor; auto.
Qed.

Lemma published_neutral (b : bool) out pubs :
  published (if b then publications out else []) pubs -> Forall (neutral l) pubs.
Proof.
  assert (forall key v, key ∈ [PATCH_VERSION; WIFI_VERSION; BT_VERSION] ->
    forall a, neutral l (Ev (PropertySet key v) a)) as Hk.
  { intros key v Hkey a. unfold neutral. cbn. rewrite bool_decide_false; [done|].
    intros ->. by repeat (apply elem_of_cons in Hkey as [?|Hkey]; [done|]); apply not_elem_of_nil in Hkey. }
  intros Hp. apply Forall_forall. intros e (i & Hi)%list_elem_of_lookup.
  destruct (Forall2_lookup_r _ _ _ _ _ Hp Hi) as ([key v] & Hkv & a & ->). apply Hk. clear -Hkv.
  destruct b; [|done]. apply list_elem_of_lookup_2 in Hkv. simpl.
  destruct out as [r|r|e]; cbn [publications] in Hkv; [|apply elem_of_app in Hkv as [Hkv|Hkv]|by apply not_elem_of_nil in Hkv].
  - apply list_elem_of_singleton in Hkv as [= -> ->]. in_list.
  - destruct (rs_has_wifi r); [|by apply not_elem_of_nil in Hkv]. apply list_elem_of_singleton in Hkv as [= -> ->]. in_list.
  - destruct (rs_has_bt r); [|by apply not_elem_of_nil in Hkv]. apply list_elem_of_singleton in Hkv as [= -> ->]. in_list.
Qed.

Lemma answered_neutral directory command text h r h' :
  answered fd directory command text h r h' -> exists evs, h' = h ++ evs /\ Forall (neutral l) evs.
Proof.
  destruct 1 as [queries out Hq _|queries out writes r pubs Hq _ Hw Hp].
  - exists queries. split; [done|by eapply searched_neutral].
  - exists (queries ++ writes ++ pubs). split; [done|]. rewrite !Forall_app.
    split_and!; [by eapply searched_neutral|by eapply attempts_neutral|by eapply published_neutral].
Qed.
End Neutral.

(** ** The service *)

Context (fuel : nat) (uninit : list Z) (directory : list Z) (d0 : Z) (rest : list Z).
Context (Hfuel : (n < fuel)%nat) (Huninit : length uninit = 2680%nat).
Context (Hdir : directory = d0 :: rest) (Hd0 : d0 <> NUL).

Lemma handle_command_follows k fd id seen log ending command :
  command_wf command -> c_session command <> 0 -> c_transaction command <> 0 -> is_Some (cstr (c_text command)) ->
  follows (served fd id seen log ending) k (handle_command env fuel uninit fd directory command)
    (fun _ l' k' => l' = served fd id seen log ending /\ (k <= k')%nat).
Proof.
  intros Hwf Hs Ht [text Htext] h Hl <-.
  destruct (handle_command_answered env fuel n uninit fd directory d0 rest command text h) as (r & h' & Hr & Ha); try done.
  { intros h' d. exact (Hlegal _ h' (SearchDir d)). }
  unfold wp. rewrite Hr. destruct (answered_neutral fd id seen log ending _ _ _ _ _ _ Ha) as (evs & -> & Hn).
  exists (served fd id seen log ending). rewrite life_run_app, Hl. cbn [mbind option_bind].
  split; [by apply neutral_run|]. split; [done|]. rewrite length_app. lia.
Qed.

(** What a pass of the loop keeps. *)
Definition in_service (k : nat) (fd id : Z) (c : optional_controls) (l : life) (k' : nat) : Prop :=
  exists seen log ending, l = served fd id seen log ending /\ ctl_ok c log /\ (k <= k')%nat.

Lemma loop_body_follows k fd id seen log ending c checked :
  is_u64 id -> id <> 0 -> ctl_ok c log ->
  follows (served fd id seen log ending) k (loop_body env fuel uninit fd id directory c checked)
    (fun r l' k' => in_service k fd id r.1.2 l' k').
Proof.
  intros Hu Hne Hc. unfold loop_body.
  apply follows_bind, follows_ask. intros finished _. exists (served fd id (seen || finished) log ending). split.
  { destruct finished; cbn -[bool_decide]; rewrite bool_decide_true by done; cbn; by rewrite ?orb_true_r, ?orb_false_r. }
  apply follows_bind.
  eapply (follows_mono _ _ _ (fun _ l' k' => l' = served fd id (seen || finished) log ending /\ (S k <= k')%nat)).
  { destruct finished, checked; cbn [andb negb]; try (by apply follows_ret).
    apply follows_ask. intros a _. eexists. split; [|split; [reflexivity|lia]].
    cbn. by rewrite orb_true_r. }
  intros result l1 k1 [-> Hk1]. destruct (negb (result =? 0)).
  { apply follows_ret. exists (seen || finished), log, ending. split_and!; [done|done|lia]. }
  cbv zeta. apply follows_bind. eapply (follows_mono _ _ _ (fun c' l' k' => exists log' ending',
    l' = served fd id (seen || finished) log' ending' /\ ctl_ok c' log' /\ (k1 <= k')%nat)).
  { destruct finished; [by apply check_controls_follows|]. apply follows_ret. exists log, ending. by split_and!. }
  intros c' l2 k2 (log' & e' & -> & Hc' & Hk2). set (b := checked || finished). set (sn := seen || finished).
  assert (forall (x : option Z) k', (k <= k')%nat ->
    follows (served fd id sn log' e') k' (mret (x, c', b)) (fun r l' k' => in_service k fd id r.1.2 l' k')) as Hret.
  { intros x k' Hk'. apply follows_ret. exists sn, log', e'. by split_and!. }
  apply follows_bind, follows_ask. intros [ready revents] _. eexists. split; [allowed|].
  destruct (ready <? 0); [apply Hret; lia|]. destruct (negb _); [apply Hret; lia|].
  destruct (_ =? 0); [apply Hret; lia|].
  apply follows_bind, follows_ask. intros r Hlr. eexists. split; [allowed|].
  destruct r as [bs|err]; [|apply Hret; lia]. cbn in Hlr. destruct Hlr as [Hbs Hlen].
  change (Z.to_nat WMT_CMD2_READ_MAX) with 287%nat in Hlen.
  apply follows_bind. eapply follows_lift; [apply store_ok; rewrite length_replicate; lia|].
  set (frame := overwrite _ 0 bs).
  destruct (decode_ok frame (Z.of_nat (length bs)) id (mk_command 0 0 (replicate 256 0))) as (dr & cmd & Hdec & Hcmd); try done.
  { unfold frame. rewrite overwrite_0_drop. apply Forall_app. split; [done|]. apply Forall_drop, Forall_replicate_of.
    unfold in_w. lia. }
  { unfold frame. rewrite overwrite_0_drop, length_app, length_drop, length_replicate. lia. }
  apply follows_bind. eapply follows_lift; [exact Hdec|]. cbv beta iota. destruct (Z.eqb_spec dr 0) as [Hdr|]; cbn [negb]; [|apply Hret; lia].
  destruct (Hcmd Hdr) as (Hw & Hs & Ht & Htx).
  apply follows_bind. eapply follows_lift; [reflexivity|]. apply follows_bind.
  eapply follows_mono; [by apply handle_command_follows|]. intros res l3 k3 [-> Hk3]. apply Hret. lia.
Qed.

Lemma command_loop_follows fl k fd id seen log ending c checked :
  is_u64 id -> id <> 0 -> ctl_ok c log -> (n < k + fl)%nat -> (0 < fl)%nat ->
  follows (served fd id seen log ending) k (command_loop env fuel uninit fl fd id directory c checked)
    (fun r l' k' => in_service k fd id r.2 l' k').
Proof.
  intros Hu Hne. revert k seen log ending c checked.
  induction fl as [|fl IH]; intros k seen log ending c checked Hc Hn Hf; [lia|]. cbn [command_loop].
  apply follows_bind, follows_stop.
  { apply follows_ret. exists seen, log, ending. split_and!; [done|done|lia]. }
  intros Hk. cbn [negb]. apply follows_bind. eapply follows_mono; [by apply loop_body_follows|].
  intros [[next c'] b] l1 k1 (seen1 & log1 & e1 & -> & Hc1 & Hk1). cbn [fst snd] in *. destruct next as [r|].
  - apply follows_ret. exists seen1, log1, e1. split_and!; [done|done|lia].
  - eapply follows_mono; [apply IH; [done|lia|lia]|]. intros r l2 k2 (s2 & lg2 & e2 & ? & ? & ?).
    exists s2, lg2, e2. split_and!; [done|done|lia].
Qed.

(** The state a service leaves behind is what its flags say. *)
Definition served_state (fd : Z) (s : service) (l : life) : Prop :=
  l_fd l = Some fd /\ l_session l = (if sv_bound s then Bound (sv_session_id s) else Unbound) /\
  l_ready l = (if sv_advertised s then Ready else NotReady) /\ l_power l = (if sv_power_started s then Live else Absent) /\
  (sv_power_started s = true -> sv_bound s = true) /\ l_closed l = false /\
  ctl_ok (sv_controls s) (l_log l).

Lemma zero_controls_ok : ctl_ok zero_controls Absent.
Proof.
  assert (holds_value (replicate 92 0)) by (exists []; split_and!; [done|simpl; lia|done]). by split_and!.
Qed.

Lemma hif_allowed fd id request argument a :
  request = WMT_SET_HIF \/ request = WMT_KILL_CLEAR ->
  life_call (Ioctl fd request argument) (bound fd id) a = Some (bound fd id).
Proof.
  intros Hr. cbn [life_call].
  assert ((request =? WMT_CHIP_ID) = false /\ (request =? WMT_SET_HIF) || (request =? WMT_KILL_CLEAR) = true) as [-> ->]
    by (by destruct Hr as [-> | ->]).
  unfold guard. by rewrite holds_fd by done.
Qed.

Lemma serve_follows k fd argument :
  follows (opened fd) k (serve env fuel uninit fd directory argument) (fun s l' _ => served_state fd s l').
Proof.
  unfold serve. apply follows_bind. eapply follows_mono; [by apply check_chip_follows|]. intros result l1 k1 [-> _].
  destruct (negb (result =? 0)). { apply follows_ret. split_and!; try done. apply zero_controls_ok. }
  apply follows_bind, follows_ask. intros [r session] Hu. cbn in Hu.
  exists (if r <? 0 then opened fd else bound fd (ss_session_id session)). split.
  { cbn -[Z.ltb]. rewrite holds_fd by done. cbn -[Z.ltb]. by destruct (r <? 0). }
  destruct (r <? 0). { apply follows_ret. split_and!; try done. apply zero_controls_ok. }
  cbv zeta. set (id := ss_session_id session). destruct (session_ok session) eqn:Hok; cbn [negb].
  2: { apply follows_ret. split_and!; try done. apply zero_controls_ok. }
  assert (id <> 0) as Hid by (unfold session_ok in Hok; zb; done).
  apply follows_bind, follows_ask. intros r1 _. exists (bound fd id). split; [apply hif_allowed; by left|].
  apply follows_bind. eapply (follows_mono _ _ _ (fun _ l' _ => l' = bound fd id)).
  { destruct (r1 <? 0); [by apply follows_ret|]. apply follows_ask. intros r2 _. exists (bound fd id). split; [|done].
    apply hif_allowed. by right. }
  intros r2 l2 k2 ->. destruct (r2 <? 0). { apply follows_ret. split_and!; try done. apply zero_controls_ok. }
  apply follows_bind, follows_ask. intros r3 _. exists (if r3 =? 0 then advertised fd id else bound fd id). split.
  { cbn -[bool_decide Z.eqb]. rewrite !bool_decide_true by (done || by eexists). cbn -[Z.eqb]. by destruct (r3 =? 0). }
  destruct (Z.eqb_spec r3 0); cbn [negb]. 2: { apply follows_ret. split_and!; try done. apply zero_controls_ok. }
  apply follows_bind, follows_ask. intros r4 _.
  exists (if r4 =? 0 then served fd id false Absent false else advertised fd id). split.
  { cbn -[bool_decide Z.eqb]. rewrite holds_fd, !bool_decide_true by (done || by eexists). cbn -[Z.eqb]. by destruct (r4 =? 0). }
  destruct (Z.eqb_spec r4 0); cbn [negb]. 2: { apply follows_ret. split_and!; try done. apply zero_controls_ok. }
  apply follows_bind. eapply follows_mono.
  { apply command_loop_follows; [done|done|apply zero_controls_ok|lia|lia]. }
  intros [res c'] l3 k3 (sn & log & en & -> & Hc & _). apply follows_ret. by split_and!.
Qed.

(** The session is given back once the service is stopping. *)
Lemma unbind_follows k fd s l :
  l_fd l = Some fd -> l_session l = (if sv_bound s then Bound (sv_session_id s) else Unbound) ->
  follows (set_stopping true l) k
    (if sv_bound s then _ ← ask env (IoctlSession fd (unbind_session (sv_session_id s))); mret () else mret ())
    (fun _ l' _ => exists x, l' = set_session x (set_stopping true l) /\ is_bound x = false).
Proof.
  intros Hfd Hses. destruct (sv_bound s) eqn:Hb.
  - apply follows_bind, follows_ask. intros a _. eexists. split.
    + cbn [life_call unbind_session ss_action ss_session_id]. change (WMT_CMD2_UNBIND =? WMT_CMD2_BIND) with false.
      change (WMT_CMD2_UNBIND =? WMT_CMD2_UNBIND) with true.
      unfold guard. rewrite holds_fd by done. cbn [set_stopping l_session l_stopping]. rewrite Hses.
      rewrite bool_decide_true by done. reflexivity.
    + apply follows_ret. eexists. split; [reflexivity|]. by destruct (a.1 <? 0).
  - apply follows_ret. exists Unbound. split; [|done]. unfold set_session, set_stopping. destruct l. cbn in *. by rewrite Hses.
Qed.

(** The exit path releases what the service holds. *)
Lemma shutdown_follows k fd s l :
  served_state fd s l -> follows l k (shutdown env fd s) (fun _ l' _ => released l' /\ l_closed l' = true).
Proof.
  intros (Hfd & Hses & Hready & Hpow & Hpb & Hcl & Hctl). unfold shutdown.
  apply follows_bind, follows_ask. intros u _. exists (set_stopping true l). split; [done|].
  apply follows_bind.
  eapply (follows_mono _ _ _ (fun _ l' _ => exists x, l' = set_session x (set_stopping true l) /\ is_bound x = false)).
  { by apply unbind_follows. }
  intros _ ? k1 (x & -> & Hx). set (l1 := set_session x (set_stopping true l)).
  apply follows_bind. eapply (follows_mono _ _ _ (fun _ l' _ => exists p, l' = set_power p l1 /\ p <> Live)).
  { destruct (sv_power_started s) eqn:Hp.
    - apply follows_bind, follows_ask. intros a _. exists (set_power (joined a) l1). split.
      + cbn [life_call]. unfold guard. cbn [l1 set_session set_stopping l_power l_stopping l_session].
        rewrite Hpow, Hx. by rewrite bool_decide_true.
      + apply follows_ret. exists (joined a). split; [done|]. unfold joined. by destruct (a =? 0).
    - apply follows_ret. exists Absent. split; [|done]. unfold l1, set_power, set_session, set_stopping.
      cbn. by rewrite Hpow. }
  intros _ ? k2 (p & -> & Hpl). set (l2 := set_power p l1).
  pose proof Hctl as ((t & Hf & Htl & Htn) & _ & Hcr).
  apply follows_bind. eapply follows_lift; [rewrite Hf; apply strcmp_pad; [lia|done|apply yes_nonzero]|].
  apply follows_bind. eapply (follows_mono _ _ _ (fun _ l' _ => exists lg e, l' = set_log lg e l2 /\ lg <> Live)).
  { destruct (lg_created (oc_log (sv_controls s)) || bool_decide (t = lit "yes")) eqn:Hneed.
    - apply follows_bind. eapply follows_mono; [apply stop_log_follows; [exact Hfd|exact Hctl]|].
      intros rc l' k' (lg & e & -> & _ & ? & _). apply follows_ret. by exists lg, e.
    - apply orb_false_iff in Hneed as [Hnc _]. apply follows_ret. exists (l_log l), (l_log_ending l). split; [by destruct l|].
      rewrite Hnc in Hcr. symmetry in Hcr. apply negb_false_iff, bool_decide_eq_true in Hcr. by rewrite Hcr. }
  intros _ ? k3 (lg & e & -> & Hlg). set (l3 := set_log lg e l2).
  apply follows_bind. eapply (follows_mono _ _ _ (fun _ l' _ => exists y, l' = set_ready y l3 /\ is_ready y = false)).
  { destruct (sv_advertised s) eqn:Hadv.
    - apply follows_bind, follows_ask. intros a _. eexists. split.
      + cbn [life_call]. rewrite bool_decide_true by done. rewrite (bool_decide_false (lit "no" = lit "yes")) by done.
        unfold guard. cbn [l3 l2 l1 set_log set_power set_session set_stopping l_ready l_session l_power].
        rewrite Hready, Hx. rewrite bool_decide_true by done. rewrite (bool_decide_false (p = Live)) by done. reflexivity.
      + apply follows_ret. eexists. split; [reflexivity|]. by destruct (a =? 0).
    - apply follows_ret. exists NotReady. split; [|done].
      unfold l3, l2, l1, set_ready, set_log, set_power, set_session, set_stopping. cbn. by rewrite Hready. }
  intros _ ? k4 (y & -> & Hy). apply follows_bind, follows_ask. intros a _. exists (set_closed (set_ready y l3)). split.
  - cbn [life_call]. unfold guard. rewrite holds_fd by done.
    cbn [l3 l2 l1 set_ready set_log set_power set_session set_stopping l_ready l_session l_power l_log].
    by rewrite Hx, Hy, !bool_decide_false.
  - apply follows_ret. by split_and!.
Qed.

Lemma released_life0 : released life0.
Proof. by split_and!. Qed.
End Follows.

(** The paths [main] can be given. *)
Definition options_ok (delivered : list (Z * list Z)) : Prop :=
  Forall (fun o => is_Some (cstr o.2)) delivered.

Lemma options_total l directory argument :
  options_ok l -> is_Some (cstr directory) -> argument = 1 \/ argument = 2 ->
  exists r, options l directory argument = Some r /\
    match r with
    | inl status => status = 0 \/ status = 2
    | inr (d, a) => is_Some (cstr d) /\ (a = 1 \/ a = 2)
    end.
Proof.
  intros Hl. revert directory argument. induction Hl as [|[o optarg] l Ho _ IH]; intros directory argument Hd Ha.
  { by eexists. }
  destruct Ho as [s Hs]. cbn in Hs. cbn [options]. destruct (o =? 112); [apply IH; [by eexists|done]|].
  assert (forall t, Forall (fun c => c <> 0) t ->
    exists b, (if o =? 111 then strcmp_eq optarg (t ++ [NUL]) else Some false) = Some b) as Hcmp.
  { intros t Ht. destruct (o =? 111); [|by eexists]. eexists. apply (strcmp_eq_spec _ _ s t Hs). by apply cstr_app. }
  destruct (Hcmp (lit "0")) as [z ->]; [by repeat constructor|].
  destruct (Hcmp (lit "1")) as [one ->]; [by repeat constructor|]. cbn [mbind option_bind].
  destruct (z || one); [apply IH; [done|destruct one; auto]|]. eexists. split; [reflexivity|].
  destruct (o =? 104); auto.
Qed.

(** How [main] may end: with a status, everything released, and no call at all
    when the arguments were bad. *)
Definition ended (status : Z) (l : life) (k : nat) : Prop :=
  (status = 0 \/ status = 1 \/ status = 2) /\ released l /\ (status = 2 -> k = 0%nat).

Lemma main_follows (env : strategy) n fuel uninit delivered operands :
  (forall A h (c : call A), legal c (env A h c)) -> stops_by env n -> (n < fuel)%nat ->
  length uninit = 2680%nat -> options_ok delivered ->
  follows life0 0 (main env fuel uninit delivered operands) ended.
Proof.
  intros Hlegal Hstop Hfuel Hun Hopt. unfold main.
  assert (forall l k, released l -> follows l k (stop ← ask env StopRequested; mret (if (stop : bool) then 0 else 1)) ended) as Hexit.
  { intros l k Hrel. apply follows_bind, (follows_ask env Hlegal). intros b _. exists l. split; [done|].
    apply follows_ret. split_and!; [destruct b; auto|done|by destruct b]. }
  destruct (options_total delivered default_directory 1 Hopt) as (r & Hr & Hcase); [by eexists|by left|].
  apply follows_bind. eapply follows_lift; [exact Hr|]. destruct r as [status|[directory argument]].
  { apply follows_ret. split_and!; [tauto|apply released_life0|done]. }
  destruct Hcase as [[s Hs] Harg]. destruct directory as [|d0 rest]; [done|].
  apply follows_bind. eapply follows_lift; [reflexivity|].
  apply follows_bind. eapply follows_lift; [by apply strnlen_of_cstr|].
  destruct (operands || _ || _) eqn:Hbad. { apply follows_ret. split_and!; [auto|apply released_life0|done]. }
  apply orb_false_iff in Hbad as [Hbad _]. apply orb_false_iff in Hbad as [_ Hd0]. apply Z.eqb_neq in Hd0.
  apply follows_bind, (follows_ask env Hlegal). intros r1 _. exists life0. split; [done|].
  apply follows_bind. eapply (follows_mono _ _ _ (fun _ l k => l = life0 /\ (1 <= k)%nat)).
  { destruct (negb (r1 =? 0)); [by apply follows_ret|]. apply (follows_ask env Hlegal). intros r2 _. exists life0. split; [done|]. split; [done|lia]. }
  intros r2 ? k [-> Hk]. destruct (negb (r2 =? 0)). { apply follows_ret. split_and!; [auto|apply released_life0|done]. }
  apply follows_bind. eapply follows_mono; [apply (open_driver_follows env n Hlegal Hstop); lia|].
  intros fd l k1 ->. cbv beta. destruct (Z.ltb_spec fd 0).
  { apply Hexit, released_life0. }
  apply follows_bind. eapply follows_mono.
  { by apply (serve_follows env n Hlegal Hstop fuel uninit (d0 :: rest) d0 rest). }
  intros sv l k2 Hsv. apply follows_bind. eapply follows_mono; [by eapply shutdown_follows|].
  intros _ l' k3 [Hrel _]. destruct (sv_result sv =? 0).
  { apply follows_ret. split_and!; [auto|done|done]. }
  apply follows_bind, (follows_ask env Hlegal). intros b _. exists l'. split; [done|]. by apply Hexit.
Qed.

(** C1: The launcher always stops, and gives up everything it holds.  For any
    arguments and any behaviour of the driver, the properties, the file system,
    the signals and the worker threads, once a stop is requested [main] returns
    with status 0, 1 or 2, and its calls are a run of the lifecycle protocol: the
    driver is used only while open; readiness is advertised only with a bound
    session and before the power worker starts; commands are served only after
    that; the power worker's result is read only after its flag; there is at most
    one log worker, and logging is disabled only when none is running; unbinding
    the session is requested before the power worker is joined, and that request,
    both joins and the withdrawal of the readiness come before the one close of
    the driver.  At the end the driver is closed and whatever else is left (a
    bound session, the advertised readiness, an unjoined thread) is something the
    environment declined to take back: the history has the unbind the driver
    failed, the property write that failed, or the join that failed.  So when none
    of these fails, nothing is open, bound, advertised or running. *)
Theorem main_lifecycle (env : strategy) n fuel uninit delivered operands :
  (forall A h (c : call A), legal c (env A h c)) -> stops_by env n -> (n < fuel)%nat ->
  length uninit = 2680%nat -> options_ok delivered ->
  exists status h l, main env fuel uninit delivered operands [] = Some (status, h) /\
    status ∈ [0; 1; 2] /\ (status = 2 -> h = []) /\ life_run life0 h = Some l /\ released l /\
    (forall w, left_over l w -> exists e, e ∈ h /\ declined e w).
Proof.
  intros Hlegal Hstop Hfuel Hun Hopt.
  pose proof (main_follows env n fuel uninit delivered operands Hlegal Hstop Hfuel Hun Hopt [] eq_refl eq_refl) as Hwp.
  apply wp_result in Hwp as (status & h & Hr & l & Hl & Hst & Hrel & H2). exists status, h, l.
  split_and!; try done.
  - destruct Hst as [ ->|[ ->| ->]]; in_list.
  - intros Hs. by apply nil_length_inv, H2.
  - intros w. by apply left_over_declined.
Qed.

Lemma sample_env_legal A h (c : call A) : legal c (sample_env A h c).
Proof.
  destruct c; try exact I.
  - split; [vm_compute; lia|by repeat constructor].
  - change (in_w 64 7). unfold in_w. lia.
  - split; [apply Forall_take; by apply bytes_ok_dec|].
    change (length (take (Z.to_nat size) sample_request) <= Z.to_nat size)%nat. rewrite length_take. apply Nat.le_min_l.
  - exact sample_dir_ok.
Qed.

(** Two options and a service that is stopped after twenty calls. *)
Definition sample_options : list (Z * list Z) := [(112, sample_path); (111, lit "1" ++ [NUL])].

Lemma main_lifecycle_witness :
  exists status h l, main sample_env 21 (replicate 2680 0) sample_options false [] = Some (status, h) /\
    status ∈ [0; 1; 2] /\ life_run life0 h = Some l /\ released l /\
    (forall w, left_over l w -> exists e, e ∈ h /\ declined e w) /\ (20 < length h)%nat.
Proof.
  destruct (main_lifecycle sample_env 20 21 (replicate 2680 0) sample_options false) as (status & h & l & Hr & Hs & _ & Hl & Hrel & Hleft).
  - exact sample_env_legal.
  - exact sample_env_stops.
  - lia.
  - reflexivity.
  - repeat constructor; by eexists.
  - exists status, h, l. split_and!; [exact Hr|exact Hs|exact Hl|exact Hrel|exact Hleft|].
    assert (Nat.ltb 20 (default 0%nat (length <$> (snd <$> main sample_env 21 (replicate 2680 0) sample_options false []))) = true)
      as Hn by (vm_compute; reflexivity).
    rewrite Hr in Hn. by apply Nat.ltb_lt in Hn.
Defined.
