(* ===== verification/WmtLoader.v ===== *)
(** * The loader (wmt-loader/main.c)

    The boot program that identifies the chip, initializes the WMT driver and
    publishes that it is ready, over the calls of [WmtCalls] ([Open] is the
    detector's node here).  Its trace is given branch by branch, and the chip
    property it writes is shown to be the one the launcher accepts. *)

From S2P Require Import Prelude CMem Calls WmtCalls WmtCommand WmtLauncher.

(** [_IOW('w', ...)] and [_IOR('w', ...)]. *)
Definition DETECT_IOC (dir nr : Z) : Z :=
  Z.lor (Z.lor (Z.shiftl dir 30) (Z.shiftl 4 16)) (Z.lor (Z.shiftl 119 8) nr).
Definition WMT_SET_CHIP_ID : Z := DETECT_IOC 1 1.
Definition WMT_GET_SOC_ID : Z := DETECT_IOC 2 3.
Definition WMT_MODULE_INIT : Z := DETECT_IOC 2 4.
Definition WMT_MODULE_CLEANUP : Z := DETECT_IOC 2 5.
Definition READY_PROPERTY : string := "vendor.connsys.driver.ready".
Definition NODE_ATTEMPTS : nat := 200.
Definition NODE_RETRY_US : Z := 300000.

(** [snprintf(value, sizeof(value), "0x%04x", v)]. *)
Fixpoint hex_acc (fuel : nat) (v : Z) (acc : list Z) : list Z :=
  match fuel with
  | O => acc
  | S fuel => if v <? 16 then hexd v :: acc else hex_acc fuel (v / 16) (hexd (v mod 16) :: acc)
  end.

Definition format_chip (v : Z) : list Z :=
  let s := hex_acc 8 v [] in lit "0x" ++ replicate (4 - length s) 48 ++ s.

Section Loader.
Context (env : strategy).

(** [Some chip] is a true answer with [*chip] set. *)
Definition cached_chip_id : M (option Z) :=
  '(n, value) ← property_get env CHIP_PROPERTY (replicate PROPERTY_VALUE_MAX 0);
  v0 ← lift (value !! 0%nat);
  if (n <=? 0) || negb (isxdigit v0) then mret None else
  s ← lift (cstr value);
  let '(parsed, rest, range) := strtoul16 s in
  mret (if range || negb (bool_decide (rest = [])) || (UINT_MAX <? parsed) || negb (supported_chip parsed)
        then None else Some parsed).

Fixpoint open_loop (left : nat) : M Z :=
  match left with
  | O%nat => mret (-1)
  | S n =>
      fd ← ask env Open;
      if 0 <=? fd then mret fd else
      if negb (fd =? - ENOENT) && negb (fd =? - ENODEV) && negb (fd =? - EINTR) then mret (-1) else
      _ ← (if (n =? 0)%nat then mret () else ask env (Usleep NODE_RETRY_US));
      open_loop n
  end.

Definition open_detector : M Z := open_loop NODE_ATTEMPTS.

Fixpoint init_loop (fd : Z) (requests : list (Z * Z)) : M Z :=
  match requests with
  | [] => mret 0
  | (request, argument) :: requests =>
      result ← ask env (Ioctl fd request argument);
      if negb (result =? 0) then mret (-1) else init_loop fd requests
  end.

Definition init_chip (chip : Z) : Z := if chip =? 0x0326 then 0x6755 else chip.

Definition init_requests (chip : Z) : list (Z * Z) :=
  [(WMT_SET_CHIP_ID, chip); (WMT_MODULE_CLEANUP, init_chip chip); (WMT_MODULE_INIT, init_chip chip)].

Definition initialize_driver (fd chip : Z) : M Z := init_loop fd (init_requests chip).

(** The chip: cached, or detected and published. *)
Definition identify (fd : Z) : M (option Z) :=
  cached ← cached_chip_id;
  match cached with
  | Some chip => mret (Some chip)
  | None =>
      detected ← ask env (Ioctl fd WMT_GET_SOC_ID 0);
      if (detected <? 0) || negb (supported_chip (u32 detected)) then mret None else
      r ← ask env (PropertySet CHIP_PROPERTY (format_chip detected));
      mret (if negb (r =? 0) then None else Some detected)
  end.

(** From the open detector to the label [out]: the status. *)
Definition load (fd : Z) : M Z :=
  chip ← identify fd;
  match chip with
  | None => mret 1
  | Some chip =>
      r ← initialize_driver fd chip;
      if negb (r =? 0) then mret 1 else
      r ← ask env (PropertySet READY_PROPERTY (lit "yes"));
      mret (if negb (r =? 0) then 1 else 0)
  end.

Definition main : M Z :=
  '(_, ready) ← property_get env READY_PROPERTY (replicate PROPERTY_VALUE_MAX 0);
  is_ready ← lift (strcmp_eq ready yes);
  if (is_ready : bool) then mret 0 else
  fd ← open_detector;
  if fd <? 0 then mret 1 else
  status ← load fd;
  _ ← ask env (Close fd);
  mret status.
End Loader.

(** ** The chip property *)

Lemma hex_digits_acc fuel v l :
  0 <= v < 16 ^ Z.of_nat fuel -> (0 < fuel)%nat -> hex_digits (hex_acc fuel v l) 0 = hex_digits l v.
Proof.
  revert v l. induction fuel as [|fuel IH]; intros v l Hv Hf; [lia|]. cbn [hex_acc].
  destruct (Z.ltb_spec v 16).
  - cbn [hex_digits]. by rewrite xdigit_hexd by lia.
  - rewrite Nat2Z.inj_succ, Z.pow_succ_r in Hv by lia.
    pose proof (Z.div_mod v 16 ltac:(lia)). pose proof (Z.mod_pos_bound v 16 ltac:(lia)).
    rewrite IH; [|split; [apply Z.div_pos; lia|apply Z.div_lt_upper_bound; lia]|].
    + cbn [hex_digits]. rewrite xdigit_hexd by lia. f_equal. lia.
    + destruct fuel; [simpl in Hv; lia|lia].
Qed.

Lemma hex_digits_zeros k l : hex_digits (replicate k 48 ++ l) 0 = hex_digits l 0.
Proof. induction k as [|k IH]; [done|exact IH]. Qed.

Definition hexdigits (l : list Z) : Prop := Forall (fun c => is_Some (xdigit c)) l.

Lemma hex_acc_digits fuel v l :
  0 <= v -> hexdigits l -> hexdigits (hex_acc fuel v l) /\ (0 < fuel -> hex_acc fuel v l <> [])%nat.
Proof.
  revert v l. induction fuel as [|fuel IH]; intros v l Hv Hl; [split; [done|lia]|]. cbn [hex_acc].
  pose proof (Z.mod_pos_bound v 16 ltac:(lia)). destruct (Z.ltb_spec v 16).
  - split; [|done]. constructor; [by rewrite xdigit_hexd by lia; eexists|done].
  - destruct (IH (v / 16) (hexd (v mod 16) :: l)) as [Hd Hn]; [apply Z.div_pos; lia| |].
    { constructor; [by rewrite xdigit_hexd by lia; eexists|done]. }
    split; [done|]. intros _. destruct fuel; [done|]. apply Hn. lia.
Qed.

(** What is formatted is read back, for every 32-bit value. *)
Lemma strtoul16_format v : is_u32 v -> strtoul16 (format_chip v) = (v, [], false).
Proof.
  intros Hv. unfold format_chip. set (s := hex_acc 8 v []).
  destruct (hex_acc_digits 8 v []) as [Hd Hn]; [apply Hv|constructor|]. fold s in Hd, Hn.
  set (z := replicate (4 - length s) 48 ++ s).
  assert (hexdigits z) as Hz by (apply Forall_app; split; [apply Forall_replicate_of; by eexists|done]).
  assert (exists d rest, z = d :: rest /\ isxdigit d = true) as (d & rest & Hzd & Hx).
  { destruct z as [|d rest] eqn:E; [|exists d, rest; split; [done|]; apply bool_decide_eq_true; by inversion Hz].
    exfalso. unfold z in E. apply app_eq_nil in E as [_ E]. by apply Hn; [lia|]. }
  unfold strtoul16. change (lit "0x") with [48; 120]. rewrite Hzd. cbn [app]. rewrite Hx. cbn [Z.eqb Pos.eqb andb orb].
  rewrite <- Hzd. unfold z. rewrite hex_digits_zeros. unfold s.
  rewrite hex_digits_acc by (unfold in_w in Hv; simpl; lia). cbn [hex_digits]. unfold in_w in Hv.
  rewrite (proj2 (Z.leb_gt (2 ^ 64) v)) by lia. done.
Qed.

Lemma format_chip_fits v : is_u32 v -> (length (format_chip v) <= 91)%nat /\ Forall (fun c => c <> 0) (format_chip v).
Proof.
  intros Hv. unfold format_chip.
  assert (forall fuel v l, (length (hex_acc fuel v l) <= fuel + length l)%nat) as Hlen.
  { intros fuel. induction fuel as [|fuel IH]; intros w l; [simpl; lia|]. cbn [hex_acc]. destruct (w <? 16); [simpl; lia|].
    etrans; [apply IH|]. simpl. lia. }
  specialize (Hlen 8%nat v []). destruct (hex_acc_digits 8 v []) as [Hd _]; [apply Hv|constructor|]. split.
  - rewrite !length_app, length_replicate. simpl in *. lia.
  - rewrite !Forall_app. split_and!; [by repeat constructor|by apply Forall_replicate_of|].
    eapply Forall_impl; [exact Hd|]. intros c [x Hx] ->. done.
Qed.

Lemma property_get_eq (env : strategy) key size s h :
  env (list Z) h (PropertyGet key) = s -> (length s < size)%nat ->
  property_get env key (replicate size 0) h =
    Some ((Z.of_nat (length s), pad_to size s), h ++ [Ev (PropertyGet key) s]).
Proof.
  intros Hs Hl. unfold property_get, ask, lift, mbind, M_bind, mret, M_ret. rewrite Hs.
  rewrite store_ok by (rewrite length_app, length_replicate; simpl; lia). do 2 f_equal.
  unfold overwrite, pad_to. rewrite take_0, drop_replicate, length_app. simpl.
  rewrite <- (assoc_L (++)). do 2 f_equal. replace (size - length s)%nat with (S (size - (length s + 1))) by lia. done.
Qed.

(** The value of a chip property, by itself. *)
Definition chip_value (s : list Z) : option Z :=
  match s with
  | [] => None
  | c :: _ =>
      if negb (isxdigit c) then None else
      let '(v, rest, range) := strtoul16 s in
      if range || negb (bool_decide (rest = [])) || (UINT_MAX <? v) || negb (supported_chip v) then None else Some v
  end.

Lemma cached_chip_id_eq (env : strategy) s h :
  env (list Z) h (PropertyGet CHIP_PROPERTY) = s -> (length s <= 91)%nat -> Forall (fun c => c <> 0) s ->
  cached_chip_id env h = Some (chip_value s, h ++ [Ev (PropertyGet CHIP_PROPERTY) s]).
Proof.
  intros Hs Hl Hnz. unfold cached_chip_id, PROPERTY_VALUE_MAX.
  cbv beta iota delta [lift mbind M_bind mret M_ret]. rewrite (property_get_eq _ _ _ _ _ Hs) by lia.
  destruct (lookup_lt_is_Some_2 (pad_to 92 s) 0) as [v0 Hv0]; [rewrite length_pad_to; lia|]. rewrite Hv0.
  assert ((Z.of_nat (length s) <=? 0) || negb (isxdigit v0) = match s with [] => true | c :: _ => negb (isxdigit c) end) as ->.
  { destruct s as [|c s]; [done|]. cbn in Hv0. injection Hv0 as ->. done. }
  unfold chip_value. destruct s as [|c s]; [done|]. destruct (negb (isxdigit c)); [done|].
  rewrite cstr_pad by (done || lia). by destruct (strtoul16 (c :: s)) as [[v rest] range].
Qed.

(** The chip property connects the loader and the launcher: the text the loader
    writes for a supported chip is read back as exactly that chip by the loader's
    next run, and is accepted by the launcher's own check, which then needs no
    query of the driver.  (The text of every 32-bit number is read back exactly.) *)
Theorem chip_property_roundtrip (env : strategy) chip h :
  supported_chip chip = true -> env (list Z) h (PropertyGet CHIP_PROPERTY) = format_chip chip ->
  cached_chip_id env h = Some (Some chip, h ++ [Ev (PropertyGet CHIP_PROPERTY) (format_chip chip)]) /\
  forall fuel fd, check_chip env fuel fd h = Some (0, h ++ [Ev (PropertyGet CHIP_PROPERTY) (format_chip chip)]).
Proof.
  intros Hsup Henv.
  assert (is_u32 chip) as Hu by (unfold supported_chip in Hsup; apply orb_true_iff in Hsup as [H|H];
    apply Z.eqb_eq in H; subst; unfold in_w; lia).
  destruct (format_chip_fits chip Hu) as [Hl Hnz]. pose proof (strtoul16_format chip Hu) as Hstr.
  assert (isxdigit 48 = true) as Hx by reflexivity.
  assert (format_chip chip = 48 :: 120 :: replicate (4 - length (hex_acc 8 chip [])) 48 ++ hex_acc 8 chip []) as Hf by reflexivity.
  split.
  - rewrite (cached_chip_id_eq _ _ _ Henv Hl Hnz). unfold chip_value. rewrite Hf at 1. rewrite Hx. cbn [negb].
    rewrite Hstr, Hsup. rewrite (proj2 (Z.ltb_ge UINT_MAX chip)) by (unfold in_w in Hu; unfold UINT_MAX; lia). done.
  - intros fuel fd. unfold check_chip, cached_chip, PROPERTY_VALUE_MAX.
    cbv beta iota delta [lift mbind M_bind mret M_ret]. rewrite (property_get_eq _ _ _ _ _ Henv) by lia.
    assert (pad_to 92 (format_chip chip) !! 0%nat = Some 48) as -> by (by rewrite Hf).
    rewrite Hx. rewrite (proj2 (Z.leb_gt (Z.of_nat (length (format_chip chip))) 0)) by (rewrite Hf; simpl; lia). cbn [negb orb].
    rewrite cstr_pad by (done || lia). rewrite Hstr, Hsup. done.
Qed.

(** An environment whose chip property is the loader's text. *)
Definition chip_env (chip : Z) : strategy := fun A h c =>
  match c in call A return A -> A with
  | PropertyGet _ => fun _ => format_chip chip
  | _ => fun a => a
  end (sample_env A h c).

Lemma chip_property_roundtrip_witness :
  format_chip 0x326 = lit "0x0326" /\
  cached_chip_id (chip_env 0x326) [] = Some (Some 0x326, [Ev (PropertyGet CHIP_PROPERTY) (lit "0x0326")]).
Proof.
  split; [reflexivity|]. exact (proj1 (chip_property_roundtrip (chip_env 0x326) 0x326 [] eq_refl eq_refl)).
Defined.

(** ** The trace of a run *)

Definition retriable (e : Z) : Prop := e = - ENOENT \/ e = - ENODEV \/ e = - EINTR.

(** Opening with [n] attempts left. *)
Inductive opening : nat -> list event -> option Z -> Prop :=
  | opening_timeout : opening 0 [] None
  | opening_ok n fd : 0 <= fd -> opening (S n) [Ev Open fd] (Some fd)
  | opening_fatal n e : e < 0 -> ~ retriable e -> opening (S n) [Ev Open e] None
  | opening_retry n e evs r : retriable e -> opening n evs r ->
      opening (S n) (Ev Open e :: (if (n =? 0)%nat then [] else [Ev (Usleep NODE_RETRY_US) tt]) ++ evs) r.

(** The chip is the cached one, or the detected one once it is published. *)
Inductive identified (fd : Z) : list event -> option Z -> Prop :=
  | identified_cached s chip : chip_value s = Some chip ->
      identified fd [Ev (PropertyGet CHIP_PROPERTY) s] (Some chip)
  | identified_unsupported s d : chip_value s = None -> d < 0 \/ supported_chip (u32 d) = false ->
      identified fd [Ev (PropertyGet CHIP_PROPERTY) s; Ev (Ioctl fd WMT_GET_SOC_ID 0) d] None
  | identified_detected s d a : chip_value s = None -> 0 <= d < 2 ^ 31 -> supported_chip (u32 d) = true ->
      identified fd [Ev (PropertyGet CHIP_PROPERTY) s; Ev (Ioctl fd WMT_GET_SOC_ID 0) d;
                     Ev (PropertySet CHIP_PROPERTY (format_chip d)) a] (if a =? 0 then Some d else None).

(** The driver's three requests, with answers [0] up to a failing one. *)
Inductive initialized (fd : Z) : list (Z * Z) -> list event -> bool -> Prop :=
  | initialized_done : initialized fd [] [] true
  | initialized_failed request argument l r : r <> 0 ->
      initialized fd ((request, argument) :: l) [Ev (Ioctl fd request argument) r] false
  | initialized_step request argument l evs ok : initialized fd l evs ok ->
      initialized fd ((request, argument) :: l) (Ev (Ioctl fd request argument) 0 :: evs) ok.

Inductive loaded (fd : Z) : list event -> Z -> Prop :=
  | loaded_unknown evs : identified fd evs None -> loaded fd evs 1
  | loaded_failed evs chip inits : identified fd evs (Some chip) ->
      initialized fd (init_requests chip) inits false -> loaded fd (evs ++ inits) 1
  | loaded_ready evs chip inits a : identified fd evs (Some chip) ->
      initialized fd (init_requests chip) inits true ->
      loaded fd (evs ++ inits ++ [Ev (PropertySet READY_PROPERTY (lit "yes")) a]) (if a =? 0 then 0 else 1).

Inductive loader_trace : list event -> Z -> Prop :=
  | trace_already : loader_trace [Ev (PropertyGet READY_PROPERTY) (lit "yes")] 0
  | trace_no_detector s evs : s <> lit "yes" -> opening NODE_ATTEMPTS evs None ->
      loader_trace (Ev (PropertyGet READY_PROPERTY) s :: evs) 1
  | trace_run s evs fd work status r : s <> lit "yes" -> opening NODE_ATTEMPTS evs (Some fd) ->
      loaded fd work status ->
      loader_trace (Ev (PropertyGet READY_PROPERTY) s :: evs ++ work ++ [Ev (Close fd) r]) status.

(** What every property store and every driver answers: values that fit their
    buffer, and [int]s. *)
Definition answers_ok (env : strategy) : Prop :=
  (forall h key, (length (env (list Z) h (PropertyGet key)) <= 91)%nat /\
     Forall (fun c => c <> 0) (env (list Z) h (PropertyGet key))) /\
  (forall h fd request argument, is_s32 (env Z h (Ioctl fd request argument))).

Section Trace.
Context (env : strategy) (Hans : answers_ok env).

Lemma open_loop_ok n h :
  wp (open_loop env n) (fun fd h' => exists evs r, h' = h ++ evs /\ opening n evs r /\
    match r with Some fd' => fd = fd' | None => fd = -1 end) h.
Proof.
  revert h. induction n as [|n IH]; intros h.
  { apply wp_ret. exists [], None. rewrite app_nil_r. split_and!; [done|constructor|done]. }
  cbn [open_loop]. apply wp_bind, wp_ask. set (fd := env _ _ _). destruct (Z.leb_spec 0 fd).
  { apply wp_ret. exists [Ev Open fd], (Some fd). split_and!; [done|by constructor|done]. }
  destruct (_ && _) eqn:Hfatal.
  { apply wp_ret. exists [Ev Open fd], None. split_and!; [done| |done]. constructor; [done|].
    zb. unfold retriable. tauto. }
  assert (retriable fd) as Hretry by (unfold retriable; zb; destruct Hfatal as [Hf|Hf]; zb; [destruct Hf as [Hf|Hf]; zb|]; auto).
  apply wp_bind. eapply (wp_mono _ (fun _ h' => h' = (h ++ [Ev Open fd]) ++
    if (n =? 0)%nat then [] else [Ev (Usleep NODE_RETRY_US) tt])).
  { destruct (n =? 0)%nat; [apply wp_ret; by rewrite app_nil_r|]. apply wp_ask. by destruct (env unit _ _). }
  intros _ h' ->. eapply wp_mono; [apply IH|]. intros fd' h' (evs & r & -> & Ho & Hr).
  exists (Ev Open fd :: (if (n =? 0)%nat then [] else [Ev (Usleep NODE_RETRY_US) tt]) ++ evs), r.
  rewrite <- !(assoc_L (++)). split_and!; [done|by constructor|done].
Qed.

Lemma identify_ok fd h :
  wp (identify env fd) (fun r h' => exists evs, h' = h ++ evs /\ identified fd evs r) h.
Proof.
  unfold identify. apply wp_bind. unfold wp at 1. destruct (proj1 Hans h CHIP_PROPERTY) as [Hl Hnz].
  rewrite (cached_chip_id_eq env _ h eq_refl Hl Hnz). set (s := env _ h _). destruct (chip_value s) as [chip|] eqn:Hv.
  { apply wp_ret. eexists. split; [reflexivity|by constructor]. }
  apply wp_bind, wp_ask. set (d := env Z _ _). destruct (_ || _) eqn:Hbad.
  { apply wp_ret. eexists. rewrite <- (assoc_L (++)). split; [reflexivity|]. constructor; [done|].
    apply orb_true_iff in Hbad as [?|?]; zb; auto. }
  zb. apply wp_bind, wp_ask. set (a := env Z _ _). apply wp_ret. eexists. rewrite <- !(assoc_L (++)). split; [reflexivity|].
  assert (0 <= d < 2 ^ 31) as Hd by (pose proof (proj2 Hans (h ++ [Ev (PropertyGet CHIP_PROPERTY) s]) fd WMT_GET_SOC_ID 0 : is_s32 d) as Hi; unfold is_s32 in Hi; lia).
  pose proof (identified_detected fd s d a Hv) as Hi. destruct (a =? 0); by apply Hi.
Qed.

Lemma init_loop_ok fd l h :
  wp (init_loop env fd l) (fun r h' => exists evs ok, h' = h ++ evs /\ initialized fd l evs ok /\
    r = if ok : bool then 0 else -1) h.
Proof.
  revert h. induction l as [|[request argument] l IH]; intros h.
  { apply wp_ret. exists [], true. rewrite app_nil_r. split_and!; [done|constructor|done]. }
  cbn [init_loop]. apply wp_bind, wp_ask. set (r := env _ _ _). destruct (Z.eqb_spec r 0) as [Hr|Hr]; cbn [negb].
  - eapply wp_mono; [apply IH|]. intros r' h' (evs & ok & -> & Hi & ->). rewrite Hr.
    exists (Ev (Ioctl fd request argument) 0 :: evs), ok. rewrite <- (assoc_L (++)). split_and!; [done|by constructor|done].
  - apply wp_ret. eexists _, false. split_and!; [reflexivity|by constructor|done].
Qed.

Lemma load_ok fd h : wp (load env fd) (fun status h' => exists evs, h' = h ++ evs /\ loaded fd evs status) h.
Proof.
  unfold load. apply wp_bind. eapply wp_mono; [apply identify_ok|]. intros chip h1 (evs & -> & Hi).
  destruct chip as [chip|]; [|apply wp_ret; exists evs; split; [done|by constructor]].
  apply wp_bind. eapply wp_mono; [apply init_loop_ok|]. intros r h2 (inits & ok & -> & Hin & ->). destruct ok; cbn [negb Z.eqb].
  - apply wp_bind, wp_ask. set (a := env Z _ _). apply wp_ret. exists (evs ++ inits ++ [Ev (PropertySet READY_PROPERTY (lit "yes")) a]).
    rewrite <- !(assoc_L (++)). split; [done|]. pose proof (loaded_ready fd evs chip inits a Hi Hin) as Hl.
    by destruct (a =? 0).
  - apply wp_ret. exists (evs ++ inits). rewrite (assoc_L (++)). split; [done|by econstructor].
Qed.

Lemma main_trace : wp (main env) (fun status h => loader_trace h status) [].
Proof.
  unfold main, PROPERTY_VALUE_MAX. apply wp_bind. destruct (proj1 Hans [] READY_PROPERTY) as [Hl Hnz].
  unfold wp at 1. rewrite (property_get_eq env _ 92 _ [] eq_refl) by lia. set (s := env _ [] _) in *. cbn [app].
  apply wp_bind. eapply wp_lift; [apply (strcmp_eq_spec _ _ s (lit "yes")); [apply cstr_pad; [done|lia]|reflexivity]|].
  case_bool_decide as Hs; [apply wp_ret; rewrite Hs; constructor|].
  apply wp_bind. eapply wp_mono; [apply open_loop_ok|]. intros fd h (evs & r & -> & Ho & Hr).
  destruct r as [fd'|]; subst fd; [|by apply wp_ret; constructor].
  assert (0 <= fd') as Hfd by (clear -Ho; remember (Some fd') as r eqn:E; induction Ho; simplify_eq; auto).
  rewrite (proj2 (Z.ltb_ge fd' 0)) by done. apply wp_bind. eapply wp_mono; [apply load_ok|].
  intros status h (work & -> & Hw). apply wp_bind, wp_ask. set (c := env Z _ _). apply wp_ret.
  rewrite <- ?(assoc_L (++)). cbn [app]. rewrite <- ?(assoc_L (++)). by apply trace_run.
Qed.
End Trace.

Definition is_open (e : event) : bool := match e with Ev Open _ => true | _ => false end.

(** The three requests, all answered with success, on the chip's initialization
    identifier. *)
Definition driver_initialized (fd chip : Z) : list event :=
  [Ev (Ioctl fd WMT_SET_CHIP_ID chip) 0; Ev (Ioctl fd WMT_MODULE_CLEANUP 0x6755) 0;
   Ev (Ioctl fd WMT_MODULE_INIT 0x6755) 0].

Definition advertises (e : event) : bool :=
  match e with Ev (PropertySet key _) _ => bool_decide (key = READY_PROPERTY) | _ => false end.

Lemma opening_counts n evs r :
  opening n evs r -> (countb is_open evs <= n)%nat /\ countb advertises evs = 0%nat.
Proof.
  induction 1 as [|n fd|n e|n e evs r _ _ [IH1 IH2]]; try (cbn; lia).
  rewrite !countb_cons, !countb_app, IH2. destruct (n =? 0)%nat; cbn; lia.
Qed.

Lemma identified_counts fd evs r :
  identified fd evs r -> countb is_open evs = 0%nat /\ countb advertises evs = 0%nat.
Proof. by destruct 1. Qed.

Lemma initialized_counts fd l evs ok :
  initialized fd l evs ok -> countb is_open evs = 0%nat /\ countb advertises evs = 0%nat.
Proof. induction 1 as [| |? ? ? ? ? _ [IH1 IH2]]; [done..|]. by rewrite !countb_cons, IH1, IH2. Qed.

Lemma chip_value_supported s chip : chip_value s = Some chip -> supported_chip chip = true.
Proof.
  unfold chip_value. destruct s as [|c s]; [done|]. destruct (negb _); [done|].
  destruct (strtoul16 (c :: s)) as [[v rest] range]. destruct (_ || negb (supported_chip v)) eqn:E; [done|].
  intros [= <-]. by apply orb_false_iff in E as [_ ?%negb_false_iff].
Qed.

Lemma identified_supported fd evs chip :
  identified fd evs (Some chip) -> supported_chip chip = true.
Proof.
  intros Hi. inversion Hi as [s c Hv| |s d a Hv Hd Hsup Ha Hr]; subst; [by eapply chip_value_supported|].
  destruct (a =? 0); simplify_eq. unfold u32 in Hsup. rewrite wrap_small in Hsup by (unfold in_w; lia). done.
Qed.

Lemma initialized_all fd chip inits :
  initialized fd (init_requests chip) inits true -> supported_chip chip = true -> inits = driver_initialized fd chip.
Proof.
  intros Hi Hs. assert (init_chip chip = 0x6755) as Hc.
  { unfold supported_chip in Hs. unfold init_chip. destruct (Z.eqb_spec chip 0x6755); [by subst|].
    destruct (Z.eqb_spec chip 0x0326); done. }
  unfold init_requests in Hi. rewrite Hc in Hi.
  inversion Hi as [| |? ? ? e1 ? Hi1]; subst. inversion Hi1 as [| |? ? ? e2 ? Hi2]; subst.
  inversion Hi2 as [| |? ? ? e3 ? Hi3]; subst. by inversion Hi3.
Qed.

(** A run that loads: what the work leaves and where it advertises. *)
Lemma loaded_cases fd work status :
  loaded fd work status ->
  countb is_open work = 0%nat /\
  ((status = 1 /\ countb advertises work = 0%nat) \/
   exists pre chip a, supported_chip chip = true /\ countb advertises pre = 0%nat /\
     work = pre ++ driver_initialized fd chip ++ [Ev (PropertySet READY_PROPERTY (lit "yes")) a] /\
     status = if a =? 0 then 0 else 1).
Proof.
  destruct 1 as [evs Hi|evs chip inits Hi Hin|evs chip inits a Hi Hin].
  - destruct (identified_counts _ _ _ Hi) as [? ?]. auto.
  - destruct (identified_counts _ _ _ Hi) as [H1 H2], (initialized_counts _ _ _ _ Hin) as [H3 H4].
    rewrite !countb_app, H1, H2, H3, H4. auto.
  - destruct (identified_counts _ _ _ Hi) as [H1 H2], (initialized_counts _ _ _ _ Hin) as [H3 H4].
    rewrite !countb_app, H1, H3. split; [done|]. right.
    pose proof (identified_supported _ _ _ Hi) as Hs. rewrite (initialized_all _ _ _ Hin Hs).
    by exists evs, chip, a.
Qed.

(** C14: The loader always ends, tries the detector's node at most 200 times, and
    advertises the driver only when it is initialized.  Whatever the driver and
    the properties answer, it returns 0 or 1; an opened detector is closed at the
    end and nothing follows; readiness is set at most once, directly after the
    chip identifier, the cleanup and the initialization were all accepted, in this
    order, for a supported chip (the initialization always with the MT6755
    identifier); and the status is 0 exactly if the driver was ready before or
    that publication succeeded. *)
Theorem loader_main_spec (env : strategy) :
  answers_ok env ->
  exists status h, main env [] = Some (status, h) /\ loader_trace h status /\
    (countb is_open h <= 200)%nat /\
    (h = [Ev (PropertyGet READY_PROPERTY) (lit "yes")] /\ status = 0 \/
     status = 1 /\ countb advertises h = 0%nat \/
     exists pre fd chip a r, supported_chip chip = true /\ countb advertises pre = 0%nat /\
       h = pre ++ driver_initialized fd chip ++
           [Ev (PropertySet READY_PROPERTY (lit "yes")) a; Ev (Close fd) r] /\
       status = if a =? 0 then 0 else 1).
Proof.
  intros Hans. destruct (wp_result _ _ _ (main_trace env Hans)) as (status & h & Hr & Ht). exists status, h.
  split; [done|]. split; [done|]. clear Hr.
  destruct Ht as [|s evs Hs Ho|s evs fd work status r Hs Ho Hw].
  - split; [cbn; lia|by left].
  - destruct (opening_counts _ _ _ Ho) as [H1 H2]. unfold NODE_ATTEMPTS in H1. rewrite !countb_cons. cbn [is_open advertises].
    split; [simpl; lia|]. right. left. simpl. lia.
  - destruct (opening_counts _ _ _ Ho) as [H1 H2]. unfold NODE_ATTEMPTS in H1.
    destruct (loaded_cases _ _ _ Hw) as [H3 Hcase]. split.
    { rewrite countb_cons, !countb_app, H3. cbn. lia. }
    right. destruct Hcase as [[-> H4]|(pre & chip & a & Hsup & Hpre & -> & ->)].
    + left. split; [done|]. rewrite countb_cons, !countb_app, H2, H4. done.
    + right. exists (Ev (PropertyGet READY_PROPERTY) s :: evs ++ pre), fd, chip, a, r. split_and!; try done.
      * rewrite countb_cons, countb_app, H2, Hpre. done.
      * cbn [app]. f_equal. rewrite <- !(assoc_L (++)). done.
Qed.

(** A boot on which the older alias is detected. *)
Definition boot_env : strategy := fun A h c =>
  match c in call A return A -> A with
  | PropertyGet _ => fun _ => []
  | Ioctl _ request _ => fun _ => if request =? WMT_GET_SOC_ID then 0x326 else 0
  | _ => fun a => a
  end (sample_env A h c).

Lemma loader_main_spec_witness :
  exists h, main boot_env [] = Some (0, h) /\ loader_trace h 0 /\ countb advertises h = 1%nat.
Proof.
  destruct (loader_main_spec boot_env) as (status & h & Hr & Ht & _).
  - split; intros; cbn; [split; [lia|constructor]|]. destruct (_ =? _); unfold is_s32; lia.
  - assert ((fun x => (x.1, countb advertises x.2)) <$> main boot_env [] = Some (0, 1%nat)) as H0 by (vm_compute; reflexivity).
    rewrite Hr in H0. injection H0 as -> Hc. exists h. split_and!; [exact Hr|exact Ht|exact Hc].
Defined.
