(* ===== verification/RilHeader.v ===== *)
(** * What the RIL shim uses of telephony/ril.h

    The header is AOSP's and not part of the repository; the shim relies on its
    constants being distinct and on the two socket identifiers being the array
    indices 0 and 1.  [RilHeader] states that contract, the shim's theorems are
    proved against it, and [aosp_ril_h] shows that it can be met.  The values the
    shim itself pins (the two radio access families, [SIM_COUNT] from its build
    file, the structure size) are plain definitions. *)

From S2P Require Import Prelude.

Class RilHeader := {
  RIL_REQUEST_SET_INITIAL_ATTACH_APN : Z;
  RIL_REQUEST_GET_RADIO_CAPABILITY : Z;
  RIL_REQUEST_SET_RADIO_CAPABILITY : Z;
  RIL_UNSOL_RADIO_CAPABILITY : Z;
  RIL_SOCKET_1 : Z;
  RIL_SOCKET_2 : Z;
  RC_PHASE_CONFIGURED : Z;
  RC_PHASE_START : Z;
  RC_PHASE_APPLY : Z;
  RC_PHASE_UNSOL_RSP : Z;
  RC_PHASE_FINISH : Z;
  RC_STATUS_NONE : Z;
  RC_STATUS_SUCCESS : Z;
  RIL_RADIO_CAPABILITY_VERSION : Z;
  RIL_E_SUCCESS : Z;
  RIL_E_INVALID_ARGUMENTS : Z;
  requests_distinct :
    NoDup [RIL_REQUEST_SET_INITIAL_ATTACH_APN; RIL_REQUEST_GET_RADIO_CAPABILITY;
           RIL_REQUEST_SET_RADIO_CAPABILITY];
  phases_distinct :
    NoDup [RC_PHASE_CONFIGURED; RC_PHASE_START; RC_PHASE_APPLY; RC_PHASE_UNSOL_RSP;
           RC_PHASE_FINISH];
  socket_1_index : RIL_SOCKET_1 = 0;
  socket_2_index : RIL_SOCKET_2 = 1;
  errno_distinct : RIL_E_SUCCESS <> RIL_E_INVALID_ARGUMENTS;
}.

(** The values of AOSP's header. *)
Definition aosp_ril_h : RilHeader.
Proof.
  refine (Build_RilHeader 111 130 131 1042 0 1 0 1 2 3 4 0 1 1 0 44 _ _ eq_refl eq_refl _).
  - by apply (bool_decide_unpack (NoDup [111; 130; 131])).
  - by apply (bool_decide_unpack (NoDup [0; 1; 2; 3; 4])).
  - done.
Defined.

(** ril-shim/Android.bp passes -DSIM_COUNT=2. *)
Definition SIM_COUNT : Z := 2.

(** A request token is an opaque pointer of the caller; only its identity is
    ever used. *)
Abbreviation RIL_Token := Z.
