(* ===== verification/RilCapability.v ===== *)
(** * Fixed radio capabilities (ril-shim/k50sv1_ril_shim.c, part 1)

  GET and SET_RADIO_CAPABILITY are answered by the shim itself.  The state is
  the per-socket memory of the last APPLY session; an operation returns the
  callbacks it makes into the framework, in order.  The theorems: every answer
  reports the unchanged family and identity of the physical socket, each
  request is completed exactly once, a whole START/APPLY/FINISH transaction
  succeeds with exactly one indication from any previous state, and the
  duplicate suppression is the one the abstract specification describes under
  every interleaving of its critical sections. *)

From S2P Require Import Prelude CMem RilHeader.

Record RIL_RadioCapability := mk_rc {
rc_version : Z;
rc_session : Z;
rc_phase : Z;
rc_rat : Z;
rc_uuid : list Z;
rc_status : Z;
}.

#[global] Instance RIL_RadioCapability_eq_dec : EqDecision RIL_RadioCapability.
Proof. solve_decision. Defined.

(** The callbacks into the framework: [OnRequestComplete] with an optional
  capability payload and [OnUnsolicitedResponse] with a capability. *)
Inductive rc_event :=
| OnRequestComplete (t : RIL_Token) (e : Z) (response : option RIL_RadioCapability)
| OnUnsolicitedResponse (unsol : Z) (data : RIL_RadioCapability) (socketId : Z).

#[global] Instance rc_event_eq_dec : EqDecision rc_event.
Proof. solve_decision. Defined.

Record rc_state := mk_rc_state {
sLastApplySession : list Z;
sLastApplySessionValid : list bool;
}.

Definition rc_init : rc_state :=
mk_rc_state (replicate (Z.to_nat SIM_COUNT) 0) (replicate (Z.to_nat SIM_COUNT) false).

Definition SLOT0_NATIVE_RAF : Z := 0x1400a.
Definition SLOT1_NATIVE_RAF : Z := 0x10008.
Definition SLOT0_MODEM_UUID : list Z := lit "modem_sys1_ps1".
Definition SLOT1_MODEM_UUID : list Z := lit "modem_sys1_ps2".
Definition sizeof_RIL_RadioCapability : Z := 84.

Definition zero_rc : RIL_RadioCapability := mk_rc 0 0 0 0 (replicate 64 0) 0.

Section Capability.
Context `{RilHeader}.

(** [*out] after the call, and the answer. *)
Definition fillFixedRadioCapability (socketId session phase status : Z)
    (out : option RIL_RadioCapability) : bool * option RIL_RadioCapability :=
  match out with
  | None => (false, out)
  | Some _ =>
      let fill rat uuid :=
        (true, Some (mk_rc RIL_RADIO_CAPABILITY_VERSION session phase rat
                       (pad_to 64 uuid) status)) in
      if socketId =? RIL_SOCKET_1 then fill SLOT0_NATIVE_RAF SLOT0_MODEM_UUID
      else if socketId =? RIL_SOCKET_2 then fill SLOT1_NATIVE_RAF SLOT1_MODEM_UUID
      else (false, Some zero_rc)
  end.

Definition resetApplyDedupe (socketId : Z) (st : rc_state) : rc_state :=
  if (socketId <? 0) || (SIM_COUNT <=? socketId) then st else
  mk_rc_state (sLastApplySession st)
    (<[Z.to_nat socketId := false]> (sLastApplySessionValid st)).

Definition shouldSendApplyUnsol (socketId session : Z) (st : rc_state) : bool * rc_state :=
  if (socketId <? 0) || (SIM_COUNT <=? socketId) then (false, st) else
  let index := Z.to_nat socketId in
  let send := negb (default false (sLastApplySessionValid st !! index)) ||
              negb (default 0 (sLastApplySession st !! index) =? session) in
  (send,
   if send then mk_rc_state (<[index := session]> (sLastApplySession st))
                  (<[index := true]> (sLastApplySessionValid st))
   else st).

Definition rejectRadioCapabilityRequest (t : RIL_Token) : list rc_event :=
  [OnRequestComplete t RIL_E_INVALID_ARGUMENTS None].

Definition getRadioCapability (t : RIL_Token) (socketId : Z) : list rc_event :=
  match fillFixedRadioCapability socketId 0 RC_PHASE_CONFIGURED RC_STATUS_NONE (Some zero_rc) with
  | (true, response) => [OnRequestComplete t RIL_E_SUCCESS response]
  | (false, _) => rejectRadioCapabilityRequest t
  end.

Definition is_set_phase (phase : Z) : bool :=
  (phase =? RC_PHASE_START) || (phase =? RC_PHASE_APPLY) || (phase =? RC_PHASE_FINISH).

(** [data] is the request structure, [None] for a null pointer; its fields are
    read only after [datalen] was checked. *)
Definition setRadioCapability (data : option RIL_RadioCapability) (datalen : Z)
    (t : RIL_Token) (socketId : Z) (st : rc_state) : list rc_event * rc_state :=
  match data with
  | None => (rejectRadioCapabilityRequest t, st)
  | Some request =>
      if negb (datalen =? sizeof_RIL_RadioCapability) || negb (is_set_phase (rc_phase request))
      then (rejectRadioCapabilityRequest t, st) else
      match fillFixedRadioCapability socketId (rc_session request) (rc_phase request)
              RC_STATUS_SUCCESS (Some zero_rc) with
      | (true, Some response) =>
          let st := if rc_phase request =? RC_PHASE_START
                    then resetApplyDedupe socketId st else st in
          let status := if rc_phase request =? RC_PHASE_FINISH
                        then rc_status request else RC_STATUS_SUCCESS in
          let response := mk_rc (rc_version response) (rc_session response)
                (rc_phase response) (rc_rat response) (rc_uuid response) status in
          let ev := [OnRequestComplete t RIL_E_SUCCESS (Some response)] in
          if negb (rc_phase request =? RC_PHASE_APPLY) then (ev, st) else
          let '(send, st) := shouldSendApplyUnsol socketId (rc_session request) st in
          if negb send then (ev, st) else
          match fillFixedRadioCapability socketId (rc_session request) RC_PHASE_UNSOL_RSP
                  RC_STATUS_SUCCESS (Some zero_rc) with
          | (true, Some unsol) =>
              (ev ++ [OnUnsolicitedResponse RIL_UNSOL_RADIO_CAPABILITY unsol socketId], st)
          | _ => (ev, st)
          end
      | _ => (rejectRadioCapabilityRequest t, st)
      end
  end.

(** ** Specification *)

(** The capability of a physical socket, whatever is asked of it. *)
Definition fixed_capability (socketId session phase status : Z) : RIL_RadioCapability :=
  mk_rc RIL_RADIO_CAPABILITY_VERSION session phase
    (if socketId =? 0 then 0x1400a else 0x10008)
    (pad_to 64 (if socketId =? 0 then SLOT0_MODEM_UUID else SLOT1_MODEM_UUID)) status.

Definition valid_socket (socketId : Z) : Prop := 0 <= socketId < SIM_COUNT.

Definition rc_wf (st : rc_state) : Prop :=
  length (sLastApplySession st) = 2%nat /\ length (sLastApplySessionValid st) = 2%nat.

(** The session the socket remembers, if it remembers one. *)
Definition last_apply (st : rc_state) (socketId : Z) : option Z :=
  if default false (sLastApplySessionValid st !! Z.to_nat socketId)
  then sLastApplySession st !! Z.to_nat socketId else None.

Lemma rc_init_wf : rc_wf rc_init.
Proof. done. Qed.

Lemma fill_spec socketId session phase status out :
  fillFixedRadioCapability socketId session phase status (Some out) =
  if decide (valid_socket socketId) then
    (true, Some (fixed_capability socketId session phase status))
  else (false, Some zero_rc).
Proof.
  unfold fillFixedRadioCapability, valid_socket, SIM_COUNT.
  rewrite socket_1_index, socket_2_index. unfold fixed_capability.
  destruct (Z.eqb_spec socketId 0) as [->|]; [by rewrite decide_True by lia|].
  destruct (Z.eqb_spec socketId 1) as [->|]; [by rewrite decide_True by lia|].
  by rewrite decide_False by lia.
Qed.

Lemma socket_guard socketId :
  (socketId <? 0) || (SIM_COUNT <=? socketId) = negb (bool_decide (valid_socket socketId)).
Proof.
  unfold valid_socket, SIM_COUNT. case_bool_decide; simpl; lia.
Qed.

Lemma valid_index socketId {A} (l : list A) :
  valid_socket socketId -> length l = 2%nat -> (Z.to_nat socketId < length l)%nat.
Proof. unfold valid_socket, SIM_COUNT. lia. Qed.

(** The critical sections against the abstract memory [last_apply]. *)
Lemma reset_spec socketId st :
  rc_wf st -> valid_socket socketId ->
  rc_wf (resetApplyDedupe socketId st) /\
  forall s, last_apply (resetApplyDedupe socketId st) s =
    if decide (Z.to_nat s = Z.to_nat socketId) then None else last_apply st s.
Proof.
  intros [Hs Hv] Hvs. unfold resetApplyDedupe. rewrite socket_guard, bool_decide_true by done.
  split; [by split; simpl; rewrite ?length_insert|].
  intros s. unfold last_apply. simpl. destruct (decide (Z.to_nat s = Z.to_nat socketId)) as [->|].
  - by rewrite list_lookup_insert_eq by by apply valid_index.
  - by rewrite list_lookup_insert_ne by done.
Qed.

Lemma should_send_spec socketId session st :
  rc_wf st -> valid_socket socketId ->
  let r := shouldSendApplyUnsol socketId session st in
  rc_wf r.2 /\ (r.1 = true <-> last_apply st socketId <> Some session) /\
  forall s, last_apply r.2 s =
    if decide (Z.to_nat s = Z.to_nat socketId) then Some session else last_apply st s.
Proof.
  intros [Hs Hv] Hvs r. unfold r, shouldSendApplyUnsol.
  rewrite socket_guard, bool_decide_true by done. simpl negb. cbv iota.
  pose proof (valid_index socketId _ Hvs Hs) as Hls. pose proof (valid_index socketId _ Hvs Hv) as Hlv.
  destruct (lookup_lt_is_Some_2 _ _ Hls) as [x Hx]. destruct (lookup_lt_is_Some_2 _ _ Hlv) as [v Hlook].
  assert (Hla : last_apply st socketId = if v then Some x else None).
  { unfold last_apply. rewrite Hlook, Hx. by destruct v. }
  rewrite Hx, Hlook, Hla. cbn [from_option id fst snd].
  destruct v; cbn [negb orb].
  - destruct (Z.eqb_spec x session) as [->|Hne]; cbn [negb].
    + split_and!; [done..|split; [done|congruence]|].
      intros s. destruct (decide _) as [E|]; [|done].
      unfold last_apply in *. by rewrite E, Hla.
    + split_and!; [by split; simpl; rewrite length_insert|naive_solver|].
      intros s. unfold last_apply. simpl. destruct (decide _) as [->|].
      * by rewrite !list_lookup_insert_eq.
      * by rewrite !list_lookup_insert_ne.
  - split_and!; [by split; simpl; rewrite length_insert|naive_solver|].
    intros s. unfold last_apply. simpl. destruct (decide _) as [->|].
    + by rewrite !list_lookup_insert_eq.
    + by rewrite !list_lookup_insert_ne.
Qed.

(** What one request does: its callbacks and its effect on the memory. *)
Lemma set_radio_capability_eq request t socketId st :
  is_set_phase (rc_phase request) = true -> valid_socket socketId ->
  let phase := rc_phase request in
  let session := rc_session request in
  let st1 := if phase =? RC_PHASE_START then resetApplyDedupe socketId st else st in
  let r := shouldSendApplyUnsol socketId session st1 in
  let ev := [OnRequestComplete t RIL_E_SUCCESS (Some (fixed_capability socketId session phase
               (if phase =? RC_PHASE_FINISH then rc_status request else RC_STATUS_SUCCESS)))] in
  setRadioCapability (Some request) 84 t socketId st =
  if negb (phase =? RC_PHASE_APPLY) then (ev, st1)
  else if r.1 then
    (ev ++ [OnUnsolicitedResponse RIL_UNSOL_RADIO_CAPABILITY
              (fixed_capability socketId session RC_PHASE_UNSOL_RSP RC_STATUS_SUCCESS) socketId], r.2)
  else (ev, r.2).
Proof.
  intros Hph Hs. cbv zeta. unfold setRadioCapability. rewrite Hph, Z.eqb_refl. cbn [negb orb].
  rewrite !fill_spec, !decide_True by done.
  destruct (rc_phase request =? RC_PHASE_APPLY); cbn [negb]; [|done].
  by destruct (shouldSendApplyUnsol _ _ _) as [[] st'].
Qed.

Lemma set_radio_capability_reject data datalen t socketId st :
  ~ (exists request, data = Some request /\ datalen = 84 /\
       is_set_phase (rc_phase request) = true /\ valid_socket socketId) ->
  setRadioCapability data datalen t socketId st = (rejectRadioCapabilityRequest t, st).
Proof.
  intros Hn. unfold setRadioCapability. destruct data as [request|]; [|done].
  destruct (Z.eqb_spec datalen sizeof_RIL_RadioCapability) as [->|]; [|done].
  destruct (is_set_phase (rc_phase request)) eqn:E; [|done]. cbn [negb orb].
  rewrite fill_spec, decide_False; [done|]. intros Hs. apply Hn. eauto 6.
Qed.

Lemma phase_neq :
  RC_PHASE_START <> RC_PHASE_APPLY /\ RC_PHASE_START <> RC_PHASE_FINISH /\
  RC_PHASE_APPLY <> RC_PHASE_FINISH.
Proof.
  pose proof phases_distinct as Hnd. rewrite !NoDup_cons, !elem_of_cons in Hnd.
  destruct Hnd as (_ & H1 & H2 & _ & _). split_and!; intros E; rewrite E in *; tauto.
Qed.

(** A SET request the shim accepts: the structure in full, one of the three phases of
    a transaction, a socket of the phone. *)
Definition acceptable (data : option RIL_RadioCapability) (datalen socketId : Z) (request : RIL_RadioCapability) : Prop :=
  data = Some request /\ datalen = 84 /\ rc_phase request ∈ [RC_PHASE_START; RC_PHASE_APPLY; RC_PHASE_FINISH] /\
  valid_socket socketId.

Lemma is_set_phase_spec phase : is_set_phase phase = true <-> phase ∈ [RC_PHASE_START; RC_PHASE_APPLY; RC_PHASE_FINISH].
Proof. unfold is_set_phase. rewrite !orb_true_iff, !Z.eqb_eq, !elem_of_cons, elem_of_nil. tauto. Qed.

(** The callbacks an accepted request makes and the memory it leaves. *)
Lemma accepted_callbacks request t socketId st :
  is_set_phase (rc_phase request) = true -> valid_socket socketId -> rc_wf st ->
  let phase := rc_phase request in
  let session := rc_session request in
  let r := setRadioCapability (Some request) 84 t socketId st in
  r.1 = OnRequestComplete t RIL_E_SUCCESS (Some (fixed_capability socketId session phase
          (if decide (phase = RC_PHASE_FINISH) then rc_status request else RC_STATUS_SUCCESS)))
        :: (if decide (phase = RC_PHASE_APPLY /\ last_apply st socketId <> Some session)
            then [OnUnsolicitedResponse RIL_UNSOL_RADIO_CAPABILITY
                    (fixed_capability socketId session RC_PHASE_UNSOL_RSP RC_STATUS_SUCCESS) socketId]
            else []) /\
  rc_wf r.2 /\
  forall s, last_apply r.2 s =
    if decide (Z.to_nat s = Z.to_nat socketId) then
      if decide (phase = RC_PHASE_START) then None
      else if decide (phase = RC_PHASE_APPLY) then Some session else last_apply st s
    else last_apply st s.
Proof.
  intros Hph Hs Hwf. cbv zeta.
  rewrite set_radio_capability_eq by done. destruct phase_neq as (Hsa & Hsf & Haf).
  destruct (Z.eqb_spec (rc_phase request) RC_PHASE_APPLY) as [Ha|Ha]; cbn [negb].
  - rewrite Ha, (proj2 (Z.eqb_neq _ RC_PHASE_START)), (proj2 (Z.eqb_neq _ RC_PHASE_FINISH)) by congruence.
    rewrite (decide_False (P := RC_PHASE_APPLY = RC_PHASE_FINISH)) by congruence.
    destruct (should_send_spec socketId (rc_session request) st Hwf Hs) as (Hwf' & Hsend & Hmem).
    split_and!.
    + destruct (shouldSendApplyUnsol _ _ _).1.
      * rewrite decide_True; [done|]. split; [done|]. by apply Hsend.
      * rewrite decide_False; [done|]. intros [_ Hn]. by apply Hsend in Hn.
    + by destruct (shouldSendApplyUnsol _ _ _).1.
    + intros s. rewrite (decide_False (P := RC_PHASE_APPLY = RC_PHASE_START)) by congruence.
      rewrite (decide_True (P := RC_PHASE_APPLY = RC_PHASE_APPLY)) by done.
      rewrite <- Hmem. by destruct (shouldSendApplyUnsol _ _ _).1.
  - rewrite (decide_False (P := _ /\ _)) by (intros [? _]; done). cbn [fst snd].
    split; [|split].
    + destruct (Z.eqb_spec (rc_phase request) RC_PHASE_FINISH);
        [by rewrite decide_True|by rewrite decide_False].
    + destruct (rc_phase request =? RC_PHASE_START); [|done]. by apply reset_spec.
    + intros s. rewrite (decide_False (P := rc_phase request = RC_PHASE_APPLY)) by done.
      destruct (Z.eqb_spec (rc_phase request) RC_PHASE_START) as [E|E].
      * rewrite (decide_True (P := rc_phase request = RC_PHASE_START)) by done.
        by apply reset_spec.
      * rewrite (decide_False (P := rc_phase request = RC_PHASE_START)) by done.
        by destruct (decide _).
Qed.

(** C8: Functional behaviour of SET_RADIO_CAPABILITY on every branch.  A request that
    is acceptable (the structure in full, a START, APPLY or FINISH, a socket of the
    phone) is completed once, with success and the socket's own fixed capability (the
    status echoed on FINISH); an APPLY is followed by one success indication of the same
    session exactly when that session is not the one the socket remembers; START forgets
    the remembered session, APPLY remembers its own.  A request that is not acceptable,
    and no other, is completed once with INVALID_ARGUMENTS and changes nothing. *)
Theorem set_radio_capability_spec data datalen t socketId st :
  rc_wf st ->
  let r := setRadioCapability data datalen t socketId st in
  (forall request, acceptable data datalen socketId request ->
     let phase := rc_phase request in
     let session := rc_session request in
     r.1 = OnRequestComplete t RIL_E_SUCCESS (Some (fixed_capability socketId session phase
             (if decide (phase = RC_PHASE_FINISH) then rc_status request
              else RC_STATUS_SUCCESS)))
           :: (if decide (phase = RC_PHASE_APPLY /\ last_apply st socketId <> Some session)
               then [OnUnsolicitedResponse RIL_UNSOL_RADIO_CAPABILITY
                       (fixed_capability socketId session RC_PHASE_UNSOL_RSP RC_STATUS_SUCCESS)
                       socketId]
               else []) /\
     rc_wf r.2 /\
     forall s, last_apply r.2 s =
       if decide (Z.to_nat s = Z.to_nat socketId) then
         if decide (phase = RC_PHASE_START) then None
         else if decide (phase = RC_PHASE_APPLY) then Some session else last_apply st s
       else last_apply st s) /\
  ((forall request, ~ acceptable data datalen socketId request) ->
     r = ([OnRequestComplete t RIL_E_INVALID_ARGUMENTS None], st)).
Proof.
  intros Hwf. cbv zeta. split.
  - intros request (-> & -> & Hph%is_set_phase_spec & Hs). by apply accepted_callbacks.
  - intros Hn. apply set_radio_capability_reject. intros (request & -> & -> & Hph%is_set_phase_spec & Hs). by apply (Hn request).
Qed.

(** ** A transaction *)

(** One SET request as the framework sends it. *)
Record set_request := mk_set {
  sr_token : RIL_Token;
  sr_socket : Z;
  sr_data : RIL_RadioCapability;
}.

Fixpoint rc_run (st : rc_state) (rs : list set_request) : list rc_event * rc_state :=
  match rs with
  | [] => ([], st)
  | r :: rs =>
      let '(ev, st) := setRadioCapability (Some (sr_data r)) 84 (sr_token r) (sr_socket r) st in
      let '(evs, st) := rc_run st rs in
      (ev ++ evs, st)
  end.

Definition request_of (session phase status : Z) : RIL_RadioCapability :=
  mk_rc RIL_RADIO_CAPABILITY_VERSION session phase 0 (replicate 64 0) status.

Definition completed (t : RIL_Token) (socketId session phase status : Z) : rc_event :=
  OnRequestComplete t RIL_E_SUCCESS (Some (fixed_capability socketId session phase status)).

Definition indicated (socketId session : Z) : rc_event :=
  OnUnsolicitedResponse RIL_UNSOL_RADIO_CAPABILITY
    (fixed_capability socketId session RC_PHASE_UNSOL_RSP RC_STATUS_SUCCESS) socketId.

Lemma run_start st t k session rs :
  valid_socket k ->
  rc_run st (mk_set t k (request_of session RC_PHASE_START RC_STATUS_NONE) :: rs) =
  (completed t k session RC_PHASE_START RC_STATUS_SUCCESS ::
     (rc_run (resetApplyDedupe k st) rs).1, (rc_run (resetApplyDedupe k st) rs).2).
Proof.
  intros Hk. destruct phase_neq as (Hsa & Hsf & Haf). cbn [rc_run sr_data sr_token sr_socket].
  rewrite set_radio_capability_eq; [|unfold is_set_phase; simpl; by rewrite Z.eqb_refl|done].
  cbn [rc_phase rc_session request_of]. rewrite Z.eqb_refl.
  rewrite (proj2 (Z.eqb_neq _ RC_PHASE_APPLY)), (proj2 (Z.eqb_neq _ RC_PHASE_FINISH)) by done.
  cbn [negb]. by destruct (rc_run _ rs).
Qed.

Lemma run_apply st t k session rs :
  rc_wf st -> valid_socket k -> last_apply st k <> Some session ->
  let st' := (shouldSendApplyUnsol k session st).2 in
  rc_run st (mk_set t k (request_of session RC_PHASE_APPLY RC_STATUS_NONE) :: rs) =
  (completed t k session RC_PHASE_APPLY RC_STATUS_SUCCESS :: indicated k session ::
     (rc_run st' rs).1, (rc_run st' rs).2).
Proof.
  intros Hwf Hk Hl st'. destruct phase_neq as (Hsa & Hsf & Haf).
  cbn [rc_run sr_data sr_token sr_socket].
  rewrite set_radio_capability_eq;
    [|unfold is_set_phase; simpl; by rewrite Z.eqb_refl, orb_true_r|done].
  cbn [rc_phase rc_session request_of]. rewrite Z.eqb_refl.
  rewrite (proj2 (Z.eqb_neq _ RC_PHASE_START)), (proj2 (Z.eqb_neq _ RC_PHASE_FINISH)) by done.
  cbn [negb]. destruct (should_send_spec k session st Hwf Hk) as (_ & Hsend & _).
  rewrite (proj2 Hsend Hl). fold st'. by destruct (rc_run st' rs).
Qed.

Lemma run_finish st t k session status rs :
  valid_socket k ->
  rc_run st (mk_set t k (request_of session RC_PHASE_FINISH status) :: rs) =
  (completed t k session RC_PHASE_FINISH status :: (rc_run st rs).1, (rc_run st rs).2).
Proof.
  intros Hk. destruct phase_neq as (Hsa & Hsf & Haf). cbn [rc_run sr_data sr_token sr_socket].
  rewrite set_radio_capability_eq;
    [|unfold is_set_phase; simpl; by rewrite Z.eqb_refl, orb_true_r|done].
  cbn [rc_phase rc_session rc_status request_of]. rewrite Z.eqb_refl.
  rewrite (proj2 (Z.eqb_neq _ RC_PHASE_START)), (proj2 (Z.eqb_neq _ RC_PHASE_APPLY)) by congruence.
  cbn [negb]. by destruct (rc_run st rs).
Qed.

Definition transaction (session status : Z) (t : nat -> RIL_Token) : list set_request :=
  [mk_set (t 0%nat) 0 (request_of session RC_PHASE_START RC_STATUS_NONE);
   mk_set (t 1%nat) 1 (request_of session RC_PHASE_START RC_STATUS_NONE);
   mk_set (t 2%nat) 0 (request_of session RC_PHASE_APPLY RC_STATUS_NONE);
   mk_set (t 3%nat) 1 (request_of session RC_PHASE_APPLY RC_STATUS_NONE);
   mk_set (t 4%nat) 0 (request_of session RC_PHASE_FINISH status);
   mk_set (t 5%nat) 1 (request_of session RC_PHASE_FINISH status)].

(** A whole capability transaction over both sockets, from every state of
    the shim (also one that still remembers the same session number, as after a
    system_server restart), completes each of its six requests with success and
    sends exactly one success indication of that session per socket, right
    after that socket's APPLY. *)
Theorem transaction_completes st session status t :
  rc_wf st ->
  (rc_run st (transaction session status t)).1 =
  [completed (t 0%nat) 0 session RC_PHASE_START RC_STATUS_SUCCESS;
   completed (t 1%nat) 1 session RC_PHASE_START RC_STATUS_SUCCESS;
   completed (t 2%nat) 0 session RC_PHASE_APPLY RC_STATUS_SUCCESS; indicated 0 session;
   completed (t 3%nat) 1 session RC_PHASE_APPLY RC_STATUS_SUCCESS; indicated 1 session;
   completed (t 4%nat) 0 session RC_PHASE_FINISH status;
   completed (t 5%nat) 1 session RC_PHASE_FINISH status].
Proof.
  intros Hwf. unfold transaction.
  assert (H0 : valid_socket 0) by (unfold valid_socket, SIM_COUNT; lia).
  assert (H1 : valid_socket 1) by (unfold valid_socket, SIM_COUNT; lia).
  rewrite !run_start by done.
  destruct (reset_spec 0 st Hwf H0) as [Hwf1 Hm1].
  destruct (reset_spec 1 _ Hwf1 H1) as [Hwf2 Hm2].
  assert (Hl0 : last_apply (resetApplyDedupe 1 (resetApplyDedupe 0 st)) 0 <> Some session)
    by (rewrite Hm2, Hm1; done).
  rewrite run_apply by done. cbv zeta.
  destruct (should_send_spec 0 session _ Hwf2 H0) as (Hwf3 & _ & Hm3).
  rewrite run_apply; [|done..|rewrite Hm3; simpl; rewrite Hm2; done].
  rewrite !run_finish by done. done.
Qed.

(** ** Concurrent requests *)

(** A request in progress on a thread of its own: only [resetApplyDedupe] and
    [shouldSendApplyUnsol] touch the memory, each in one critical section. *)
Inductive rc_pc := PReset | PComplete | PTest | PUnsol | PDone.

Record rc_thread := mk_thread { th_req : set_request; th_pc : rc_pc }.

Definition at_pc (th : rc_thread) (pc : rc_pc) : rc_thread := mk_thread (th_req th) pc.

Definition th_phase (th : rc_thread) : Z := rc_phase (sr_data (th_req th)).
Definition th_session (th : rc_thread) : Z := rc_session (sr_data (th_req th)).
Definition th_socket (th : rc_thread) : Z := sr_socket (th_req th).

Definition start_pc (r : set_request) : rc_pc :=
  if rc_phase (sr_data r) =? RC_PHASE_START then PReset else PComplete.

(** One atomic action of one thread. *)
Inductive th_step : rc_state -> rc_thread -> list rc_event -> rc_state -> rc_thread -> Prop :=
| th_reset st th :
    th_pc th = PReset ->
    th_step st th [] (resetApplyDedupe (th_socket th) st) (at_pc th PComplete)
| th_complete st th :
    th_pc th = PComplete ->
    th_step st th
      [completed (sr_token (th_req th)) (th_socket th) (th_session th) (th_phase th)
         (if th_phase th =? RC_PHASE_FINISH then rc_status (sr_data (th_req th))
          else RC_STATUS_SUCCESS)]
      st (at_pc th (if th_phase th =? RC_PHASE_APPLY then PTest else PDone))
| th_test st th :
    th_pc th = PTest ->
    let r := shouldSendApplyUnsol (th_socket th) (th_session th) st in
    th_step st th [] r.2 (at_pc th (if r.1 then PUnsol else PDone))
| th_unsol st th :
    th_pc th = PUnsol ->
    th_step st th [indicated (th_socket th) (th_session th)] st (at_pc th PDone).

(** A thread that runs alone performs the whole handler. *)
Inductive th_steps : rc_state -> rc_thread -> list rc_event -> rc_state -> rc_thread -> Prop :=
| ths_nil st th : th_steps st th [] st th
| ths_cons st th ev st1 th1 evs st2 th2 :
    th_step st th ev st1 th1 -> th_steps st1 th1 evs st2 th2 ->
    th_steps st th (ev ++ evs) st2 th2.

(** The atomic actions of a thread are the handler: run without
    interference from its start they produce exactly the callbacks, in order,
    and the final state of [setRadioCapability]. *)
Theorem thread_alone_refines st r :
  is_set_phase (rc_phase (sr_data r)) = true -> valid_socket (sr_socket r) ->
  let res := setRadioCapability (Some (sr_data r)) 84 (sr_token r) (sr_socket r) st in
  th_steps st (mk_thread r (start_pc r)) res.1 res.2 (mk_thread r PDone).
Proof.
  intros Hph Hs res. unfold res. rewrite set_radio_capability_eq by done. cbv zeta.
  destruct phase_neq as (Hsa & Hsf & Haf). unfold start_pc.
  assert (Hdone : forall st' th, th_pc th = PComplete -> th_phase th <> RC_PHASE_APPLY ->
    th_steps st' th [completed (sr_token (th_req th)) (th_socket th) (th_session th) (th_phase th)
      (if th_phase th =? RC_PHASE_FINISH then rc_status (sr_data (th_req th))
       else RC_STATUS_SUCCESS)] st' (at_pc th PDone)).
  { intros st' th Hpc Hna. rewrite <- (app_nil_r [_]). econstructor; [by apply th_complete|].
    rewrite (proj2 (Z.eqb_neq _ RC_PHASE_APPLY)) by done. constructor. }
  destruct (Z.eqb_spec (rc_phase (sr_data r)) RC_PHASE_APPLY) as [Ha|Ha]; cbn [negb].
  - rewrite Ha, (proj2 (Z.eqb_neq _ RC_PHASE_START)) by congruence.
    set (sh := shouldSendApplyUnsol _ _ _).
    assert (Hfirst : forall evs st2 th2,
      th_steps sh.2 (mk_thread r (if sh.1 then PUnsol else PDone)) evs st2 th2 ->
      th_steps st (mk_thread r PComplete)
        ([completed (sr_token r) (sr_socket r) (rc_session (sr_data r)) RC_PHASE_APPLY
           (if RC_PHASE_APPLY =? RC_PHASE_FINISH then rc_status (sr_data r)
            else RC_STATUS_SUCCESS)] ++ [] ++ evs) st2 th2).
    { intros evs st2 th2 Hrest. rewrite <- Ha.
      econstructor; [exact (th_complete st (mk_thread r PComplete) eq_refl)|].
      unfold th_phase. simpl. rewrite Ha, Z.eqb_refl.
      exact (ths_cons _ _ [] _ _ evs _ _ (th_test st (mk_thread r PTest) eq_refl) Hrest). }
    destruct sh as [[] st'] eqn:Esh; cbn [fst snd].
    + apply (Hfirst [_]). rewrite <- (app_nil_r [_]).
      econstructor; [exact (th_unsol st' (mk_thread r PUnsol) eq_refl)|constructor].
    + apply (Hfirst []). constructor.
  - cbn [fst snd]. destruct (Z.eqb_spec (rc_phase (sr_data r)) RC_PHASE_START) as [E|E].
    + exact (ths_cons _ _ [] _ _ _ _ _ (th_reset st (mk_thread r PReset) eq_refl)
               (Hdone _ (mk_thread r PComplete) eq_refl Ha)).
    + exact (Hdone st (mk_thread r PComplete) eq_refl Ha).
Qed.

#[local] Instance rc_pc_eq_dec : EqDecision rc_pc.
Proof. solve_decision. Defined.

(** Any number of threads, one atomic action at a time, with the callbacks made
    so far. *)
Definition pool : Type := rc_state * list rc_thread * list rc_event.

Inductive pool_step : pool -> pool -> Prop :=
| pool_one st ths tr i th ev st' th' :
    ths !! i = Some th -> th_step st th ev st' th' ->
    pool_step (st, ths, tr) (st', <[i := th']> ths, tr ++ ev).

Definition is_indication (k : Z) (ev : rc_event) : bool :=
  match ev with
  | OnUnsolicitedResponse _ _ socketId => socketId =? k
  | OnRequestComplete _ _ _ => false
  end.

(** A thread of socket [k] at program point [pc]. *)
Definition at_point (k : Z) (pc : rc_pc) (th : rc_thread) : bool :=
  (th_socket th =? k) && bool_decide (th_pc th = pc).

(** The threads are on valid sockets, and those of socket [k] are all APPLY
    requests of session [s]. *)
Definition apply_threads (k s : Z) (ths : list rc_thread) : Prop :=
  Forall (fun th => valid_socket (th_socket th) /\
    (th_socket th = k -> th_phase th = RC_PHASE_APPLY /\ th_session th = s /\
                         th_pc th <> PReset)) ths.

(** The socket remembers the session exactly when its indication is sent or on its
    way ([sent]); before, no request is done. *)
Definition deduped (k s : Z) (st : rc_state) (sent finished : nat) : Prop :=
  last_apply st k = Some s /\ sent = 1%nat \/
  last_apply st k <> Some s /\ sent = 0%nat /\ finished = 0%nat.

Definition apply_inv (k s : Z) (p : pool) : Prop :=
  let '(st, ths, tr) := p in
  rc_wf st /\ apply_threads k s ths /\
  deduped k s st (countb (is_indication k) tr + countb (at_point k PUnsol) ths) (countb (at_point k PDone) ths).

Lemma deduped_same k s st st' n d n' d' :
  last_apply st' k = last_apply st k -> n' = n -> (n = 0%nat -> d' = d) -> deduped k s st n d -> deduped k s st' n' d'.
Proof. intros Hl -> Hd [[? ?]|(? & ? & ?)]; [left|right]; rewrite Hl; split_and!; auto. by rewrite Hd. Qed.

Lemma count_move k pc ths i th pc' :
  ths !! i = Some th ->
  (countb (at_point k pc) (<[i := at_pc th pc']> ths) +
   Nat.b2n ((th_socket th =? k)%Z && bool_decide (th_pc th = pc)) =
   countb (at_point k pc) ths + Nat.b2n ((th_socket th =? k)%Z && bool_decide (pc' = pc)))%nat.
Proof. intros Hi. exact (countb_insert (at_point k pc) ths i th (at_pc th pc') Hi). Qed.

(** The test, by a thread of the socket. *)
Lemma deduped_test k s st n d n' d' (r : bool) st' :
  last_apply st' k = Some s -> (r = true <-> last_apply st k <> Some s) ->
  n' = (n + Nat.b2n r)%nat -> deduped k s st n d -> deduped k s st' n' d'.
Proof.
  intros Hl Hr -> [[Hla ->]|(Hla & -> & _)]; left; (split; [done|]).
  - destruct r; [by apply Hr in Hla|done].
  - by rewrite (proj2 Hr Hla).
Qed.

Lemma apply_inv_step k s p p' :
  valid_socket k -> apply_inv k s p -> pool_step p p' -> apply_inv k s p'.
Proof.
  intros Hk Hinv Hstep. destruct Hstep as [st ths tr i th ev st' th' Hi Hth].
  destruct Hinv as (Hwf & Hths & Hcase). destruct (Forall_lookup_1 _ _ _ _ Hths Hi) as [Hv Hkth].
  assert (Hkeep : forall pc, (th_socket th = k -> pc <> PReset) ->
    apply_threads k s (<[i := at_pc th pc]> ths)).
  { intros pc Hpc. apply Forall_insert; [done|]. split; [done|]. intros E.
    destruct (Hkth E) as (? & ? & _). split_and!; auto. }
  assert (Hnat : Z.to_nat k = Z.to_nat (th_socket th) <-> th_socket th = k).
  { unfold valid_socket, SIM_COUNT in *. lia. }
  assert (countb (is_indication k) [] = 0%nat) as H0 by done.
  pose proof (fun pc' => count_move k PUnsol ths i th pc' Hi) as HU.
  pose proof (fun pc' => count_move k PDone ths i th pc' Hi) as HD.
  destruct Hth as [st th Hpc|st th Hpc|st th Hpc r|st th Hpc]; unfold apply_inv; rewrite countb_app; rewrite Hpc in HU, HD.
  - (* reset: a thread of another socket *)
    specialize (HU PComplete). specialize (HD PComplete).
    assert (Hne : th_socket th <> k) by (intros E; by destruct (Hkth E) as (_ & _ & ?)).
    rewrite (proj2 (Z.eqb_neq _ k) Hne) in HU, HD. simpl in HU, HD.
    destruct (reset_spec (th_socket th) st Hwf Hv) as [Hwf' Hm].
    split_and!; [done|by apply Hkeep|]. eapply deduped_same; [rewrite Hm; apply decide_False; tauto| | |exact Hcase]; lia.
  - (* the completion *)
    set (pc' := if th_phase th =? RC_PHASE_APPLY then PTest else PDone). specialize (HU pc'). specialize (HD pc').
    assert ((th_socket th =? k) && bool_decide (pc' = PDone) = false /\
            (th_socket th =? k) && bool_decide (pc' = PUnsol) = false) as [Hd Hu].
    { destruct (Z.eqb_spec (th_socket th) k) as [E|]; [|done]. destruct (Hkth E) as (Ha & _).
      unfold pc'. by rewrite Ha, Z.eqb_refl. }
    rewrite Hd, andb_false_r in HD. rewrite Hu, andb_false_r in HU. simpl in HU, HD.
    split_and!; [done|apply Hkeep; intros _; unfold pc'; by destruct (th_phase th =? RC_PHASE_APPLY)|].
    eapply deduped_same; [done| | |exact Hcase]; rewrite ?countb_cons; simpl is_indication; simpl Nat.b2n; lia.
  - (* the test *)
    specialize (HU (if r.1 then PUnsol else PDone)). specialize (HD (if r.1 then PUnsol else PDone)).
    destruct (should_send_spec (th_socket th) (th_session th) st Hwf Hv) as (Hwf' & Hsend & Hm). fold r in Hwf', Hsend, Hm.
    split_and!; [done|apply Hkeep; intros _; by destruct r.1|]. destruct (Z.eqb_spec (th_socket th) k) as [E|E].
    + destruct (Hkth E) as (_ & Hs & _). rewrite Hs, E in *.
      eapply (deduped_test k s st _ _ _ _ r.1); [rewrite Hm; apply decide_True; tauto|exact Hsend| |exact Hcase].
      destruct r.1; simpl Nat.b2n in *; lia.
    + eapply deduped_same; [rewrite Hm; apply decide_False; tauto| | |exact Hcase]; simpl in HU, HD; lia.
  - (* the indication *)
    specialize (HU PDone). specialize (HD PDone). split_and!; [done|by apply Hkeep|].
    eapply deduped_same; [done| | |exact Hcase]; rewrite ?countb_cons; simpl is_indication;
      destruct (Z.eqb_spec (th_socket th) k); simpl Nat.b2n in *; lia.
Qed.

(** C34: However the actions of concurrent requests interleave, any number of
    APPLY requests of one session on one socket (no START among them, and not
    the session the socket already remembers), next to arbitrary requests on
    the other socket, never cause more than one indication, and exactly one
    once they have all finished. *)
Theorem concurrent_apply_once k s st ths st' ths' tr :
  valid_socket k -> rc_wf st -> last_apply st k <> Some s ->
  Forall (fun th => valid_socket (th_socket th) /\ th_pc th = start_pc (th_req th) /\
    (th_socket th = k -> th_phase th = RC_PHASE_APPLY /\ th_session th = s)) ths ->
  rtc pool_step (st, ths, []) (st', ths', tr) ->
  (countb (is_indication k) tr <= 1)%nat /\
  (Forall (fun th => th_pc th = PDone) ths' -> Exists (fun th => th_socket th = k) ths' ->
   countb (is_indication k) tr = 1%nat).
Proof.
  intros Hk Hwf Hl Hths Hrun. destruct phase_neq as (Hsa & Hsf & Haf).
  assert (Hstart : forall th, th_pc th = start_pc (th_req th) -> th_pc th <> PUnsol /\ th_pc th <> PDone).
  { intros th ->. unfold start_pc. by destruct (_ =? _). }
  assert (Hinv : apply_inv k s (st, ths, [])).
  { split_and!; [done| |].
    - eapply Forall_impl; [exact Hths|]. intros th (Hv & Hpc & Hkk). split; [done|].
      intros E. destruct (Hkk E) as [Ha Hs]. split_and!; [done..|]. rewrite Hpc. unfold start_pc.
      unfold th_phase in Ha. by rewrite Ha, (proj2 (Z.eqb_neq _ RC_PHASE_START)) by congruence.
    - right. split_and!; [done| |]; simpl; apply countb_zero; eapply Forall_impl; [exact Hths| |exact Hths|];
        intros th (_ & Hpc & _); destruct (Hstart th Hpc); unfold at_point;
        rewrite bool_decide_false by done; apply andb_false_r. }
  assert (Hend : apply_inv k s (st', ths', tr)).
  { remember (st, ths, []) as p0. remember (st', ths', tr) as p1. clear Heqp0 Heqp1 Hths.
    induction Hrun; [done|]. apply IHHrun. by eapply apply_inv_step. }
  destruct Hend as (_ & _ & Hcase). unfold deduped in Hcase. split; [lia|].
  intros Hdone Hex. destruct Hcase as [[_ Hsum]|(_ & _ & Hz)].
  - assert (Hz : countb (at_point k PUnsol) ths' = 0%nat).
    { apply countb_zero. eapply Forall_impl; [exact Hdone|]. intros th E. unfold at_point.
      rewrite E. apply andb_false_r. }
    lia.
  - exfalso. apply countb_zero in Hz. apply Exists_exists in Hex as (th & Hin & E).
    rewrite Forall_forall in Hz, Hdone. specialize (Hz th Hin). specialize (Hdone th Hin).
    unfold at_point in Hz. rewrite E, Z.eqb_refl, Hdone in Hz. done.
Qed.
End Capability.

(** ** The theorems at concrete requests, with AOSP's constants *)

Section Witnesses.
#[local] Existing Instance aosp_ril_h.

(** START, APPLY and FINISH after session 41 was applied, and a phase that is none of them. *)
Lemma set_radio_capability_spec_witness :
  let st := mk_rc_state [41; 0] [true; false] in
  let run phase := setRadioCapability (Some (request_of 41 phase 7)) 84 4 0 st in
  last_apply (run RC_PHASE_START).2 0 = None /\ length (run RC_PHASE_APPLY).1 = 1%nat /\
  (run RC_PHASE_FINISH).1 = [OnRequestComplete 4 RIL_E_SUCCESS (Some (fixed_capability 0 41 RC_PHASE_FINISH 7))] /\
  run RC_PHASE_CONFIGURED = ([OnRequestComplete 4 RIL_E_INVALID_ARGUMENTS None], st).
Proof.
  cbv zeta. set (st := mk_rc_state [41; 0] [true; false]).
  assert (rc_wf st) as Hwf by done. assert (valid_socket 0) as Hs by (unfold valid_socket, SIM_COUNT; lia).
  destruct (set_radio_capability_spec (Some (request_of 41 RC_PHASE_START 7)) 84 4 0 st Hwf) as [H1 _].
  destruct (set_radio_capability_spec (Some (request_of 41 RC_PHASE_APPLY 7)) 84 4 0 st Hwf) as [H2 _].
  destruct (set_radio_capability_spec (Some (request_of 41 RC_PHASE_FINISH 7)) 84 4 0 st Hwf) as [H3 _].
  destruct (set_radio_capability_spec (Some (request_of 41 RC_PHASE_CONFIGURED 7)) 84 4 0 st Hwf) as [_ H4].
  split; [|split; [|split]].
  - exact (proj2 (proj2 (H1 _ ltac:(split_and!; [reflexivity|done|cbn; in_list|done]))) 0).
  - by rewrite (proj1 (H2 _ ltac:(split_and!; [reflexivity|done|cbn; in_list|done]))).
  - by rewrite (proj1 (H3 _ ltac:(split_and!; [reflexivity|done|cbn; in_list|done]))).
  - apply H4. intros request ([= <-] & _ & Hph & _). vm_compute in Hph.
    repeat (apply elem_of_cons in Hph as [Hph|Hph]; [discriminate Hph|]). by apply elem_of_nil in Hph.
Defined.

Lemma transaction_completes_witness :
  length (rc_run (mk_rc_state [41; 41] [true; true])
            (transaction 41 RC_STATUS_SUCCESS Z.of_nat)).1 = 8%nat.
Proof.
  rewrite (transaction_completes (mk_rc_state [41; 41] [true; true]) 41 RC_STATUS_SUCCESS Z.of_nat);
    [reflexivity | done].
Defined.

Lemma thread_alone_refines_witness :
  let r := mk_set 4 1 (request_of 41 RC_PHASE_APPLY 0) in
  let res := setRadioCapability (Some (sr_data r)) 84 4 1 rc_init in
  th_steps rc_init (mk_thread r (start_pc r)) res.1 res.2 (mk_thread r PDone).
Proof.
  apply (thread_alone_refines rc_init (mk_set 4 1 (request_of 41 RC_PHASE_APPLY 0)));
    [reflexivity | unfold valid_socket, SIM_COUNT; simpl; lia].
Defined.

Definition dup_thread (t : RIL_Token) (pc : rc_pc) : rc_thread :=
  mk_thread (mk_set t 0 (request_of 41 RC_PHASE_APPLY 0)) pc.

Definition dup_trace : list rc_event :=
  [completed 1 0 41 RC_PHASE_APPLY RC_STATUS_SUCCESS;
   completed 2 0 41 RC_PHASE_APPLY RC_STATUS_SUCCESS; indicated 0 41].

Lemma dup_run :
  rtc pool_step (rc_init, [dup_thread 1 PComplete; dup_thread 2 PComplete], [])
    (mk_rc_state [41; 0] [true; false], [dup_thread 1 PDone; dup_thread 2 PDone], dup_trace).
Proof.
  eapply rtc_l; [apply (pool_one _ _ _ 0%nat (dup_thread 1 PComplete)); [done|by apply th_complete]|].
  eapply rtc_l; [apply (pool_one _ _ _ 1%nat (dup_thread 2 PComplete)); [done|by apply th_complete]|].
  eapply rtc_l; [apply (pool_one _ _ _ 1%nat (dup_thread 2 PTest)); [done|by apply th_test]|].
  eapply rtc_l; [apply (pool_one _ _ _ 0%nat (dup_thread 1 PTest)); [done|by apply th_test]|].
  eapply rtc_l; [apply (pool_one _ _ _ 1%nat (dup_thread 2 PUnsol)); [done|by apply th_unsol]|].
  apply rtc_refl.
Qed.

Lemma concurrent_apply_once_witness : countb (is_indication 0) dup_trace = 1%nat.
Proof.
  refine (proj2 (concurrent_apply_once 0 41 rc_init
    [dup_thread 1 PComplete; dup_thread 2 PComplete] _ _ _ _ _ _ _ dup_run) _ _).
  - unfold valid_socket, SIM_COUNT. lia.
  - exact rc_init_wf.
  - done.
  - repeat constructor; simpl; lia || done.
  - by repeat constructor.
  - by constructor.
Defined.
End Witnesses.
