(* ===== verification/RilIaMem.v ===== *)
(** * Ownership of the cached attach APN (ril-shim/k50sv1_ril_shim.c, part 2)

    The payload of SET_INITIAL_ATTACH_APN is a structure of string pointers that
    the caller frees as soon as the request returns, so the shim keeps deep
    copies.  This file models those copies on a heap of malloc'ed blocks, with
    allocation failure: [copyIa], [freeIaStrings] and their helpers.  A use of a
    dead block, a double free or an unterminated string is [None].  The log of
    freed blocks records their contents, which is what the zeroing of the
    credentials is about. *)

From S2P Require Import Prelude CMem RilHeader.

(** ** The structure, over a type of string members *)

Record MtkInitialAttachApn (S : Type) := mk_ia {
  ia_apn : S;
  ia_protocol : S;
  ia_roamingProtocol : S;
  ia_authtype : Z;
  ia_username : S;
  ia_password : S;
  ia_supportedTypesBitmask : Z;
  ia_bearerBitmask : Z;
  ia_modemCognitive : Z;
  ia_mtu : Z;
  ia_mvnoType : S;
  ia_mvnoMatchData : S;
  ia_canHandleIms : Z;
}.
Arguments mk_ia {S}.
Arguments ia_apn {S}.
Arguments ia_protocol {S}.
Arguments ia_roamingProtocol {S}.
Arguments ia_authtype {S}.
Arguments ia_username {S}.
Arguments ia_password {S}.
Arguments ia_supportedTypesBitmask {S}.
Arguments ia_bearerBitmask {S}.
Arguments ia_modemCognitive {S}.
Arguments ia_mtu {S}.
Arguments ia_mvnoType {S}.
Arguments ia_mvnoMatchData {S}.
Arguments ia_canHandleIms {S}.

#[global] Instance MtkInitialAttachApn_eq_dec {S} `{EqDecision S} :
  EqDecision (MtkInitialAttachApn S).
Proof. solve_decision. Defined.

Definition sizeof_MtkInitialAttachApn : Z := 0x58.

(** In memory the members are pointers; [ia_value] is what they point to, a null
    pointer being different from an empty string. *)
Abbreviation ia_mem := (MtkInitialAttachApn Z).
Abbreviation ia_value := (MtkInitialAttachApn (option (list Z))).

Abbreviation NULL := 0%Z (only parsing).

Definition zero_ia : ia_mem := mk_ia 0 0 0 0 0 0 0 0 0 0 0 0 0.

Definition ia_map {S T} (f : S -> T) (ia : MtkInitialAttachApn S) : MtkInitialAttachApn T :=
  mk_ia (f (ia_apn ia)) (f (ia_protocol ia)) (f (ia_roamingProtocol ia)) (ia_authtype ia)
    (f (ia_username ia)) (f (ia_password ia)) (ia_supportedTypesBitmask ia) (ia_bearerBitmask ia)
    (ia_modemCognitive ia) (ia_mtu ia) (f (ia_mvnoType ia)) (f (ia_mvnoMatchData ia))
    (ia_canHandleIms ia).

(** The string members in the order in which the code frees them. *)
Definition ia_strings {S} (ia : MtkInitialAttachApn S) : list S :=
  [ia_apn ia; ia_protocol ia; ia_roamingProtocol ia; ia_username ia; ia_password ia;
   ia_mvnoType ia; ia_mvnoMatchData ia].

(** ** The heap *)

Record heap := mk_heap {
  h_live : gmap Z (list Z);
  h_freed : list (Z * list Z);
  h_calls : nat;
}.

(** malloc of the C library: it may fail at any call, and a block it returns is
    neither null nor live. *)
Class Allocator := {
  malloc : nat -> gmap Z (list Z) -> option Z;
  malloc_fresh n m p : malloc n m = Some p -> p <> NULL /\ m !! p = None;
}.

Section Memory.
Context `{Allocator}.

Definition strdup (src : Z) (h : heap) : option (Z * heap) :=
  b ← h_live h !! src;
  s ← cstr b;
  Some
    match malloc (h_calls h) (h_live h) with
    | Some p => (p, mk_heap (<[p := s ++ [NUL]]> (h_live h)) (h_freed h) (S (h_calls h)))
    | None => (NULL, mk_heap (h_live h) (h_freed h) (S (h_calls h)))
    end.

Definition free (p : Z) (h : heap) : option heap :=
  if p =? NULL then Some h else
  b ← h_live h !! p;
  Some (mk_heap (delete p (h_live h)) ((p, b) :: h_freed h) (h_calls h)).

Definition secureZero (buffer : Z) (length : nat) (h : heap) : option heap :=
  b ← h_live h !! buffer;
  b ← for_c (seq 0 length) b (fun i b => store b i [0]);
  Some (mk_heap (<[buffer := b]> (h_live h)) (h_freed h) (h_calls h)).

(** The new value of the member, and the heap. *)
Definition freeSecret (field : Z) (h : heap) : option (Z * heap) :=
  if field =? NULL then Some (field, h) else
  b ← h_live h !! field;
  n ← strlen b;
  h ← secureZero field n h;
  h ← free field h;
  Some (NULL, h).

Definition freeIaStrings (ia : ia_mem) (h : heap) : option (ia_mem * heap) :=
  h ← free (ia_apn ia) h;
  h ← free (ia_protocol ia) h;
  h ← free (ia_roamingProtocol ia) h;
  '(_, h) ← freeSecret (ia_username ia) h;
  '(_, h) ← freeSecret (ia_password ia) h;
  h ← free (ia_mvnoType ia) h;
  h ← free (ia_mvnoMatchData ia) h;
  Some (zero_ia, h).

Definition dupOrNull (src : Z) (ok : bool) (h : heap) : option (Z * bool * heap) :=
  if src =? NULL then Some (NULL, ok, h) else
  '(copy, h) ← strdup src h;
  Some (copy, (if copy =? NULL then false else ok), h).

Definition copyIa (src : ia_mem) (h : heap) : option (bool * ia_mem * heap) :=
  '(apn, ok, h) ← dupOrNull (ia_apn src) true h;
  '(protocol, ok, h) ← dupOrNull (ia_protocol src) ok h;
  '(roamingProtocol, ok, h) ← dupOrNull (ia_roamingProtocol src) ok h;
  '(username, ok, h) ← dupOrNull (ia_username src) ok h;
  '(password, ok, h) ← dupOrNull (ia_password src) ok h;
  '(mvnoType, ok, h) ← dupOrNull (ia_mvnoType src) ok h;
  '(mvnoMatchData, ok, h) ← dupOrNull (ia_mvnoMatchData src) ok h;
  let dst := mk_ia apn protocol roamingProtocol (ia_authtype src) username password
    (ia_supportedTypesBitmask src) (ia_bearerBitmask src) (ia_modemCognitive src)
    (ia_mtu src) mvnoType mvnoMatchData (ia_canHandleIms src) in
  if (ok : bool) then Some (true, dst, h) else
  '(dst, h) ← freeIaStrings dst h;
  Some (false, dst, h).

(** ** Specification *)

Definition valid_str (m : gmap Z (list Z)) (p : Z) : Prop :=
  p = NULL \/ exists b, m !! p = Some b /\ is_Some (cstr b).

(** The string a member stands for. *)
Definition str_at (m : gmap Z (list Z)) (p : Z) : option (list Z) :=
  if p =? NULL then None else b ← m !! p; cstr b.

Definition view (m : gmap Z (list Z)) (ia : ia_mem) : ia_value := ia_map (str_at m) ia.

Definition delete_ptr (p : Z) (m : gmap Z (list Z)) : gmap Z (list Z) :=
  if p =? NULL then m else delete p m.

Definition delete_ptrs (ps : list Z) (m : gmap Z (list Z)) : gmap Z (list Z) :=
  foldl (fun m p => delete_ptr p m) m ps.

(** Blocks a structure owns: live, exactly as long as their string, and no two
    members share one. *)
Definition nonnull (ps : list Z) : list Z := filter (fun p => p <> NULL) ps.

Definition owns (m : gmap Z (list Z)) (ps : list Z) : Prop :=
  NoDup (nonnull ps) /\
  Forall (fun p => p = NULL \/ exists s, Forall (fun c => c <> 0) s /\ m !! p = Some (s ++ [NUL])) ps.

Lemma owns_cons m p ps :
  owns m (p :: ps) -> owns (delete_ptr p m) ps /\
  (p = NULL \/ exists s, Forall (fun c => c <> 0) s /\ m !! p = Some (s ++ [NUL])).
Proof.
  intros [Hnd Hall]. apply Forall_cons in Hall as [Hp Hall]. split; [|done].
  unfold delete_ptr, nonnull in *. rewrite filter_cons in Hnd.
  destruct (Z.eqb_spec p NULL) as [->|Hne].
  - by rewrite decide_False in Hnd by tauto.
  - rewrite decide_True in Hnd by done. apply NoDup_cons in Hnd as [Hni Hnd].
    split; [done|]. rewrite Forall_forall in *. intros q Hq.
    destruct (Hall q Hq) as [ ->|(s & Hs & Hl)]; [by left|].
    destruct (decide (q = NULL)) as [->|Hq0]; [by left|]. right. exists s. split; [done|].
    rewrite lookup_delete_ne; [done|]. intros ->. apply Hni, list_elem_of_filter. done.
Qed.

(** The entries a sequence of releases adds to the log. *)
Lemma free_ok p ps h :
  owns (h_live h) (p :: ps) ->
  exists h', free p h = Some h' /\ h_live h' = delete_ptr p (h_live h) /\
    owns (h_live h') ps /\
    h_freed h' = (if p =? NULL then [] else [(p, default [] (h_live h !! p))]) ++ h_freed h.
Proof.
  intros Ho. destruct (owns_cons _ _ _ Ho) as [Hrest Hp]. unfold free, delete_ptr in *.
  destruct (Z.eqb_spec p NULL) as [->|Hne]; [by eexists|].
  destruct Hp as [?|(s & _ & Hl)]; [done|]. rewrite Hl. by eexists.
Qed.

Lemma secure_zero_block s :
  for_c (seq 0 (length s)) (s ++ [NUL]) (fun i b => store b i [0]) =
  Some (replicate (length s + 1) 0).
Proof.
  enough (Hgen : forall k i pre, length pre = i -> forall suf, length suf = k ->
    for_c (seq i k) (pre ++ suf ++ [NUL]) (fun i b => store b i [0]) =
    Some (pre ++ replicate k 0 ++ [NUL])).
  { pose proof (Hgen (length s) 0%nat [] eq_refl s eq_refl) as Hg. cbn [app] in Hg. rewrite Hg.
    change [NUL] with (replicate 1 0). by rewrite <- replicate_add. }
  induction k as [|k IH]; intros i pre Hpre suf Hsuf.
  { by destruct suf. }
  destruct suf as [|c suf]; [done|]. cbn [seq for_c].
  rewrite store_ok by (rewrite !length_app; simpl; lia). cbn [mbind option_bind].
  replace (overwrite (pre ++ (c :: suf) ++ [NUL]) i [0]) with ((pre ++ [0]) ++ suf ++ [NUL]).
  - rewrite IH; [|rewrite length_app; simpl; lia|simpl in Hsuf; lia].
    by rewrite <- app_assoc.
  - unfold overwrite. rewrite <- Hpre, take_app_length. cbn [length].
    rewrite drop_app_add. simpl. by rewrite <- app_assoc.
Qed.

Lemma free_secret_ok p ps h :
  owns (h_live h) (p :: ps) ->
  exists p' h', freeSecret p h = Some (p', h') /\ h_live h' = delete_ptr p (h_live h) /\
    owns (h_live h') ps /\
    exists b, Forall (fun c => c = 0) b /\
      h_freed h' = (if p =? NULL then [] else [(p, b)]) ++ h_freed h.
Proof.
  intros Ho. destruct (owns_cons _ _ _ Ho) as [Hrest Hp]. unfold freeSecret, delete_ptr in *.
  destruct (Z.eqb_spec p NULL) as [->|Hne].
  { eexists _, _. split_and!; [done..|]. exists []. done. }
  destruct Hp as [?|(s & Hs & Hl)]; [done|]. rewrite Hl. cbn [mbind option_bind].
  unfold strlen. rewrite (cstr_app s []) by done. cbn [fmap option_fmap option_map mbind option_bind].
  unfold secureZero. rewrite Hl. cbn [mbind option_bind].
  rewrite secure_zero_block. cbn [mbind option_bind]. unfold free.
  rewrite (proj2 (Z.eqb_neq p NULL)) by done. cbn [h_live]. rewrite lookup_insert_eq.
  cbn [mbind option_bind]. eexists _, _. split; [reflexivity|]. cbn [h_live h_freed].
  rewrite delete_insert_eq. split_and!; [done..|]. eexists. split; [|reflexivity].
  apply Forall_replicate_of. done.
Qed.

(** Releasing a structure. *)
Definition zeroed_secrets (ia : ia_mem) (log : list (Z * list Z)) : Prop :=
  Forall (fun e => e.1 ∈ ia_strings ia /\
    (e.1 ∈ [ia_username ia; ia_password ia] -> Forall (fun c => c = 0) e.2)) log.

Lemma nonnull_distinct ps q :
  NoDup (nonnull ps) -> q <> NULL -> forall i j, ps !! i = Some q -> ps !! j = Some q -> i = j.
Proof.
  intros Hnd Hq. induction ps as [|p ps IH]; intros i j Hi Hj; [done|].
  unfold nonnull in *. rewrite filter_cons in Hnd.
  assert (Htail : NoDup (filter (fun p => p <> NULL) ps)).
  { destruct (decide (p <> NULL)); [by apply NoDup_cons in Hnd as [_ ?]|done]. }
  assert (Hhead : p = q -> forall k, ps !! k <> Some q).
  { intros -> k Hk. rewrite decide_True in Hnd by done. apply NoDup_cons in Hnd as [Hni _].
    apply Hni, list_elem_of_filter. split; [done|]. by eapply list_elem_of_lookup_2. }
  destruct i as [|i], j as [|j]; simpl in Hi, Hj; simplify_eq; [done|..].
  - by destruct (Hhead eq_refl j).
  - by destruct (Hhead eq_refl i).
  - f_equal. by apply IH.
Qed.

Lemma free_ia_ok ia h :
  owns (h_live h) (ia_strings ia) ->
  exists h' log, freeIaStrings ia h = Some (zero_ia, h') /\
    h_live h' = delete_ptrs (ia_strings ia) (h_live h) /\
    h_freed h' = log ++ h_freed h /\ zeroed_secrets ia log.
Proof.
  intros Ho. pose proof (proj1 Ho) as Hnd. unfold freeIaStrings, ia_strings in *.
  destruct (free_ok _ _ _ Ho) as (h1 & -> & L1 & O1 & F1). cbn [mbind option_bind].
  destruct (free_ok _ _ _ O1) as (h2 & -> & L2 & O2 & F2). cbn [mbind option_bind].
  destruct (free_ok _ _ _ O2) as (h3 & -> & L3 & O3 & F3). cbn [mbind option_bind].
  destruct (free_secret_ok _ _ _ O3) as (? & h4 & -> & L4 & O4 & b4 & Z4 & F4). cbn [mbind option_bind].
  destruct (free_secret_ok _ _ _ O4) as (? & h5 & -> & L5 & O5 & b5 & Z5 & F5). cbn [mbind option_bind].
  destruct (free_ok _ _ _ O5) as (h6 & -> & L6 & O6 & F6). cbn [mbind option_bind].
  destruct (free_ok _ _ _ O6) as (h7 & -> & L7 & O7 & F7). cbn [mbind option_bind].
  exists h7. eexists. split; [reflexivity|]. split.
  { rewrite L7, L6, L5, L4, L3, L2, L1. done. }
  split.
  { rewrite F7, F6, F5, F4, F3, F2, F1, !app_assoc. reflexivity. }
  assert (Hother : forall i p b, ia_strings ia !! i = Some p -> i <> 3%nat -> i <> 4%nat ->
    Forall (fun e => e.1 ∈ ia_strings ia /\
      (e.1 ∈ [ia_username ia; ia_password ia] -> Forall (fun c => c = 0) e.2))
      (if p =? NULL then [] else [(p, b)])).
  { intros i p b Hi H3 H4. destruct (Z.eqb_spec p NULL) as [|Hp]; [constructor|].
    apply Forall_singleton. split; [by eapply list_elem_of_lookup_2|]. simpl. intros Hin. exfalso.
    rewrite !elem_of_cons in Hin. destruct Hin as [E|[E|E%not_elem_of_nil]]; [| |done].
    - apply H3. apply (nonnull_distinct _ p Hnd Hp i 3 Hi). by rewrite E.
    - apply H4. apply (nonnull_distinct _ p Hnd Hp i 4 Hi). by rewrite E. }
  assert (Hsecret : forall i p b, ia_strings ia !! i = Some p -> Forall (fun c => c = 0) b ->
    Forall (fun e => e.1 ∈ ia_strings ia /\
      (e.1 ∈ [ia_username ia; ia_password ia] -> Forall (fun c => c = 0) e.2))
      (if p =? NULL then [] else [(p, b)])).
  { intros i p b Hi Hz. destruct (p =? NULL); [constructor|].
    apply Forall_singleton. split; [by eapply list_elem_of_lookup_2|done]. }
  unfold zeroed_secrets. rewrite !Forall_app.
  split_and!; first [by eapply (Hsecret 4%nat) | by eapply (Hsecret 3%nat)
    | by eapply (Hother 6%nat) | by eapply (Hother 5%nat) | by eapply (Hother 2%nat)
    | by eapply (Hother 1%nat) | by eapply (Hother 0%nat)].
Qed.

Lemma lookup_delete_ptrs ps m k :
  delete_ptrs ps m !! k = if decide (k ∈ nonnull ps) then None else m !! k.
Proof.
  unfold delete_ptrs, nonnull. revert m. induction ps as [|p ps IH]; intros m; [done|].
  cbn [foldl]. rewrite IH, filter_cons. unfold delete_ptr.
  destruct (Z.eqb_spec p NULL) as [->|Hp]; [by rewrite (decide_False (P := 0 <> 0)) by tauto|].
  rewrite (decide_True (P := p <> NULL)) by done.
  destruct (decide (k ∈ filter _ ps)) as [Hin|Hni].
  - rewrite decide_True; [done|]. by right.
  - destruct (decide (k = p)) as [->|Hkp].
    + rewrite lookup_delete_eq, decide_True; [done|]. by left.
    + rewrite lookup_delete_ne, decide_False; [done| |done].
      rewrite elem_of_cons. tauto.
Qed.

(** ** Copying *)

(** [dsts] are the copies made so far of the strings [srcs] of the heap [base]. *)
Definition copied (base m : gmap Z (list Z)) (srcs dsts : list Z) (ok : bool) : Prop :=
  NoDup (nonnull dsts) /\
  (forall k, k ∉ nonnull dsts -> m !! k = base !! k) /\
  (forall k, k ∈ nonnull dsts -> base !! k = None) /\
  Forall2 (fun s d => d = NULL \/ exists str, str_at base s = Some str /\
             Forall (fun c => c <> 0) str /\ m !! d = Some (str ++ [NUL])) srcs dsts /\
  (ok = true -> Forall2 (fun s d => d = NULL <-> s = NULL) srcs dsts).

Lemma copied_nil base : copied base base [] [] true.
Proof. split_and!; try constructor; try done. intros k Hk. by apply not_elem_of_nil in Hk. Qed.

Lemma nonnull_snoc ps p : nonnull (ps ++ [p]) = nonnull ps ++ (if p =? NULL then [] else [p]).
Proof.
  unfold nonnull. rewrite filter_app, filter_cons. simpl.
  destruct (Z.eqb_spec p NULL) as [->|];
    [by rewrite decide_False by tauto|by rewrite decide_True by done].
Qed.

Lemma dup_ok base h srcs dsts ok s :
  copied base (h_live h) srcs dsts ok -> valid_str base s ->
  exists d ok' h', dupOrNull s ok h = Some (d, ok', h') /\ h_freed h' = h_freed h /\
    (ok' = true \/ ok = false \/ exists n m, malloc n m = None) /\
    copied base (h_live h') (srcs ++ [s]) (dsts ++ [d]) ok'.
Proof.
  intros (Hnd & Hsame & Hnew & Hcp & Hok) Hs. unfold dupOrNull.
  assert (Hnull : forall k, copied base (h_live h) (srcs ++ [s]) (dsts ++ [NULL]) k \/
                            ~ (k = true -> ok = true /\ s = NULL)).
  { intros k. destruct (decide (k = true -> ok = true /\ s = NULL)) as [Hk|]; [left|by right].
    unfold copied. rewrite nonnull_snoc. simpl. rewrite app_nil_r.
    split_and!; [done..| |].
    - apply Forall2_app; [done|]. repeat constructor.
    - intros E. destruct (Hk E). apply Forall2_app; [by apply Hok|]. by repeat constructor. }
  destruct (Z.eqb_spec s NULL) as [->|Hne].
  { eexists _, _, _. split_and!; [reflexivity|done|destruct ok; tauto|]. destruct (Hnull ok) as [?|Hn]; [done|].
    destruct Hn. done. }
  destruct Hs as [?|(b & Hb & [str Hstr])]; [done|].
  assert (Hlive : h_live h !! s = Some b).
  { rewrite Hsame; [done|]. intros Hin. apply Hnew in Hin. congruence. }
  unfold strdup. rewrite Hlive. cbn [mbind option_bind]. rewrite Hstr. cbn [mbind option_bind].
  destruct (malloc (h_calls h) (h_live h)) as [p|] eqn:Em; cbn [mbind option_bind].
  2: { eexists _, _, _. split_and!; [reflexivity|done|by right; right; eauto|]. simpl.
       destruct (Hnull false) as [?|Hn]; [done|]. by destruct Hn. }
  destruct (malloc_fresh _ _ _ Em) as [Hp Hfresh].
  rewrite (proj2 (Z.eqb_neq p NULL)) by done.
  eexists _, _, _. split_and!; [reflexivity|done|destruct ok; tauto|]. cbn [h_live].
  assert (Hpn : p ∉ nonnull dsts).
  { intros [_ Hin]%list_elem_of_filter. apply list_elem_of_lookup in Hin as [i Hi].
    destruct (Forall2_lookup_r _ _ _ _ _ Hcp Hi) as (s' & _ & [?|(str' & _ & _ & Hl)]); congruence. }
  unfold copied. rewrite nonnull_snoc, (proj2 (Z.eqb_neq p NULL)) by done. split_and!.
  - apply NoDup_app. split_and!; [done| |apply NoDup_singleton].
    intros x Hx Hx'. apply list_elem_of_singleton in Hx' as ->. done.
  - intros k Hk. rewrite elem_of_app, list_elem_of_singleton in Hk.
    rewrite lookup_insert_ne by (intros ->; tauto). apply Hsame. tauto.
  - intros k. rewrite elem_of_app, list_elem_of_singleton. intros [Hk| ->]; [by apply Hnew|].
    rewrite <- Hsame; done.
  - apply Forall2_app.
    + eapply Forall2_impl; [exact Hcp|]. intros s' d [ ->|(str' & ? & ? & Hl)]; [by left|].
      right. exists str'. split_and!; [done..|]. rewrite lookup_insert_ne; [done|]. intros ->. congruence.
    + constructor; [|constructor]. right. exists str. split_and!.
      * unfold str_at. rewrite (proj2 (Z.eqb_neq s NULL)) by done. by rewrite Hb.
      * by apply cstr_Some in Hstr as [? _].
      * by rewrite lookup_insert_eq.
  - intros E. apply Forall2_app; [by apply Hok|]. constructor; [|constructor]. tauto.
Qed.

Lemma copied_owns base m srcs dsts ok : copied base m srcs dsts ok -> owns m dsts.
Proof.
  intros (Hnd & _ & _ & Hcp & _). split; [done|]. apply Forall_forall. intros d Hd.
  apply list_elem_of_lookup in Hd as [i Hi].
  destruct (Forall2_lookup_r _ _ _ _ _ Hcp Hi) as (s & _ & [?|(str & _ & ? & ?)]); [by left|].
  right. by exists str.
Qed.

(** Releasing a partial copy restores the heap. *)
Lemma copied_undo base m srcs dsts ok :
  copied base m srcs dsts ok -> delete_ptrs dsts m = base.
Proof.
  intros (_ & Hsame & Hnew & _). apply map_eq. intros k. rewrite lookup_delete_ptrs.
  destruct (decide _) as [Hin|Hni]; [by rewrite Hnew|by apply Hsame].
Qed.

(** A finished copy stands for the same strings. *)
Lemma copied_str base m srcs dsts i s d :
  copied base m srcs dsts true -> srcs !! i = Some s -> dsts !! i = Some d ->
  str_at m d = str_at base s.
Proof.
  intros (_ & _ & _ & Hcp & Hok) Hs Hd. specialize (Hok eq_refl).
  pose proof (Forall2_lookup_lr _ _ _ _ _ _ Hok Hs Hd) as Hnull.
  unfold str_at at 1. destruct (Z.eqb_spec d NULL) as [E|E].
  - apply Hnull in E as ->. done.
  - destruct (Forall2_lookup_lr _ _ _ _ _ _ Hcp Hs Hd) as [?|(str & -> & Hnz & ->)]; [done|].
    cbn [mbind option_bind]. by apply cstr_app.
Qed.

(** The outcome of a copy, for the callers. *)
Lemma copy_ia_ok src h :
  Forall (valid_str (h_live h)) (ia_strings src) ->
  exists ok dst h' log, copyIa src h = Some (ok, dst, h') /\ h_freed h' = log ++ h_freed h /\
    if (ok : bool) then
      log = [] /\ view (h_live h') dst = view (h_live h) src /\
      copied (h_live h) (h_live h') (ia_strings src) (ia_strings dst) true
    else dst = zero_ia /\ h_live h' = h_live h /\ (exists part, zeroed_secrets part log) /\
         exists n m, malloc n m = None.
Proof.
  intros Hv. unfold ia_strings in Hv. rewrite !Forall_cons in Hv.
  destruct Hv as (V1 & V2 & V3 & V4 & V5 & V6 & V7 & _). unfold copyIa.
  pose proof (copied_nil (h_live h)) as C0.
  destruct (dup_ok _ _ _ _ _ _ C0 V1) as (d1 & k1 & h1 & -> & F1 & M1 & C1). cbn [mbind option_bind].
  destruct (dup_ok _ _ _ _ _ _ C1 V2) as (d2 & k2 & h2 & -> & F2 & M2 & C2). cbn [mbind option_bind].
  destruct (dup_ok _ _ _ _ _ _ C2 V3) as (d3 & k3 & h3 & -> & F3 & M3 & C3). cbn [mbind option_bind].
  destruct (dup_ok _ _ _ _ _ _ C3 V4) as (d4 & k4 & h4 & -> & F4 & M4 & C4). cbn [mbind option_bind].
  destruct (dup_ok _ _ _ _ _ _ C4 V5) as (d5 & k5 & h5 & -> & F5 & M5 & C5). cbn [mbind option_bind].
  destruct (dup_ok _ _ _ _ _ _ C5 V6) as (d6 & k6 & h6 & -> & F6 & M6 & C6). cbn [mbind option_bind].
  destruct (dup_ok _ _ _ _ _ _ C6 V7) as (d7 & k7 & h7 & -> & F7 & M7 & C7). cbn [mbind option_bind].
  set (dst := mk_ia d1 _ _ _ _ _ _ _ _ _ _ _ _).
  assert (Hfreed : h_freed h7 = h_freed h) by congruence.
  destruct k7.
  - exists true, dst, h7, []. split_and!; [done..| |done].
    unfold view, ia_map. simpl ia_apn; simpl ia_protocol.
    pose proof (fun i s d => copied_str _ _ _ _ i s d C7) as Hstr.
    f_equal; [apply (Hstr 0%nat)|apply (Hstr 1%nat)|apply (Hstr 2%nat)|apply (Hstr 3%nat)
             |apply (Hstr 4%nat)|apply (Hstr 5%nat)|apply (Hstr 6%nat)]; done.
  - destruct (free_ia_ok dst h7) as (h8 & log & -> & L8 & F8 & Z8);
      [by eapply copied_owns|]. cbn [mbind option_bind].
    exists false, zero_ia, h8, log. split_and!; [done|congruence|done| |by exists dst|].
    + rewrite L8. exact (copied_undo _ _ _ _ _ C7).
    + repeat match goal with
      | M : ?k = true \/ _ = false \/ _ |- _ => destruct M as [?|[?|?]]; subst; try done
      end.
Qed.

(** Copying the payload is safe and all or nothing, whatever allocations
    fail.  It never touches a dead block; on success every member of the copy is
    null exactly when the source member is and otherwise points to a fresh block
    with the same string (so an absent string never becomes an empty one), and no
    existing block changed; on failure the copy is all null, the heap is exactly
    what it was (nothing leaks), and any credential that had already been copied
    was zeroed before it was freed. *)
Theorem copyIa_spec src h :
  Forall (valid_str (h_live h)) (ia_strings src) ->
  exists ok dst h' log, copyIa src h = Some (ok, dst, h') /\ h_freed h' = log ++ h_freed h /\
    if (ok : bool) then
      log = [] /\ view (h_live h') dst = view (h_live h) src /\ owns (h_live h') (ia_strings dst) /\
      (forall k, k ∈ nonnull (ia_strings dst) -> h_live h !! k = None) /\
      (forall k, is_Some (h_live h !! k) -> h_live h' !! k = h_live h !! k)
    else dst = zero_ia /\ h_live h' = h_live h /\ exists part, zeroed_secrets part log.
Proof.
  intros Hv. destruct (copy_ia_ok src h Hv) as (ok & dst & h' & log & Hc & Hf & Hrest).
  exists ok, dst, h', log. split_and!; [done..|]. destruct ok; [|tauto].
  destruct Hrest as (Hl & Hview & Hcp). pose proof (copied_owns _ _ _ _ _ Hcp) as Ho.
  destruct Hcp as (_ & Hsame & Hnew & _). split_and!; [done..|].
  intros k [b Hb]. apply Hsame. intros Hin. apply Hnew in Hin. congruence.
Qed.

(** C12: Releasing a structure frees each of its blocks once and nothing else,
    never a dead one, and the username and password blocks hold only zeros when
    they are given back. *)
Theorem freeIaStrings_spec ia h :
  owns (h_live h) (ia_strings ia) ->
  exists h' log, freeIaStrings ia h = Some (zero_ia, h') /\
    (forall k, h_live h' !! k = if decide (k ∈ nonnull (ia_strings ia)) then None else h_live h !! k) /\
    h_freed h' = log ++ h_freed h /\ zeroed_secrets ia log.
Proof.
  intros Ho. destruct (free_ia_ok ia h Ho) as (h' & log & Hf & Hl & Hlog & Hz).
  exists h', log. split_and!; [done| |done..]. intros k. by rewrite Hl, lookup_delete_ptrs.
Qed.

(** ** The cache *)

Record ia_cache := mk_ia_cache {
  ic_cache : list ia_mem;
  ic_cached : list bool;
  ic_heap : heap;
}.

Definition cacheInitialAttachApn (socketId : Z) (data : option ia_mem) (datalen : Z)
    (st : ia_cache) : option ia_cache :=
  if (socketId <? 0) || (SIM_COUNT <=? socketId) then Some st else
  match data with
  | None => Some st
  | Some src =>
      if negb (datalen =? sizeof_MtkInitialAttachApn) then Some st else
      '(ok, fresh, h) ← copyIa src (ic_heap st);
      if negb ok then Some (mk_ia_cache (ic_cache st) (ic_cached st) h) else
      let i := Z.to_nat socketId in
      cached ← ic_cached st !! i;
      old ← ic_cache st !! i;
      '(_, h) ← (if (cached : bool) then freeIaStrings old h else Some (old, h));
      Some (mk_ia_cache (<[i := fresh]> (ic_cache st)) (<[i := true]> (ic_cached st)) h)
  end.

(** The pointers the cache owns. *)
Definition entry_ptrs (ia : ia_mem) (cached : bool) : list Z :=
  if cached then ia_strings ia else [].

Definition cache_ptrs (st : ia_cache) : list Z :=
  mjoin (zip_with entry_ptrs (ic_cache st) (ic_cached st)).

Definition cache_inv (st : ia_cache) : Prop :=
  length (ic_cache st) = 2%nat /\ length (ic_cached st) = 2%nat /\
  owns (h_live (ic_heap st)) (cache_ptrs st).

(** What the cache holds for a socket. *)
Definition cached_value (st : ia_cache) (i : nat) : option ia_value :=
  cached ← ic_cached st !! i;
  if (cached : bool) then view (h_live (ic_heap st)) <$> ic_cache st !! i else None.

Lemma nonnull_app ps qs : nonnull (ps ++ qs) = nonnull ps ++ nonnull qs.
Proof. apply filter_app. Qed.

Lemma owns_app m ps qs :
  owns m (ps ++ qs) <->
  owns m ps /\ owns m qs /\ (forall k, k ∈ nonnull ps -> k ∉ nonnull qs).
Proof.
  unfold owns. rewrite nonnull_app, NoDup_app, Forall_app. tauto.
Qed.

Lemma owns_same m m' ps :
  (forall k, k ∈ nonnull ps -> m' !! k = m !! k) -> owns m ps -> owns m' ps.
Proof.
  intros Hsame [Hnd Hall]. split; [done|]. rewrite Forall_forall in *. intros p Hp.
  destruct (Hall p Hp) as [->|(s & Hs & Hl)]; [by left|].
  destruct (decide (p = NULL)) as [->|Hne]; [by left|]. right. exists s. split; [done|].
  rewrite Hsame; [done|]. apply list_elem_of_filter. done.
Qed.

Lemma view_same m m' ia :
  (forall k, k ∈ nonnull (ia_strings ia) -> m' !! k = m !! k) -> view m' ia = view m ia.
Proof.
  intros Hsame. assert (Hs : forall p, p ∈ ia_strings ia -> str_at m' p = str_at m p).
  { intros p Hp. unfold str_at. destruct (Z.eqb_spec p NULL); [done|].
    rewrite Hsame; [done|]. by apply list_elem_of_filter. }
  unfold view, ia_map. f_equal; apply Hs; unfold ia_strings; in_list.
Qed.

Lemma owns_live m ps k : owns m ps -> k ∈ nonnull ps -> is_Some (m !! k).
Proof.
  intros [_ Hall] [Hne Hin]%list_elem_of_filter. rewrite Forall_forall in Hall.
  destruct (Hall k Hin) as [?|(s & _ & ->)]; [done|]. by eexists.
Qed.

(** Replacing the blocks [old] by a fresh copy, next to blocks [other]. *)
Lemma replace_owned m m1 old other srcs dsts :
  owns m old -> owns m other -> (forall k, k ∈ nonnull old -> k ∉ nonnull other) ->
  copied m m1 srcs dsts true ->
  let m2 := delete_ptrs old m1 in
  owns m1 old /\ owns m2 dsts /\ owns m2 other /\
  (forall k, k ∈ nonnull dsts -> k ∉ nonnull other) /\
  (forall k, k ∉ nonnull old -> k ∉ nonnull dsts -> m2 !! k = m !! k) /\
  (forall k, k ∈ nonnull old -> m2 !! k = None) /\
  (forall k, k ∈ nonnull dsts -> m2 !! k = m1 !! k).
Proof.
  intros Hold Hother Hdis Hcp m2. pose proof (copied_owns _ _ _ _ _ Hcp) as Hd.
  destruct Hcp as (_ & Hsame & Hnew & _).
  assert (Hfresh : forall ps k, owns m ps -> k ∈ nonnull ps -> k ∉ nonnull dsts).
  { intros ps k Ho Hk Hin. apply Hnew in Hin. destruct (owns_live _ _ _ Ho Hk). congruence. }
  assert (Hm2 : forall k, m2 !! k = if decide (k ∈ nonnull old) then None else m1 !! k).
  { intros k. apply lookup_delete_ptrs. }
  split_and!.
  - eapply owns_same; [|exact Hold]. intros k Hk. apply Hsame. exact (Hfresh old k Hold Hk).
  - eapply owns_same; [|exact Hd]. intros k Hk. rewrite Hm2, decide_False; [done|].
    intros Ho. exact (Hfresh old k Hold Ho Hk).
  - eapply owns_same; [|exact Hother]. intros k Hk. rewrite Hm2, decide_False.
    + apply Hsame. exact (Hfresh other k Hother Hk).
    + intros Ho. exact (Hdis k Ho Hk).
  - intros k Hk Ho. exact (Hfresh other k Hother Ho Hk).
  - intros k Ho Hk. rewrite Hm2, decide_False by done. by apply Hsame.
  - intros k Ho. by rewrite Hm2, decide_True.
  - intros k Hk. rewrite Hm2, decide_False; [done|]. intros Ho. exact (Hfresh old k Hold Ho Hk).
Qed.

Lemma entry_release old cached h :
  owns (h_live h) (entry_ptrs old cached) ->
  exists ia h', (if cached then freeIaStrings old h else Some (old, h)) = Some (ia, h') /\
    h_live h' = delete_ptrs (entry_ptrs old cached) (h_live h).
Proof.
  intros Ho. destruct cached; [|by eexists _, _].
  destruct (free_ia_ok old h Ho) as (h' & _ & -> & Hl & _). by eexists _, _.
Qed.

(** The entry of the socket and that of the other one. *)
Lemma cache_entries st i :
  cache_inv st -> (i < 2)%nat ->
  exists old c other oc, ic_cache st !! i = Some old /\ ic_cached st !! i = Some c /\
    ic_cache st !! (1 - i)%nat = Some other /\ ic_cached st !! (1 - i)%nat = Some oc /\
    owns (h_live (ic_heap st)) (entry_ptrs old c) /\ owns (h_live (ic_heap st)) (entry_ptrs other oc) /\
    (forall k, k ∈ nonnull (entry_ptrs old c) -> k ∉ nonnull (entry_ptrs other oc)) /\
    (forall k, k ∈ nonnull (cache_ptrs st) <->
               k ∈ nonnull (entry_ptrs old c) \/ k ∈ nonnull (entry_ptrs other oc)).
Proof.
  intros (Hl & Hcl & Ho) Hi. destruct st as [cache cached h]; simpl in *.
  destruct cache as [|a [|b [|]]], cached as [|x [|y [|]]]; try done.
  unfold cache_ptrs in *. simpl in *. rewrite app_nil_r in *.
  apply owns_app in Ho as (O1 & O2 & Hd). setoid_rewrite nonnull_app. setoid_rewrite elem_of_app.
  destruct i as [|[|i]]; [| |lia]; simpl.
  - exists a, x, b, y. split_and!; done.
  - exists b, y, a, x. split_and!; try done; [|tauto]. intros k Hk Hk'. by apply (Hd k).
Qed.

Lemma cache_ptrs_insert cache cached h i fresh other oc :
  length cache = 2%nat -> length cached = 2%nat -> (i < 2)%nat ->
  cache !! (1 - i)%nat = Some other -> cached !! (1 - i)%nat = Some oc ->
  let st := mk_ia_cache (<[i := fresh]> cache) (<[i := true]> cached) h in
  Permutation (cache_ptrs st) (ia_strings fresh ++ entry_ptrs other oc).
Proof.
  intros Hl Hcl Hi Ho Hoc st. unfold st, cache_ptrs. cbn [ic_cache ic_cached].
  destruct cache as [|a [|b [|]]], cached as [|x [|y [|]]]; try done.
  destruct i as [|[|i]]; [| |lia]; simpl in Ho, Hoc; simplify_eq.
  - change (Permutation (ia_strings fresh ++ entry_ptrs other oc ++ [])
              (ia_strings fresh ++ entry_ptrs other oc)). by rewrite app_nil_r.
  - change (Permutation (entry_ptrs other oc ++ ia_strings fresh ++ [])
              (ia_strings fresh ++ entry_ptrs other oc)). rewrite app_nil_r.
    apply Permutation_app_comm.
Qed.

Lemma owns_perm m ps qs : Permutation ps qs -> owns m ps -> owns m qs.
Proof.
  intros HP [Hnd Hall]. split; [|by rewrite <- HP].
  unfold nonnull in *. eapply NoDup_Permutation_proper; [|exact Hnd]. by rewrite HP.
Qed.

Lemma cache_apn_ok socketId data datalen st :
  cache_inv st ->
  match data with Some src => Forall (valid_str (h_live (ic_heap st))) (ia_strings src) | None => True end ->
  exists st' stored, cacheInitialAttachApn socketId data datalen st = Some st' /\ cache_inv st' /\
    (forall i, cached_value st' i =
       if (stored : bool) && bool_decide (i = Z.to_nat socketId)
       then view (h_live (ic_heap st)) <$> data else cached_value st i) /\
    (0 <= socketId < SIM_COUNT -> is_Some data -> datalen = 88 ->
     (forall n m, malloc n m <> None) -> stored = true) /\
    (forall k, k ∉ nonnull (cache_ptrs st) -> k ∉ nonnull (cache_ptrs st') ->
       h_live (ic_heap st') !! k = h_live (ic_heap st) !! k) /\
    (forall k, k ∈ nonnull (cache_ptrs st) -> k ∉ nonnull (cache_ptrs st') ->
       h_live (ic_heap st') !! k = None).
Proof.
  intros Hinv Hdata. unfold cacheInitialAttachApn, SIM_COUNT, sizeof_MtkInitialAttachApn.
  destruct (_ || _)%bool eqn:E1; [exists st, false; split_and!; try done; lia|].
  destruct data as [src|]; [|exists st, false; split_and!; try done; by intros _ [? ?]].
  destruct (Z.eqb_spec datalen 0x58) as [->|]; cbn [negb];
    [|exists st, false; split_and!; try done; lia].
  destruct (copy_ia_ok src (ic_heap st) Hdata) as (ok & fresh & h & log & -> & _ & Hok).
  cbn [mbind option_bind]. destruct ok; cbn [negb].
  2: { destruct Hok as (_ & Hl & _ & n & m & Hm).
       eexists _, false. split_and!; [reflexivity| | | | |]; simpl.
       - destruct Hinv as (? & ? & ?). split_and!; simpl; [done..|]. by rewrite Hl.
       - intros i. unfold cached_value. simpl. by rewrite Hl.
       - intros _ _ _ Hn. by destruct (Hn n m).
       - intros k _ _. by rewrite Hl.
       - intros k Hk Hk'. done. }
  destruct Hok as (_ & Hview & Hcp). set (i := Z.to_nat socketId).
  assert (Hi : (i < 2)%nat) by (unfold i; lia).
  destruct (cache_entries st i Hinv Hi) as (old & c & other & oc & Hold & Hc & Hoth & Hoc & Oold & Ooth & Hdis & Hptrs).
  rewrite Hc, Hold. cbn [mbind option_bind].
  destruct (replace_owned _ _ _ _ _ _ Oold Ooth Hdis Hcp) as (R1 & R2 & R3 & R4 & R5 & R6 & R7).
  destruct (entry_release old c h R1) as (ia & h' & -> & Hl'). cbn [mbind option_bind].
  rewrite <- Hl' in *. destruct Hinv as (Hlen & Hclen & Ho).
  pose proof (cache_ptrs_insert _ _ h' i fresh other oc Hlen Hclen Hi Hoth Hoc) as HP. cbv zeta in HP.
  eexists _, true. split; [reflexivity|]. set (st' := mk_ia_cache _ _ _) in *.
  assert (Hnn : forall k, k ∈ nonnull (cache_ptrs st') <->
    k ∈ nonnull (ia_strings fresh) \/ k ∈ nonnull (entry_ptrs other oc)).
  { intros k. unfold nonnull. rewrite HP, filter_app. apply elem_of_app. }
  split_and!; try done.
  - split_and!; simpl; [by rewrite length_insert..|]. eapply owns_perm; [symmetry; exact HP|].
    apply owns_app. done.
  - intros j. unfold cached_value. simpl.
    destruct (decide (j = i)) as [->|Hne].
    + rewrite bool_decide_true, !list_lookup_insert_eq by (done || lia). cbn [mbind option_bind andb].
      simpl. f_equal. rewrite <- Hview. by apply view_same.
    + rewrite bool_decide_false, !list_lookup_insert_ne by done. cbn [andb].
      destruct (decide (j = 1 - i)%nat) as [->|].
      * rewrite Hoc, Hoth. cbn [mbind option_bind]. destruct oc; [|done]. simpl. f_equal.
        apply view_same. intros k Hk. apply R5; [|intros Hd; by apply (R4 k)].
        intros Hk'. by apply (Hdis k).
      * assert (Hnone : ic_cached st !! j = None) by (apply lookup_ge_None; lia). by rewrite Hnone.
  - intros k Hk Hk'. rewrite Hptrs in Hk. rewrite Hnn in Hk'. apply R5; tauto.
  - intros k Hk Hk'. rewrite Hptrs in Hk. rewrite Hnn in Hk'. apply R6. tauto.
Qed.
(** Caching a payload keeps the ownership invariant and never leaks or uses
    dead memory.  A request that is stored leaves the cache of its socket
    standing for the caller's strings and the other socket's cache as it was; one
    that is not (a bad socket, a null or wrong-sized payload, memory exhausted)
    leaves both caches as they were; a well-formed request is stored when memory
    suffices.  Blocks the cache does not own are never changed, every block that
    stopped being cached is freed, and every new block is owned. *)
Theorem cacheInitialAttachApn_spec socketId data datalen st :
  cache_inv st ->
  match data with Some src => Forall (valid_str (h_live (ic_heap st))) (ia_strings src) | None => True end ->
  exists st' stored, cacheInitialAttachApn socketId data datalen st = Some st' /\ cache_inv st' /\
    (forall i, cached_value st' i =
       if (stored : bool) && bool_decide (i = Z.to_nat socketId)
       then view (h_live (ic_heap st)) <$> data else cached_value st i) /\
    (0 <= socketId < SIM_COUNT -> is_Some data -> datalen = 88 ->
     (forall n m, malloc n m <> None) -> stored = true) /\
    (forall k, k ∉ nonnull (cache_ptrs st) -> k ∉ nonnull (cache_ptrs st') ->
       h_live (ic_heap st') !! k = h_live (ic_heap st) !! k) /\
    (forall k, k ∈ nonnull (cache_ptrs st) -> k ∉ nonnull (cache_ptrs st') ->
       h_live (ic_heap st') !! k = None).
Proof. apply cache_apn_ok. Qed.
End Memory.

(** ** An allocator, and the theorems at a concrete payload *)

#[global] Program Instance fresh_allocator : Allocator := {|
  malloc n m := Some (fresh (dom m ∪ {[NULL]}));
|}.
Next Obligation.
  intros n m p [= <-]. pose proof (is_fresh (dom m ∪ {[0]})) as Hf.
  rewrite elem_of_union, elem_of_singleton in Hf. split; [tauto|].
  apply not_elem_of_dom. tauto.
Qed.

(** A payload with an APN, an empty protocol string, a password, and null for
    the rest. *)
Definition sample_heap : heap :=
  mk_heap (<[16 := lit "internet" ++ [NUL]]> (<[32 := [NUL]]> (<[48 := lit "pw" ++ [NUL]]> ∅))) [] 0.

Definition sample_ia : ia_mem := mk_ia 16 32 0 3 0 48 0x11 0 0 1500 0 0 0.

Lemma sample_ia_valid : Forall (valid_str (h_live sample_heap)) (ia_strings sample_ia).
Proof.
  unfold ia_strings. rewrite !Forall_cons. split_and!;
    first [by left | by apply Forall_nil | right; eexists; split; [reflexivity|by eexists]].
Qed.

Lemma copyIa_spec_witness :
  exists ok dst h' log, copyIa sample_ia sample_heap = Some (ok, dst, h') /\
    h_freed h' = log ++ h_freed sample_heap /\
    if (ok : bool) then
      log = [] /\ view (h_live h') dst = view (h_live sample_heap) sample_ia /\
      owns (h_live h') (ia_strings dst) /\
      (forall k, k ∈ nonnull (ia_strings dst) -> h_live sample_heap !! k = None) /\
      (forall k, is_Some (h_live sample_heap !! k) -> h_live h' !! k = h_live sample_heap !! k)
    else dst = zero_ia /\ h_live h' = h_live sample_heap /\ exists part, zeroed_secrets part log.
Proof. apply copyIa_spec. exact sample_ia_valid. Defined.

Lemma sample_ia_owned : owns (h_live sample_heap) (ia_strings sample_ia).
Proof.
  split; [by apply (bool_decide_unpack (NoDup [16; 32; 48]))|].
  unfold ia_strings. rewrite !Forall_cons. split_and!; first [by left | by apply Forall_nil | right].
  - exists (lit "internet"). split; [by repeat constructor|done].
  - exists []. split; [by repeat constructor|done].
  - exists (lit "pw"). split; [by repeat constructor|done].
Qed.

Lemma freeIaStrings_spec_witness :
  exists h' log, freeIaStrings sample_ia sample_heap = Some (zero_ia, h') /\
    (forall k, h_live h' !! k =
       if decide (k ∈ nonnull (ia_strings sample_ia)) then None else h_live sample_heap !! k) /\
    h_freed h' = log ++ h_freed sample_heap /\ zeroed_secrets sample_ia log.
Proof. apply freeIaStrings_spec. exact sample_ia_owned. Defined.

Definition empty_cache : ia_cache :=
  mk_ia_cache [zero_ia; zero_ia] [false; false] sample_heap.

Lemma cacheInitialAttachApn_spec_witness :
  exists st', cacheInitialAttachApn 0 (Some sample_ia) 88 empty_cache = Some st' /\
    cached_value st' 0 = Some (view (h_live sample_heap) sample_ia) /\ cached_value st' 1 = None.
Proof.
  destruct (cacheInitialAttachApn_spec 0 (Some sample_ia) 88 empty_cache)
    as (st' & stored & Hst & _ & Hval & Hstored & _).
  - split_and!; [done..|]. split; [apply NoDup_nil_2|constructor].
  - exact sample_ia_valid.
  - exists st'. split; [done|].
    rewrite (Hstored ltac:(unfold SIM_COUNT; lia) ltac:(by eexists) eq_refl ltac:(done)) in Hval.
    split; [exact (Hval 0%nat)|exact (Hval 1%nat)].
Defined.
