(* ===== verification/RilAttachApn.v ===== *)
(** * Re-sending the attach APN (ril-shim/k50sv1_ril_shim.c, part 2)

    The two GOT hooks and the worker thread, over the values of the cached
    payloads (RilAttachHeap shows that the heap implements them).  Every critical
    section under [sIaLock] is one function on the shared state: the hooks'
    sections, and for the worker the stretch from taking the lock (or waking up in
    a condition wait) to the next wait, sleep or unlocked call.  [step]
    interleaves them with the framework, the vendor library and a monotonic clock
    that may fail.  The theorems are about all reachable states. *)

From S2P Require Import Prelude CMem RilHeader RilIaMem.

(** ** Constants and time *)

Definition RIL_UNSOL_RESET_ATTACH_APN : Z := 3020.
Definition REISSUE_MIN_INTERVAL_NS : Z := 1000 * 1000 * 1000.
Definition REISSUE_INFLIGHT_TIMEOUT_NS : Z := 10 * 1000 * 1000 * 1000.
Definition REISSUE_TOKEN_SLOTS : nat := 16.

Record timespec := mk_ts { tv_sec : Z; tv_nsec : Z }.

Definition timespecToNs (time : timespec) : Z := tv_sec time * 1000000000 + tv_nsec time.

Definition nsToTimespec (ns : Z) : timespec :=
  mk_ts (Z.quot ns 1000000000) (Z.rem ns 1000000000).

(** ** State *)

Inductive IaHookState :=
  | IA_HOOKS_DISABLED | IA_HOOKS_INSTALLING | IA_HOOKS_ACTIVE | IA_HOOKS_FAILED.

#[global] Instance IaHookState_eq_dec : EqDecision IaHookState.
Proof. solve_decision. Defined.

(** The atomics the hooks read: the state, and the published originals (null
    before publication). *)
Record hook_env := mk_hooks {
  sIaHookState : IaHookState;
  sRealOnUnsol : Z;
  sRealOnComplete : Z;
}.

(** Everything [sIaLock] protects, over the type of a cached payload: its value here,
    its pointers in RilAttachHeap. *)
Record ia_shared (P : Type) := mk_ia_state {
  sIaCache : list P;
  sIaCached : list bool;
  sIaPending : list bool;
  sIaRequestInFlight : bool;
  sIaInFlightDeadlineNs : Z;
  sIaLastIssueValid : bool;
  sIaLastIssue : timespec;
  sIaNextSocket : nat;
  sIaCurrentTokenIndex : nat;
  sIaTokenOutstanding : list bool;
}.
Arguments mk_ia_state {P}.
Arguments sIaCache {P}.
Arguments sIaCached {P}.
Arguments sIaPending {P}.
Arguments sIaRequestInFlight {P}.
Arguments sIaInFlightDeadlineNs {P}.
Arguments sIaLastIssueValid {P}.
Arguments sIaLastIssue {P}.
Arguments sIaNextSocket {P}.
Arguments sIaCurrentTokenIndex {P}.
Arguments sIaTokenOutstanding {P}.

Abbreviation ia_state := (ia_shared ia_value).

Definition null_ia : ia_value := ia_map (fun _ => None) zero_ia.

Definition ia_init : ia_state :=
  mk_ia_state [null_ia; null_ia] [false; false] [false; false] false 0 false (mk_ts 0 0) 0 0
    (replicate REISSUE_TOKEN_SLOTS false).

Definition flag (l : list bool) (i : nat) : bool := default false (l !! i).

Definition set_pending {P} (i : nat) (b : bool) (st : ia_shared P) : ia_shared P :=
  mk_ia_state (sIaCache st) (sIaCached st) (<[i := b]> (sIaPending st)) (sIaRequestInFlight st)
    (sIaInFlightDeadlineNs st) (sIaLastIssueValid st) (sIaLastIssue st) (sIaNextSocket st)
    (sIaCurrentTokenIndex st) (sIaTokenOutstanding st).

Definition set_cached {P} (i : nat) (ia : P) (st : ia_shared P) : ia_shared P :=
  mk_ia_state (<[i := ia]> (sIaCache st)) (<[i := true]> (sIaCached st)) (sIaPending st)
    (sIaRequestInFlight st) (sIaInFlightDeadlineNs st) (sIaLastIssueValid st) (sIaLastIssue st)
    (sIaNextSocket st) (sIaCurrentTokenIndex st) (sIaTokenOutstanding st).

Definition set_flight {P} (b : bool) (deadline : Z) (st : ia_shared P) : ia_shared P :=
  mk_ia_state (sIaCache st) (sIaCached st) (sIaPending st) b deadline (sIaLastIssueValid st)
    (sIaLastIssue st) (sIaNextSocket st) (sIaCurrentTokenIndex st) (sIaTokenOutstanding st).

Definition set_outstanding {P} (i : nat) (b : bool) (st : ia_shared P) : ia_shared P :=
  mk_ia_state (sIaCache st) (sIaCached st) (sIaPending st) (sIaRequestInFlight st)
    (sIaInFlightDeadlineNs st) (sIaLastIssueValid st) (sIaLastIssue st) (sIaNextSocket st)
    (sIaCurrentTokenIndex st) (<[i := b]> (sIaTokenOutstanding st)).

Definition set_current {P} (i : nat) (st : ia_shared P) : ia_shared P :=
  mk_ia_state (sIaCache st) (sIaCached st) (sIaPending st) (sIaRequestInFlight st)
    (sIaInFlightDeadlineNs st) (sIaLastIssueValid st) (sIaLastIssue st) (sIaNextSocket st)
    i (sIaTokenOutstanding st).

Definition set_next {P} (i : nat) (st : ia_shared P) : ia_shared P :=
  mk_ia_state (sIaCache st) (sIaCached st) (sIaPending st) (sIaRequestInFlight st)
    (sIaInFlightDeadlineNs st) (sIaLastIssueValid st) (sIaLastIssue st) i
    (sIaCurrentTokenIndex st) (sIaTokenOutstanding st).

(** [if (clock_gettime(.., &sIaLastIssue) == 0) valid = true else valid = false] *)
Definition charge {P} (clock : option timespec) (st : ia_shared P) : ia_shared P :=
  mk_ia_state (sIaCache st) (sIaCached st) (sIaPending st) (sIaRequestInFlight st)
    (sIaInFlightDeadlineNs st) (bool_decide (is_Some clock)) (default (sIaLastIssue st) clock)
    (sIaNextSocket st) (sIaCurrentTokenIndex st) (sIaTokenOutstanding st).

(** Where the worker is between two critical sections. *)
Inductive worker_at (P : Type) :=
  | WHead
  | WWait
  | WTimedWait
  | WSleepUntil (deadlineNs : Z)
  | WSleepRelative
  | WRequest (token socketId : nat) (outgoing : P).
Arguments WHead {P}.
Arguments WWait {P}.
Arguments WTimedWait {P}.
Arguments WSleepUntil {P}.
Arguments WSleepRelative {P}.
Arguments WRequest {P}.

Abbreviation worker_pc := (worker_at ia_value).

Section Worker.
Context `{RilHeader}.

(** The address of [sReissueTokens], 64 bytes per element. *)
Context (sReissueTokens : Z).

Definition REISSUE_TOKEN_AT (i : nat) : RIL_Token :=
  sReissueTokens + 64 * Z.of_nat (i mod REISSUE_TOKEN_SLOTS).

Definition isReissueToken (t : RIL_Token) : bool :=
  existsb (fun i => t =? sReissueTokens + 64 * Z.of_nat i) (seq 0 REISSUE_TOKEN_SLOTS).

Definition token_index (t : RIL_Token) : nat := Z.to_nat (Z.quot (t - sReissueTokens) 64).

(** Calls out of the shim: the two originals, and the vendor's [onRequest].  The
    pointers and lengths passed through are opaque. *)
Inductive ia_event :=
  | RealComplete (t : RIL_Token) (e response responselen : Z)
  | RealUnsol (unsolResponse data datalen socketId : Z)
  | RealRequest (request : Z) (data : ia_value) (datalen : Z) (t : RIL_Token) (socketId : Z).

(** ** The hooks *)

Definition attachApnHooksActive (hk : hook_env) : bool :=
  bool_decide (sIaHookState hk = IA_HOOKS_ACTIVE).

(** Calls made, whether the condition variable was signalled, the new state. *)
Definition completeHook {P} (t : RIL_Token) (e response responselen : Z) (hk : hook_env)
    (st : ia_shared P) : list ia_event * bool * ia_shared P :=
  if isReissueToken t then
    let index := token_index t in
    let outstanding := flag (sIaTokenOutstanding st) index in
    let current := outstanding && sIaRequestInFlight st &&
                   (index =? sIaCurrentTokenIndex st)%nat in
    let st := set_outstanding index false st in
    if current then ([], true, set_flight false 0 st) else ([], false, st)
  else if sRealOnComplete hk =? NULL then ([], false, st)
  else ([RealComplete t e response responselen], false, st).

Definition unsolHook {P} (unsolResponse data datalen socketId : Z) (hk : hook_env)
    (st : ia_shared P) : list ia_event * bool * ia_shared P :=
  let '(signal, st) :=
    if attachApnHooksActive hk && (unsolResponse =? RIL_UNSOL_RESET_ATTACH_APN) &&
       (0 <=? socketId) && (socketId <? SIM_COUNT)
    then
      if flag (sIaCached st) (Z.to_nat socketId)
      then (true, set_pending (Z.to_nat socketId) true st) else (false, st)
    else (false, st) in
  if sRealOnUnsol hk =? NULL then ([], signal, st)
  else ([RealUnsol unsolResponse data datalen socketId], signal, st).

(** The value-level effect of [cacheInitialAttachApn] when it stores. *)
Definition cacheValue (socketId : nat) (ia : ia_value) (st : ia_state) : ia_state :=
  set_cached socketId ia st.

(** ** The worker *)

(** What a section may learn from outside: its up to three clock readings in
    order, and whether the copy of the payload finds memory. *)
Record section_env := mk_env {
  e_now : option timespec;
  e_issued : option timespec;
  e_last : option timespec;
  e_copy : bool;
}.

Definition pick_socket {P} (st : ia_shared P) : option nat :=
  List.find (fun i => flag (sIaPending st) i && flag (sIaCached st) i)
    (map (fun offset => (sIaNextSocket st + offset) mod Z.to_nat SIM_COUNT)%nat
       (seq 0 (Z.to_nat SIM_COUNT))).

Definition pick_token {P} (st : ia_shared P) : option nat :=
  List.find (fun i => negb (flag (sIaTokenOutstanding st) i))
    (map (fun offset => (sIaCurrentTokenIndex st + offset) mod REISSUE_TOKEN_SLOTS)%nat
       (seq 1 REISSUE_TOKEN_SLOTS)).

(** The end of the section once a socket is due: token, copy, bookkeeping.  The
    last component is the attempt charged to the rate limiter. *)
Definition issue (socketId : nat) (env : section_env) (st : ia_state)
    : worker_pc * ia_state * option (option timespec) :=
  match pick_token st with
  | None => (WHead, charge (e_last env) (set_pending socketId false st), Some (e_last env))
  | Some tokenIndex =>
      if negb (e_copy env) then (WHead, charge (e_last env) st, Some (e_last env)) else
      let outgoing := default null_ia (sIaCache st !! socketId) in
      let deadline := match e_issued env with
                      | Some issuedAt => timespecToNs issuedAt + REISSUE_INFLIGHT_TIMEOUT_NS
                      | None => 0
                      end in
      let st := set_pending socketId false st in
      let st := set_flight true deadline st in
      let st := set_current tokenIndex st in
      let st := set_outstanding tokenIndex true st in
      let st := set_next ((socketId + 1) mod Z.to_nat SIM_COUNT) st in
      (WRequest tokenIndex socketId outgoing, charge (e_last env) st, Some (e_last env))
  end.

(** The inner loop with no request in flight. *)
Definition loop_free (env : section_env) (st : ia_state)
    : worker_pc * ia_state * option (option timespec) :=
  match pick_socket st with
  | None => (WWait, st, None)
  | Some socketId =>
      match e_now env with
      | None => (WSleepRelative, st, None)
      | Some now =>
          let waitUntilNs :=
            if sIaLastIssueValid st then
              let earliest := timespecToNs (sIaLastIssue st) + REISSUE_MIN_INTERVAL_NS in
              if timespecToNs now <? earliest then earliest else 0
            else 0 in
          if negb (waitUntilNs =? 0) then (WSleepUntil waitUntilNs, st, None)
          else issue socketId env st
      end
  end.

(** The head of the inner loop: an in-flight slot without deadline is released
    and the loop continues without it. *)
Definition loop_head (env : section_env) (st : ia_state)
    : worker_pc * ia_state * option (option timespec) :=
  if sIaRequestInFlight st then
    if sIaInFlightDeadlineNs st =? 0
    then loop_free env (set_flight false (sIaInFlightDeadlineNs st) st)
    else (WTimedWait, st, None)
  else loop_free env st.

(** After [pthread_cond_timedwait] returns, for whatever reason; [afterWait] is
    the clock reading the expiry test uses. *)
Definition after_timedwait (afterWait : option timespec) (env : section_env) (st : ia_state)
    : worker_pc * ia_state * option (option timespec) :=
  if negb (sIaRequestInFlight st) then loop_head env st else
  match afterWait with
  | None => loop_head env (set_flight false 0 st)
  | Some now =>
      if sIaInFlightDeadlineNs st <=? timespecToNs now
      then loop_head env (set_flight false 0 st) else loop_head env st
  end.

(** The unlocked call into the vendor library. *)
Definition send_request (token socketId : nat) (outgoing : ia_value) : ia_event :=
  RealRequest RIL_REQUEST_SET_INITIAL_ATTACH_APN outgoing sizeof_MtkInitialAttachApn
    (REISSUE_TOKEN_AT token) (Z.of_nat socketId).

(** ** The system *)

(** [s_vendor]: the tokens of the shim the vendor holds; [s_woken]: a signal has
    reached the waiting worker; [s_clock]: the latest clock reading;
    [s_attempts]: the attempts charged so far, latest first. *)
Record sys := mk_sys {
  s_hooks : hook_env;
  s_ia : ia_state;
  s_pc : worker_pc;
  s_woken : bool;
  s_vendor : list bool;
  s_clock : Z;
  s_attempts : list (option Z);
  s_trace : list ia_event;
}.

(** Readings are made in order and the clock never goes back. *)
Fixpoint clock_ok (lo : Z) (readings : list (option timespec)) (hi : Z) : Prop :=
  match readings with
  | [] => lo = hi
  | None :: rs => clock_ok lo rs hi
  | Some t :: rs => lo <= timespecToNs t /\ clock_ok (timespecToNs t) rs hi
  end.

Definition add_attempt (a : option (option timespec)) (l : list (option Z)) : list (option Z) :=
  match a with Some t => (timespecToNs <$> t) :: l | None => l end.

Definition worker_section (r : worker_pc * ia_state * option (option timespec)) (clock : Z)
    (s : sys) : sys :=
  let '(pc, st, att) := r in
  mk_sys (s_hooks s) st pc false (s_vendor s) clock (add_attempt att (s_attempts s)) (s_trace s).

Definition hook_section (r : list ia_event * bool * ia_state) (vendor : list bool) (s : sys) : sys :=
  let '(ev, signal, st) := r in
  mk_sys (s_hooks s) st (s_pc s) (s_woken s || signal) vendor (s_clock s) (s_attempts s)
    (s_trace s ++ ev).

(** The framework's SET_INITIAL_ATTACH_APN is cached, then forwarded. *)
Definition cache_section (socketId : nat) (ia : ia_value) (s : sys) : sys :=
  mk_sys (s_hooks s) (cacheValue socketId ia (s_ia s)) (s_pc s) (s_woken s) (s_vendor s)
    (s_clock s) (s_attempts s) (s_trace s).

Definition forward (ia : ia_value) (datalen : Z) (t : RIL_Token) (socketId : Z) (s : sys) : sys :=
  mk_sys (s_hooks s) (s_ia s) (s_pc s) (s_woken s) (s_vendor s) (s_clock s) (s_attempts s)
    (s_trace s ++ [RealRequest RIL_REQUEST_SET_INITIAL_ATTACH_APN ia datalen t socketId]).

(** The worker's unlocked call; the vendor then holds the token. *)
Definition request_done (token socketId : nat) (outgoing : ia_value) (s : sys) : sys :=
  mk_sys (s_hooks s) (s_ia s) WHead false (<[token := true]> (s_vendor s)) (s_clock s)
    (s_attempts s) (s_trace s ++ [send_request token socketId outgoing]).

Definition slept (s : sys) : sys :=
  mk_sys (s_hooks s) (s_ia s) WHead false (s_vendor s) (s_clock s) (s_attempts s) (s_trace s).

Inductive step : sys -> sys -> Prop :=
| step_cache s socketId ia :
    (socketId < 2)%nat -> step s (cache_section socketId ia s)
(* the framework's tokens are not the shim's *)
| step_forward s ia datalen t socketId :
    isReissueToken t = false -> step s (forward ia datalen t socketId s)
| step_unsol s code data datalen socketId :
    step s (hook_section (unsolHook code data datalen socketId (s_hooks s) (s_ia s)) (s_vendor s) s)
| step_complete_foreign s t e resp len :
    isReissueToken t = false ->
    step s (hook_section (completeHook t e resp len (s_hooks s) (s_ia s)) (s_vendor s) s)
(* the vendor completes a request of the shim that it holds, once *)
| step_complete_own s i e resp len :
    (i < REISSUE_TOKEN_SLOTS)%nat -> flag (s_vendor s) i = true ->
    step s (hook_section (completeHook (REISSUE_TOKEN_AT i) e resp len (s_hooks s) (s_ia s))
              (<[i := false]> (s_vendor s)) s)
| step_head s env clock :
    s_pc s = WHead -> clock_ok (s_clock s) [e_now env; e_issued env; e_last env] clock ->
    step s (worker_section (loop_head env (s_ia s)) clock s)
| step_wake s env clock :
    s_pc s = WWait -> clock_ok (s_clock s) [e_now env; e_issued env; e_last env] clock ->
    step s (worker_section (loop_head env (s_ia s)) clock s)
| step_wake_timed s after env clock :
    s_pc s = WTimedWait ->
    clock_ok (s_clock s) [after; e_now env; e_issued env; e_last env] clock ->
    step s (worker_section (after_timedwait after env (s_ia s)) clock s)
| step_slept s :
    (s_pc s = WSleepRelative \/ exists d, s_pc s = WSleepUntil d) ->
    step s (slept s)
| step_request s token socketId outgoing :
    s_pc s = WRequest token socketId outgoing ->
    step s (request_done token socketId outgoing s).

Definition sys_init (hk : hook_env) (clock : Z) : sys :=
  mk_sys hk ia_init WHead false (replicate REISSUE_TOKEN_SLOTS false) clock [] [].

(** The monotonic clock is never negative. *)
Definition reachable (s : sys) : Prop :=
  exists hk clock, 0 <= clock /\ rtc step (sys_init hk clock) s.

(** ** Lemmas *)

Lemma flag_insert l i j b :
  (i < length l)%nat -> flag (<[i := b]> l) j = if decide (i = j) then b else flag l j.
Proof.
  intros Hi. unfold flag. destruct (decide (i = j)) as [->|Hne].
  - by rewrite list_lookup_insert_eq.
  - by rewrite list_lookup_insert_ne.
Qed.

Lemma isReissueToken_iff t :
  isReissueToken t = true <-> exists i, (i < REISSUE_TOKEN_SLOTS)%nat /\ t = REISSUE_TOKEN_AT i.
Proof.
  unfold isReissueToken. rewrite existsb_exists. split.
  - intros (i & Hi & He). zb. apply in_seq in Hi as [_ Hi]. exists i. split; [lia|].
    unfold REISSUE_TOKEN_AT. rewrite Nat.mod_small by lia. done.
  - intros (i & Hi & ->). exists i. split; [apply in_seq; lia|].
    unfold REISSUE_TOKEN_AT. rewrite Nat.mod_small by lia. apply Z.eqb_refl.
Qed.

Lemma isReissueToken_at i : (i < REISSUE_TOKEN_SLOTS)%nat -> isReissueToken (REISSUE_TOKEN_AT i) = true.
Proof. intros. apply isReissueToken_iff. eauto. Qed.

(** The index the completion hook computes is the index the worker chose. *)
Lemma token_index_at i : (i < REISSUE_TOKEN_SLOTS)%nat -> token_index (REISSUE_TOKEN_AT i) = i.
Proof.
  intros Hi. unfold token_index, REISSUE_TOKEN_AT. rewrite Nat.mod_small by done.
  replace (sReissueTokens + 64 * Z.of_nat i - sReissueTokens) with (Z.of_nat i * 64) by lia.
  rewrite Z.quot_mul by lia. lia.
Qed.

Lemma pick_socket_some {P} (st : ia_shared P) i :
  pick_socket st = Some i ->
  (i < 2)%nat /\ flag (sIaPending st) i = true /\ flag (sIaCached st) i = true.
Proof.
  unfold pick_socket. intros Hf. apply find_some in Hf as [Hin Hb]. zb. split_and!; [|done..].
  apply in_map_iff in Hin as (o & <- & _). apply Nat.mod_upper_bound. done.
Qed.

(** All sockets are scanned, whatever the starting point. *)
Lemma pick_socket_none {P} (st : ia_shared P) i :
  pick_socket st = None -> (i < 2)%nat ->
  flag (sIaPending st) i && flag (sIaCached st) i = false.
Proof.
  unfold pick_socket. intros Hf Hi. apply (find_none _ _ Hf). apply in_map_iff.
  change (Z.to_nat SIM_COUNT) with 2%nat.
  pose proof (Nat.mod_upper_bound (sIaNextSocket st) 2 ltac:(lia)).
  pose proof (Nat.div_mod (sIaNextSocket st) 2 ltac:(lia)) as Hd.
  exists (if (sIaNextSocket st mod 2 =? i)%nat then 0%nat else 1%nat).
  split; [|apply in_seq; destruct (_ =? _)%nat; lia].
  destruct (Nat.eqb_spec (sIaNextSocket st mod 2) i) as [He|He].
  - by rewrite Nat.add_0_r.
  - rewrite Nat.Div0.add_mod. destruct i as [|[|i]], (sIaNextSocket st mod 2)%nat as [|[|k]]; simpl in *; lia.
Qed.

Lemma pick_token_some {P} (st : ia_shared P) i :
  pick_token st = Some i ->
  (i < REISSUE_TOKEN_SLOTS)%nat /\ flag (sIaTokenOutstanding st) i = false.
Proof.
  unfold pick_token. intros Hf. apply find_some in Hf as [Hin Hb]. zb. split; [|done].
  apply in_map_iff in Hin as (o & <- & _). apply Nat.mod_upper_bound. done.
Qed.

Lemma pick_token_none {P} (st : ia_shared P) i :
  pick_token st = None -> (i < REISSUE_TOKEN_SLOTS)%nat -> flag (sIaTokenOutstanding st) i = true.
Proof.
  unfold pick_token. intros Hf Hi. apply negb_false_iff. apply (find_none _ _ Hf).
  apply in_map_iff. unfold REISSUE_TOKEN_SLOTS in *.
  set (c := sIaCurrentTokenIndex st).
  pose proof (Nat.mod_upper_bound c 16 ltac:(lia)).
  pose proof (Nat.div_mod c 16 ltac:(lia)) as Hd.
  exists (if (i <=? c mod 16)%nat then (i + 16 - c mod 16)%nat else (i - c mod 16)%nat).
  destruct (Nat.leb_spec i (c mod 16)%nat); split; try (apply in_seq; lia).
  - replace (c + (i + 16 - c mod 16))%nat with (i + (c / 16 + 1) * 16)%nat by lia.
    rewrite Nat.Div0.mod_add. apply Nat.mod_small. lia.
  - replace (c + (i - c mod 16))%nat with (i + (c / 16) * 16)%nat by lia.
    rewrite Nat.Div0.mod_add. apply Nat.mod_small. lia.
Qed.

(** ** The invariant *)

Definition sending (pc : worker_pc) : option nat :=
  match pc with WRequest i _ _ => Some i | _ => None end.

(** The bookkeeping: a token is outstanding exactly while the vendor holds it or
    the worker is about to send it, and never both. *)
Record st_ok (st : ia_state) (vendor : list bool) (pc : worker_pc) : Prop := {
  ok_cache : length (sIaCache st) = 2%nat;
  ok_cached : length (sIaCached st) = 2%nat;
  ok_pending : length (sIaPending st) = 2%nat;
  ok_tokens : length (sIaTokenOutstanding st) = REISSUE_TOKEN_SLOTS;
  ok_vendor : length vendor = REISSUE_TOKEN_SLOTS;
  ok_next : (sIaNextSocket st < 2)%nat;
  ok_pend : forall i, flag (sIaPending st) i = true -> flag (sIaCached st) i = true;
  ok_out : forall i, flag (sIaTokenOutstanding st) i = true <->
                     flag vendor i = true \/ sending pc = Some i;
  ok_excl : forall i, sending pc = Some i -> (i < REISSUE_TOKEN_SLOTS)%nat /\ flag vendor i = false;
  ok_flight : sIaRequestInFlight st = true ->
              (sIaCurrentTokenIndex st < REISSUE_TOKEN_SLOTS)%nat /\
              flag (sIaTokenOutstanding st) (sIaCurrentTokenIndex st) = true;
}.

(** What the worker knows when it goes to sleep on the condition variable. *)
Definition wait_ok (pc : worker_pc) (st : ia_state) : Prop :=
  match pc with
  | WWait => sIaRequestInFlight st = false /\ forall i, flag (sIaPending st) i = false
  | WTimedWait => sIaRequestInFlight st = true /\ sIaInFlightDeadlineNs st <> 0
  | _ => True
  end.

(** Two consecutive attempts with a reading are an interval apart. *)
Fixpoint spaced (l : list (option Z)) : Prop :=
  match l with
  | Some a :: ((Some b :: _) as k) => b + REISSUE_MIN_INTERVAL_NS <= a /\ spaced k
  | _ :: k => spaced k
  | [] => True
  end.

(** The rate limiter's memory is the latest attempt. *)
Definition last_attempt (st : ia_state) : option Z :=
  if sIaLastIssueValid st then Some (timespecToNs (sIaLastIssue st)) else None.

Definition rate_ok (st : ia_state) (clock : Z) (attempts : list (option Z)) : Prop :=
  0 <= clock /\ spaced attempts /\ last_attempt st = mjoin (head attempts) /\
  (forall t, last_attempt st = Some t -> 0 <= t <= clock).

Definition inflight_ok (st : ia_state) (clock : Z) : Prop :=
  sIaRequestInFlight st = true -> sIaInFlightDeadlineNs st <= clock + REISSUE_INFLIGHT_TIMEOUT_NS.

Definition is_own (ev : ia_event) : bool :=
  match ev with RealRequest _ _ _ t _ => isReissueToken t | _ => false end.

Record inv (s : sys) : Prop := {
  inv_st : st_ok (s_ia s) (s_vendor s) (s_pc s);
  inv_wait : s_woken s = false -> wait_ok (s_pc s) (s_ia s);
  inv_rate : rate_ok (s_ia s) (s_clock s) (s_attempts s);
  inv_inflight : inflight_ok (s_ia s) (s_clock s);
  inv_sent : (countb is_own (s_trace s) + Nat.b2n (bool_decide (is_Some (sending (s_pc s)))) <=
              length (s_attempts s))%nat;
}.

Lemma flag_lt l i : flag l i = true -> (i < length l)%nat.
Proof. unfold flag. destruct (l !! i) eqn:E; [|done]. intros _. by eapply lookup_lt_Some. Qed.

Lemma inv_init hk clock : 0 <= clock -> inv (sys_init hk clock).
Proof.
  intros Hc. split; simpl; try done.
  - split; try done; simpl; [lia|]. intros i. naive_solver.
Qed.

(** ** The hooks preserve it *)

Lemma clock_ok_le lo rs hi : clock_ok lo rs hi -> lo <= hi.
Proof.
  revert lo. induction rs as [|[t|] rs IH]; intros lo; simpl; [lia| |apply IH].
  intros [? Hr]. apply IH in Hr. lia.
Qed.

Lemma st_ok_pending st v pc i b :
  st_ok st v pc -> (i < 2)%nat -> (b = true -> flag (sIaCached st) i = true) ->
  st_ok (set_pending i b st) v pc.
Proof.
  intros [] Hi Hb. split; simpl; try done.
  - by rewrite length_insert.
  - intros j. rewrite flag_insert by lia. destruct (decide (i = j)) as [ ->|]; auto.
Qed.

Lemma st_ok_flight_off st v pc d : st_ok st v pc -> st_ok (set_flight false d st) v pc.
Proof. intros []. split; done. Qed.

Lemma st_ok_charge st v pc c : st_ok st v pc -> st_ok (charge c st) v pc.
Proof. intros []. split; done. Qed.

Lemma st_ok_pc st v pc pc' : st_ok st v pc -> sending pc = sending pc' -> st_ok st v pc'.
Proof. intros [] He. split; try done; rewrite <- He; done. Qed.

Lemma st_ok_cached st v pc i ia :
  st_ok st v pc -> (i < 2)%nat -> st_ok (set_cached i ia st) v pc.
Proof.
  intros [] Hi. split; simpl; try done; try by rewrite length_insert.
  intros j Hj. rewrite flag_insert by lia. destruct (decide (i = j)); auto.
Qed.

(** A completion of a token the vendor holds. *)
Lemma st_ok_complete st v pc i :
  st_ok st v pc -> (i < REISSUE_TOKEN_SLOTS)%nat -> flag v i = true ->
  (sIaRequestInFlight st = true -> sIaCurrentTokenIndex st <> i) ->
  st_ok (set_outstanding i false st) (<[i := false]> v) pc.
Proof.
  intros [] Hi Hv Hc. split; simpl; try done; try by rewrite length_insert.
  - intros j. rewrite !flag_insert by lia. destruct (decide (i = j)) as [<-|]; [|done].
    split; [done|]. intros [?|He]; [done|]. apply ok_excl0 in He as [_ He]. congruence.
  - intros j Hj. apply ok_excl0 in Hj as Hj'. rewrite flag_insert by lia.
    destruct (decide (i = j)); naive_solver.
  - intros Hf. specialize (Hc Hf). rewrite flag_insert by lia.
    destruct (decide (i = _)); [congruence|auto].
Qed.

(** ** The worker's sections preserve it *)

(** The bookkeeping of an issued request. *)
Lemma st_ok_issue st v i k d nxt c outgoing :
  st_ok st v WHead -> (k < 2)%nat -> (nxt < 2)%nat -> (i < REISSUE_TOKEN_SLOTS)%nat ->
  flag (sIaTokenOutstanding st) i = false ->
  st_ok (charge c (set_next nxt (set_outstanding i true (set_current i (set_flight true d
           (set_pending k false st)))))) v (WRequest i k outgoing).
Proof.
  intros Hok Hk Hnx Hi Ho. destruct (st_ok_pending _ _ _ k false Hok Hk ltac:(done)).
  destruct Hok. split; simpl in *; try done.
  - by rewrite length_insert.
  - intros j. rewrite flag_insert by lia. destruct (decide (i = j)) as [<-|]; [naive_solver|].
    rewrite ok_out0. split; [naive_solver|]. intros [?|[= ?]]; [by left|congruence].
  - intros j [= <-]. split; [done|]. apply not_true_iff_false. intros Hv.
    apply not_true_iff_false in Ho. apply Ho, ok_out0. by left.
  - intros _. split; [done|]. rewrite flag_insert by lia. by rewrite decide_True.
Qed.

Lemma issue_ok st v k env :
  st_ok st v WHead -> pick_socket st = Some k -> sIaRequestInFlight st = false ->
  let '(pc, st', _) := issue k env st in st_ok st' v pc /\ wait_ok pc st'.
Proof.
  intros Hok Hk Hf. apply pick_socket_some in Hk as (Hk & _ & _). unfold issue.
  destruct (pick_token st) as [i|] eqn:Hp; [destruct (e_copy env); simpl|].
  - apply pick_token_some in Hp as [Hi Ho]. split; [|done].
    apply st_ok_issue; try done. by apply (Nat.mod_upper_bound (k + 1) 2).
  - split; [by apply st_ok_charge|done].
  - split; [|done]. apply st_ok_charge, st_ok_pending; done.
Qed.

Lemma loop_free_ok st v env :
  st_ok st v WHead -> sIaRequestInFlight st = false ->
  let '(pc, st', _) := loop_free env st in st_ok st' v pc /\ wait_ok pc st'.
Proof.
  intros Hok Hf. unfold loop_free. destruct (pick_socket st) as [k|] eqn:Hk.
  - destruct (e_now env) as [now|]; [|by split; [eapply st_ok_pc|]].
    destruct (negb (_ =? 0)); [by split; [eapply st_ok_pc|]|]. by apply issue_ok.
  - split; [by eapply st_ok_pc|]. split; [done|]. intros i.
    destruct (flag (sIaPending st) i) eqn:Hp; [|done].
    pose proof (flag_lt _ _ Hp) as Hi. rewrite (ok_pending _ _ _ Hok) in Hi.
    pose proof (pick_socket_none _ i Hk Hi) as Hn.
    rewrite Hp, (ok_pend _ _ _ Hok i Hp) in Hn. done.
Qed.

Lemma loop_head_ok st v env :
  st_ok st v WHead ->
  let '(pc, st', _) := loop_head env st in st_ok st' v pc /\ wait_ok pc st'.
Proof.
  intros Hok. unfold loop_head. destruct (sIaRequestInFlight st) eqn:Hf; [|by apply loop_free_ok].
  destruct (Z.eqb_spec (sIaInFlightDeadlineNs st) 0).
  - apply loop_free_ok; [by apply st_ok_flight_off|done].
  - split; [by eapply st_ok_pc|done].
Qed.

(** The three outcomes of a timed wait are the loop head on the same state or on
    the state with the slot released. *)
Lemma after_timedwait_cases after env st :
  after_timedwait after env st = loop_head env st \/
  after_timedwait after env st = loop_head env (set_flight false 0 st).
Proof. unfold after_timedwait. repeat c_case; auto. Qed.

Lemma after_timedwait_ok st v after env :
  st_ok st v WHead ->
  let '(pc, st', _) := after_timedwait after env st in st_ok st' v pc /\ wait_ok pc st'.
Proof.
  intros Hok. destruct (after_timedwait_cases after env st) as [ ->| ->]; apply loop_head_ok; [done|].
  by apply st_ok_flight_off.
Qed.

(** ** Time *)

(** What a section does to the rate limiter: nothing, or one attempt made no
    earlier than the interval allows; and to the in-flight deadline. *)
Definition timely (lo hi : Z) (st st' : ia_state) (att : option (option timespec)) : Prop :=
  match att with
  | None => last_attempt st' = last_attempt st
  | Some t =>
      last_attempt st' = timespecToNs <$> t /\
      (forall n, t = Some n -> lo <= timespecToNs n <= hi) /\
      (forall a n, last_attempt st = Some a -> t = Some n ->
        a + REISSUE_MIN_INTERVAL_NS <= timespecToNs n)
  end /\
  (sIaRequestInFlight st' = true ->
     (sIaRequestInFlight st = true /\ sIaInFlightDeadlineNs st' = sIaInFlightDeadlineNs st) \/
     sIaInFlightDeadlineNs st' <= hi + REISSUE_INFLIGHT_TIMEOUT_NS).

Lemma last_attempt_charge c st : last_attempt (charge c st) = timespecToNs <$> c.
Proof. destruct c; done. Qed.

Lemma issue_timely st k env now lo hi :
  0 <= lo -> lo <= timespecToNs now ->
  clock_ok (timespecToNs now) [e_issued env; e_last env] hi ->
  sIaRequestInFlight st = false ->
  (forall a, last_attempt st = Some a -> a + REISSUE_MIN_INTERVAL_NS <= timespecToNs now) ->
  let '(_, st', att) := issue k env st in timely lo hi st st' att.
Proof.
  intros Hlo Hnow Hc Hf Hl.
  assert (forall n, e_last env = Some n -> timespecToNs now <= timespecToNs n <= hi) as Hlast.
  { intros n Hn. rewrite Hn in Hc. simpl in Hc. destruct (e_issued env); lia. }
  assert (timely lo hi st (charge (e_last env) (set_pending k false st)) (Some (e_last env)) /\
          timely lo hi st (charge (e_last env) st) (Some (e_last env))) as [H1 H2].
  { assert (forall st', last_attempt st' = timespecToNs <$> e_last env ->
              sIaRequestInFlight st' = false -> timely lo hi st st' (Some (e_last env))) as Hgen.
    { intros st' Hst' Hf'. split; [|by rewrite Hf']. split_and!; [done| |].
      - intros n Hn. apply Hlast in Hn. lia.
      - intros a n Ha Hn. apply Hl in Ha. apply Hlast in Hn. lia. }
    split; apply Hgen; done || apply last_attempt_charge. }
  unfold issue. destruct (pick_token st) as [i|]; [|done]. destruct (e_copy env); [|done].
  unfold timely. simpl. split; [exact (proj1 H1)|].
  intros _. right. pose proof (clock_ok_le _ _ _ Hc). simpl in Hc. unfold REISSUE_INFLIGHT_TIMEOUT_NS.
  destruct (e_issued env); destruct (e_last env); lia.
Qed.

Lemma timely_weaken lo lo' hi st st' att : timely lo hi st st' att -> lo' <= lo -> timely lo' hi st st' att.
Proof.
  intros [Ha Hb] Hle. split; [|done]. destruct att; [|done]. destruct Ha as (? & Hn & ?).
  split_and!; [done| |done]. intros n Ht. apply Hn in Ht. lia.
Qed.

Lemma timely_none lo hi st st' :
  last_attempt st' = last_attempt st -> sIaRequestInFlight st' = false -> timely lo hi st st' None.
Proof. intros ? Hf. split; [done|]. by rewrite Hf. Qed.

Lemma loop_free_timely st env lo hi :
  0 <= lo -> clock_ok lo [e_now env; e_issued env; e_last env] hi ->
  sIaRequestInFlight st = false ->
  (forall a, last_attempt st = Some a -> 0 <= a) ->
  let '(_, st', att) := loop_free env st in timely lo hi st st' att.
Proof.
  intros Hlo Hc Hf Hpos. unfold loop_free.
  destruct (pick_socket st) as [k|]; [|by apply timely_none].
  destruct (e_now env) as [now|]; [|by apply timely_none].
  destruct Hc as [Hnow Hc]. unfold last_attempt in Hpos.
  match goal with |- context [negb (?e =? 0)] => set (w := e) end.
  destruct (Z.eqb_spec w 0) as [Hw|]; simpl; [|by apply timely_none].
  eapply issue_timely; eauto. intros a Ha. unfold last_attempt in Ha.
  destruct (sIaLastIssueValid st); [|done]. simplify_eq/=. specialize (Hpos _ eq_refl).
  revert Hw. unfold REISSUE_MIN_INTERVAL_NS in *. destruct (Z.ltb_spec (timespecToNs now) (timespecToNs (sIaLastIssue st) + 1000 * 1000 * 1000)); lia.
Qed.

Lemma loop_head_timely st env lo hi :
  0 <= lo -> clock_ok lo [e_now env; e_issued env; e_last env] hi ->
  (forall a, last_attempt st = Some a -> 0 <= a) ->
  let '(_, st', att) := loop_head env st in timely lo hi st st' att.
Proof.
  intros Hlo Hc Hpos. unfold loop_head.
  destruct (sIaRequestInFlight st) eqn:Hf; [|by apply loop_free_timely].
  destruct (_ =? 0); [|split; [done|by left]].
  pose proof (loop_free_timely (set_flight false (sIaInFlightDeadlineNs st) st) env lo hi
                Hlo Hc eq_refl Hpos) as Ht.
  destruct (loop_free _ _) as [[pc st'] att]. destruct Ht as [Ha Hb]. split; [exact Ha|].
  intros Hf'. destruct (Hb Hf') as [[? ?]|?]; [done|by right].
Qed.

Lemma after_timedwait_timely st after env lo hi :
  0 <= lo -> clock_ok lo [after; e_now env; e_issued env; e_last env] hi ->
  (forall a, last_attempt st = Some a -> 0 <= a) ->
  let '(_, st', att) := after_timedwait after env st in timely lo hi st st' att.
Proof.
  intros Hlo Hc Hpos.
  assert (exists lo', lo <= lo' /\ clock_ok lo' [e_now env; e_issued env; e_last env] hi)
    as (lo' & Hle & Hc').
  { destruct after as [t|]; simpl in Hc; [destruct Hc as [? Hc]|]; eexists; (split; [|exact Hc]); lia. }
  destruct (after_timedwait_cases after env st) as [ ->| ->].
  - pose proof (loop_head_timely st env lo' hi ltac:(lia) Hc' Hpos) as Ht.
    destruct (loop_head _ _) as [[pc st'] att]. by eapply timely_weaken.
  - pose proof (loop_head_timely (set_flight false 0 st) env lo' hi ltac:(lia) Hc' Hpos) as Ht.
    destruct (loop_head _ _) as [[pc st'] att]. eapply timely_weaken in Ht as [Ha Hb]; [|done].
    split; [exact Ha|]. intros Hf'. destruct (Hb Hf') as [[? ?]|?]; [done|by right].
Qed.

(** A request is on its way only after an attempt was charged. *)
Definition charged (r : worker_pc * ia_state * option (option timespec)) : Prop :=
  let '(pc, _, att) := r in is_Some (sending pc) -> is_Some att.

Lemma loop_head_charged env st : charged (loop_head env st).
Proof.
  assert (forall st, charged (loop_free env st)) as Hfree.
  { intros st'. unfold loop_free, issue, charged. repeat case_match; simplify_eq/=; eauto; by intros []. }
  unfold loop_head. repeat case_match; auto. simpl. by intros [].
Qed.

Lemma after_timedwait_charged after env st : charged (after_timedwait after env st).
Proof. destruct (after_timedwait_cases after env st) as [ ->| ->]; apply loop_head_charged. Qed.

(** A section that keeps the bookkeeping and is timely keeps the invariant. *)
Lemma inv_worker_section s r clock :
  inv s -> s_clock s <= clock -> sending (s_pc s) = None -> charged r ->
  (let '(pc, st', _) := r in st_ok st' (s_vendor s) pc /\ wait_ok pc st') ->
  (let '(_, st', att) := r in timely (s_clock s) clock (s_ia s) st' att) ->
  inv (worker_section r clock s).
Proof.
  destruct r as [[pc st'] att]. intros [Hst Hw (H0 & Hsp & Hla & Hlc) Hin Hs] Hle Hnone Hch [Ho Hw'] [Ht Hd].
  split; simpl; [done|done| | |].
  - destruct att as [t|]; simpl.
    + destruct Ht as (Hl & Hn & Hgap). split_and!; [lia| |by rewrite Hl; destruct t|].
      * destruct t as [n|]; [|done]. simpl.
        destruct (s_attempts s) as [|[a|] l]; [done| |done]. split; [|done].
        apply Hgap; [by rewrite Hla|done].
      * intros x Hx. rewrite Hl in Hx. destruct t as [n|]; simplify_eq/=. specialize (Hn n eq_refl). lia.
    + split_and!; [lia|done|by rewrite Ht|]. rewrite Ht. intros t Hx. apply Hlc in Hx. lia.
  - intros Hf. destruct (Hd Hf) as [[Hf0 ->]|?]; [|done]. specialize (Hin Hf0). lia.
  - rewrite Hnone in Hs. simpl in Hs. simpl in Hch.
    case_bool_decide as Hb; simpl; destruct att; simpl; [lia|by destruct (Hch Hb)|lia|lia].
Qed.

Lemma st_ok_sent st v i k outgoing :
  st_ok st v (WRequest i k outgoing) -> st_ok st (<[i := true]> v) WHead.
Proof.
  intros []. destruct (ok_excl0 i eq_refl) as [Hi _]. split; try done; simpl.
  - by rewrite length_insert.
  - intros j. rewrite ok_out0, flag_insert by lia. simpl.
    destruct (decide (i = j)) as [ ->|]; [naive_solver|]. split; [|naive_solver].
    intros [?|[= ?]]; [by left|congruence].
Qed.

(** A hook that only touches the protected state in an allowed way. *)
Lemma inv_hook_section s ev signal st v :
  inv s -> countb is_own ev = 0%nat -> st_ok st v (s_pc s) ->
  (signal = false -> wait_ok (s_pc s) (s_ia s) -> wait_ok (s_pc s) st) ->
  last_attempt st = last_attempt (s_ia s) ->
  (sIaRequestInFlight st = true -> sIaRequestInFlight (s_ia s) = true /\
     sIaInFlightDeadlineNs st = sIaInFlightDeadlineNs (s_ia s)) ->
  inv (hook_section (ev, signal, st) v s).
Proof.
  intros [Hst Hw (? & ? & Hla & Hlc) Hin Hs] He Ho Hw' Hl Hf. split; simpl; [done| | | |].
  - intros Hor. apply orb_false_iff in Hor as [? ?]. auto.
  - unfold rate_ok. by rewrite Hl.
  - intros Hx. destruct (Hf Hx) as [? ->]. auto.
  - rewrite countb_app. lia.
Qed.

Lemma inv_unsol s code data datalen socketId :
  inv s -> inv (hook_section (unsolHook code data datalen socketId (s_hooks s) (s_ia s)) (s_vendor s) s).
Proof.
  intros Hinv. pose proof (inv_st _ Hinv) as Hst. unfold unsolHook.
  destruct (_ && _ && _ && _) eqn:Hg; [destruct (flag (sIaCached (s_ia s)) (Z.to_nat socketId)) eqn:Hc|];
    destruct (sRealOnUnsol _ =? NULL); apply inv_hook_section; try done;
    apply st_ok_pending; try done; zb; change SIM_COUNT with 2 in *; lia.
Qed.

Lemma inv_complete_own s i e resp len :
  inv s -> (i < REISSUE_TOKEN_SLOTS)%nat -> flag (s_vendor s) i = true ->
  inv (hook_section (completeHook (REISSUE_TOKEN_AT i) e resp len (s_hooks s) (s_ia s))
         (<[i := false]> (s_vendor s)) s).
Proof.
  intros Hinv Hi Hv. pose proof (inv_st _ Hinv) as Hst. unfold completeHook.
  rewrite isReissueToken_at, token_index_at by done.
  rewrite (proj2 (ok_out _ _ _ Hst i)) by auto. simpl.
  destruct (sIaRequestInFlight (s_ia s) && _) eqn:Hc; apply inv_hook_section; try done; simpl.
  - apply (st_ok_complete (set_flight false 0 (s_ia s))); try done. by apply st_ok_flight_off.
  - apply st_ok_complete; try done. intros Hf <-. rewrite Hf, Nat.eqb_refl in Hc. done.
Qed.

Lemma inv_step s s' : inv s -> step s s' -> inv s'.
Proof.
  intros Hinv Hs. pose proof (inv_st _ Hinv) as Hst.
  destruct (inv_rate _ Hinv) as (H0 & _ & _ & Hpos).
  assert (forall a, last_attempt (s_ia s) = Some a -> 0 <= a) by (intros a Ha; apply Hpos in Ha; lia).
  destruct Hs as [s k ia Hk|s ia dl t sk Ht|s code data dl sk|s t e resp len Ht|s i e resp len Hi Hv
    |s env c Hpc Hc|s env c Hpc Hc|s after env c Hpc Hc|s Hpc|s i k outgoing Hpc].
  - destruct Hinv. split; try done; simpl. by apply st_ok_cached.
  - destruct Hinv. split; try done; simpl. rewrite countb_app, countb_cons. simpl. rewrite Ht. simpl.
    unfold countb at 2. simpl. lia.
  - by apply inv_unsol.
  - unfold completeHook. rewrite Ht. destruct (_ =? NULL); by apply inv_hook_section.
  - by apply inv_complete_own.
  - apply inv_worker_section; try done; [by eapply clock_ok_le|by rewrite Hpc|apply loop_head_charged| |].
    + apply loop_head_ok. eapply st_ok_pc; [done|]. by rewrite Hpc.
    + by apply loop_head_timely.
  - apply inv_worker_section; try done; [by eapply clock_ok_le|by rewrite Hpc|apply loop_head_charged| |].
    + apply loop_head_ok. eapply st_ok_pc; [done|]. by rewrite Hpc.
    + by apply loop_head_timely.
  - apply inv_worker_section; try done;
      [by eapply clock_ok_le|by rewrite Hpc|apply after_timedwait_charged| |].
    + apply after_timedwait_ok. eapply st_ok_pc; [done|]. by rewrite Hpc.
    + by apply after_timedwait_timely.
  - destruct Hinv as [? ? ? ? Hcount]. split; try done; simpl.
    + eapply st_ok_pc; [done|]. destruct Hpc as [ ->|[d ->]]; done.
    + destruct Hpc as [Hpc|[d Hpc]]; rewrite Hpc in Hcount; done.
  - destruct Hinv as [? ? ? ? Hcount]. rewrite Hpc in Hst, Hcount. split; try done; simpl.
    + by eapply st_ok_sent.
    + rewrite countb_app, countb_cons. simpl in *.
      rewrite isReissueToken_at by (apply (ok_excl _ _ _ Hst); done). unfold countb at 2. simpl. lia.
Qed.

Lemma reachable_inv s : reachable s -> inv s.
Proof.
  intros (hk & clock & Hc & Hr). pose proof (inv_init hk clock Hc) as Hi. clear Hc.
  induction Hr as [|s1 s2 s3 Hs _ IH]; [done|]. apply IH. by eapply inv_step.
Qed.

(** ** What the hooks do *)

(** completeHook, on every input: a completion of one of the shim's own tokens
    never reaches the proxy's original; it marks exactly that token free, and it
    releases the single-flight slot (and wakes the worker) exactly when the token
    was outstanding, a request was in flight and it was the current one, so a late
    completion of a timed-out request leaves the slot and its deadline alone.  Any
    other completion is passed to the original with the same arguments and changes
    nothing. *)
Theorem completeHook_spec t e response responselen hk (st : ia_state) :
  (forall i, (i < REISSUE_TOKEN_SLOTS)%nat -> t = REISSUE_TOKEN_AT i ->
     exists signal st', completeHook t e response responselen hk st = ([], signal, st') /\
       sIaTokenOutstanding st' = <[i := false]> (sIaTokenOutstanding st) /\
       (signal = true <-> flag (sIaTokenOutstanding st) i = true /\
                          sIaRequestInFlight st = true /\ sIaCurrentTokenIndex st = i) /\
       st' = (if signal then set_flight false 0 (set_outstanding i false st)
              else set_outstanding i false st)) /\
  ((forall i, (i < REISSUE_TOKEN_SLOTS)%nat -> t <> REISSUE_TOKEN_AT i) ->
     completeHook t e response responselen hk st =
       ((if sRealOnComplete hk =? NULL then [] else [RealComplete t e response responselen]),
        false, st)).
Proof.
  split.
  - intros i Hi ->. unfold completeHook. rewrite isReissueToken_at, token_index_at by done.
    destruct (flag _ i && _ && _) eqn:Hc; do 2 eexists; (split; [reflexivity|]);
      (split; [reflexivity|]); (split; [|reflexivity]).
    + zb. apply Nat.eqb_eq in H1. done.
    + split; [done|]. intros (Ho & Hf & <-). rewrite Ho, Hf, Nat.eqb_refl in Hc. done.
  - intros Hn. unfold completeHook. destruct (isReissueToken t) eqn:Ht; [|by destruct (_ =? _)].
    apply isReissueToken_iff in Ht as (i & Hi & He). destruct (Hn i Hi He).
Qed.

(** unsolHook, on every input: the indication is always passed to the original
    with the same arguments (it is dropped only before an original is published);
    a re-send is requested, and the worker signalled, exactly for
    RESET_ATTACH_APN on a valid socket with a cached payload while the hooks are
    active.  In no case does an indication touch the single-flight slot, the
    latched deadline, the rate limiter or the tokens. *)
Theorem unsolHook_spec code data datalen socketId hk (st : ia_state) :
  let '(ev, signal, st') := unsolHook code data datalen socketId hk st in
  ev = (if sRealOnUnsol hk =? NULL then [] else [RealUnsol code data datalen socketId]) /\
  (signal = true <-> sIaHookState hk = IA_HOOKS_ACTIVE /\ code = RIL_UNSOL_RESET_ATTACH_APN /\
                     0 <= socketId < SIM_COUNT /\ flag (sIaCached st) (Z.to_nat socketId) = true) /\
  st' = (if signal then set_pending (Z.to_nat socketId) true st else st).
Proof.
  unfold unsolHook, attachApnHooksActive.
  destruct (_ && _ && _ && _) eqn:Hg; [destruct (flag _ _) eqn:Hc|];
    destruct (sRealOnUnsol hk =? NULL); (split; [done|]); (split; [|done]);
    try (zb; split; [|done]; done).
  all: split; [done|]; intros (Ha & -> & Hr & ?); try congruence.
  all: rewrite Ha, bool_decide_true, Z.eqb_refl in Hg by done;
    apply not_true_iff_false in Hg; destruct Hg; simpl; lia.
Qed.

(** ** What holds in every reachable state *)

(** C5: Tokens are never aliased: when the worker is about to hand a token to the
    vendor, the vendor does not hold that token, whatever timeouts and late
    completions came before; the outstanding flags are exactly the tokens in the
    vendor's or the worker's hands; and the slot is only ever held by such a
    token. *)
Theorem reissue_tokens_never_alias s :
  reachable s ->
  (forall i k outgoing, s_pc s = WRequest i k outgoing ->
     (i < REISSUE_TOKEN_SLOTS)%nat /\ flag (s_vendor s) i = false) /\
  (forall i, flag (sIaTokenOutstanding (s_ia s)) i = true <->
     flag (s_vendor s) i = true \/ sending (s_pc s) = Some i) /\
  (sIaRequestInFlight (s_ia s) = true ->
     flag (sIaTokenOutstanding (s_ia s)) (sIaCurrentTokenIndex (s_ia s)) = true).
Proof.
  intros Hr. destruct (inv_st _ (reachable_inv _ Hr)). split_and!.
  - intros i k o Hpc. apply ok_excl0. by rewrite Hpc.
  - done.
  - intros Hf. by apply ok_flight0.
Qed.

Lemma spaced_adjacent l i a b :
  spaced l -> l !! i = Some (Some a) -> l !! S i = Some (Some b) -> b + REISSUE_MIN_INTERVAL_NS <= a.
Proof.
  revert i. induction l as [|[x|] l IH]; intros i Hs Ha Hb; [done| |].
  - destruct i as [|i]; simpl in *.
    + simplify_eq. destruct l as [|[y|] l]; simplify_eq/=. lia.
    + eapply IH; eauto. destruct l as [|[y|] l]; naive_solver.
  - destruct i as [|i]; simpl in *; [done|eauto].
Qed.

(** C39: The rate limit: two consecutive attempts (sent, rejected or out of memory)
    whose time could be read are at least REISSUE_MIN_INTERVAL_NS apart, however
    fast indications arrive, and the vendor never receives more requests from the
    shim than there were attempts. *)
Theorem attempts_rate_limited s :
  reachable s ->
  (forall i a b, s_attempts s !! i = Some (Some a) -> s_attempts s !! S i = Some (Some b) ->
     b + REISSUE_MIN_INTERVAL_NS <= a) /\
  (countb is_own (s_trace s) <= length (s_attempts s))%nat.
Proof.
  intros Hr. pose proof (reachable_inv _ Hr) as Hi. destruct (inv_rate _ Hi) as (_ & Hs & _).
  split; [intros i a b; by apply spaced_adjacent|]. pose proof (inv_sent _ Hi). lia.
Qed.

(** No wakeup is lost: a worker that sleeps without a deadline and has not been
    signalled has nothing to do (no request in flight, no socket pending); a worker
    that waits for a completion and has not been signalled waits for a real one,
    with a deadline that is set and at most REISSUE_INFLIGHT_TIMEOUT_NS ahead. *)
Theorem no_lost_wakeup s :
  reachable s -> s_woken s = false ->
  (s_pc s = WWait ->
     sIaRequestInFlight (s_ia s) = false /\ forall i, flag (sIaPending (s_ia s)) i = false) /\
  (s_pc s = WTimedWait ->
     sIaRequestInFlight (s_ia s) = true /\ sIaInFlightDeadlineNs (s_ia s) <> 0 /\
     sIaInFlightDeadlineNs (s_ia s) <= s_clock s + REISSUE_INFLIGHT_TIMEOUT_NS).
Proof.
  intros Hr Hw. destruct (reachable_inv _ Hr) as [_ Hwait _ Hin _]. specialize (Hwait Hw).
  split; intros Hpc; rewrite Hpc in Hwait; [done|].
  destruct Hwait as [Hf Hd]. split_and!; [done|done|]. by apply Hin.
Qed.

(** ** Timeout and progress *)

Lemma loop_free_result env st :
  sIaRequestInFlight st = false ->
  let '(pc, st', _) := loop_free env st in
  (sIaRequestInFlight st' = false /\ sIaTokenOutstanding st' = sIaTokenOutstanding st) \/
  exists i k outgoing, pc = WRequest i k outgoing /\ sIaCurrentTokenIndex st' = i /\
    (i < REISSUE_TOKEN_SLOTS)%nat /\ flag (sIaTokenOutstanding st) i = false /\
    sIaTokenOutstanding st' = <[i := true]> (sIaTokenOutstanding st).
Proof.
  intros Hf. unfold loop_free, issue. destruct (pick_socket st) as [k|]; [|by left].
  destruct (e_now env); [|by left]. destruct (negb (_ =? 0)); [by left|].
  destruct (pick_token st) as [i|] eqn:Hp; [|by left]. destruct (e_copy env); [|by left].
  right. apply pick_token_some in Hp as [? ?]. by do 3 eexists.
Qed.

(** A request the vendor never completes does not hold the slot for ever: when
    the waiting worker wakes up, for any reason, with a clock at or past the
    latched deadline, the slot is free afterwards or held by a new request under a
    different token, and the timed-out token stays reserved for its late
    completion. *)
Theorem timed_out_slot_released s now env :
  reachable s -> s_pc s = WTimedWait -> sIaRequestInFlight (s_ia s) = true ->
  sIaInFlightDeadlineNs (s_ia s) <= timespecToNs now ->
  let '(pc, st', _) := after_timedwait (Some now) env (s_ia s) in
  flag (sIaTokenOutstanding st') (sIaCurrentTokenIndex (s_ia s)) = true /\
  (sIaRequestInFlight st' = false \/
   exists i k outgoing, pc = WRequest i k outgoing /\ sIaCurrentTokenIndex st' = i /\
     i <> sIaCurrentTokenIndex (s_ia s)).
Proof.
  intros Hr Hpc Hf Hd. destruct (inv_st _ (reachable_inv _ Hr)).
  destruct (ok_flight0 Hf) as [Hc Ho].
  unfold after_timedwait. rewrite Hf, (proj2 (Z.leb_le _ _) Hd). simpl.
  pose proof (loop_free_result env (set_flight false 0 (s_ia s)) eq_refl) as Hl.
  unfold loop_head. simpl. destruct (loop_free _ _) as [[pc st'] att].
  destruct Hl as [[Hf' Ho']|(i & k & o & -> & Hi & Hb & Hfree & Ho')]; rewrite Ho'; simpl in *.
  - split; [done|by left].
  - rewrite flag_insert by lia. split; [by destruct (decide _)|]. right. do 3 eexists.
    split_and!; [done|done|]. intros ->. congruence.
Qed.

(** The socket whose turn it is is taken first, the other one otherwise. *)
Lemma pick_socket_turn (st : ia_state) j :
  (sIaNextSocket st < 2)%nat -> (j < 2)%nat ->
  flag (sIaPending st) j = true -> flag (sIaCached st) j = true ->
  exists k, pick_socket st = Some k /\
    (flag (sIaPending st) (sIaNextSocket st) && flag (sIaCached st) (sIaNextSocket st) = true ->
     k = sIaNextSocket st).
Proof.
  intros Hn Hj Hp Hc. destruct (pick_socket st) as [k|] eqn:Hk.
  - exists k. split; [done|]. intros Ht. revert Hk. unfold pick_socket.
    change (Z.to_nat SIM_COUNT) with 2%nat. simpl seq. cbn [map List.find].
    rewrite Nat.add_0_r, Nat.mod_small, Ht by done. congruence.
  - pose proof (pick_socket_none _ j Hk Hj) as Hx. by rewrite Hp, Hc in Hx.
Qed.

(** C35: Progress and fairness of the worker: with a re-send pending on some socket,
    nothing in flight, a readable clock and the interval over, one pass serves a
    pending socket k (the one whose turn it is when that one is pending, and the
    turn then moves on).  If some token is free and memory is found, the section
    ends with exactly the payload cached for k about to be sent under a token
    that was free, with pending cleared for k only, a deadline of issue time plus
    the timeout, and the slot taken.  Without memory the request stays pending;
    with all 16 tokens outstanding it is dropped and nothing is sent. *)
Theorem due_socket_is_served s env now j :
  reachable s -> sIaRequestInFlight (s_ia s) = false ->
  flag (sIaPending (s_ia s)) j = true -> e_now env = Some now ->
  (forall a, last_attempt (s_ia s) = Some a -> a + REISSUE_MIN_INTERVAL_NS <= timespecToNs now) ->
  let st := s_ia s in
  exists k, (k < 2)%nat /\ flag (sIaPending st) k = true /\
    (flag (sIaPending st) (sIaNextSocket st) = true -> k = sIaNextSocket st) /\
    ((exists i ia st', flag (sIaTokenOutstanding st) i = false /\ e_copy env = true /\
        sIaCache st !! k = Some ia /\
        loop_head env st = (WRequest i k ia, st', Some (e_last env)) /\
        sIaPending st' = <[k := false]> (sIaPending st) /\ sIaCache st' = sIaCache st /\
        sIaRequestInFlight st' = true /\ sIaCurrentTokenIndex st' = i /\
        sIaTokenOutstanding st' = <[i := true]> (sIaTokenOutstanding st) /\
        sIaNextSocket st' = ((k + 1) mod 2)%nat /\
        (forall t, e_issued env = Some t ->
           sIaInFlightDeadlineNs st' = timespecToNs t + REISSUE_INFLIGHT_TIMEOUT_NS)) \/
     (e_copy env = false /\
        loop_head env st = (WHead, charge (e_last env) st, Some (e_last env))) \/
     ((forall i, (i < REISSUE_TOKEN_SLOTS)%nat -> flag (sIaTokenOutstanding st) i = true) /\
        loop_head env st = (WHead, charge (e_last env) (set_pending k false st), Some (e_last env)))).
Proof.
  intros Hr Hf Hj Hnow Hgap st. destruct (inv_st _ (reachable_inv _ Hr)).
  destruct (pick_socket_turn st j ok_next0) as (k & Hk & Hturn); auto.
  { apply flag_lt in Hj. lia. }
  destruct (pick_socket_some _ _ Hk) as (Hk2 & Hkp & Hkc).
  exists k. split_and!; [done|done| |].
  { intros Hp. apply Hturn, andb_true_iff. split; [done|by apply ok_pend0]. }
  assert (loop_head env st = issue k env st) as ->.
  { unfold loop_head, loop_free. unfold st in *. rewrite Hf, Hk, Hnow. unfold last_attempt in Hgap.
    destruct (sIaLastIssueValid (s_ia s)); [|done]. specialize (Hgap _ eq_refl).
    by rewrite (proj2 (Z.ltb_ge _ _) Hgap). }
  unfold issue. destruct (pick_token st) as [i|] eqn:Hp.
  - destruct (e_copy env) eqn:Hcp; [left|right; left; done].
    apply pick_token_some in Hp as [Hi Ho].
    destruct (lookup_lt_is_Some_2 (sIaCache st) k ltac:(unfold st; lia)) as [ia Hia].
    exists i, ia. rewrite Hia. eexists. split_and!; try done. intros t ->. done.
  - right; right. split; [|done]. intros i. by apply pick_token_none.
Qed.
End Worker.

(** ** A concrete run *)

Definition demo_base : Z := 0x7000.
Definition demo_hooks : hook_env := mk_hooks IA_HOOKS_ACTIVE 1 2.
Definition demo_ia (apn : string) : ia_value :=
  mk_ia (Some (lit apn)) None None 0 None None 0 0 0 0 None None 1.
Definition demo_env (sec : Z) : section_env :=
  mk_env (Some (mk_ts sec 0)) (Some (mk_ts sec 0)) (Some (mk_ts sec 0)) true.

#[local] Existing Instance aosp_ril_h.

(** The framework sends an APN, the vendor asks for it again, the worker prepares
    the re-send; then it is sent and the worker waits for its completion. *)
Definition demo_pending : sys :=
  let s := forward (demo_ia "a") 88 5 0 (cache_section 0 (demo_ia "a") (sys_init demo_hooks 0)) in
  hook_section (unsolHook 3020 0 0 0 (s_hooks s) (s_ia s)) (s_vendor s) s.

Definition demo_sending : sys :=
  worker_section (loop_head (demo_env 1) (s_ia demo_pending)) 1000000000 demo_pending.

Definition demo_waiting : sys :=
  let s := request_done demo_base 1 0 (demo_ia "a") demo_sending in
  worker_section (loop_head (demo_env 1) (s_ia s)) 1000000000 s.

Lemma demo_pending_reachable : reachable demo_base demo_pending.
Proof.
  exists demo_hooks, 0. split; [done|].
  eapply rtc_l; [apply (step_cache _ _ 0 (demo_ia "a")); lia|].
  eapply rtc_l; [by apply (step_forward _ _ (demo_ia "a") 88 5 0)|].
  apply rtc_once, step_unsol.
Qed.

Lemma demo_sending_reachable : reachable demo_base demo_sending.
Proof.
  destruct demo_pending_reachable as (hk & c & ? & Hr). exists hk, c. split; [done|].
  eapply rtc_r; [exact Hr|].
  apply (step_head _ _ (demo_env 1)); [reflexivity|vm_compute; split_and!; done].
Qed.

Lemma demo_waiting_reachable : reachable demo_base demo_waiting.
Proof.
  destruct demo_sending_reachable as (hk & c & ? & Hr). exists hk, c. split; [done|].
  eapply rtc_r; [eapply rtc_r; [exact Hr|]|].
  - by apply (step_request _ _ 1 0 (demo_ia "a")).
  - apply (step_head _ _ (demo_env 1)); [reflexivity|vm_compute; split_and!; done].
Qed.

Lemma reissue_tokens_never_alias_witness :
  s_pc demo_sending = WRequest 1 0 (demo_ia "a") /\ flag (s_vendor demo_sending) 1 = false.
Proof.
  split; [reflexivity|].
  by apply (proj1 (reissue_tokens_never_alias _ _ demo_sending_reachable) 1%nat 0%nat (demo_ia "a")).
Defined.

Lemma attempts_rate_limited_witness :
  s_attempts demo_waiting = [Some 1000000000] /\
  (countb (is_own demo_base) (s_trace demo_waiting) <= 1)%nat.
Proof.
  split; [reflexivity|]. apply (attempts_rate_limited _ _ demo_waiting_reachable).
Defined.

Lemma no_lost_wakeup_witness :
  s_pc demo_waiting = WTimedWait /\ sIaInFlightDeadlineNs (s_ia demo_waiting) <> 0.
Proof.
  split; [reflexivity|]. by apply (no_lost_wakeup _ _ demo_waiting_reachable).
Defined.

Lemma timed_out_slot_released_witness :
  let '(_, st', _) := after_timedwait (Some (mk_ts 11 0)) (demo_env 11) (s_ia demo_waiting) in
  flag (sIaTokenOutstanding st') (sIaCurrentTokenIndex (s_ia demo_waiting)) = true.
Proof.
  pose proof (timed_out_slot_released _ demo_waiting (mk_ts 11 0) (demo_env 11)
    demo_waiting_reachable eq_refl eq_refl ltac:(vm_compute; discriminate)) as Hw.
  destruct (after_timedwait _ _ _) as [[pc st'] att]. exact (proj1 Hw).
Defined.

Lemma due_socket_is_served_witness :
  exists k, (k < 2)%nat /\ flag (sIaPending (s_ia demo_pending)) k = true.
Proof.
  destruct (due_socket_is_served _ demo_pending (demo_env 1) (mk_ts 1 0) 0 demo_pending_reachable)
    as (k & ? & ? & _); [reflexivity|reflexivity|reflexivity|discriminate|].
  by exists k.
Defined.

(** C38: A re-send may be overtaken: the worker copies the payload under the lock but
    sends it after releasing it, so a newer SET_INITIAL_ATTACH_APN of the same
    socket can be cached and forwarded in between.  The vendor then receives the
    superseded payload last, and nothing is pending that would correct it. *)
Theorem superseded_apn_sent_last :
  exists s, reachable demo_base s /\
    s_trace s = [RealRequest RIL_REQUEST_SET_INITIAL_ATTACH_APN (demo_ia "a") 88 5 0;
                 RealUnsol RIL_UNSOL_RESET_ATTACH_APN 0 0 0;
                 RealRequest RIL_REQUEST_SET_INITIAL_ATTACH_APN (demo_ia "b") 88 6 0;
                 send_request demo_base 1 0 (demo_ia "a")] /\
    sIaCache (s_ia s) !! 0%nat = Some (demo_ia "b") /\
    forall i, flag (sIaPending (s_ia s)) i = false.
Proof.
  exists (request_done demo_base 1 0 (demo_ia "a")
            (forward (demo_ia "b") 88 6 0 (cache_section 0 (demo_ia "b") demo_sending))).
  split; [|split_and!; [reflexivity|reflexivity|by intros [|[|i]]]].
  destruct demo_sending_reachable as (hk & c & ? & Hr). exists hk, c. split; [done|].
  eapply rtc_r; [eapply rtc_r; [eapply rtc_r; [exact Hr|]|]|].
  - apply (step_cache _ _ 0 (demo_ia "b")). lia.
  - by apply (step_forward _ _ (demo_ia "b") 88 6 0).
  - by apply step_request.
Qed.
