(* ===== verification/RilAttachHeap.v ===== *)
(** * The attach-APN payloads in memory (ril-shim/k50sv1_ril_shim.c, part 2)

    [RilAttachApn] interleaves hooks, worker and framework over the values of the
    payloads.  Here the same threads run on the heap of [RilIaMem]: a cache entry is a
    structure of pointers, a caller of SET_INITIAL_ATTACH_APN copies its payload before
    it takes the lock and publishes the copy under it, the worker copies the entry it
    re-sends under the lock and frees the copy after the vendor has returned, and
    everybody else in the process allocates and frees in between.

    The theorems: every run is a run of [RilAttachApn] on what the pointers stand for;
    no thread ever uses or frees dead memory, whatever allocations fail; and every
    block the shim allocated is owned by exactly one of the cache, a caller and the
    worker, so nothing leaks and credentials are wiped before they are freed. *)

From S2P Require Import Prelude CMem RilHeader RilIaMem RilAttachApn.

Abbreviation ia_cells := (ia_shared ia_mem).

(** The clock readings of a section of the worker, in order. *)
Record readings := mk_readings {
  r_now : option timespec;
  r_issued : option timespec;
  r_last : option timespec;
}.

Definition env_of (r : readings) (copy : bool) : section_env :=
  mk_env (r_now r) (r_issued r) (r_last r) copy.

Section Heap.
Context `{RilHeader} `{Allocator}.
Context (sReissueTokens : Z).

(** ** The framework's thread *)

(** cacheInitialAttachApn before it takes the lock: the copy, if one was made. *)
Definition cache_copy (socketId : Z) (data : option ia_mem) (datalen : Z) (h : heap)
    : option (option ia_mem * heap) :=
  if (socketId <? 0) || (SIM_COUNT <=? socketId) then Some (None, h) else
  match data with
  | None => Some (None, h)
  | Some src =>
      if negb (datalen =? sizeof_MtkInitialAttachApn) then Some (None, h) else
      '(ok, fresh, h) ← copyIa src h;
      Some (if (ok : bool) then Some fresh else None, h)
  end.

(** Under the lock. *)
Definition cache_publish (i : nat) (fresh : ia_mem) (st : ia_cells) (h : heap) : option (ia_cells * heap) :=
  cached ← sIaCached st !! i;
  old ← sIaCache st !! i;
  '(_, h) ← (if (cached : bool) then freeIaStrings old h else Some (old, h));
  Some (set_cached i fresh st, h).

(** The two together are the function of [RilIaMem]. *)
Lemma cache_split socketId data datalen st h :
  cacheInitialAttachApn socketId data datalen (mk_ia_cache (sIaCache st) (sIaCached st) h) =
    ('(copy, h) ← cache_copy socketId data datalen h;
     match copy with
     | None => Some (mk_ia_cache (sIaCache st) (sIaCached st) h)
     | Some fresh =>
         '(st, h) ← cache_publish (Z.to_nat socketId) fresh st h;
         Some (mk_ia_cache (sIaCache st) (sIaCached st) h)
     end).
Proof.
  unfold cacheInitialAttachApn, cache_copy, cache_publish. cbn [ic_cache ic_cached ic_heap].
  destruct (_ || _); [done|]. destruct data as [src|]; [|done]. destruct (negb _); [done|].
  destruct (copyIa src h) as [[[[] fresh] h']|]; [|done|done]. cbn [mbind option_bind negb].
  destruct (sIaCached st !! _) as [[]|]; [| |done]; (destruct (sIaCache st !! _) as [old|]; [|done]); cbn [mbind option_bind]; [|done].
  by destruct (freeIaStrings old h') as [[z h'']|].
Qed.

(** ** The worker *)

Definition worker_result : Type := worker_at ia_mem * ia_cells * option (option timespec) * heap.

Definition issue_heap (socketId : nat) (r : readings) (st : ia_cells) (h : heap) : option worker_result :=
  match pick_token st with
  | None => Some (WHead, charge (r_last r) (set_pending socketId false st), Some (r_last r), h)
  | Some tokenIndex =>
      src ← sIaCache st !! socketId;
      '(ok, outgoing, h) ← copyIa src h;
      if negb ok then Some (WHead, charge (r_last r) st, Some (r_last r), h) else
      let deadline := match r_issued r with
                      | Some issuedAt => timespecToNs issuedAt + REISSUE_INFLIGHT_TIMEOUT_NS
                      | None => 0
                      end in
      let st := set_pending socketId false st in
      let st := set_flight true deadline st in
      let st := set_current tokenIndex st in
      let st := set_outstanding tokenIndex true st in
      let st := set_next ((socketId + 1) mod Z.to_nat SIM_COUNT) st in
      Some (WRequest tokenIndex socketId outgoing, charge (r_last r) st, Some (r_last r), h)
  end.

Definition loop_free_heap (r : readings) (st : ia_cells) (h : heap) : option worker_result :=
  match pick_socket st with
  | None => Some (WWait, st, None, h)
  | Some socketId =>
      match r_now r with
      | None => Some (WSleepRelative, st, None, h)
      | Some now =>
          let waitUntilNs :=
            if sIaLastIssueValid st then
              let earliest := timespecToNs (sIaLastIssue st) + REISSUE_MIN_INTERVAL_NS in
              if timespecToNs now <? earliest then earliest else 0
            else 0 in
          if negb (waitUntilNs =? 0) then Some (WSleepUntil waitUntilNs, st, None, h)
          else issue_heap socketId r st h
      end
  end.

Definition loop_head_heap (r : readings) (st : ia_cells) (h : heap) : option worker_result :=
  if sIaRequestInFlight st then
    if sIaInFlightDeadlineNs st =? 0
    then loop_free_heap r (set_flight false (sIaInFlightDeadlineNs st) st) h
    else Some (WTimedWait, st, None, h)
  else loop_free_heap r st h.

Definition after_timedwait_heap (afterWait : option timespec) (r : readings) (st : ia_cells) (h : heap)
    : option worker_result :=
  if negb (sIaRequestInFlight st) then loop_head_heap r st h else
  match afterWait with
  | None => loop_head_heap r (set_flight false 0 st) h
  | Some now =>
      if sIaInFlightDeadlineNs st <=? timespecToNs now
      then loop_head_heap r (set_flight false 0 st) h else loop_head_heap r st h
  end.

(** ** The process *)

(** [m_callers]: the copies of callers that have not published them; [m_others]: the
    blocks of the rest of the process. *)
Record msys := mk_msys {
  m_hooks : hook_env;
  m_ia : ia_cells;
  m_pc : worker_at ia_mem;
  m_woken : bool;
  m_vendor : list bool;
  m_clock : Z;
  m_attempts : list (option Z);
  m_trace : list ia_event;
  m_callers : list (nat * ia_mem);
  m_heap : heap;
  m_others : gmap Z (list Z);
}.

(** The pointers the shim owns. *)
Definition cell_ptrs (st : ia_cells) : list Z := mjoin (zip_with entry_ptrs (sIaCache st) (sIaCached st)).
Definition caller_ptrs (l : list (nat * ia_mem)) : list Z := concat (ia_strings ∘ snd <$> l).
Definition pc_ptrs (pc : worker_at ia_mem) : list Z :=
  match pc with WRequest _ _ outgoing => ia_strings outgoing | _ => [] end.
Definition owned (m : msys) : list Z := cell_ptrs (m_ia m) ++ caller_ptrs (m_callers m) ++ pc_ptrs (m_pc m).

Definition with_cells (st : ia_cells) (h : heap) (callers : list (nat * ia_mem)) (m : msys) : msys :=
  mk_msys (m_hooks m) st (m_pc m) (m_woken m) (m_vendor m) (m_clock m) (m_attempts m) (m_trace m)
    callers h (m_others m).

Definition with_worker (r : worker_result) (clock : Z) (m : msys) : msys :=
  let '(pc, st, att, h) := r in
  mk_msys (m_hooks m) st pc false (m_vendor m) clock (add_attempt att (m_attempts m)) (m_trace m)
    (m_callers m) h (m_others m).

Definition with_hook (r : list ia_event * bool * ia_cells) (vendor : list bool) (m : msys) : msys :=
  let '(ev, signal, st) := r in
  mk_msys (m_hooks m) st (m_pc m) (m_woken m || signal) vendor (m_clock m) (m_attempts m) (m_trace m ++ ev)
    (m_callers m) (m_heap m) (m_others m).

(** The worker's unlocked call, on the copy as it is in memory, and the free after it. *)
Definition with_request (token socketId : nat) (outgoing : ia_mem) (h : heap) (m : msys) : msys :=
  mk_msys (m_hooks m) (m_ia m) WHead false (<[token := true]> (m_vendor m)) (m_clock m) (m_attempts m)
    (m_trace m ++ [send_request sReissueTokens token socketId (view (h_live (m_heap m)) outgoing)])
    (m_callers m) h (m_others m).

Definition with_live (live : gmap Z (list Z)) (calls : nat) (m : msys) : msys :=
  mk_msys (m_hooks m) (m_ia m) (m_pc m) (m_woken m) (m_vendor m) (m_clock m) (m_attempts m) (m_trace m)
    (m_callers m) (mk_heap live (h_freed (m_heap m)) calls) (delete_ptrs (owned m) live).

Definition with_trace (ev : ia_event) (m : msys) : msys :=
  mk_msys (m_hooks m) (m_ia m) (m_pc m) (m_woken m) (m_vendor m) (m_clock m) (m_attempts m) (m_trace m ++ [ev])
    (m_callers m) (m_heap m) (m_others m).

Definition awake (m : msys) : msys :=
  mk_msys (m_hooks m) (m_ia m) WHead false (m_vendor m) (m_clock m) (m_attempts m) (m_trace m)
    (m_callers m) (m_heap m) (m_others m).

(** A payload the caller may pass: strings it keeps alive during the call. *)
Definition payload_ok (data : option ia_mem) (h : heap) : Prop :=
  forall src, data = Some src -> Forall (valid_str (h_live h)) (ia_strings src).

Definition took_copy (socketId : Z) (copy : option ia_mem) (l : list (nat * ia_mem)) : list (nat * ia_mem) :=
  match copy with Some fresh => (Z.to_nat socketId, fresh) :: l | None => l end.

Inductive mstep : msys -> msys -> Prop :=
(* the rest of the process does not touch the shim's blocks *)
| mstep_others m live calls :
    (forall k, k ∈ nonnull (owned m) -> live !! k = h_live (m_heap m) !! k) -> mstep m (with_live live calls m)
| mstep_copy m socketId data datalen copy h :
    payload_ok data (m_heap m) -> cache_copy socketId data datalen (m_heap m) = Some (copy, h) ->
    mstep m (with_cells (m_ia m) h (took_copy socketId copy (m_callers m)) m)
| mstep_publish m j i fresh st h :
    m_callers m !! j = Some (i, fresh) -> cache_publish i fresh (m_ia m) (m_heap m) = Some (st, h) ->
    mstep m (with_cells st h (delete j (m_callers m)) m)
| mstep_forward m ia datalen t socketId :
    isReissueToken sReissueTokens t = false ->
    mstep m (with_trace (RealRequest RIL_REQUEST_SET_INITIAL_ATTACH_APN ia datalen t socketId) m)
| mstep_unsol m code data datalen socketId :
    mstep m (with_hook (unsolHook code data datalen socketId (m_hooks m) (m_ia m)) (m_vendor m) m)
| mstep_complete_foreign m t e resp len :
    isReissueToken sReissueTokens t = false ->
    mstep m (with_hook (completeHook sReissueTokens t e resp len (m_hooks m) (m_ia m)) (m_vendor m) m)
| mstep_complete_own m i e resp len :
    (i < REISSUE_TOKEN_SLOTS)%nat -> flag (m_vendor m) i = true ->
    mstep m (with_hook (completeHook sReissueTokens (REISSUE_TOKEN_AT sReissueTokens i) e resp len (m_hooks m) (m_ia m))
               (<[i := false]> (m_vendor m)) m)
| mstep_head m r clock res :
    m_pc m = WHead \/ m_pc m = WWait -> clock_ok (m_clock m) [r_now r; r_issued r; r_last r] clock ->
    loop_head_heap r (m_ia m) (m_heap m) = Some res -> mstep m (with_worker res clock m)
| mstep_wake_timed m after r clock res :
    m_pc m = WTimedWait -> clock_ok (m_clock m) [after; r_now r; r_issued r; r_last r] clock ->
    after_timedwait_heap after r (m_ia m) (m_heap m) = Some res -> mstep m (with_worker res clock m)
| mstep_slept m :
    (m_pc m = WSleepRelative \/ exists d, m_pc m = WSleepUntil d) -> mstep m (awake m)
| mstep_request m token socketId outgoing z h :
    m_pc m = WRequest token socketId outgoing -> freeIaStrings outgoing (m_heap m) = Some (z, h) ->
    mstep m (with_request token socketId outgoing h m).

(** The process when the hooks become active: whatever is in its heap is others'. *)
Definition msys_init (hk : hook_env) (clock : Z) (h : heap) : msys :=
  mk_msys hk (mk_ia_state [zero_ia; zero_ia] [false; false] [false; false] false 0 false (mk_ts 0 0) 0 0
                (replicate REISSUE_TOKEN_SLOTS false))
    WHead false (replicate REISSUE_TOKEN_SLOTS false) clock [] [] [] h (h_live h).

Definition mreachable (m : msys) : Prop :=
  exists hk clock h, 0 <= clock /\ rtc mstep (msys_init hk clock h) m.

(** ** Owned blocks *)

Lemma delete_ptrs_perm ps qs m : ps ≡ₚ qs -> delete_ptrs ps m = delete_ptrs qs m.
Proof.
  intros Hp. apply map_eq. intros k. rewrite !lookup_delete_ptrs. apply decide_ext.
  unfold nonnull. by rewrite Hp.
Qed.

Lemma owns_valid m ps : owns m ps -> Forall (valid_str m) ps.
Proof.
  intros [_ Ho]. eapply Forall_impl; [exact Ho|]. intros p [->|(s & Hs & Hl)]; [by left|].
  right. exists (s ++ [NUL]). split; [done|]. exists s. by apply cstr_app.
Qed.

(** The blocks [ps] of [live] are as they were in [live']. *)
Definition kept (ps : list Z) (live live' : gmap Z (list Z)) : Prop :=
  forall k, k ∈ nonnull ps -> live' !! k = live !! k.

(** What the shim owns goes from [ps] in [live] to [qs] in [live'], and nothing else changes. *)
Definition hands_over (ps : list Z) (live : gmap Z (list Z)) (qs : list Z) (live' : gmap Z (list Z)) : Prop :=
  owns live' qs /\ delete_ptrs qs live' = delete_ptrs ps live.

Lemma owned_add live live' srcs dsts ps :
  owns live ps -> copied live live' srcs dsts true -> hands_over ps live (ps ++ dsts) live' /\ kept ps live live'.
Proof.
  intros Ho Hc. pose proof (copied_owns _ _ _ _ _ Hc) as Hd. destruct Hc as (_ & Hsame & Hnew & _).
  assert (forall k, k ∈ nonnull ps -> k ∉ nonnull dsts) as Hfresh.
  { intros k Hk Hin. destruct (owns_live _ _ _ Ho Hk) as [b Hb]. rewrite Hnew in Hb; done. }
  assert (kept ps live live') as Hk by (intros k Hk; apply Hsame, Hfresh, Hk). split; [|done]. split.
  - apply owns_app. split_and!; [by eapply owns_same|done|done].
  - apply map_eq. intros k. rewrite !lookup_delete_ptrs, nonnull_app.
    destruct (decide (k ∈ nonnull ps)) as [Hin|Hni].
    + by rewrite decide_True by (apply elem_of_app; by left).
    + destruct (decide (k ∈ nonnull dsts)) as [Hin|Hnd].
      * rewrite decide_True by (apply elem_of_app; by right). by rewrite Hnew.
      * rewrite decide_False by (rewrite elem_of_app; tauto). by apply Hsame.
Qed.

Lemma owned_drop live qs ps :
  owns live (qs ++ ps) ->
  hands_over (qs ++ ps) live ps (delete_ptrs qs live) /\ kept ps live (delete_ptrs qs live).
Proof.
  intros (Hq & Hp & Hd)%owns_app.
  assert (kept ps live (delete_ptrs qs live)) as Hk.
  { intros k Hk. rewrite lookup_delete_ptrs, decide_False; [done|]. intros Hin. by apply (Hd k). }
  split; [|done]. split; [by eapply owns_same|].
  apply map_eq. intros k. rewrite !lookup_delete_ptrs, nonnull_app.
  destruct (decide (k ∈ nonnull ps)) as [Hin|Hni].
  - by rewrite decide_True by (apply elem_of_app; by right).
  - destruct (decide (k ∈ nonnull qs)) as [Hin|Hnq].
    + by rewrite decide_True by (apply elem_of_app; by left).
    + by rewrite decide_False by (rewrite elem_of_app; tauto).
Qed.

Lemma hands_over_refl ps live : owns live ps -> hands_over ps live ps live.
Proof. done. Qed.

Lemma hands_over_perm ps ps' live qs qs' live' :
  hands_over ps live qs live' -> ps ≡ₚ ps' -> qs ≡ₚ qs' -> hands_over ps' live qs' live'.
Proof.
  intros [Ho Hd] Hp Hq. split; [by eapply owns_perm|].
  by rewrite <- (delete_ptrs_perm _ _ _ Hp), <- (delete_ptrs_perm _ _ _ Hq).
Qed.

(** ** What the pointers stand for *)

Definition abs_ia (live : gmap Z (list Z)) (st : ia_cells) : ia_state :=
  mk_ia_state (view live <$> sIaCache st) (sIaCached st) (sIaPending st) (sIaRequestInFlight st)
    (sIaInFlightDeadlineNs st) (sIaLastIssueValid st) (sIaLastIssue st) (sIaNextSocket st)
    (sIaCurrentTokenIndex st) (sIaTokenOutstanding st).

Definition abs_pc (live : gmap Z (list Z)) (pc : worker_at ia_mem) : worker_pc :=
  match pc with
  | WHead => WHead | WWait => WWait | WTimedWait => WTimedWait
  | WSleepUntil d => WSleepUntil d | WSleepRelative => WSleepRelative
  | WRequest token socketId outgoing => WRequest token socketId (view live outgoing)
  end.

Definition abs (m : msys) : sys :=
  let live := h_live (m_heap m) in
  mk_sys (m_hooks m) (abs_ia live (m_ia m)) (abs_pc live (m_pc m)) (m_woken m) (m_vendor m) (m_clock m)
    (m_attempts m) (m_trace m).

(** Two entries; one that was never stored is all null. *)
Record cells_ok (st : ia_cells) : Prop := {
  co_cache : length (sIaCache st) = 2%nat;
  co_cached : length (sIaCached st) = 2%nat;
  co_zero : forall i ia, sIaCache st !! i = Some ia -> sIaCached st !! i = Some false -> ia = zero_ia;
}.

Lemma abs_ia_kept live live' st : cells_ok st -> kept (cell_ptrs st) live live' -> abs_ia live' st = abs_ia live st.
Proof.
  intros [Hl Hc Hz] Hk. unfold abs_ia. f_equal. unfold cell_ptrs, kept in Hk.
  destruct (sIaCache st) as [|a [|b [|]]], (sIaCached st) as [|x [|y [|]]]; try done.
  cbn in Hk. rewrite app_nil_r in Hk. setoid_rewrite nonnull_app in Hk. setoid_rewrite elem_of_app in Hk.
  assert (forall ia (c : bool), (c = false -> ia = zero_ia) -> (forall k, k ∈ nonnull (entry_ptrs ia c) -> live' !! k = live !! k) ->
    view live' ia = view live ia) as Hv.
  { intros ia [] Hnull Hs; [by apply view_same|]. by rewrite Hnull. }
  cbn. f_equal; [|f_equal]; eapply Hv; try (intros k Hin; apply Hk; by eauto); intros ->.
  - by apply (Hz 0%nat).
  - by apply (Hz 1%nat).
Qed.

Lemma abs_pc_kept live live' pc : kept (pc_ptrs pc) live live' -> abs_pc live' pc = abs_pc live pc.
Proof. intros Hk. destruct pc; try done. cbn. f_equal. by apply view_same. Qed.

Lemma kept_app ps qs live live' : kept (ps ++ qs) live live' <-> kept ps live live' /\ kept qs live live'.
Proof.
  unfold kept. setoid_rewrite nonnull_app. setoid_rewrite elem_of_app. split; [auto|]. intros [? ?] k [?|?]; auto.
Qed.

(** ** The sections of the worker *)

(** A section that starts with the cells [st] and the blocks [ps] of others in the
    shim ends without a fault, as the section on values does for some outcome of the
    copy, and leaves owned what the worker took. *)
Definition section_ok (st : ia_cells) (ps : list Z) (h : heap) (run : option worker_result)
    (ref : bool -> worker_pc * ia_state * option (option timespec)) : Prop :=
  exists pc st' att h' copy, run = Some (pc, st', att, h') /\
    ref copy = (abs_pc (h_live h') pc, abs_ia (h_live h') st', att) /\
    sIaCache st' = sIaCache st /\ sIaCached st' = sIaCached st /\
    hands_over (cell_ptrs st ++ ps) (h_live h) ((cell_ptrs st ++ ps) ++ pc_ptrs pc) (h_live h').

Lemma section_stays st ps h pc st' att ref :
  owns (h_live h) (cell_ptrs st ++ ps) -> pc_ptrs pc = [] ->
  sIaCache st' = sIaCache st -> sIaCached st' = sIaCached st ->
  (exists copy, ref copy = (abs_pc (h_live h) pc, abs_ia (h_live h) st', att)) ->
  section_ok st ps h (Some (pc, st', att, h)) ref.
Proof.
  intros Ho Hpc Hc Hf [copy Hr]. exists pc, st', att, h, copy. split_and!; try done.
  by rewrite Hpc, app_nil_r.
Qed.

(** The flags may have changed before the section starts. *)
Lemma section_from st st0 ps h run ref :
  sIaCache st = sIaCache st0 -> sIaCached st = sIaCached st0 -> section_ok st ps h run ref -> section_ok st0 ps h run ref.
Proof. unfold section_ok, cell_ptrs. by intros -> ->. Qed.

Lemma cell_owned st i ia live ps :
  owns live (cell_ptrs st ++ ps) -> sIaCache st !! i = Some ia -> sIaCached st !! i = Some true -> owns live (ia_strings ia).
Proof.
  intros (Ho & _)%owns_app Hi Hc. unfold cell_ptrs in Ho. revert i Hi Hc. revert Ho.
  generalize (sIaCached st). induction (sIaCache st) as [|a l IH]; intros fl Ho i Hi Hc; [done|].
  destruct fl as [|f fl]; [done|]. cbn in Ho. apply owns_app in Ho as (Ha & Hl & _).
  destruct i as [|i]; [injection Hi as ->; by injection Hc as ->|by eapply IH].
Qed.

Lemma flag_true l i : flag l i = true -> l !! i = Some true.
Proof. unfold flag. destruct (l !! i); [|done]. cbn; by intros ->. Qed.

Lemma issue_section k r st ps h :
  cells_ok st -> owns (h_live h) (cell_ptrs st ++ ps) -> (k < 2)%nat -> flag (sIaCached st) k = true ->
  section_ok st ps h (issue_heap k r st h) (fun copy => issue k (env_of r copy) (abs_ia (h_live h) st)).
Proof.
  intros Hc Ho Hk Hf. unfold issue_heap, issue. change (pick_token (abs_ia (h_live h) st)) with (pick_token st).
  destruct (pick_token st) as [tok|]; [|by apply section_stays; [..|by exists true]].
  destruct (lookup_lt_is_Some_2 (sIaCache st) k) as [src Hsrc]; [rewrite (co_cache _ Hc); lia|].
  rewrite Hsrc. cbn [mbind option_bind].
  destruct (copy_ia_ok src h) as (ok & dst & h' & log & -> & _ & Hok).
  { eapply owns_valid, cell_owned; [exact Ho|exact Hsrc|by apply flag_true]. }
  cbn [mbind option_bind]. destruct ok; cbn [negb].
  - destruct Hok as (_ & Hview & Hcp). destruct (owned_add _ _ _ _ _ Ho Hcp) as [Hh [Hkept _]%kept_app].
    eexists _, _, _, _, true. split; [reflexivity|]. cbn [e_copy env_of negb sIaCache abs_ia].
    rewrite list_lookup_fmap, Hsrc. cbn [fmap option_fmap option_map default].
    split; [|by split_and!]. rewrite <- Hview. cbn [abs_pc]. f_equal. f_equal.
    assert (view (h_live h') <$> sIaCache st = view (h_live h) <$> sIaCache st) as Hcache by exact (f_equal sIaCache (abs_ia_kept _ _ st Hc Hkept)).
    unfold abs_ia. cbn. by rewrite Hcache.
  - destruct Hok as (_ & Hlive & _). exists WHead, (charge (r_last r) st), (Some (r_last r)), h', false.
    split; [reflexivity|]. rewrite Hlive. split_and!; try done. cbn [pc_ptrs]. by rewrite app_nil_r.
Qed.

Lemma loop_free_section r st ps h :
  cells_ok st -> owns (h_live h) (cell_ptrs st ++ ps) ->
  section_ok st ps h (loop_free_heap r st h) (fun copy => loop_free (env_of r copy) (abs_ia (h_live h) st)).
Proof.
  intros Hc Ho. unfold loop_free_heap, loop_free. change (pick_socket (abs_ia (h_live h) st)) with (pick_socket st).
  cbn [e_now env_of sIaLastIssueValid sIaLastIssue abs_ia].
  destruct (pick_socket st) as [k|] eqn:Hk; [|by apply section_stays; [..|by exists true]].
  apply pick_socket_some in Hk as (Hk & _ & Hf).
  destruct (r_now r) as [now|]; [|by apply section_stays; [..|by exists true]]. cbv zeta.
  destruct (negb _); [by apply section_stays; [..|by exists true]|]. by apply issue_section.
Qed.

Lemma loop_head_section r st ps h :
  cells_ok st -> owns (h_live h) (cell_ptrs st ++ ps) ->
  section_ok st ps h (loop_head_heap r st h) (fun copy => loop_head (env_of r copy) (abs_ia (h_live h) st)).
Proof.
  intros Hc Ho. unfold loop_head_heap, loop_head. cbn [sIaRequestInFlight sIaInFlightDeadlineNs abs_ia].
  destruct (sIaRequestInFlight st); [|by apply loop_free_section].
  destruct (_ =? 0); [|by apply section_stays; [..|by exists true]].
  eapply section_from; [| |apply loop_free_section]; try done. by destruct Hc.
Qed.

Lemma after_timedwait_section after r st ps h :
  cells_ok st -> owns (h_live h) (cell_ptrs st ++ ps) ->
  section_ok st ps h (after_timedwait_heap after r st h)
    (fun copy => after_timedwait after (env_of r copy) (abs_ia (h_live h) st)).
Proof.
  intros Hc Ho. unfold after_timedwait_heap, after_timedwait. cbn [sIaRequestInFlight sIaInFlightDeadlineNs abs_ia].
  assert (forall d, section_ok st ps h (loop_head_heap r (set_flight false d st) h)
    (fun copy => loop_head (env_of r copy) (set_flight false d (abs_ia (h_live h) st)))) as Hoff.
  { intros d. eapply section_from; [| |apply loop_head_section]; try done. by destruct Hc. }
  destruct (negb _); [by apply loop_head_section|]. destruct after as [now|]; [|apply Hoff].
  destruct (_ <=? _); [apply Hoff|by apply loop_head_section].
Qed.

(** ** The framework's thread and the hooks *)

Lemma cache_copy_ok socketId data datalen h :
  payload_ok data h ->
  exists copy h', cache_copy socketId data datalen h = Some (copy, h') /\
    match copy with
    | None => h_live h' = h_live h
    | Some fresh => (Z.to_nat socketId < 2)%nat /\ exists srcs, copied (h_live h) (h_live h') srcs (ia_strings fresh) true
    end.
Proof.
  intros Hd. unfold cache_copy. destruct (_ || _) eqn:E; [by exists None, h|].
  destruct data as [src|]; [|by exists None, h]. destruct (negb _); [by exists None, h|].
  destruct (copy_ia_ok src h (Hd src eq_refl)) as (ok & dst & h' & log & -> & _ & Hok). cbn [mbind option_bind].
  destruct ok; eexists _, _; (split; [reflexivity|]); [|tauto].
  unfold SIM_COUNT in E. zb. split; [lia|]. exists (ia_strings src). tauto.
Qed.

(** The entry that goes, and the one that stays. *)
Lemma cell_ptrs_entries st i :
  cells_ok st -> (i < 2)%nat ->
  exists old c other oc, sIaCache st !! i = Some old /\ sIaCached st !! i = Some c /\
    cell_ptrs st ≡ₚ entry_ptrs old c ++ entry_ptrs other oc /\
    (forall fresh, cell_ptrs (set_cached i fresh st) ≡ₚ ia_strings fresh ++ entry_ptrs other oc) /\
    (c = false -> old = zero_ia) /\ (oc = false -> other = zero_ia) /\
    forall A (f g : ia_mem -> A) fresh, f other = g other ->
      f <$> sIaCache (set_cached i fresh st) = <[i := f fresh]> (g <$> sIaCache st).
Proof.
  intros [Hl Hc Hz] Hi. unfold cell_ptrs, set_cached. cbn [sIaCache sIaCached].
  destruct (sIaCache st) as [|a [|b [|]]], (sIaCached st) as [|x [|y [|]]]; try done.
  destruct i as [|[|i]]; [| |lia]; cbn.
  - exists a, x, b, y. split_and!; try done.
    + by rewrite app_nil_r.
    + intros fresh. change (ia_strings fresh ++ entry_ptrs b y ++ [] ≡ₚ ia_strings fresh ++ entry_ptrs b y). by rewrite app_nil_r.
    + intros ->. by apply (Hz 0%nat).
    + intros ->. by apply (Hz 1%nat).
    + by intros A f g fresh ->.
  - exists b, y, a, x. split_and!; try done.
    + rewrite app_nil_r. apply Permutation_app_comm.
    + intros fresh. change (entry_ptrs a x ++ ia_strings fresh ++ [] ≡ₚ ia_strings fresh ++ entry_ptrs a x).
      rewrite app_nil_r. apply Permutation_app_comm.
    + intros ->. by apply (Hz 1%nat).
    + intros ->. by apply (Hz 0%nat).
    + by intros A f g fresh ->.
Qed.

Lemma cells_ok_stored i fresh st : cells_ok st -> cells_ok (set_cached i fresh st).
Proof.
  intros [Hl Hc Hz]. split; cbn [sIaCache sIaCached set_cached]; rewrite ?length_insert; [done..|].
  intros j ia Hj Hf. destruct (decide (i = j)) as [->|Hne].
  - destruct (decide (j < length (sIaCached st))%nat) as [Hlt|Hge].
    + by rewrite list_lookup_insert_eq in Hf.
    + apply lookup_lt_Some in Hf. rewrite length_insert in Hf. lia.
  - rewrite list_lookup_insert_ne in Hj by done. rewrite list_lookup_insert_ne in Hf by done. by eapply Hz.
Qed.

Lemma unsolHook_abs code data datalen socketId hk live st :
  let '(ev, signal, st') := unsolHook code data datalen socketId hk st in
  unsolHook code data datalen socketId hk (abs_ia live st) = (ev, signal, abs_ia live st') /\
  sIaCache st' = sIaCache st /\ sIaCached st' = sIaCached st.
Proof.
  unfold unsolHook. cbn [sIaCached abs_ia].
  destruct (_ && _); [destruct (flag _ _)|]; destruct (sRealOnUnsol hk =? NULL); by split_and!.
Qed.

Lemma completeHook_abs t e resp len hk live st :
  let '(ev, signal, st') := completeHook sReissueTokens t e resp len hk st in
  completeHook sReissueTokens t e resp len hk (abs_ia live st) = (ev, signal, abs_ia live st') /\
  sIaCache st' = sIaCache st /\ sIaCached st' = sIaCached st.
Proof.
  unfold completeHook. cbn [sIaTokenOutstanding sIaRequestInFlight sIaCurrentTokenIndex abs_ia].
  destruct (isReissueToken sReissueTokens t); [destruct (_ && _)|destruct (_ =? NULL)]; by split_and!.
Qed.

(** ** The invariant *)

Record minv (m : msys) : Prop := {
  mi_cells : cells_ok (m_ia m);
  mi_callers : Forall (fun c => (c.1 < 2)%nat) (m_callers m);
  mi_owns : owns (h_live (m_heap m)) (owned m);
  mi_others : m_others m = delete_ptrs (owned m) (h_live (m_heap m));
}.

Lemma cells_ok_same st st' :
  sIaCache st' = sIaCache st -> sIaCached st' = sIaCached st -> cells_ok st -> cells_ok st'.
Proof. intros H1 H2 [Hl Hc Hz]. split; rewrite ?H1, ?H2; done. Qed.

Lemma minv_hands_over m m' :
  minv m -> cells_ok (m_ia m') -> Forall (fun c => (c.1 < 2)%nat) (m_callers m') -> m_others m' = m_others m ->
  hands_over (owned m) (h_live (m_heap m)) (owned m') (h_live (m_heap m')) -> minv m'.
Proof. intros [_ _ _ Hot] Hc Hl Ho [Hown Hd]. split; try done. by rewrite Ho, Hot, Hd. Qed.

Lemma minv_hook m r vendor :
  minv m -> sIaCache r.2 = sIaCache (m_ia m) -> sIaCached r.2 = sIaCached (m_ia m) -> minv (with_hook r vendor m).
Proof.
  destruct r as [[ev signal] st']. cbn [snd]. intros Hi H1 H2. destruct Hi as [Hc Hl Ho Hot].
  split; cbn [with_hook m_ia m_callers m_heap m_others]; unfold owned, cell_ptrs in *; cbn [with_hook m_ia m_callers m_heap m_pc m_others]; rewrite ?H1, ?H2; try done.
  by eapply cells_ok_same.
Qed.

Lemma abs_kept live calls m :
  minv m -> kept (owned m) (h_live (m_heap m)) live -> abs (with_live live calls m) = abs m.
Proof.
  intros Hi [Hc [_ Hp]%kept_app]%kept_app. unfold abs. cbn [with_live m_heap h_live m_ia m_pc].
  by rewrite (abs_ia_kept _ _ _ (mi_cells _ Hi) Hc), (abs_pc_kept _ _ _ Hp).
Qed.

(** ** Every step is one on values, or none *)

Notation vstep := (RilAttachApn.step sReissueTokens).

Definition simulates (m m' : msys) : Prop := minv m' /\ (abs m' = abs m \/ vstep (abs m) (abs m')).

Lemma others_simulates m live calls :
  minv m -> (forall k, k ∈ nonnull (owned m) -> live !! k = h_live (m_heap m) !! k) ->
  simulates m (with_live live calls m).
Proof.
  intros Hi Hk. split; [|left; by apply abs_kept]. destruct Hi as [Hc Hl Ho Hot].
  split; try done. by eapply owns_same.
Qed.

Lemma copy_simulates m socketId data datalen copy h :
  minv m -> payload_ok data (m_heap m) -> cache_copy socketId data datalen (m_heap m) = Some (copy, h) ->
  simulates m (with_cells (m_ia m) h (took_copy socketId copy (m_callers m)) m).
Proof.
  intros Hi Hd Hc. destruct (cache_copy_ok socketId data datalen _ Hd) as (copy' & h' & Hc' & Hok).
  rewrite Hc in Hc'. injection Hc' as <- <-. destruct copy as [fresh|].
  - destruct Hok as (Hs & srcs & Hcp). destruct (owned_add _ _ _ _ _ (mi_owns _ Hi) Hcp) as [Hh Hk]. split.
    + apply (minv_hands_over m); try done; [exact (mi_cells _ Hi)|constructor; [done|exact (mi_callers _ Hi)]|].
      eapply hands_over_perm; [exact Hh|done|]. unfold owned. cbn [with_cells m_ia m_callers m_pc took_copy].
      unfold caller_ptrs. cbn [fmap list_fmap concat]. change ((ia_strings ∘ snd) (Z.to_nat socketId, fresh)) with (ia_strings fresh).
      rewrite <- !app_assoc. solve_Permutation.
    + left. exact (abs_kept (h_live h) 0 m Hi Hk).
  - cbn [took_copy]. split; [|left; unfold abs; cbn [with_cells m_heap m_ia m_pc]; by rewrite Hok].
    destruct Hi as [Hce Hl Ho Hot]. split; try done; cbn [with_cells m_heap m_others]; rewrite Hok; done.
Qed.

Lemma publish_runs i fresh st h ps :
  cells_ok st -> (i < 2)%nat -> owns (h_live h) (cell_ptrs st ++ ps) ->
  exists old c h', sIaCache st !! i = Some old /\ sIaCached st !! i = Some c /\
    cache_publish i fresh st h = Some (set_cached i fresh st, h') /\
    h_live h' = delete_ptrs (entry_ptrs old c) (h_live h) /\
    (c = true -> exists log, h_freed h' = log ++ h_freed h /\ zeroed_secrets old log).
Proof.
  intros Hc Hi Ho. destruct (cell_ptrs_entries st i Hc Hi) as (old & c & other & oc & Hold & Hcd & Hp & _).
  exists old, c. unfold cache_publish. rewrite Hcd, Hold. cbn [mbind option_bind].
  destruct c; [|exists h; by split_and!].
  assert (owns (h_live h) (ia_strings old)) as Hown by by eapply cell_owned.
  destruct (free_ia_ok old h Hown) as (h' & log & -> & Hl & Hf & Hz). exists h'. split_and!; try done. by exists log.
Qed.

Lemma publish_simulates m j i fresh st h :
  minv m -> m_callers m !! j = Some (i, fresh) -> cache_publish i fresh (m_ia m) (m_heap m) = Some (st, h) ->
  simulates m (with_cells st h (delete j (m_callers m)) m).
Proof.
  intros Hi Hj Hr. pose proof (mi_cells _ Hi) as Hc.
  assert (i < 2)%nat as Hi2 by exact (Forall_lookup_1 _ _ _ _ (mi_callers _ Hi) Hj).
  destruct (publish_runs i fresh _ _ _ Hc Hi2 (mi_owns _ Hi)) as (old & c & h' & Hold & Hcd & Hr' & Hl & _).
  rewrite Hr in Hr'. injection Hr' as -> ->.
  destruct (cell_ptrs_entries _ i Hc Hi2) as (old' & c' & other & oc & Hold' & Hcd' & Hp & Hp' & _ & Hoz & Hfmap).
  rewrite Hold in Hold'. rewrite Hcd in Hcd'. injection Hold' as <-. injection Hcd' as <-.
  assert (caller_ptrs (m_callers m) ≡ₚ ia_strings fresh ++ caller_ptrs (delete j (m_callers m))) as Hcp.
  { unfold caller_ptrs. by rewrite (delete_Permutation _ _ _ Hj) at 1. }
  set (rest := entry_ptrs other oc ++ ia_strings fresh ++ caller_ptrs (delete j (m_callers m)) ++ pc_ptrs (m_pc m)).
  assert (owned m ≡ₚ entry_ptrs old c ++ rest) as Hown by (unfold owned, rest; rewrite Hp, Hcp; solve_Permutation).
  destruct (owned_drop (h_live (m_heap m)) (entry_ptrs old c) rest) as [Hh Hk]; [by eapply owns_perm, mi_owns|].
  rewrite <- Hl in Hh, Hk. unfold rest in Hk. rewrite !kept_app in Hk. destruct Hk as (Hk1 & _ & _ & Hk2). split.
  - apply (minv_hands_over m); try done; [by apply cells_ok_stored|exact (Forall_delete _ _ _ (mi_callers _ Hi))|].
    eapply hands_over_perm; [exact Hh|done|]. unfold rest, owned. cbn [with_cells m_ia m_callers m_pc]. rewrite (Hp' fresh). solve_Permutation.
  - right. assert (abs (with_cells (set_cached i fresh (m_ia m)) h' (delete j (m_callers m)) m) =
      cache_section i (view (h_live h') fresh) (abs m)) as ->; [|by apply step_cache].
    assert (view (h_live h') other = view (h_live (m_heap m)) other) as Hother.
    { destruct oc; [by apply view_same|by rewrite (Hoz eq_refl)]. }
    unfold abs, cache_section, cacheValue. cbn [with_cells m_heap m_ia m_pc]. rewrite (abs_pc_kept _ _ _ Hk2).
    unfold abs_ia at 1. by rewrite (Hfmap _ _ _ fresh Hother).
Qed.

(** The hooks: [hook] is one of them, on either kind of cells. *)
Lemma hook_simulates m ev signal st' vendor :
  minv m -> sIaCache st' = sIaCache (m_ia m) -> sIaCached st' = sIaCached (m_ia m) ->
  vstep (abs m) (hook_section (ev, signal, abs_ia (h_live (m_heap m)) st') vendor (abs m)) ->
  simulates m (with_hook (ev, signal, st') vendor m).
Proof. intros Hi H1 H2 Hs. split; [by apply (minv_hook m (ev, signal, st'))|by right]. Qed.

Lemma owned_resting m : pc_ptrs (m_pc m) = [] -> owned m = cell_ptrs (m_ia m) ++ caller_ptrs (m_callers m).
Proof. intros Hp. unfold owned. by rewrite Hp, app_nil_r. Qed.

(** A section of the worker, from a point where it holds no copy. *)
Lemma worker_simulates m run ref res clock :
  minv m -> pc_ptrs (m_pc m) = [] ->
  section_ok (m_ia m) (caller_ptrs (m_callers m)) (m_heap m) run ref -> run = Some res ->
  (forall copy, vstep (abs m) (worker_section (ref copy) clock (abs m))) ->
  simulates m (with_worker res clock m).
Proof.
  intros Hi Hp (pc & st' & att & h' & copy & Hrun & Href & H1 & H2 & Hh) Hres Hs. rewrite Hres in Hrun. injection Hrun as ->. split.
  - apply (minv_hands_over m); try done; [by apply (cells_ok_same (m_ia m)); [..|apply (mi_cells _ Hi)]|exact (mi_callers _ Hi)|].
    rewrite (owned_resting _ Hp). eapply hands_over_perm; [exact Hh|done|].
    unfold owned, cell_ptrs. cbn [with_worker m_ia m_callers m_pc]. rewrite H1, H2. by rewrite <- app_assoc.
  - right. specialize (Hs copy). rewrite Href in Hs. exact Hs.
Qed.

Lemma request_simulates m token socketId outgoing z h :
  minv m -> m_pc m = WRequest token socketId outgoing -> freeIaStrings outgoing (m_heap m) = Some (z, h) ->
  simulates m (with_request token socketId outgoing h m).
Proof.
  intros Hi Hpc Hf. pose proof (mi_owns _ Hi) as Ho.
  set (rest := cell_ptrs (m_ia m) ++ caller_ptrs (m_callers m)).
  assert (owned m ≡ₚ ia_strings outgoing ++ rest) as Hp.
  { unfold owned, rest. rewrite Hpc. cbn [pc_ptrs]. solve_Permutation. }
  apply (owns_perm _ _ _ Hp) in Ho. pose proof (proj1 (proj1 (owns_app _ _ _) Ho)) as Hout.
  destruct (free_ia_ok outgoing _ Hout) as (h' & log & Hf' & Hl & _). rewrite Hf in Hf'. injection Hf' as -> ->.
  destruct (owned_drop _ _ _ Ho) as [Hh Hk]. rewrite <- Hl in Hh, Hk. split.
  - apply (minv_hands_over m); try done; [exact (mi_cells _ Hi)|exact (mi_callers _ Hi)|].
    eapply hands_over_perm; [exact Hh|done|]. unfold owned, rest. cbn. by rewrite app_nil_r.
  - right. apply kept_app in Hk as [Hk _]. pose proof (abs_ia_kept _ _ _ (mi_cells _ Hi) Hk) as Habs.
    assert (abs (with_request token socketId outgoing h' m) =
      request_done sReissueTokens token socketId (view (h_live (m_heap m)) outgoing) (abs m)) as ->.
    { unfold abs at 1. cbn [with_request m_heap m_ia m_pc]. by rewrite Habs. }
    apply step_request. unfold abs. cbn [s_pc]. by rewrite Hpc.
Qed.

Lemma mstep_simulates m m' : minv m -> mstep m m' -> simulates m m'.
Proof.
  intros Hi Hs. destruct Hs as [m live calls Hk|m socketId data datalen copy h Hd Hc|m j i fresh st h Hj Hr|m ia datalen t socketId Ht
    |m code data datalen socketId|m t e resp len Ht|m i e resp len Hlt Hv|m r clock res Hpc Hck Hr|m after r clock res Hpc Hck Hr
    |m Hpc|m token socketId outgoing z h Hpc Hf].
  - by apply others_simulates.
  - by eapply copy_simulates.
  - by eapply publish_simulates.
  - split; [by destruct Hi|]. right. by apply (step_forward _ (abs m)).
  - pose proof (unsolHook_abs code data datalen socketId (m_hooks m) (h_live (m_heap m)) (m_ia m)) as Hu.
    destruct (unsolHook code data datalen socketId (m_hooks m) (m_ia m)) as [[ev signal] st']. destruct Hu as (Hu & H1 & H2).
    apply hook_simulates; try done. rewrite <- Hu. apply (step_unsol _ (abs m)).
  - pose proof (completeHook_abs t e resp len (m_hooks m) (h_live (m_heap m)) (m_ia m)) as Hu.
    destruct (completeHook sReissueTokens t e resp len (m_hooks m) (m_ia m)) as [[ev signal] st']. destruct Hu as (Hu & H1 & H2).
    apply hook_simulates; try done. rewrite <- Hu. by apply (step_complete_foreign _ (abs m)).
  - pose proof (completeHook_abs (REISSUE_TOKEN_AT sReissueTokens i) e resp len (m_hooks m) (h_live (m_heap m)) (m_ia m)) as Hu.
    destruct (completeHook _ _ e resp len (m_hooks m) (m_ia m)) as [[ev signal] st']. destruct Hu as (Hu & H1 & H2).
    apply hook_simulates; try done. rewrite <- Hu. by apply (step_complete_own _ (abs m)).
  - assert (pc_ptrs (m_pc m) = []) as Hp by by destruct Hpc as [->| ->].
    eapply worker_simulates; [done|done|apply loop_head_section; [by apply mi_cells|rewrite <- owned_resting by done; by apply mi_owns]|exact Hr|].
    intros copy. destruct Hpc as [Hpc|Hpc]; [apply (step_head _ (abs m) (env_of r copy))|apply (step_wake _ (abs m) (env_of r copy))];
      try done; cbn; by rewrite Hpc.
  - assert (pc_ptrs (m_pc m) = []) as Hp by by rewrite Hpc.
    eapply worker_simulates; [done|done|apply after_timedwait_section; [by apply mi_cells|rewrite <- owned_resting by done; by apply mi_owns]|exact Hr|].
    intros copy. apply (step_wake_timed _ (abs m) after (env_of r copy)); [|done]. cbn. by rewrite Hpc.
  - assert (pc_ptrs (m_pc m) = []) as Hp by by destruct Hpc as [->|[d ->]]. split.
    + destruct Hi as [Hc Hl Ho Hot]. rewrite owned_resting in Ho, Hot by done.
      split; try done; rewrite owned_resting by done; done.
    + right. apply (step_slept _ (abs m)). cbn. destruct Hpc as [->|[d ->]]; [by left|right; by exists d].
  - by eapply request_simulates.
Qed.

(** ** The theorems *)

Lemma minv_init hk clock h : minv (msys_init hk clock h).
Proof.
  split; [|constructor|split; [apply NoDup_nil_2|constructor]|done]. split; [done..|].
  intros [|[|i]] ia; [by intros [= <-]|by intros [= <-]|done].
Qed.

Lemma mreachable_inv m : mreachable m -> minv m /\ reachable sReissueTokens (abs m).
Proof.
  intros (hk & clock & h & Hc & Hr).
  assert (minv m /\ rtc vstep (abs (msys_init hk clock h)) (abs m)) as [Hi Hrun].
  { pose proof (minv_init hk clock h) as Hi. induction Hr as [m|m m1 m2 Hs Hr IH]; [done|].
    destruct (mstep_simulates _ _ Hi Hs) as [Hi1 Hst]. destruct (IH Hi1) as [Hi2 Hrun]. split; [done|].
    destruct Hst as [<-|Hst]; [done|by eapply rtc_l]. }
  split; [done|]. by exists hk, clock.
Qed.

(** C11: The heap implements the values.  However callers of SET_INITIAL_ATTACH_APN
    (copying before they take the lock and publishing under it), the hooks, the worker
    and the rest of the process interleave, and whatever allocations fail, what the
    pointers of the cache and of the worker's copy stand for, with everything else the
    shim keeps and every call it made, is a state that [RilAttachApn] reaches: all
    that is proved there of payloads, tokens, deadlines and order holds of the memory. *)
Theorem attach_apn_heap_refines m : mreachable m -> reachable sReissueTokens (abs m).
Proof. intros Hr. by apply mreachable_inv. Qed.

(** C10: Memory safety under every interleaving.  In every state the shim reaches, its
    blocks are live, each owned once, by the cache, by one caller or by the worker, and
    the rest of the heap is exactly what the others allocated: nothing leaks and nothing
    of theirs is touched.  No thread faults on its next step: a caller can copy any
    payload it keeps alive, publishing frees the replaced entry, the worker's sections
    run, and after the vendor has returned the worker's copy is freed; the credentials
    among the blocks that are freed are zero by then. *)
Theorem attach_apn_memory_safe m :
  mreachable m ->
  let h := m_heap m in
  owns (h_live h) (owned m) /\ m_others m = delete_ptrs (owned m) (h_live h) /\
  (forall socketId data datalen, payload_ok data h -> is_Some (cache_copy socketId data datalen h)) /\
  (forall j i fresh, m_callers m !! j = Some (i, fresh) ->
     exists old c h', sIaCache (m_ia m) !! i = Some old /\ sIaCached (m_ia m) !! i = Some c /\
       cache_publish i fresh (m_ia m) h = Some (set_cached i fresh (m_ia m), h') /\
       h_live h' = delete_ptrs (entry_ptrs old c) (h_live h) /\
       (c = true -> exists log, h_freed h' = log ++ h_freed h /\ zeroed_secrets old log)) /\
  (forall r after, pc_ptrs (m_pc m) = [] ->
     is_Some (loop_head_heap r (m_ia m) h) /\ is_Some (after_timedwait_heap after r (m_ia m) h)) /\
  (forall token socketId outgoing, m_pc m = WRequest token socketId outgoing ->
     exists h' log, freeIaStrings outgoing h = Some (zero_ia, h') /\
       h_live h' = delete_ptrs (ia_strings outgoing) (h_live h) /\
       h_freed h' = log ++ h_freed h /\ zeroed_secrets outgoing log).
Proof.
  intros Hr. cbv zeta. destruct (mreachable_inv _ Hr) as [[Hc Hl Ho Hot] _]. split_and!; [done|done|..].
  - intros socketId data datalen Hd. destruct (cache_copy_ok socketId data datalen _ Hd) as (copy & h' & -> & _). by eexists.
  - intros j i fresh Hj. apply (publish_runs i fresh _ _ (caller_ptrs (m_callers m) ++ pc_ptrs (m_pc m))); [done| |done].
    exact (Forall_lookup_1 _ _ _ _ Hl Hj).
  - intros r after Hp. rewrite owned_resting in Ho by done. split.
    + destruct (loop_head_section r _ _ _ Hc Ho) as (? & ? & ? & ? & ? & -> & _). by eexists.
    + destruct (after_timedwait_section after r _ _ _ Hc Ho) as (? & ? & ? & ? & ? & -> & _). by eexists.
  - intros token socketId outgoing Hpc. apply free_ia_ok. unfold owned in Ho. rewrite Hpc, app_assoc in Ho.
    by apply owns_app in Ho as (_ & ? & _).
Qed.
End Heap.

(** ** A concrete run

    A caller copies and publishes a payload, the vendor asks for it, the worker copies
    it to send it. *)
#[local] Existing Instance aosp_ril_h.

Definition heap_readings : readings := mk_readings (Some (mk_ts 1 0)) (Some (mk_ts 1 0)) (Some (mk_ts 1 0)).

Definition heap_run : option msys :=
  let m := msys_init demo_hooks 0 sample_heap in
  '(copy, h) ← cache_copy 0 (Some sample_ia) 88 (m_heap m);
  let m := with_cells (m_ia m) h (took_copy 0 copy (m_callers m)) m in
  '(i, fresh) ← m_callers m !! 0%nat;
  '(st, h) ← cache_publish i fresh (m_ia m) (m_heap m);
  let m := with_cells st h (delete 0%nat (m_callers m)) m in
  let m := with_hook (unsolHook 3020 0 0 0 (m_hooks m) (m_ia m)) (m_vendor m) m in
  res ← loop_head_heap heap_readings (m_ia m) (m_heap m);
  Some (with_worker res 1000000000 m).

Lemma heap_run_reachable m : heap_run = Some m -> mreachable demo_base m.
Proof.
  intros Hm. exists demo_hooks, 0, sample_heap. split; [done|]. unfold heap_run in Hm.
  set (m0 := msys_init demo_hooks 0 sample_heap) in *. cbv zeta in Hm.
  destruct (cache_copy 0 (Some sample_ia) 88 (m_heap m0)) as [[copy h]|] eqn:Hc; [|done]. cbn [mbind option_bind] in Hm.
  eapply rtc_l; [eapply mstep_copy; [|exact Hc]; intros src [= <-]; exact sample_ia_valid|].
  set (m1 := with_cells _ _ _ m0) in *.
  destruct (m_callers m1 !! 0%nat) as [[i fresh]|] eqn:Hj; [|done]. cbn [mbind option_bind] in Hm.
  destruct (cache_publish i fresh (m_ia m1) (m_heap m1)) as [[st h1]|] eqn:Hp; [|done]. cbn [mbind option_bind] in Hm.
  eapply rtc_l; [by eapply mstep_publish|]. set (m2 := with_cells _ _ _ m1) in *.
  eapply rtc_l; [apply (mstep_unsol _ m2 3020 0 0 0)|]. set (m3 := with_hook _ _ m2) in *.
  destruct (loop_head_heap heap_readings (m_ia m3) (m_heap m3)) as [res|] eqn:Hr; [|done]. injection Hm as <-.
  assert (m_pc m3 = WHead /\ m_clock m3 = 0) as [Hpc Hck].
  { unfold m3, with_hook. by destruct (unsolHook _ _ _ _ _ _) as [[? ?] ?]. }
  apply rtc_once. eapply (mstep_head _ m3 heap_readings); [by left|rewrite Hck; vm_compute; split_and!; done|exact Hr].
Qed.

(** The vendor is about to be sent what the framework passed. *)
Lemma attach_apn_heap_refines_witness :
  exists m, heap_run = Some m /\ reachable demo_base (abs m) /\
    s_pc (abs m) = WRequest 1 0 (view (h_live sample_heap) sample_ia).
Proof.
  eexists. split; [vm_compute; reflexivity|]. split; [|vm_compute; reflexivity].
  apply attach_apn_heap_refines, heap_run_reachable. vm_compute. reflexivity.
Defined.

(** Three blocks in the cache and three with the worker, whose copy can be freed. *)
Lemma attach_apn_memory_safe_witness :
  exists m, heap_run = Some m /\ nonnull (owned m) = [49; 50; 51; 52; 53; 54] /\
    m_others m = delete_ptrs (owned m) (h_live (m_heap m)).
Proof.
  eexists. split; [vm_compute; reflexivity|]. split; [vm_compute; reflexivity|].
  refine (proj1 (proj2 (attach_apn_memory_safe demo_base _ _))).
  apply heap_run_reachable. vm_compute. reflexivity.
Defined.
