(* ===== verification/RilMaps.v ===== *)
(** * Reading page protections (ril-shim/k50sv1_ril_shim.c, mappingProt)

    [mappingProt] reads /proc/self/maps line by line with [fgets] and [sscanf].
    The text of the file is a byte list (or nothing when it cannot be opened);
    what the two library functions do with it is written out.  [render_maps] is
    the format proc(5) documents, and the round trip shows that on such a text
    the function returns exactly the protection of the mapping that contains the
    address. *)

From S2P Require Import Prelude CMem.

Definition PROT_NONE : Z := 0.
Definition PROT_READ : Z := 1.
Definition PROT_WRITE : Z := 2.
Definition PROT_EXEC : Z := 4.

(** ** fgets and sscanf *)

(** The successive results of [fgets(line, room + 1, f)]: through the newline, or
    [room] characters of a longer line. *)
Fixpoint fgets_all (size : nat) (acc : list Z) (room : nat) (text : list Z) : list (list Z) :=
  match text with
  | [] => match acc with [] => [] | _ => [rev acc] end
  | c :: text =>
      if (c =? 10) || (room <=? 1)%nat then rev (c :: acc) :: fgets_all size [] size text
      else fgets_all size (c :: acc) (room - 1) text
  end.

Fixpoint span (P : Z -> bool) (l : list Z) : list Z * list Z :=
  match l with
  | [] => ([], [])
  | c :: l' => if P c then let '(a, b) := span P l' in (c :: a, b) else ([], l)
  end.

Definition isspace (c : Z) : bool := (c =? 32) || ((9 <=? c) && (c <=? 13)).

Definition hex_digit (c : Z) : option Z :=
  if (48 <=? c) && (c <=? 57) then Some (c - 48)
  else if (97 <=? c) && (c <=? 102) then Some (c - 87)
  else if (65 <=? c) && (c <=? 70) then Some (c - 55)
  else None.

Definition is_hex (c : Z) : bool := bool_decide (is_Some (hex_digit c)).

Definition hex_value (ds : list Z) : Z :=
  fold_left (fun v c => v * 16 + default 0 (hex_digit c)) ds 0.

(** The conversion [%llx]: white space, a sign, an optional 0x, digits; a value
    that does not fit becomes ULLONG_MAX. *)
Definition scan_llx (s : list Z) : option (Z * list Z) :=
  let s := snd (span isspace s) in
  let '(neg, s) := match s with
                   | c :: s' => if c =? 45 then (true, s')
                                else if c =? 43 then (false, s') else (false, s)
                   | [] => (false, s)
                   end in
  let s := match s with
           | z :: c :: s' => if (z =? 48) && ((c =? 120) || (c =? 88)) then s' else s
           | _ => s
           end in
  let '(ds, rest) := span is_hex s in
  match ds with
  | [] => None
  | _ => let v := hex_value ds in
         let v := if v <? 2 ^ 64 then v else 2 ^ 64 - 1 in
         Some (if (neg : bool) then u64 (- v) else v, rest)
  end.

(** [sscanf(line, "%llx-%llx %7s", &start, &end, perms) == 3]. *)
Definition scan_line (line : list Z) : option (Z * Z * list Z) :=
  '(start, s) ← scan_llx line;
  match s with
  | c :: s =>
      if negb (c =? 45) then None else
      '(end_, s) ← scan_llx s;
      let perms := take 7 (fst (span (fun c => negb (isspace c)) (snd (span isspace s)))) in
      match perms with [] => None | _ => Some (start, end_, perms) end
  | [] => None
  end.

(** The array [perms] holds the characters and a terminator; a later element is
    indeterminate. *)
Definition perm_char (perms : list Z) (i : nat) : option Z := (perms ++ [NUL]) !! i.

(** ** mappingProt *)

Fixpoint scan_maps (lines : list (list Z)) (addr : Z) : option Z :=
  match lines with
  | [] => Some (-1)
  | line :: lines =>
      match scan_line (fst (span (fun c => negb (c =? NUL)) line)) with
      | None => scan_maps lines addr
      | Some (start, end_, perms) =>
          if (addr <? start) || (end_ <=? addr) then scan_maps lines addr else
          r ← perm_char perms 0; w ← perm_char perms 1; x ← perm_char perms 2;
          let prot := PROT_NONE in
          let prot := if r =? 114 then Z.lor prot PROT_READ else prot in
          let prot := if w =? 119 then Z.lor prot PROT_WRITE else prot in
          let prot := if x =? 120 then Z.lor prot PROT_EXEC else prot in
          Some prot
      end
  end.

(** [maps] is the text of /proc/self/maps, [None] when fopen fails. *)
Definition mappingProt (maps : option (list Z)) (addr : Z) : option Z :=
  match maps with
  | None => Some (-1)
  | Some text => scan_maps (fgets_all 511 [] 511 text) addr
  end.

(** ** The documented format *)

Record vma := mk_vma {
  v_start : Z; v_end : Z;
  v_r : bool; v_w : bool; v_x : bool; v_shared : bool;
  v_rest : list Z; (* offset, device, inode and path *)
}.

Definition digit_char (d : Z) : Z := if d <? 10 then 48 + d else 87 + d.

Fixpoint hex_fixed (n : nat) (z : Z) : list Z :=
  match n with
  | O => []
  | S n => hex_fixed n (z / 16) ++ [digit_char (z mod 16)]
  end.

(** The kernel prints addresses with at least eight digits. *)
Definition hex_width (z : Z) : nat := Nat.max 8 (Z.to_nat (Z.log2 z / 4 + 1)).

Definition render_vma (v : vma) : list Z :=
  hex_fixed (hex_width (v_start v)) (v_start v) ++ [45] ++
  hex_fixed (hex_width (v_end v)) (v_end v) ++ [32] ++
  [if v_r v then 114 else 45; if v_w v then 119 else 45; if v_x v then 120 else 45;
   if v_shared v then 115 else 112] ++ [32] ++ v_rest v ++ [10].

Definition render_maps (vs : list vma) : list Z := concat (map render_vma vs).

Definition vma_ok (v : vma) : Prop :=
  is_u64 (v_start v) /\ is_u64 (v_end v) /\ (length (render_vma v) <= 511)%nat /\
  Forall (fun c => c <> 10 /\ c <> NUL) (v_rest v).

Definition vma_prot (v : vma) : Z :=
  (if v_r v then PROT_READ else 0) + (if v_w v then PROT_WRITE else 0) +
  (if v_x v then PROT_EXEC else 0).

Definition in_vma (addr : Z) (v : vma) : bool := (v_start v <=? addr) && (addr <? v_end v).

(** ** Lemmas *)

Lemma span_app P a b :
  Forall (fun c => P c = true) a -> match b with c :: _ => P c = false | [] => True end ->
  span P (a ++ b) = (a, b).
Proof.
  intros Ha Hb. induction Ha as [|c a Hc _ IH]; simpl.
  - destruct b as [|c b]; simpl; [done|]. by rewrite Hb.
  - by rewrite Hc, IH.
Qed.

Lemma span_head_false P c l : P c = false -> span P (c :: l) = ([], c :: l).
Proof. intros Hc. simpl. by rewrite Hc. Qed.

Lemma digit_char_range d : 0 <= d < 16 -> 48 <= digit_char d <= 57 \/ 97 <= digit_char d <= 102.
Proof. unfold digit_char. intros. destruct (Z.ltb_spec d 10); lia. Qed.

Lemma hex_digit_char d : 0 <= d < 16 -> hex_digit (digit_char d) = Some d.
Proof.
  intros Hd. unfold hex_digit, digit_char. destruct (Z.ltb_spec d 10).
  - rewrite (proj2 (andb_true_iff _ _)) by (split; lia). f_equal. lia.
  - rewrite (proj2 (andb_false_iff _ _)) by (right; lia).
    rewrite (proj2 (andb_true_iff _ _)) by (split; lia). f_equal. lia.
Qed.

Lemma hex_fixed_digits n z : Forall (fun c => exists d, 0 <= d < 16 /\ c = digit_char d) (hex_fixed n z).
Proof.
  revert z. induction n as [|n IH]; intros z; simpl; [constructor|].
  apply Forall_app. split; [apply IH|]. constructor; [|constructor].
  exists (z mod 16). split; [apply Z.mod_pos_bound; lia|done].
Qed.

Lemma hex_fixed_value n z : hex_value (hex_fixed n z) = z mod 16 ^ Z.of_nat n.
Proof.
  revert z. induction n as [|n IH]; intros z; [simpl; by rewrite Z.mod_1_r|].
  unfold hex_value in *. simpl hex_fixed. rewrite fold_left_app. simpl.
  rewrite IH, hex_digit_char by (apply Z.mod_pos_bound; lia). simpl.
  rewrite Nat2Z.inj_succ, Z.pow_succ_r by lia.
  rewrite Z.rem_mul_r by lia. lia.
Qed.

Lemma hex_width_enough z : is_u64 z -> z < 16 ^ Z.of_nat (hex_width z).
Proof.
  intros [Hz _]. destruct (decide (z = 0)) as [->|]; [vm_compute; done|].
  apply Z.lt_le_trans with (16 ^ (Z.log2 z / 4 + 1)).
  - apply Z.lt_le_trans with (2 ^ (Z.succ (Z.log2 z))); [apply Z.log2_spec; lia|].
    change 16 with (2 ^ 4). pose proof (Z.log2_nonneg z).
    rewrite <- Z.pow_mul_r by (try apply Z.add_nonneg_nonneg; try apply Z.div_pos; lia).
    apply Z.pow_le_mono_r; [lia|]. pose proof (Z.div_mod (Z.log2 z) 4 ltac:(lia)).
    pose proof (Z.mod_pos_bound (Z.log2 z) 4 ltac:(lia)). lia.
  - apply Z.pow_le_mono_r; [lia|]. unfold hex_width. lia.
Qed.

Lemma digits_are_hex ds :
  Forall (fun c => exists d, 0 <= d < 16 /\ c = digit_char d) ds -> Forall (fun c => is_hex c = true) ds.
Proof.
  intros H. eapply Forall_impl; [exact H|]. intros c (d & Hd & ->). unfold is_hex.
  rewrite hex_digit_char by done. done.
Qed.

(** Reading back a printed address. *)
Lemma scan_llx_render n z c rest :
  (2 <= n)%nat -> is_u64 z -> z < 16 ^ Z.of_nat n -> is_hex c = false ->
  scan_llx (hex_fixed n z ++ c :: rest) = Some (z, c :: rest).
Proof.
  intros Hn [Hz0 Hz1] Hzn Hc.
  pose proof (hex_fixed_digits n z) as Hd. pose proof (digits_are_hex _ Hd) as Hx.
  pose proof (span_app is_hex _ (c :: rest) Hx Hc) as Hspan.
  pose proof (hex_fixed_value n z) as Hv. rewrite Z.mod_small in Hv by done.
  assert (length (hex_fixed n z) = n) as Hlen.
  { clear. revert z. induction n as [|n IH]; intros z; [done|]. simpl. rewrite length_app, IH. simpl. lia. }
  destruct (hex_fixed n z) as [|d0 [|d1 ds]]; simpl in Hlen; [lia|lia|].
  inversion_clear Hd as [|? ? (e0 & He0 & Hd0) Hd']. inversion_clear Hd' as [|? ? (e1 & He1 & Hd1) _].
  apply digit_char_range in He0, He1. rewrite <- Hd0 in He0. rewrite <- Hd1 in He1.
  unfold scan_llx. rewrite <- app_comm_cons, span_head_false by (unfold isspace; lia). cbn [snd].
  rewrite (proj2 (Z.eqb_neq d0 45)), (proj2 (Z.eqb_neq d0 43)) by lia. rewrite <- app_comm_cons.
  rewrite (proj2 (Z.eqb_neq d1 120)), (proj2 (Z.eqb_neq d1 88)), andb_false_r by lia.
  rewrite <- !app_comm_cons in Hspan. rewrite Hspan, Hv.
  by rewrite (proj2 (Z.ltb_lt _ _)) by lia.
Qed.

Lemma hex_width_ge z : (2 <= hex_width z)%nat.
Proof. unfold hex_width. lia. Qed.

Definition perms_of (v : vma) : list Z :=
  [if v_r v then 114 else 45; if v_w v then 119 else 45; if v_x v then 120 else 45;
   if v_shared v then 115 else 112].

Lemma scan_line_render v :
  is_u64 (v_start v) -> is_u64 (v_end v) ->
  scan_line (render_vma v) = Some (v_start v, v_end v, perms_of v).
Proof.
  intros Hs He. unfold render_vma, scan_line. cbn [app].
  rewrite scan_llx_render by (try apply hex_width_ge; try apply hex_width_enough; done).
  cbn [mbind option_bind]. rewrite Z.eqb_refl. cbn [negb].
  rewrite scan_llx_render by (try apply hex_width_ge; try apply hex_width_enough; done).
  cbn [mbind option_bind].
  unfold perms_of. by destruct (v_r v), (v_w v), (v_x v), (v_shared v).
Qed.

(** Nothing in a rendered line before its end is a newline or a terminator. *)
Lemma render_vma_chars v :
  Forall (fun c => c <> 10 /\ c <> NUL) (v_rest v) ->
  exists body, render_vma v = body ++ [10] /\ Forall (fun c => c <> 10 /\ c <> NUL) body.
Proof.
  intros Hr.
  assert (forall n z, Forall (fun c => c <> 10 /\ c <> NUL) (hex_fixed n z)) as Hh.
  { intros n z. eapply Forall_impl; [apply hex_fixed_digits|].
    intros c (d & Hd & ->). apply digit_char_range in Hd. lia. }
  eexists (hex_fixed (hex_width (v_start v)) (v_start v) ++ [45] ++
    hex_fixed (hex_width (v_end v)) (v_end v) ++ [32] ++ perms_of v ++ [32] ++ v_rest v).
  split; [unfold render_vma, perms_of; by rewrite <- !(assoc_L (++))|].
  repeat (apply Forall_app; split); try done; try apply Hh.
  - repeat constructor; lia.
  - repeat constructor; lia.
  - unfold perms_of. destruct (v_r v), (v_w v), (v_x v), (v_shared v); repeat constructor; lia.
  - repeat constructor; lia.
Qed.

Lemma fgets_line size body acc room text :
  Forall (fun c => c <> 10 /\ c <> NUL) body -> (length body < room)%nat ->
  fgets_all size acc room (body ++ 10 :: text) =
    (rev acc ++ body ++ [10]) :: fgets_all size [] size text.
Proof.
  intros Hb. revert acc room. induction Hb as [|c body [Hc _] _ IH]; intros acc room Hr; simpl.
  - done.
  - rewrite (proj2 (Z.eqb_neq c 10)) by done. simpl in Hr.
    rewrite (proj2 (Nat.leb_gt room 1)) by lia. simpl. rewrite IH by lia. simpl.
    by rewrite <- (assoc_L (++)).
Qed.

Lemma fgets_render vs : Forall vma_ok vs -> fgets_all 511 [] 511 (render_maps vs) = map render_vma vs.
Proof.
  induction 1 as [|v vs (_ & _ & Hl & Hr) _ IH]; [done|].
  destruct (render_vma_chars v Hr) as (body & Hb & Hc). unfold render_maps. simpl.
  rewrite Hb in *. rewrite length_app in Hl. simpl in Hl. rewrite <- (assoc_L (++)). simpl.
  rewrite fgets_line by (done || lia). unfold render_maps in IH; by rewrite IH.
Qed.

Lemma scan_maps_render vs addr :
  Forall vma_ok vs ->
  scan_maps (map render_vma vs) addr =
    Some (match List.find (in_vma addr) vs with Some v => vma_prot v | None => -1 end).
Proof.
  induction 1 as [|v vs (Hs & He & _ & Hr) _ IH]; [done|]. simpl.
  assert (fst (span (fun c => negb (c =? NUL)) (render_vma v)) = render_vma v) as ->.
  { destruct (render_vma_chars v Hr) as (body & -> & Hb). pose proof (span_app (fun c => negb (c =? NUL)) (body ++ [10]) []) as Hspan.
    rewrite app_nil_r in Hspan. rewrite Hspan; [done| |done]. apply Forall_app. split; [|by repeat constructor].
    eapply Forall_impl; [exact Hb|]. intros c [_ ?]. simpl. by rewrite (proj2 (Z.eqb_neq _ _)). }
  rewrite scan_line_render by done. unfold in_vma at 1.
  replace ((v_start v <=? addr) && (addr <? v_end v))
    with (negb ((addr <? v_start v) || (v_end v <=? addr))) by lia.
  destruct ((addr <? v_start v) || (v_end v <=? addr)); simpl; [done|].
  unfold vma_prot. by destruct (v_r v), (v_w v), (v_x v), (v_shared v).
Qed.

(** C40: On a maps file in the documented format with lines of at most 511
    characters, mappingProt returns exactly the protection of the first mapping
    that contains the address, and -1 when there is none or the file cannot be
    opened; it never reads an indeterminate character of its buffer. *)
Theorem mappingProt_render vs addr :
  Forall vma_ok vs ->
  mappingProt None addr = Some (-1) /\
  mappingProt (Some (render_maps vs)) addr =
    Some (match List.find (in_vma addr) vs with Some v => vma_prot v | None => -1 end).
Proof.
  intros Hv. split; [done|]. unfold mappingProt. rewrite fgets_render by done.
  by apply scan_maps_render.
Qed.

Definition sample_vmas : list vma :=
  [mk_vma 0x7a000000 0x7a002000 true false true false (lit "00000000 fd:00 12 /vendor/lib64/a.so");
   mk_vma 0x7a002000 0x7a003000 true false false false (lit "00002000 fd:00 12 /vendor/lib64/a.so");
   mk_vma 0x7fff12340000 0x7fff12361000 true true false true []].

Lemma sample_vmas_ok : Forall vma_ok sample_vmas.
Proof.
  assert (forall l, forallb (fun c => negb (c =? 10) && negb (c =? 0)) l = true ->
            Forall (fun c => c <> 10 /\ c <> NUL) l) as Hf.
  { intros l. induction l as [|c l IH]; simpl; intros Hl; constructor; zb; [lia|auto]. }
  repeat (apply Forall_cons; split); try apply Forall_nil; try done; split_and!;
    try (vm_compute; split; done); try (apply Hf; reflexivity); vm_compute; lia.
Qed.

Lemma mappingProt_render_witness :
  mappingProt (Some (render_maps sample_vmas)) 0x7a002ff8 = Some PROT_READ.
Proof. exact (proj2 (mappingProt_render sample_vmas 0x7a002ff8 sample_vmas_ok)). Defined.
