(* ===== verification/RilGot.v ===== *)
(** * Finding the two GOT slots (ril-shim/k50sv1_ril_shim.c)

    The walk over the loaded module's dynamic section, relocations, symbols and
    strings.  The process memory is a finite map from addresses to bytes; reading
    an unmapped address is a fault ([None]).  The theorems show that, on a module
    whose loadable segments are mapped, no read leaves those segments, and that an
    entry is returned exactly when one and only one relocation is a jump slot for
    the symbol, which [jump_slot_for] states of the bytes in memory. *)

From S2P Require Import Prelude CMem RilIaMem RilMaps.

(** ** Memory *)

Abbreviation mem := (gmap Z Z).

Definition load (m : mem) (a : Z) (n : nat) : option (list Z) :=
  mapM (fun i => m !! (a + Z.of_nat i)) (seq 0 n).

Definition rd32 (m : mem) (a : Z) : option Z := le_value <$> load m a 4.
Definition rd64 (m : mem) (a : Z) : option Z := le_value <$> load m a 8.

(** ** <elf.h> *)

Definition PT_LOAD : Z := 1.
Definition PT_DYNAMIC : Z := 2.
Definition DT_NULL : Z := 0.
Definition DT_PLTRELSZ : Z := 2.
Definition DT_STRTAB : Z := 5.
Definition DT_SYMTAB : Z := 6.
Definition DT_RELA : Z := 7.
Definition DT_PLTREL : Z := 20.
Definition DT_JMPREL : Z := 23.
Definition R_AARCH64_JUMP_SLOT : Z := 1026.
Definition K50SV1_JUMP_SLOT : Z := R_AARCH64_JUMP_SLOT.
Definition sizeof_Rela : Z := 24.
Definition sizeof_Sym : Z := 24.
Definition sizeof_Dyn : Z := 16.

Record Phdr := mk_phdr { p_type : Z; p_vaddr : Z; p_memsz : Z }.

(** struct dl_phdr_info, with the name as its characters. *)
Record dl_phdr_info := mk_info {
  dlpi_addr : Z;
  dlpi_name : option (list Z);
  dlpi_phdr : list Phdr;
}.

Record GotScan := mk_scan {
  soname : list Z;
  base : Z;
  phdr : list Phdr;
  jmprel : Z;
  jmprelCount : Z;
  symtab : Z;
  strtab : Z;
  found : bool;
}.

Record GotEntry := mk_entry {
  symbol : list Z;
  slot : Z;
  original : Z;
  replacement : Z;
  page : Z;
  pageSize : Z;
  protection : Z;
}.

#[global] Instance GotEntry_eq_dec : EqDecision GotEntry.
Proof. solve_decision. Defined.

(** ** Range checks *)

Definition in_segment (b addr len : Z) (ph : Phdr) : bool :=
  if negb (p_type ph =? PT_LOAD) then false else
  if UINTPTR_MAX - b <? p_vaddr ph then false else
  let start := b + p_vaddr ph in
  if UINTPTR_MAX - start <? p_memsz ph then false else
  let end_ := start + p_memsz ph in
  (start <=? addr) && (addr <=? end_) && (len <=? end_ - addr).

Definition inModule (scan : GotScan) (addr len : Z) : bool :=
  existsb (in_segment (base scan) addr len) (phdr scan).

Definition resolveDynPtr (scan : GotScan) (value len : Z) : Z :=
  if (value <=? UINTPTR_MAX - base scan) && inModule scan (base scan + value) len
  then base scan + value
  else if inModule scan value len then value else 0.

(** ** gotScanCallback *)

(** What the loop over the dynamic section collects. *)
Record dyn_info := mk_dyn { d_jmprel : Z; d_symtab : Z; d_strtab : Z; d_pltrelsz : Z }.

(** One iteration: [None] when the PLT is not RELA. *)
Definition dyn_entry (tag val : Z) (d : dyn_info) : option dyn_info :=
  if tag =? DT_JMPREL then Some (mk_dyn val (d_symtab d) (d_strtab d) (d_pltrelsz d))
  else if tag =? DT_PLTRELSZ then Some (mk_dyn (d_jmprel d) (d_symtab d) (d_strtab d) val)
  else if tag =? DT_SYMTAB then Some (mk_dyn (d_jmprel d) val (d_strtab d) (d_pltrelsz d))
  else if tag =? DT_STRTAB then Some (mk_dyn (d_jmprel d) (d_symtab d) val (d_pltrelsz d))
  else if tag =? DT_PLTREL then (if negb (val =? DT_RELA) then None else Some d)
  else Some d.

(** The outer option is a fault, the inner one the early return. *)
Fixpoint dyn_loop (fuel : nat) (m : mem) (dyn : Z) (d : dyn_info) : option (option dyn_info) :=
  match fuel with
  | O => None
  | S fuel =>
      tag ← rd64 m dyn;
      if tag =? DT_NULL then Some (Some d) else
      val ← rd64 m (dyn + 8);
      match dyn_entry tag val d with
      | None => Some None
      | Some d => dyn_loop fuel m (dyn + sizeof_Dyn) d
      end
  end.

(** Every iteration reads another mapped address, so this is enough. *)
Definition dyn_fuel (m : mem) : nat := S (size m).

(** [strrchr(name, '/')] and what follows it. *)
Fixpoint basename (s : list Z) : list Z :=
  match s with
  | [] => []
  | c :: s' => if existsb (Z.eqb 47) s' then basename s' else if c =? 47 then s' else s
  end.

Definition scan_segments (info : dl_phdr_info) (scan : GotScan) : GotScan :=
  mk_scan (soname scan) (dlpi_addr info) (dlpi_phdr info) (jmprel scan) (jmprelCount scan)
    (symtab scan) (strtab scan) (found scan).

Definition scan_tables (d : dyn_info) (scan : GotScan) : GotScan :=
  let j := resolveDynPtr scan (d_jmprel d) (d_pltrelsz d) in
  let s := resolveDynPtr scan (d_symtab d) sizeof_Sym in
  let t := resolveDynPtr scan (d_strtab d) 1 in
  mk_scan (soname scan) (base scan) (phdr scan) j (d_pltrelsz d / sizeof_Rela) s t
    (negb (j =? NULL) && negb (s =? NULL) && negb (t =? NULL)).

(** The returned int and the updated scan. *)
Definition gotScanCallback (m : mem) (info : dl_phdr_info) (scan : GotScan)
    : option (Z * GotScan) :=
  match dlpi_name info with
  | None => Some (0, scan)
  | Some path =>
      if negb (bool_decide (basename path = soname scan)) then Some (0, scan) else
      let scan := scan_segments info scan in
      match List.find (fun ph => p_type ph =? PT_DYNAMIC) (dlpi_phdr info) with
      | None => Some (1, scan)
      | Some ph =>
          d ← dyn_loop (dyn_fuel m) m (u64 (dlpi_addr info + p_vaddr ph)) (mk_dyn 0 0 0 0);
          match d with
          | None => Some (1, scan)
          | Some d =>
              if (d_pltrelsz d =? 0) || negb (d_pltrelsz d mod sizeof_Rela =? 0)
              then Some (1, scan) else Some (1, scan_tables d scan)
          end
      end
  end.

(** dl_iterate_phdr: the modules in order until the callback returns nonzero. *)
Fixpoint dl_iterate_phdr (m : mem) (infos : list dl_phdr_info) (scan : GotScan) : option GotScan :=
  match infos with
  | [] => Some scan
  | info :: infos =>
      '(rc, scan) ← gotScanCallback m info scan;
      if rc =? 0 then dl_iterate_phdr m infos scan else Some scan
  end.

(** ** findGotEntry *)

(** The [continue] conditions of the loop body: the slot offset of relocation [i]
    when it is a jump slot for [symbol]. *)
Definition match_rela (m : mem) (scan : GotScan) (sym : list Z) (i : nat) : option (option Z) :=
  let rela := jmprel scan + sizeof_Rela * Z.of_nat i in
  let symbolLen := Z.of_nat (length sym) + 1 in
  r_info ← rd64 m (rela + 8);
  let symIndex := u32 (Z.shiftr r_info 32) in
  if negb (Z.land r_info 0xffffffff =? K50SV1_JUMP_SLOT) then Some None else
  let symAddr := u64 (symtab scan + sizeof_Sym * symIndex) in
  if negb (inModule scan symAddr sizeof_Sym) then Some None else
  st_name ← rd32 m symAddr;
  if UINTPTR_MAX - strtab scan <? st_name then Some None else
  let name := strtab scan + st_name in
  if negb (inModule scan name symbolLen) then Some None else
  bytes ← load m name (Z.to_nat symbolLen);
  if negb (bool_decide (bytes = sym ++ [NUL])) then Some None else
  r_offset ← rd64 m rela;
  Some (Some r_offset).

Section Find.
Context (m : mem) (scan : GotScan) (sym : list Z) (repl : Z).
(** sysconf(_SC_PAGESIZE) and the text of /proc/self/maps. *)
Context (pagesz : Z) (maps : option (list Z)).

(** The rest of the body, for the relocation that matched. *)
Definition take_slot (r_offset : Z) : option (option GotEntry) :=
  if UINTPTR_MAX - base scan <? r_offset then Some None else
  let slotAddr := base scan + r_offset in
  if negb (inModule scan slotAddr 8) then Some None else
  if pagesz <=? 0 then Some None else
  prot ← mappingProt maps slotAddr;
  if prot <? 0 then Some None else
  orig ← rd64 m slotAddr;
  if (orig =? NULL) || (orig =? repl) then Some None else
  Some (Some (mk_entry sym slotAddr orig repl (slotAddr - slotAddr mod pagesz) pagesz prot)).

(** The loop; a second match stops it. *)
Fixpoint find_loop (idx : list nat) (out : option GotEntry) : option (option GotEntry) :=
  match idx with
  | [] => Some out
  | i :: idx =>
      mr ← match_rela m scan sym i;
      match mr with
      | None => find_loop idx out
      | Some r_offset =>
          e ← take_slot r_offset;
          match e, out with
          | None, _ => Some None
          | Some _, Some _ => Some None
          | Some e, None => find_loop idx (Some e)
          end
      end
  end.

Definition findGotEntry : option (option GotEntry) :=
  find_loop (seq 0 (Z.to_nat (jmprelCount scan))) None.
End Find.

(** ** Lemmas *)

(** All bytes of [[a, a + len)] are mapped. *)
Definition mapped (m : mem) (a len : Z) : Prop := forall x, a <= x < a + len -> is_Some (m !! x).

Lemma load_mapped m a n : mapped m a (Z.of_nat n) -> is_Some (load m a n).
Proof.
  intros Hm. apply mapM_is_Some. apply Forall_forall. intros i Hi. apply elem_of_seq in Hi.
  apply Hm. lia.
Qed.

Lemma load_Some_head m a n bs : load m a (S n) = Some bs -> is_Some (m !! a).
Proof.
  unfold load. simpl. rewrite Z.add_0_r. destruct (m !! a); [eauto|done].
Qed.

Lemma rd64_mapped m a : mapped m a 8 -> is_Some (rd64 m a).
Proof. intros Hm. destruct (load_mapped m a 8 Hm) as [bs Hbs]. unfold rd64. rewrite Hbs. eauto. Qed.

Lemma rd32_mapped m a : mapped m a 4 -> is_Some (rd32 m a).
Proof. intros Hm. destruct (load_mapped m a 4 Hm) as [bs Hbs]. unfold rd32. rewrite Hbs. eauto. Qed.

Lemma mapped_sub m a len a' len' :
  mapped m a len -> a <= a' -> a' + len' <= a + len -> mapped m a' len'.
Proof. intros Hm ? ? x Hx. apply Hm. lia. Qed.

(** The documented effect of the loader: the loadable segments are mapped. *)
Definition segments_mapped (m : mem) (b : Z) (phs : list Phdr) : Prop :=
  forall ph, ph ∈ phs -> p_type ph = PT_LOAD -> b + p_vaddr ph + p_memsz ph <= UINTPTR_MAX ->
  mapped m (b + p_vaddr ph) (p_memsz ph).

(** [[addr, addr + len)] lies in one loadable segment that does not wrap around
    the address space. *)
Definition inside (b : Z) (phs : list Phdr) (addr len : Z) : Prop :=
  exists ph, ph ∈ phs /\ p_type ph = PT_LOAD /\ b + p_vaddr ph + p_memsz ph <= UINTPTR_MAX /\
    b + p_vaddr ph <= addr /\ addr + len <= b + p_vaddr ph + p_memsz ph.

Definition phdrs_ok (phs : list Phdr) : Prop :=
  Forall (fun ph => is_u64 (p_vaddr ph) /\ is_u64 (p_memsz ph)) phs.

(** Relocation [i] of the PLT table is a jump slot for the symbol [sym], at the
    offset [r]: its type is R_AARCH64_JUMP_SLOT, its symbol lies in the module and
    has a name that lies in the module and is, with its terminator, [sym]. *)
Definition jump_slot_for (m : mem) (scan : GotScan) (sym : list Z) (i : nat) (r : Z) : Prop :=
  let rela := jmprel scan + 24 * Z.of_nat i in
  exists info name, rd64 m (rela + 8) = Some info /\ info mod 2 ^ 32 = R_AARCH64_JUMP_SLOT /\
    let entry := (symtab scan + 24 * ((info / 2 ^ 32) mod 2 ^ 32)) mod 2 ^ 64 in
    inside (base scan) (phdr scan) entry 24 /\ rd32 m entry = Some name /\
    strtab scan + name <= UINTPTR_MAX /\
    inside (base scan) (phdr scan) (strtab scan + name) (Z.of_nat (length sym) + 1) /\
    (forall k b, (sym ++ [NUL]) !! k = Some b -> m !! (strtab scan + name + Z.of_nat k) = Some b) /\
    rd64 m rela = Some r.

Lemma in_segment_iff b addr len ph :
  is_u64 (p_memsz ph) -> 0 <= len ->
  in_segment b addr len ph = true <->
  p_type ph = PT_LOAD /\ b + p_vaddr ph + p_memsz ph <= UINTPTR_MAX /\
  b + p_vaddr ph <= addr /\ addr + len <= b + p_vaddr ph + p_memsz ph.
Proof.
  intros [Hm _] Hl. unfold in_segment. destruct (Z.eqb_spec (p_type ph) PT_LOAD); simpl; [|naive_solver].
  destruct (Z.ltb_spec (UINTPTR_MAX - b) (p_vaddr ph)); [split; [done|lia]|].
  destruct (Z.ltb_spec (UINTPTR_MAX - (b + p_vaddr ph)) (p_memsz ph)); [split; [done|lia]|].
  split; [intros; zb; lia|]. intros (_ & _ & ? & ?).
  apply andb_true_iff; split; [apply andb_true_iff; split|]; lia.
Qed.

Lemma inModule_inside scan addr len :
  phdrs_ok (phdr scan) -> 0 <= len ->
  inModule scan addr len = true <-> inside (base scan) (phdr scan) addr len.
Proof.
  intros Hok Hl. unfold inModule, inside. rewrite existsb_exists. split.
  - intros (ph & Hin & Hs). apply list_elem_of_In in Hin. exists ph. split; [done|].
    apply in_segment_iff in Hs; [done| |done]. apply (proj1 (Forall_forall _ _) Hok ph Hin).
  - intros (ph & Hin & Hs). exists ph. split; [by apply list_elem_of_In|].
    apply in_segment_iff; [|done|done]. apply (proj1 (Forall_forall _ _) Hok ph Hin).
Qed.

Lemma inside_mapped m b phs addr len :
  segments_mapped m b phs -> inside b phs addr len -> mapped m addr len.
Proof.
  intros Hs (ph & Hin & Ht & Hw & Ha & He). eapply mapped_sub; [by apply Hs|lia|lia].
Qed.

(** ** The dynamic section *)

Lemma mapped_above_decreases (m : mem) a :
  is_Some (m !! a) ->
  (size (filter (fun p => (a + sizeof_Dyn <= p.1)%Z) m) < size (filter (fun p => (a <= p.1)%Z) m))%nat.
Proof.
  intros [x Hx]. apply map_subset_size. split.
  - apply map_subseteq_spec. intros k v. rewrite !map_lookup_filter_Some. simpl. unfold sizeof_Dyn.
    intros [? ?]. split; [done|lia].
  - intros Hs. assert (filter (fun p => (a <= p.1)%Z) m !! a = Some x) as Ha.
    { apply map_lookup_filter_Some. simpl. split; [done|lia]. }
    eapply lookup_weaken in Ha; [|exact Hs]. apply map_lookup_filter_Some in Ha as [_ Ha].
    simpl in Ha. unfold sizeof_Dyn in Ha. lia.
Qed.

(** The loop over the dynamic section cannot run out of its fuel: it faults or
    finds DT_NULL first. *)
Lemma dyn_loop_fuel m a d f1 f2 :
  (size (filter (fun p => (a <= p.1)%Z) m) < f1)%nat ->
  (size (filter (fun p => (a <= p.1)%Z) m) < f2)%nat ->
  dyn_loop f1 m a d = dyn_loop f2 m a d.
Proof.
  revert a d f2. induction f1 as [|f1 IH]; intros a d [|f2] H1 H2; try lia. simpl.
  destruct (rd64 m a) as [tag|] eqn:Ht; [|done]. simpl.
  destruct (tag =? DT_NULL); [done|]. destruct (rd64 m (a + 8)); [|done]. simpl.
  destruct (dyn_entry _ _ _); [|done].
  assert (is_Some (m !! a)) as Hm.
  { unfold rd64 in Ht. destruct (load m a 8) eqn:Hl; [|done]. by eapply load_Some_head. }
  apply mapped_above_decreases in Hm. apply IH; lia.
Qed.

Lemma dyn_fuel_enough m a d fuel :
  (dyn_fuel m <= fuel)%nat -> dyn_loop fuel m a d = dyn_loop (dyn_fuel m) m a d.
Proof.
  intros Hf. unfold dyn_fuel in *.
  assert (size (filter (fun p => (a <= p.1)%Z) m) <= size m)%nat.
  { apply map_subseteq_size, map_filter_subseteq. }
  apply dyn_loop_fuel; lia.
Qed.

(** ** A found scan *)

Definition mem_ok (m : mem) : Prop := map_Forall (fun _ b => is_u8 b) m.

Lemma rd64_range m a v : mem_ok m -> rd64 m a = Some v -> is_u64 v.
Proof.
  intros Hm. unfold rd64. destruct (load m a 8) as [bs|] eqn:Hl; [|done]. intros [= <-].
  apply mapM_Some in Hl.
  assert (length bs = 8%nat) as Hlen by (by apply Forall2_length in Hl).
  change 64 with (8 * Z.of_nat 8). rewrite <- Hlen. apply le_value_range.
  apply Forall_lookup. intros i b Hb. destruct (Forall2_lookup_r _ _ _ _ _ Hl Hb) as (k & _ & Hk).
  by apply (Hm _ _ Hk).
Qed.

Lemma dyn_loop_range m fuel a d d' :
  mem_ok m -> 0 <= d_pltrelsz d -> dyn_loop fuel m a d = Some (Some d') -> 0 <= d_pltrelsz d'.
Proof.
  intros Hm. revert a d. induction fuel as [|fuel IH]; intros a d Hd; simpl; [done|].
  destruct (rd64 m a) as [tag|]; [|done]. simpl. destruct (tag =? DT_NULL); [by intros [= <-]|].
  destruct (rd64 m (a + 8)) as [v|] eqn:Hv; [|done]. simpl. apply rd64_range in Hv as [Hv _]; [|done].
  unfold dyn_entry. repeat case_match; simplify_eq; try done; intros He; eapply IH in He; done.
Qed.

Lemma resolveDynPtr_inside scan v len :
  resolveDynPtr scan v len <> NULL -> inModule scan (resolveDynPtr scan v len) len = true.
Proof. unfold resolveDynPtr. intros. repeat case_match; zb; done. Qed.

(** What the later walk may rely on. *)
Record scan_ok (scan : GotScan) : Prop := {
  so_count : 0 <= jmprelCount scan;
  so_jmprel : inModule scan (jmprel scan) (sizeof_Rela * jmprelCount scan) = true;
  so_symtab : inModule scan (symtab scan) sizeof_Sym = true;
  so_strtab : inModule scan (strtab scan) 1 = true;
}.

Lemma callback_found m info scan rc scan' :
  mem_ok m -> gotScanCallback m info scan = Some (rc, scan') ->
  soname scan' = soname scan /\
  (rc = 0 -> scan' = scan) /\
  (found scan = false -> found scan' = true -> scan_ok scan').
Proof.
  intros Hm.
  assert (forall r s, soname s = soname scan -> found s = found scan -> (r = 0 -> s = scan) ->
    Some (r, s) = Some (rc, scan') -> soname scan' = soname scan /\ (rc = 0 -> scan' = scan) /\
    (found scan = false -> found scan' = true -> scan_ok scan')) as Hsame.
  { intros r s ? ? ? [= <- <-]. split_and!; [done|done|congruence]. }
  unfold gotScanCallback. destruct (dlpi_name info) as [path|]; [|by apply Hsame].
  destruct (negb _); [by apply Hsame|]. destruct (List.find _ _) as [ph|]; [|by apply Hsame].
  destruct (dyn_loop _ _ _ _) as [[d|]|] eqn:Hd; simpl; [|by apply Hsame|done].
  apply dyn_loop_range in Hd; [|done|done]. destruct (_ || _) eqn:Hp; [by apply Hsame|].
  intros [= <- <-]. split_and!; [done|done|]. intros _ Hf. unfold scan_tables in Hf. simpl in Hf. zb.
  assert (sizeof_Rela * (d_pltrelsz d / sizeof_Rela) = d_pltrelsz d) as Hdiv.
  { pose proof (Z.div_mod (d_pltrelsz d) sizeof_Rela ltac:(done)). lia. }
  assert (forall a l, inModule (scan_tables d (scan_segments info scan)) a l =
            inModule (scan_segments info scan) a l) as Heq by done.
  split; simpl; rewrite ?Heq.
  - apply Z.div_pos; [lia|done].
  - rewrite Hdiv. by apply resolveDynPtr_inside.
  - by apply resolveDynPtr_inside.
  - by apply resolveDynPtr_inside.
Qed.

Lemma iterate_found m infos scan scan' :
  mem_ok m -> dl_iterate_phdr m infos scan = Some scan' ->
  soname scan' = soname scan /\ (found scan = false -> found scan' = true -> scan_ok scan').
Proof.
  intros Hm. induction infos as [|info infos IH]; simpl; [intros [= <-]; split; [done|congruence]|].
  destruct (gotScanCallback m info scan) as [[rc s]|] eqn:Hc; [|done]. simpl.
  apply callback_found in Hc as (Hs & H0 & Hf); [|done].
  destruct (Z.eqb_spec rc 0) as [->|]; [rewrite H0 by done; done|]. intros [= <-]. done.
Qed.

(** ** The loop of findGotEntry *)

Lemma match_rela_no_fault m scan sym i :
  phdrs_ok (phdr scan) -> segments_mapped m (base scan) (phdr scan) -> scan_ok scan ->
  Z.of_nat i < jmprelCount scan -> is_Some (match_rela m scan sym i).
Proof.
  intros Hp Hs Hok Hi. pose proof (so_jmprel _ Hok) as Hj.
  apply inModule_inside in Hj; [|done|unfold sizeof_Rela; lia]. apply (inside_mapped m) in Hj; [|done].
  assert (mapped m (jmprel scan + sizeof_Rela * Z.of_nat i) sizeof_Rela) as Hrela.
  { eapply mapped_sub; [exact Hj| |]; unfold sizeof_Rela; lia. }
  unfold sizeof_Rela in Hrela. unfold match_rela.
  destruct (rd64_mapped m (jmprel scan + sizeof_Rela * Z.of_nat i + 8)) as [r_info ->].
  { eapply mapped_sub; [exact Hrela| |]; unfold sizeof_Rela; lia. }
  cbn [mbind option_bind]. destruct (negb _); [done|].
  destruct (inModule scan _ sizeof_Sym) eqn:Hsym; [|done]. cbn [negb].
  apply inModule_inside in Hsym; [|done|done]. apply (inside_mapped m) in Hsym; [|done].
  edestruct (rd32_mapped m) as [st_name ->].
  { eapply mapped_sub; [exact Hsym| |]; unfold sizeof_Sym; lia. }
  cbn [mbind option_bind]. destruct (_ <? _); [done|].
  destruct (inModule scan _ (Z.of_nat (length sym) + 1)) eqn:Hname; [|done]. cbn [negb].
  apply inModule_inside in Hname; [|done|lia]. apply (inside_mapped m) in Hname; [|done].
  edestruct (load_mapped m) as [bytes ->].
  { eapply mapped_sub; [exact Hname| |]; lia. }
  cbn [mbind option_bind]. destruct (negb _); [done|].
  edestruct (rd64_mapped m) as [r_offset ->]; [|done].
  eapply mapped_sub; [exact Hrela| |]; unfold sizeof_Rela; lia.
Qed.

Lemma load_is m a bs :
  load m a (length bs) = Some bs <-> forall k b, bs !! k = Some b -> m !! (a + Z.of_nat k) = Some b.
Proof.
  unfold load. rewrite mapM_Some. split.
  - intros Hf k b Hb. destruct (Forall2_lookup_r _ _ _ _ _ Hf Hb) as (i & Hi & Hm).
    apply lookup_seq in Hi as [-> _]. exact Hm.
  - intros Hb. apply Forall2_lookup. intros k. destruct (decide (k < length bs)%nat) as [Hk|Hk].
    + rewrite lookup_seq_lt by done. destruct (lookup_lt_is_Some_2 bs k Hk) as [b Hl].
      rewrite Hl. constructor. by apply Hb.
    + rewrite lookup_seq_ge, lookup_ge_None_2 by lia. constructor.
Qed.

Lemma load_length m a n bs : load m a n = Some bs -> length bs = n.
Proof. intros Hl. apply mapM_Some, Forall2_length in Hl. by rewrite length_seq in Hl. Qed.

(** The checks of the loop body accept exactly the jump slots of the symbol. *)
Lemma match_rela_iff m scan sym i r :
  phdrs_ok (phdr scan) ->
  match_rela m scan sym i = Some (Some r) <-> jump_slot_for m scan sym i r.
Proof.
  intros Hp. unfold match_rela, jump_slot_for, sizeof_Rela, sizeof_Sym, K50SV1_JUMP_SLOT, u32, u64, wrap.
  assert (forall name, inModule scan name (Z.of_nat (length sym) + 1) = true <->
    inside (base scan) (phdr scan) name (Z.of_nat (length sym) + 1)) as Hname
    by (intros; apply inModule_inside; [done|lia]).
  assert (Z.to_nat (Z.of_nat (length sym) + 1) = length (sym ++ [NUL])) as Hlen
    by (rewrite length_app; simpl; lia).
  split.
  - destruct (rd64 m (_ + 8)) as [info|] eqn:Hinfo; [|done]. cbn [mbind option_bind].
    rewrite Z.shiftr_div_pow2 by lia. change 0xffffffff with (Z.ones 32). rewrite Z.land_ones by lia.
    destruct (Z.eqb_spec (info mod 2 ^ 32) R_AARCH64_JUMP_SLOT); [|done]. cbn [negb].
    destruct (inModule scan _ 24) eqn:Hsym; [|done]. cbn [negb]. apply inModule_inside in Hsym; [|done|done].
    destruct (rd32 m _) as [name|] eqn:Hn; [|done]. cbn [mbind option_bind].
    destruct (Z.ltb_spec (UINTPTR_MAX - strtab scan) name); [done|].
    destruct (inModule scan _ (Z.of_nat _ + 1)) eqn:Hin; [|done]. cbn [negb]. apply Hname in Hin.
    rewrite Hlen. destruct (load m _ _) as [bs|] eqn:Hl; [|done]. cbn [mbind option_bind].
    case_bool_decide as Hbs; [|done]. cbn [negb]. subst bs. rewrite load_is in Hl.
    destruct (rd64 m (jmprel scan + 24 * Z.of_nat i)) as [off|] eqn:Ho; [|done].
    cbn [mbind option_bind]. intros Hr. injection Hr as <-.
    exists info, name. split_and!; [done|done|done|done|lia|done|done|done].
  - intros (info & name & -> & Ht & Hsym & Hn & Hle & Hin & Hl & Ho). cbn [mbind option_bind].
    rewrite Z.shiftr_div_pow2 by lia. change 0xffffffff with (Z.ones 32). rewrite Z.land_ones by lia.
    rewrite Ht, Z.eqb_refl. cbn [negb]. apply inModule_inside in Hsym; [|done|done]. rewrite Hsym.
    cbn [negb]. rewrite Hn. cbn [mbind option_bind]. rewrite (proj2 (Z.ltb_ge _ _)) by lia.
    rewrite (proj2 (Hname _) Hin). cbn [negb]. rewrite Hlen. apply load_is in Hl. rewrite Hl.
    cbn [mbind option_bind]. rewrite bool_decide_true by done. cbn [negb]. by rewrite Ho.
Qed.

Lemma jump_slot_fun m scan sym i r r' :
  jump_slot_for m scan sym i r -> jump_slot_for m scan sym i r' -> r = r'.
Proof.
  intros (? & ? & _ & _ & _ & _ & _ & _ & _ & H1) (? & ? & _ & _ & _ & _ & _ & _ & _ & H2). congruence.
Qed.

Lemma jump_slot_offset m scan sym i r :
  jump_slot_for m scan sym i r -> rd64 m (jmprel scan + sizeof_Rela * Z.of_nat i) = Some r.
Proof. by intros (? & ? & _ & _ & _ & _ & _ & _ & _ & H). Qed.

Lemma take_slot_no_fault m scan sym repl pagesz maps r :
  phdrs_ok (phdr scan) -> segments_mapped m (base scan) (phdr scan) ->
  (forall a, is_Some (mappingProt maps a)) ->
  is_Some (take_slot m scan sym repl pagesz maps r).
Proof.
  intros Hp Hs Hmaps. unfold take_slot. destruct (_ <? _); [done|].
  destruct (inModule scan _ 8) eqn:Hin; [|done]. cbn [negb].
  destruct (pagesz <=? 0); [done|]. destruct (Hmaps (base scan + r)) as [prot ->].
  cbn [mbind option_bind]. destruct (prot <? 0); [done|].
  apply inModule_inside in Hin; [|done|done]. apply (inside_mapped m) in Hin; [|done].
  destruct (rd64_mapped _ _ Hin) as [orig ->]. cbn [mbind option_bind]. by destruct (_ || _).
Qed.

Lemma find_loop_no_fault m scan sym repl pagesz maps idx out :
  phdrs_ok (phdr scan) -> segments_mapped m (base scan) (phdr scan) -> scan_ok scan ->
  (forall a, is_Some (mappingProt maps a)) ->
  Forall (fun i => Z.of_nat i < jmprelCount scan) idx ->
  is_Some (find_loop m scan sym repl pagesz maps idx out).
Proof.
  intros Hp Hs Hok Hmaps Hidx. revert out.
  induction Hidx as [|i idx Hi _ IH]; intros out; simpl; [done|].
  destruct (match_rela_no_fault m scan sym i Hp Hs Hok Hi) as [mr ->]. cbn [mbind option_bind].
  destruct mr as [r|]; [|apply IH].
  destruct (take_slot_no_fault m scan sym repl pagesz maps r Hp Hs Hmaps) as [e ->].
  cbn [mbind option_bind]. destruct e as [e|]; [|done]. destruct out; [done|apply IH].
Qed.

Section FindSpec.
Context (m : mem) (scan : GotScan) (sym : list Z) (repl pagesz : Z) (maps : option (list Z)).

Definition unmatched (i : nat) : Prop := match_rela m scan sym i = Some None.

Lemma find_loop_second idx e0 e :
  find_loop m scan sym repl pagesz maps idx (Some e0) = Some (Some e) <->
  e = e0 /\ Forall unmatched idx.
Proof.
  induction idx as [|i idx IH]; simpl; [split; [by intros [= ->]|by intros [-> _]]|].
  rewrite Forall_cons. unfold unmatched at 1.
  destruct (match_rela m scan sym i) as [[r|]|]; simpl; [|rewrite IH; naive_solver|naive_solver].
  destruct (take_slot _ _ _ _ _ _ r) as [[e1|]|]; simpl; naive_solver.
Qed.

Lemma find_loop_first idx e :
  find_loop m scan sym repl pagesz maps idx None = Some (Some e) <->
  exists a i b r, idx = a ++ i :: b /\ Forall unmatched a /\ Forall unmatched b /\
    match_rela m scan sym i = Some (Some r) /\
    take_slot m scan sym repl pagesz maps r = Some (Some e).
Proof.
  induction idx as [|i idx IH]; simpl.
  { split; [done|]. intros ([|] & ? & ? & ? & [=] & _). }
  destruct (match_rela m scan sym i) as [[r|]|] eqn:Hm; simpl.
  - destruct (take_slot _ _ _ _ _ _ r) as [[e1|]|] eqn:Ht; simpl.
    + rewrite find_loop_second. split.
      * intros [-> Hf]. by exists [], i, idx, r.
      * intros ([|i' a] & i2 & b & r2 & [= -> ->] & Ha & Hb & Hm2 & Ht2); [naive_solver congruence|].
        inversion_clear Ha. unfold unmatched in *. congruence.
    + split; [done|]. intros ([|i' a] & i2 & b & r2 & [= -> ->] & Ha & Hb & Hm2 & Ht2); [congruence|].
      inversion_clear Ha. unfold unmatched in *. congruence.
    + split; [done|]. intros ([|i' a] & i2 & b & r2 & [= -> ->] & Ha & Hb & Hm2 & Ht2); [congruence|].
      inversion_clear Ha. unfold unmatched in *. congruence.
  - rewrite IH. split.
    + intros (a & i2 & b & r & -> & Ha & Hr). exists (i :: a), i2, b, r.
      split; [done|]. split; [by constructor|exact Hr].
    + intros ([|i' a] & i2 & b & r2 & [= -> ->] & Ha & Hb & Hm2 & Ht2); [congruence|].
      inversion_clear Ha. by exists a, i2, b, r2.
  - split; [done|]. intros ([|i' a] & i2 & b & r2 & [= -> ->] & Ha & Hb & Hm2 & Ht2); [congruence|].
    inversion_clear Ha. unfold unmatched in *. congruence.
Qed.

Lemma seq_split n (P : nat -> Prop) i :
  (i < n)%nat ->
  (exists a b, seq 0 n = a ++ i :: b /\ Forall P a /\ Forall P b) <->
  (forall j, (j < n)%nat -> j <> i -> P j).
Proof.
  intros Hi. split.
  - intros (a & b & Hs & Ha & Hb) j Hj Hne.
    assert (j ∈ a ++ i :: b) as Hin by (rewrite <- Hs; apply elem_of_seq; lia).
    apply elem_of_app in Hin as [Hin|Hin].
    + by apply (proj1 (Forall_forall _ _) Ha).
    + apply elem_of_cons in Hin as [?|Hin]; [done|]. by apply (proj1 (Forall_forall _ _) Hb).
  - intros HP. exists (seq 0 i), (seq (S i) (n - S i)). split_and!.
    + replace n with (i + S (n - S i))%nat at 1 by lia. rewrite seq_app. done.
    + apply Forall_forall. intros j Hj. apply elem_of_seq in Hj. apply HP; lia.
    + apply Forall_forall. intros j Hj. apply elem_of_seq in Hj. apply HP; lia.
Qed.

Lemma take_slot_Some r e :
  take_slot m scan sym repl pagesz maps r = Some (Some e) <->
  0 < pagesz /\ base scan + r <= UINTPTR_MAX /\ inModule scan (base scan + r) 8 = true /\
  exists prot orig, mappingProt maps (base scan + r) = Some prot /\ 0 <= prot /\
    rd64 m (base scan + r) = Some orig /\ orig <> NULL /\ orig <> repl /\
    e = mk_entry sym (base scan + r) orig repl ((base scan + r) - (base scan + r) mod pagesz)
          pagesz prot.
Proof.
  unfold take_slot. split.
  - intros He. destruct (Z.ltb_spec (UINTPTR_MAX - base scan) r); [done|].
    destruct (inModule scan _ 8); [|done]. simpl in He. destruct (Z.leb_spec pagesz 0); [done|].
    destruct (mappingProt maps _) as [prot|]; [|done]. simpl in He. destruct (Z.ltb_spec prot 0); [done|].
    destruct (rd64 m _) as [orig|]; [|done]. simpl in He. destruct (_ || _) eqn:Ho; [done|].
    zb. injection He as <-. split_and!; [lia|lia|done|]. by exists prot, orig.
  - intros (Hp & Hb & -> & prot & orig & -> & Hprot & -> & H0 & H1 & ->).
    rewrite (proj2 (Z.ltb_ge _ _)) by lia. simpl. rewrite (proj2 (Z.leb_gt _ _)) by lia. simpl.
    rewrite (proj2 (Z.ltb_ge _ _)) by lia. simpl.
    by rewrite (proj2 (Z.eqb_neq _ _) H0), (proj2 (Z.eqb_neq _ _) H1).
Qed.
End FindSpec.

(** The range checks are exact, with no wrap-around: inModule accepts a range
    exactly when it lies in one loadable segment of the module; resolveDynPtr
    returns 0 or an address whose range does, preferring the load-biased form. *)
Theorem range_checks_exact scan addr value len :
  phdrs_ok (phdr scan) -> 0 <= len ->
  (inModule scan addr len = true <-> inside (base scan) (phdr scan) addr len) /\
  (resolveDynPtr scan value len <> NULL ->
     inside (base scan) (phdr scan) (resolveDynPtr scan value len) len) /\
  (base scan + value <= UINTPTR_MAX -> inside (base scan) (phdr scan) (base scan + value) len ->
     resolveDynPtr scan value len = base scan + value).
Proof.
  intros Hp Hl. split_and!.
  - by apply inModule_inside.
  - intros Hn. apply inModule_inside; [done|done|]. by apply resolveDynPtr_inside.
  - intros Hb Hi. apply inModule_inside in Hi; [|done|done]. unfold resolveDynPtr.
    rewrite Hi, (proj2 (Z.leb_le _ _)) by lia. done.
Qed.

Lemma find_no_fault m infos name sym repl pagesz maps scan :
  mem_ok m -> dl_iterate_phdr m infos (mk_scan name 0 [] 0 0 0 0 false) = Some scan ->
  found scan = true -> phdrs_ok (phdr scan) -> segments_mapped m (base scan) (phdr scan) ->
  (forall a, is_Some (mappingProt maps a)) ->
  is_Some (findGotEntry m scan sym repl pagesz maps).
Proof.
  intros Hm Hi Hf Hp Hs Hmaps. apply iterate_found in Hi as [_ Hok]; [|done].
  specialize (Hok eq_refl Hf). unfold findGotEntry.
  apply find_loop_no_fault; [assumption..|].
  apply Forall_forall. intros i Hin. apply elem_of_seq in Hin. pose proof (so_count _ Hok). lia.
Qed.

Lemma find_iff m scan sym repl pagesz maps e :
  findGotEntry m scan sym repl pagesz maps = Some (Some e) <->
  exists i r, Z.of_nat i < jmprelCount scan /\ match_rela m scan sym i = Some (Some r) /\
    (forall j, Z.of_nat j < jmprelCount scan -> j <> i -> match_rela m scan sym j = Some None) /\
    0 < pagesz /\ base scan + r <= UINTPTR_MAX /\ inModule scan (base scan + r) 8 = true /\
    exists prot orig, mappingProt maps (base scan + r) = Some prot /\ 0 <= prot /\
      rd64 m (base scan + r) = Some orig /\ orig <> NULL /\ orig <> repl /\
      e = mk_entry sym (base scan + r) orig repl ((base scan + r) - (base scan + r) mod pagesz)
            pagesz prot.
Proof.
  unfold findGotEntry. rewrite find_loop_first. split.
  - intros (a & i & b & r & Hs & Ha & Hb & Hm & Ht). apply take_slot_Some in Ht.
    assert (i < Z.to_nat (jmprelCount scan))%nat as Hi.
    { assert (i ∈ seq 0 (Z.to_nat (jmprelCount scan))) as Hin.
      { rewrite Hs. apply elem_of_app. right. by apply elem_of_cons; left. }
      apply elem_of_seq in Hin. lia. }
    exists i, r. split_and!; [lia|done| |apply Ht..].
    intros j Hj Hne. refine (proj1 (seq_split _ (unmatched m scan sym) i Hi) _ j _ Hne); [by exists a, b|lia].
  - intros (i & r & Hi & Hm & Hu & Ht).
    destruct (proj2 (seq_split (Z.to_nat (jmprelCount scan)) (unmatched m scan sym) i ltac:(lia)))
      as (a & b & Hs & Ha & Hb).
    { intros j Hj Hne. apply Hu; [lia|exact Hne]. }
    exists a, i, b, r. apply take_slot_Some in Ht. repeat (split; [assumption|]). exact Ht.
Qed.

(** No wild read: once the module scan reports success, on a process whose
    memory holds the module's loadable segments, the search for a slot reads
    mapped memory only (its own relocations, symbols, names and the slot), for any
    contents of those segments. *)
Theorem findGotEntry_no_fault m infos name sym repl pagesz maps scan :
  mem_ok m -> dl_iterate_phdr m infos (mk_scan name 0 [] 0 0 0 0 false) = Some scan ->
  found scan = true -> phdrs_ok (phdr scan) -> segments_mapped m (base scan) (phdr scan) ->
  (forall a, is_Some (mappingProt maps a)) ->
  is_Some (findGotEntry m scan sym repl pagesz maps).
Proof. apply find_no_fault. Qed.

(** The entry for a symbol: one and only one relocation of the table is its jump
    slot, and that slot lies in the module, in a known mapping, and holds a pointer
    that is neither null nor the hook. *)
Definition entry_for (m : mem) (scan : GotScan) (sym : list Z) (repl pagesz : Z)
    (maps : option (list Z)) (e : GotEntry) : Prop :=
  exists i r, Z.of_nat i < jmprelCount scan /\ jump_slot_for m scan sym i r /\
    (forall j r', Z.of_nat j < jmprelCount scan -> jump_slot_for m scan sym j r' -> j = i) /\
    let a := base scan + r in
    0 < pagesz /\ a <= UINTPTR_MAX /\ inside (base scan) (phdr scan) a 8 /\
    exists prot orig, mappingProt maps a = Some prot /\ 0 <= prot /\
      rd64 m a = Some orig /\ orig <> NULL /\ orig <> repl /\
      e = mk_entry sym a orig repl (a - a mod pagesz) pagesz prot.

Lemma find_exact m scan sym repl pagesz maps :
  phdrs_ok (phdr scan) -> segments_mapped m (base scan) (phdr scan) -> scan_ok scan ->
  (forall a, is_Some (mappingProt maps a)) ->
  exists res, findGotEntry m scan sym repl pagesz maps = Some res /\
    forall e, res = Some e <-> entry_for m scan sym repl pagesz maps e.
Proof.
  intros Hp Hs Hok Hmaps.
  assert (is_Some (findGotEntry m scan sym repl pagesz maps)) as [res Hres].
  { unfold findGotEntry. apply find_loop_no_fault; [assumption..|].
    apply Forall_forall. intros i Hin. apply elem_of_seq in Hin. pose proof (so_count _ Hok). lia. }
  exists res. split; [done|]. intros e.
  assert (res = Some e <-> findGotEntry m scan sym repl pagesz maps = Some (Some e)) as ->
    by (rewrite Hres; naive_solver).
  rewrite find_iff. unfold entry_for. split.
  - intros (i & r & Hi & Hm & Hu & ? & ? & Hin & Hrest). exists i, r.
    apply match_rela_iff in Hm; [|done]. apply inModule_inside in Hin; [|done|done].
    split_and!; try done. intros j r' Hj Hm'. destruct (decide (j = i)) as [|Hne]; [done|].
    apply match_rela_iff in Hm'; [|done]. rewrite (Hu j Hj Hne) in Hm'. done.
  - intros (i & r & Hi & Hm & Hu & ? & ? & Hin & Hrest). exists i, r.
    apply match_rela_iff in Hm; [|done]. apply inModule_inside in Hin; [|done|done].
    split_and!; try done. intros j Hj Hne.
    destruct (match_rela_no_fault m scan sym j Hp Hs Hok Hj) as [[r'|] Hm']; [|done].
    apply match_rela_iff in Hm'; [|done]. by apply Hu in Hm'.
Qed.

(** C15: On a process whose memory holds the loadable segments of the module the
    scan found, for any contents of those segments, findGotEntry returns without
    a fault, and it returns an entry exactly when one and only one relocation of
    the table is a jump slot for the symbol (R_AARCH64_JUMP_SLOT, with a symbol
    and a name that lie in the module, the name being the one asked for) and its
    slot is usable: inside the module, in a known mapping, and holding an original
    that is neither null nor the hook.  The entry describes that slot, the page
    that contains it and its original protection. *)
Theorem findGotEntry_exact m infos name sym repl pagesz maps scan :
  mem_ok m -> dl_iterate_phdr m infos (mk_scan name 0 [] 0 0 0 0 false) = Some scan ->
  found scan = true -> phdrs_ok (phdr scan) -> segments_mapped m (base scan) (phdr scan) ->
  (forall a, is_Some (mappingProt maps a)) ->
  exists res, findGotEntry m scan sym repl pagesz maps = Some res /\
    forall e, res = Some e <-> entry_for m scan sym repl pagesz maps e.
Proof.
  intros Hm Hi Hf Hp Hs Hmaps. apply find_exact; try assumption.
  by eapply iterate_found.
Qed.

(** ** A small module *)

Definition sample_soname : list Z := lit "mtk-rilproxy.so".
Definition sample_strtab : list Z :=
  [NUL] ++ lit "RIL_onUnsolicitedResponse" ++ [NUL] ++ lit "RIL_onRequestComplete" ++ [NUL].

Definition dyn_bytes (tag val : Z) : list Z := le_bytes 8 tag ++ le_bytes 8 val.
Definition rela_bytes (off sym : Z) : list Z :=
  le_bytes 8 off ++ le_bytes 8 (Z.shiftl sym 32 + K50SV1_JUMP_SLOT) ++ le_bytes 8 0.
Definition sym_bytes (name : Z) : list Z := le_bytes 4 name ++ replicate 20 0.

(** Dynamic section, two jump slots, three symbols, their names, the two words. *)
Definition sample_image : list Z :=
  pad_to 0x100 (dyn_bytes DT_JMPREL 0x100 ++ dyn_bytes DT_PLTRELSZ 48 ++ dyn_bytes DT_SYMTAB 0x200 ++
                dyn_bytes DT_STRTAB 0x300 ++ dyn_bytes DT_PLTREL DT_RELA ++ dyn_bytes DT_NULL 0) ++
  pad_to 0x100 (rela_bytes 0x400 1 ++ rela_bytes 0x408 2) ++
  pad_to 0x100 (sym_bytes 0 ++ sym_bytes 1 ++ sym_bytes 27) ++
  pad_to 0x100 sample_strtab ++
  le_bytes 8 0xaaaa0 ++ le_bytes 8 0xbbbb0.

Definition sample_mem : mem := list_to_map (zip (seqZ 0x10000 0x410) sample_image).
Definition sample_phdrs : list Phdr := [mk_phdr PT_LOAD 0 0x410; mk_phdr PT_DYNAMIC 0 96].
Definition sample_infos : list dl_phdr_info :=
  [mk_info 0x8000 (Some (lit "/vendor/bin/hw/rilproxy")) [];
   mk_info 0x10000 (Some (lit "/vendor/lib64/mtk-rilproxy.so")) sample_phdrs].
Definition sample_scan : GotScan :=
  mk_scan sample_soname 0x10000 sample_phdrs 0x10100 2 0x10200 0x10300 true.
Definition sample_maps : option (list Z) :=
  Some (render_maps [mk_vma 0x10000 0x11000 true false false false []]).

Lemma sample_mem_ok : mem_ok sample_mem.
Proof.
  intros k b Hk. apply elem_of_list_to_map_2, elem_of_zip_r in Hk.
  assert (bytes_ok sample_image) as Hb by (apply bytes_ok_dec; vm_compute; reflexivity).
  by apply (proj1 (Forall_forall _ _) Hb).
Qed.

Lemma sample_phdrs_ok : phdrs_ok sample_phdrs.
Proof. by repeat constructor. Qed.

Lemma sample_segments : segments_mapped sample_mem 0x10000 sample_phdrs.
Proof.
  intros ph Hph Ht _. apply elem_of_cons in Hph as [->|Hph].
  - assert (forallb (fun x => bool_decide (is_Some (sample_mem !! x))) (seqZ 0x10000 0x410) = true) as Hall
      by (vm_compute; reflexivity).
    intros x Hx. simpl in Hx. rewrite forallb_forall in Hall.
    apply (bool_decide_unpack (is_Some (sample_mem !! x))). apply Is_true_true, Hall.
    apply list_elem_of_In, elem_of_seqZ. lia.
  - apply list_elem_of_singleton in Hph as ->. done.
Qed.

Lemma sample_maps_defined a : is_Some (mappingProt sample_maps a).
Proof.
  unfold sample_maps, mappingProt. rewrite fgets_render, scan_maps_render; [eauto|..];
    (constructor; [|constructor]); split_and!; try (vm_compute; split; done); try constructor;
    vm_compute; lia.
Qed.

Lemma sample_iterates :
  dl_iterate_phdr sample_mem sample_infos (mk_scan sample_soname 0 [] 0 0 0 0 false) = Some sample_scan.
Proof. vm_compute. reflexivity. Qed.

Lemma findGotEntry_no_fault_witness :
  is_Some (findGotEntry sample_mem sample_scan (lit "RIL_onRequestComplete") 7 4096 sample_maps).
Proof.
  exact (findGotEntry_no_fault sample_mem sample_infos sample_soname (lit "RIL_onRequestComplete") 7
    4096 sample_maps sample_scan sample_mem_ok sample_iterates eq_refl sample_phdrs_ok
    sample_segments sample_maps_defined).
Defined.

(** On the sample module: the second relocation, and no other, is the jump slot of
    the symbol, and the entry is its own. *)
Lemma findGotEntry_exact_witness :
  exists e, findGotEntry sample_mem sample_scan (lit "RIL_onRequestComplete") 7 4096 sample_maps =
      Some (Some e) /\ slot e = 0x10408 /\
    exists i r, Z.of_nat i < 2 /\ jump_slot_for sample_mem sample_scan (lit "RIL_onRequestComplete") i r /\
      (forall j r', Z.of_nat j < 2 ->
         jump_slot_for sample_mem sample_scan (lit "RIL_onRequestComplete") j r' -> j = i).
Proof.
  destruct (findGotEntry_exact sample_mem sample_infos sample_soname (lit "RIL_onRequestComplete") 7
    4096 sample_maps sample_scan sample_mem_ok sample_iterates eq_refl sample_phdrs_ok
    sample_segments sample_maps_defined) as (res & Hres & Hiff).
  exists (mk_entry (lit "RIL_onRequestComplete") 0x10408 0xbbbb0 7 0x10000 4096 PROT_READ).
  assert (findGotEntry sample_mem sample_scan (lit "RIL_onRequestComplete") 7 4096 sample_maps =
    Some (Some (mk_entry (lit "RIL_onRequestComplete") 0x10408 0xbbbb0 7 0x10000 4096 PROT_READ)))
    as Hf by (vm_compute; reflexivity).
  split; [exact Hf|]. split; [reflexivity|].
  pose proof (eq_trans (eq_sym Hres) Hf) as He. injection He as He.
  destruct (proj1 (Hiff _) He) as (i & r & Hi & Hj & Hu & _). exists i, r.
  split; [exact Hi|]. split; [exact Hj|]. exact Hu.
Defined.

Lemma range_checks_exact_witness :
  inModule sample_scan 0x10408 8 = true <-> inside 0x10000 sample_phdrs 0x10408 8.
Proof.
  exact (proj1 (range_checks_exact sample_scan 0x10408 0 8 sample_phdrs_ok ltac:(lia))).
Defined.

Example sample_slot_found :
  findGotEntry sample_mem sample_scan (lit "RIL_onRequestComplete") 7 4096 sample_maps =
  Some (Some (mk_entry (lit "RIL_onRequestComplete") 0x10408 0xbbbb0 7 0x10000 4096 PROT_READ)).
Proof. vm_compute. reflexivity. Qed.
