(* ===== verification/RilInstall.v ===== *)
(** * Installing the hooks (ril-shim/k50sv1_ril_shim.c)

    The two-slot transaction of installAttachApnHooks over a process state:
    memory, page protections, the hook state and the published originals, the
    worker thread.  System calls may fail at any point (the interface [Linux]);
    an access that the page protections forbid is a fault.  Every store to shared
    state appends a snapshot to a log, so that what a concurrent caller of the
    hooks can see is a statement about all snapshots. *)

From S2P Require Import Prelude CMem RilIaMem RilMaps RilGot RilAttachApn.

(** ** The process *)

Record snapshot := mk_snap { sn_mem : mem; sn_hooks : hook_env; sn_worker : bool }.

Record proc := mk_proc {
  p_mem : mem;
  p_prot : gmap Z Z;        (* page address to PROT_* mask *)
  p_hooks : hook_env;
  p_worker : bool;          (* the detached worker exists *)
  p_monotonic : bool;       (* sIaWake is on CLOCK_MONOTONIC *)
  p_calls : nat;            (* system and library calls made so far *)
  p_log : list snapshot;
}.

(** The protection of the page that contains an address, -1 outside. *)
Definition page_of (pagesz a : Z) : Z := a - a mod pagesz.
Definition prot_at (pagesz : Z) (prot : gmap Z Z) (a : Z) : Z := default (-1) (prot !! page_of pagesz a).

(** Pages are aligned, in the address space, and have a PROT_* mask. *)
Definition prot_ok (pagesz : Z) (prot : gmap Z Z) : Prop :=
  map_Forall (fun pg m => pg mod pagesz = 0 /\ 0 <= pg /\ pg + pagesz < 2 ^ 64 /\ 0 <= m < 8) prot.

(** What the code relies on of the kernel and of libpthread: calls numbered from
    the start of the process, each of which may fail; when /proc/self/maps can be
    read it tells the protections as they are. *)
Class Linux := {
  sysconf_pagesize : Z;
  mprotect_ok : nat -> bool;
  self_maps : nat -> gmap Z Z -> option (list Z);
  pthread_rc : nat -> Z;
  pagesize_pow2 : exists k, 3 <= k /\ sysconf_pagesize = 2 ^ k;
  self_maps_spec : forall n prot text a,
    prot_ok sysconf_pagesize prot -> self_maps n prot = Some text ->
    mappingProt (Some text) a = Some (prot_at sysconf_pagesize prot a);
}.

Lemma pagesize_pos `{Linux} : 0 < sysconf_pagesize.
Proof. destruct pagesize_pow2 as (k & Hk & ->). apply Z.pow_pos_nonneg; lia. Qed.

Lemma pagesize_words `{Linux} : sysconf_pagesize mod 8 = 0.
Proof.
  destruct pagesize_pow2 as (k & Hk & ->). change 8 with (2 ^ 3).
  replace k with (k - 3 + 3) by lia. rewrite Z.pow_add_r by lia. apply Z.mod_mul. done.
Qed.

(** ** A state monad with faults *)

Definition M (A : Type) : Type := proc -> option (A * proc).

#[global] Instance M_ret : MRet M := fun A x s => Some (x, s).
#[global] Instance M_bind : MBind M := fun A B f e s =>
  match e s with None => None | Some (x, s') => f x s' end.

Definition fault {A} : M A := fun _ => None.
Definition gets {A} (f : proc -> A) : M A := fun s => Some (f s, s).
Definition lift {A} (x : option A) : M A := fun s => match x with Some y => Some (y, s) | None => None end.

(** The number of this call. *)
Definition tick : M nat := fun s =>
  Some (p_calls s, mk_proc (p_mem s) (p_prot s) (p_hooks s) (p_worker s) (p_monotonic s)
                     (S (p_calls s)) (p_log s)).

(** A store to memory or to the shared variables, with its snapshot. *)
Definition publish (m : mem) (hk : hook_env) (w : bool) : M unit := fun s =>
  Some (tt, mk_proc m (p_prot s) hk w (p_monotonic s) (p_calls s)
              (p_log s ++ [mk_snap m hk w])).

Definition set_prot (pg prot : Z) : M unit := fun s =>
  Some (tt, mk_proc (p_mem s) (<[pg := prot]> (p_prot s)) (p_hooks s) (p_worker s) (p_monotonic s)
              (p_calls s) (p_log s)).

Definition set_monotonic : M unit := fun s =>
  Some (tt, mk_proc (p_mem s) (p_prot s) (p_hooks s) (p_worker s) true (p_calls s) (p_log s)).

Fixpoint store_bytes (m : mem) (a : Z) (bs : list Z) : mem :=
  match bs with [] => m | b :: bs => <[a := b]> (store_bytes m (a + 1) bs) end.

Definition store64 (m : mem) (a v : Z) : mem := store_bytes m a (le_bytes 8 v).

Section Install.
Context `{Linux}.

(** ** System calls *)

(** mprotect on the one page [[pg, pg + pagesize)]. *)
Definition mprotect (pg prot : Z) : M Z :=
  n ← tick;
  mapped ← gets (fun s => bool_decide (is_Some (p_prot s !! pg)));
  if mprotect_ok n && mapped then _ ← set_prot pg prot; mret 0 else mret (-1).

Definition read_prot (a : Z) : M Z :=
  n ← tick;
  prot ← gets p_prot;
  lift (mappingProt (self_maps n prot) a).

(** A store needs mapped bytes on writable pages. *)
Definition can_write (s : proc) (a : Z) : bool :=
  forallb (fun i => negb (Z.land (prot_at sysconf_pagesize (p_prot s) (a + Z.of_nat i)) PROT_WRITE =? 0) &&
                    (0 <=? prot_at sysconf_pagesize (p_prot s) (a + Z.of_nat i)) &&
                    bool_decide (is_Some (p_mem s !! (a + Z.of_nat i))))
    (seq 0 8).

(** A store that no hook depends on. *)
Definition write_word (a v : Z) : M unit := fun s =>
  if can_write s a then
    Some (tt, mk_proc (store64 (p_mem s) a v) (p_prot s) (p_hooks s) (p_worker s) (p_monotonic s)
                (p_calls s) (p_log s))
  else None.

(** A store the hooks' callers can see. *)
Definition store_word (a v : Z) : M unit :=
  ok ← gets (fun s => can_write s a);
  if (ok : bool) then
    m ← gets p_mem; hk ← gets p_hooks; w ← gets p_worker;
    publish (store64 m a v) hk w
  else fault.

(** ** One slot *)

Definition loadGotValue (entry : GotEntry) : M Z :=
  m ← gets p_mem; lift (rd64 m (slot entry)).

Definition verifyGotValue (entry : GotEntry) (expected : Z) : M bool :=
  actual ← loadGotValue entry;
  actualProt ← read_prot (slot entry);
  if negb (actual =? expected) then mret false else
  if negb (actualProt =? protection entry) then mret false else
  mret true.

(** __atomic_compare_exchange_n *)
Definition cas_word (a expected desired : Z) : M bool :=
  m ← gets p_mem;
  observed ← lift (rd64 m a);
  if observed =? expected then _ ← store_word a desired; mret true else mret false.

Definition writeGotValue (entry : GotEntry) (expected desired : Z) : M bool :=
  let writable := negb (Z.land (protection entry) PROT_WRITE =? 0) in
  rc ← (if negb writable then mprotect (page entry) (Z.lor (protection entry) PROT_WRITE)
        else mret 0);
  if negb (rc =? 0) then mret false else
  success ← cas_word (slot entry) expected desired;
  success ← (if (success : bool) then
               v ← loadGotValue entry; mret (v =? desired)
             else mret false);
  rc ← (if negb writable then mprotect (page entry) (protection entry) else mret 0);
  let success := if negb (rc =? 0) then false else success in
  if (success : bool) then verifyGotValue entry desired else mret false.

Definition rollbackGotHooks (unsol complete : GotEntry) : M bool :=
  c ← loadGotValue complete;
  _ ← (if c =? replacement complete
       then writeGotValue complete (replacement complete) (original complete) else mret false);
  u ← loadGotValue unsol;
  _ ← (if u =? replacement unsol
       then writeGotValue unsol (replacement unsol) (original unsol) else mret false);
  completeRestored ← verifyGotValue complete (original complete);
  unsolRestored ← verifyGotValue unsol (original unsol);
  mret (completeRestored && unsolRestored).

(** ** The worker *)

Definition pthread_call : M Z := n ← tick; mret (pthread_rc n).

Definition initIaWake : M Z :=
  rc ← pthread_call;                      (* pthread_condattr_init *)
  if negb (rc =? 0) then mret rc else
  rc ← pthread_call;                      (* pthread_condattr_setclock *)
  rc ← (if rc =? 0 then
          rc ← pthread_call;              (* pthread_cond_init *)
          _ ← (if rc =? 0 then set_monotonic else mret tt);
          mret rc
        else mret rc);
  _ ← pthread_call;                       (* pthread_condattr_destroy *)
  mret rc.

Definition startIaWorker : M Z :=
  rc ← initIaWake;
  if negb (rc =? 0) then mret rc else
  rc ← pthread_call;                      (* pthread_attr_init *)
  if negb (rc =? 0) then mret rc else
  rc ← pthread_call;                      (* pthread_attr_setdetachstate *)
  rc ← (if rc =? 0 then
          rc ← pthread_call;              (* pthread_create *)
          _ ← (if rc =? 0 then
                 m ← gets p_mem; hk ← gets p_hooks; publish m hk true
               else mret tt);
          mret rc
        else mret rc);
  _ ← pthread_call;                       (* pthread_attr_destroy *)
  mret rc.

(** ** The transaction *)

Definition set_hook_state (st : IaHookState) : M unit :=
  m ← gets p_mem; hk ← gets p_hooks; w ← gets p_worker;
  publish m (mk_hooks st (sRealOnUnsol hk) (sRealOnComplete hk)) w.

Definition publish_originals (u c : Z) : M unit :=
  m ← gets p_mem; hk ← gets p_hooks; w ← gets p_worker;
  _ ← publish m (mk_hooks (sIaHookState hk) u (sRealOnComplete hk)) w;
  publish m (mk_hooks (sIaHookState hk) u c) w.

(** The addresses of the two hooks, the modules the loader reports. *)
Context (unsolHook_addr completeHook_addr : Z) (modules : list dl_phdr_info).

(** findGotEntry reads the maps file once per match; a second match fails in any
    case, so one text is enough. *)
Definition find_entry (scan : GotScan) (sym : list Z) (repl : Z) : M (option GotEntry) :=
  m ← gets p_mem; n ← tick; prot ← gets p_prot;
  lift (findGotEntry m scan sym repl sysconf_pagesize (self_maps n prot)).

(** Both entries, or nothing. *)
Definition resolve_entries (scan : GotScan) : M (option (GotEntry * GotEntry)) :=
  if negb (found scan) then mret None else
  u ← find_entry scan (lit "RIL_onUnsolicitedResponse") unsolHook_addr;
  match u with
  | None => mret None
  | Some unsol =>
      c ← find_entry scan (lit "RIL_onRequestComplete") completeHook_addr;
      match c with
      | None => mret None
      | Some complete =>
          if slot unsol =? slot complete then mret None else mret (Some (unsol, complete))
      end
  end.

(** [if (!write(unsol) || !write(complete) || !verify(unsol) || !verify(complete))] *)
Definition write_both (unsol complete : GotEntry) : M bool :=
  ok ← writeGotValue unsol (original unsol) (replacement unsol);
  if negb ok then mret false else
  ok ← writeGotValue complete (original complete) (replacement complete);
  if negb ok then mret false else
  ok ← verifyGotValue unsol (replacement unsol);
  if negb ok then mret false else
  verifyGotValue complete (replacement complete).

Definition undo (unsol complete : GotEntry) : M Z :=
  rolledBack ← rollbackGotHooks unsol complete;
  _ ← set_hook_state (if (rolledBack : bool) then IA_HOOKS_DISABLED else IA_HOOKS_FAILED);
  mret (-1).

Definition installAttachApnHooks : M Z :=
  st ← gets (fun s => sIaHookState (p_hooks s));
  if negb (bool_decide (st = IA_HOOKS_DISABLED)) then
    mret (if bool_decide (st = IA_HOOKS_ACTIVE) then 0 else -1)
  else
  _ ← set_hook_state IA_HOOKS_INSTALLING;
  m ← gets p_mem;
  scan ← lift (dl_iterate_phdr m modules (mk_scan (lit "mtk-rilproxy.so") 0 [] 0 0 0 0 false));
  both ← resolve_entries scan;
  match both with
  | None => _ ← set_hook_state IA_HOOKS_DISABLED; mret (-1)
  | Some (unsol, complete) =>
      _ ← publish_originals (original unsol) (original complete);
      ok ← write_both unsol complete;
      if negb ok then undo unsol complete else
      rc ← startIaWorker;
      if negb (rc =? 0) then undo unsol complete else
      _ ← set_hook_state IA_HOOKS_ACTIVE;
      mret 0
  end.

(** ** Total triples

    [hoare P e Q]: from a state with [P], [e] does not fault and ends with [Q]. *)

Definition hoare {A} (P : proc -> Prop) (e : M A) (Q : A -> proc -> Prop) : Prop :=
  forall s, P s -> exists x s', e s = Some (x, s') /\ Q x s'.

Lemma bind_run {A B} (e : M A) (f : A -> M B) s x s' :
  e s = Some (x, s') -> (e ≫= f) s = f x s'.
Proof. intros He. unfold mbind, M_bind. by rewrite He. Qed.

Lemma hoare_ret {A} (x : A) (P : proc -> Prop) (Q : A -> proc -> Prop) :
  (forall s, P s -> Q x s) -> hoare P (mret x) Q.
Proof. intros HQ s Hs. exists x, s. split; [done|auto]. Qed.

Lemma hoare_bind {A B} (e : M A) (f : A -> M B) P Q R :
  hoare P e Q -> (forall x, hoare (Q x) (f x) R) -> hoare P (e ≫= f) R.
Proof.
  intros He Hf s Hs. destruct (He s Hs) as (x & s1 & H1 & HQ).
  destruct (Hf x s1 HQ) as (y & s2 & H2 & HR). exists y, s2. split; [|done].
  unfold mbind, M_bind. by rewrite H1.
Qed.

Lemma hoare_conseq {A} (e : M A) (P P' : proc -> Prop) (Q Q' : A -> proc -> Prop) :
  hoare P' e Q' -> (forall s, P s -> P' s) -> (forall x s, Q' x s -> Q x s) -> hoare P e Q.
Proof.
  intros He HP HQ s Hs. destruct (He s (HP s Hs)) as (x & s' & ? & ?). exists x, s'. auto.
Qed.

Lemma hoare_gets {A} (f : proc -> A) (P : proc -> Prop) :
  hoare P (gets f) (fun x s => P s /\ x = f s).
Proof. intros s Hs. exists (f s), s. done. Qed.

Lemma hoare_if {A} (b : bool) (e1 e2 : M A) P Q :
  (b = true -> hoare P e1 Q) -> (b = false -> hoare P e2 Q) -> hoare P (if b then e1 else e2) Q.
Proof. destruct b; auto. Qed.

(** ** Failing calls

    Which call failed is part of the outcome: the calls of a run are those
    numbered from its first state's counter to its last state's. *)

(** The kernel refused call [n]: mprotect failed or the maps could not be read. *)
Definition refused (n : nat) : Prop :=
  mprotect_ok n = false \/ exists prot, self_maps n prot = None.

Definition call_failed (n : nat) : Prop := refused n \/ pthread_rc n <> 0.

Definition during (s s' : proc) (n : nat) : Prop := (p_calls s <= n < p_calls s')%nat.

(** A run never moves the counter back. *)
Definition counts {A} (e : M A) : Prop :=
  forall s x s', e s = Some (x, s') -> (p_calls s <= p_calls s')%nat.

Lemma bind_inv {A B} (e : M A) (f : A -> M B) s y s' :
  (e ≫= f) s = Some (y, s') -> exists x s1, e s = Some (x, s1) /\ f x s1 = Some (y, s').
Proof. unfold mbind, M_bind. destruct (e s) as [[x s1]|]; [|done]. eauto. Qed.

Lemma counts_bind {A B} (e : M A) (f : A -> M B) : counts e -> (forall x, counts (f x)) -> counts (e ≫= f).
Proof.
  intros He Hf s y s' Hr. apply bind_inv in Hr as (x & s1 & H1 & H2).
  apply He in H1. apply Hf in H2. lia.
Qed.

Lemma counts_if {A} (b : bool) (e1 e2 : M A) : counts e1 -> counts e2 -> counts (if b then e1 else e2).
Proof. by destruct b. Qed.

Lemma counts_ret {A} (x : A) : counts (mret x).
Proof. by intros s y s' [= _ <-]. Qed.

Lemma counts_gets {A} (f : proc -> A) : counts (gets f).
Proof. by intros s y s' [= _ <-]. Qed.

Lemma counts_lift {A} (x : option A) : counts (lift x).
Proof. intros s y s'. unfold lift. destruct x; [|done]. by intros [= _ <-]. Qed.

Lemma counts_fault {A} : counts (@fault A).
Proof. by intros s y s'. Qed.

Lemma counts_tick : counts tick.
Proof. intros s y s' [= _ <-]. simpl. lia. Qed.

Lemma counts_publish m hk w : counts (publish m hk w).
Proof. by intros s y s' [= _ <-]. Qed.

Lemma counts_set_prot pg v : counts (set_prot pg v).
Proof. by intros s y s' [= _ <-]. Qed.

Lemma counts_set_monotonic : counts set_monotonic.
Proof. by intros s y s' [= _ <-]. Qed.

Ltac solve_counts :=
  repeat first
    [ apply counts_ret | apply counts_gets | apply counts_lift | apply counts_fault | apply counts_tick
    | apply counts_publish | apply counts_set_prot | apply counts_set_monotonic
    | apply counts_if | apply counts_bind; [|intros ?] | progress hnf_op ]
with hnf_op :=
  unfold installAttachApnHooks, undo, write_both, set_hook_state, startIaWorker, initIaWake,
    pthread_call, rollbackGotHooks, writeGotValue, verifyGotValue, cas_word, store_word, loadGotValue,
    read_prot, mprotect.

Lemma counts_write e v w : counts (writeGotValue e v w).
Proof. solve_counts. Qed.

Lemma counts_verify e v : counts (verifyGotValue e v).
Proof. solve_counts. Qed.

Lemma counts_pthread : counts pthread_call.
Proof. solve_counts. Qed.

(** ** Words in memory *)

Lemma store_bytes_lookup m a bs x :
  store_bytes m a bs !! x =
    if bool_decide (a <= x < a + Z.of_nat (length bs)) then bs !! Z.to_nat (x - a) else m !! x.
Proof.
  revert a. induction bs as [|b bs IH]; intros a; simpl; [by rewrite bool_decide_false by lia|].
  rewrite lookup_insert. destruct (decide (a = x)) as [ ->|Hne].
  - rewrite bool_decide_true by lia. by rewrite Z.sub_diag.
  - rewrite IH. destruct (decide (a + 1 <= x < a + 1 + Z.of_nat (length bs))).
    + rewrite !bool_decide_true by lia.
      replace (Z.to_nat (x - a)) with (S (Z.to_nat (x - (a + 1)))) by lia. done.
    + by rewrite !bool_decide_false by lia.
Qed.

Lemma load_store m a bs : load (store_bytes m a bs) a (length bs) = Some bs.
Proof.
  unfold load. apply mapM_Some, Forall2_lookup. intros i.
  destruct (decide (i < length bs)%nat) as [Hi|Hi].
  - rewrite lookup_seq_lt by done. destruct (lookup_lt_is_Some_2 bs i Hi) as [b Hb].
    rewrite Hb. constructor. rewrite store_bytes_lookup, bool_decide_true by lia. simpl.
    by replace (Z.to_nat (a + Z.of_nat i - a)) with i by lia.
  - rewrite lookup_seq_ge, lookup_ge_None_2 by lia. constructor.
Qed.

Lemma rd64_store m a v : is_u64 v -> rd64 (store64 m a v) a = Some v.
Proof.
  intros Hv. unfold rd64, store64. pose proof (load_store m a (le_bytes 8 v)) as Hl.
  rewrite length_le_bytes in Hl. rewrite Hl. exact (f_equal Some (le_value_bytes_small 8 v Hv)).
Qed.

Lemma load_ext m m' a n :
  (forall x, a <= x < a + Z.of_nat n -> m !! x = m' !! x) -> load m a n = load m' a n.
Proof.
  intros He. unfold load.
  assert (forall k i0, (forall x, a + Z.of_nat i0 <= x < a + Z.of_nat (i0 + k) -> m !! x = m' !! x) ->
    mapM (fun i => m !! (a + Z.of_nat i)) (seq i0 k) = mapM (fun i => m' !! (a + Z.of_nat i)) (seq i0 k)) as Hg.
  { induction k as [|k IH]; intros i0 Hx; simpl; [done|]. rewrite Hx by lia.
    destruct (m' !! _); simpl; [|done]. by rewrite IH by (intros; apply Hx; lia). }
  apply (Hg n 0%nat). intros x Hx. apply He. lia.
Qed.

Lemma store64_mem_ok m a v : mem_ok m -> mem_ok (store64 m a v).
Proof.
  intros Hm x b. unfold store64. rewrite store_bytes_lookup. case_bool_decide; [|apply Hm].
  intros Hb. by eapply Forall_lookup_1, Hb; apply le_bytes_ok.
Qed.

Lemma store64_mapped m a v x : is_Some (m !! x) -> is_Some (store64 m a v !! x).
Proof.
  intros Hm. unfold store64. rewrite store_bytes_lookup. case_bool_decide; [|done].
  apply lookup_lt_is_Some_2. lia.
Qed.

(** ** What is known of an entry *)

Record entry_ok (e : GotEntry) : Prop := {
  eo_aligned : slot e mod 8 = 0;
  eo_page : page e = page_of sysconf_pagesize (slot e);
  eo_prot : 0 <= protection e < 8;
  eo_orig : is_u64 (original e);
  eo_repl : is_u64 (replacement e);
}.

Lemma page_of_word a i :
  a mod 8 = 0 -> 0 <= i < 8 -> page_of sysconf_pagesize (a + i) = page_of sysconf_pagesize a.
Proof.
  intros Ha Hi. unfold page_of. pose proof pagesize_pos. pose proof pagesize_words as Hw.
  apply Z.mod_divide in Hw as [k Hk]; [|done]. apply Z.mod_divide in Ha as [j ->]; [|done].
  assert (0 < k) by lia. rewrite Hk.
  assert ((j * 8 + i) mod (k * 8) = i + 8 * (j mod k)) as ->.
  { rewrite (Z.mul_comm k 8), Z.rem_mul_r by lia.
    replace (j * 8 + i) with (i + j * 8) by lia. rewrite Z.mod_add, Z.div_add by lia.
    rewrite (Z.mod_small i 8), (Z.div_small i 8) by lia. done. }
  rewrite (Z.mul_mod_distr_r j k 8) by lia. lia.
Qed.

Lemma lor_write_range p : 0 <= p < 8 -> 0 <= Z.lor p PROT_WRITE < 8 /\ Z.land (Z.lor p PROT_WRITE) PROT_WRITE <> 0.
Proof.
  intros Hp. assert (p = 0 \/ p = 1 \/ p = 2 \/ p = 3 \/ p = 4 \/ p = 5 \/ p = 6 \/ p = 7) as Hc by lia.
  destruct Hc as [ ->|[ ->|[ ->|[ ->|[ ->|[ ->|[ ->| ->]]]]]]]; vm_compute; done.
Qed.

(** ** The transaction's invariant

    For two resolved entries: their words stay mapped, each page has its original
    protection or that plus PROT_WRITE, and every snapshot so far is safe to run
    the hooks in. *)

Section Pair.
Context (u c : GotEntry).
Context (Hu : entry_ok u) (Hc : entry_ok c).
Context (Hsame : page u = page c -> protection u = protection c).
Context (Hne : slot u <> slot c).

(** What a thread that calls through the slots sees: a slot that holds a hook has
    its original published, and ACTIVE means both hooks and the worker. *)
Definition snap_safe (sn : snapshot) : Prop :=
  (rd64 (sn_mem sn) (slot u) = Some (replacement u) -> sRealOnUnsol (sn_hooks sn) = original u) /\
  (rd64 (sn_mem sn) (slot c) = Some (replacement c) -> sRealOnComplete (sn_hooks sn) = original c) /\
  (sIaHookState (sn_hooks sn) = IA_HOOKS_ACTIVE ->
     rd64 (sn_mem sn) (slot u) = Some (replacement u) /\
     rd64 (sn_mem sn) (slot c) = Some (replacement c) /\ sn_worker sn = true).

Definition page_good (prot : gmap Z Z) (e : GotEntry) : Prop :=
  prot !! page e = Some (protection e) \/
  prot !! page e = Some (Z.lor (protection e) PROT_WRITE).

(** [m0]: the memory before; only the bytes of the two words may differ. *)
Context (m0 : mem).

Definition frame (m : mem) : Prop :=
  forall x, ~ (slot u <= x < slot u + 8) -> ~ (slot c <= x < slot c + 8) -> m !! x = m0 !! x.

(** A slot holds its original or its hook. *)
Definition held (m : mem) (e : GotEntry) : Prop :=
  rd64 m (slot e) = Some (original e) \/ rd64 m (slot e) = Some (replacement e).

Record phys (m : mem) (prot : gmap Z Z) : Prop := {
  ph_frame : frame m;
  ph_ok : prot_ok sysconf_pagesize prot;
  ph_u : page_good prot u;
  ph_c : page_good prot c;
  ph_mem_u : mapped m (slot u) 8;
  ph_mem_c : mapped m (slot c) 8;
  ph_held_u : held m u;
  ph_held_c : held m c;
}.

(** [W]: whether the worker exists. *)
Context (W : bool).

Record K (s : proc) : Prop := {
  k_worker : p_worker s = W;
  k_phys : phys (p_mem s) (p_prot s);
  k_pub : sRealOnUnsol (p_hooks s) = original u /\ sRealOnComplete (p_hooks s) = original c;
  k_state : sIaHookState (p_hooks s) = IA_HOOKS_INSTALLING;
  k_log : Forall snap_safe (p_log s);
}.

Definition is_entry (e : GotEntry) : Prop := e = u \/ e = c.

Lemma is_entry_ok e : is_entry e -> entry_ok e.
Proof. by intros [ ->| ->]. Qed.

Lemma phys_good m prot e : phys m prot -> is_entry e -> page_good prot e.
Proof. intros Hp [ ->| ->]; apply Hp. Qed.

Lemma phys_mapped m prot e : phys m prot -> is_entry e -> mapped m (slot e) 8.
Proof. intros Hp [ ->| ->]; apply Hp. Qed.

Lemma phys_held m prot e : phys m prot -> is_entry e -> held m e.
Proof. intros Hp [ ->| ->]; apply Hp. Qed.

Lemma phys_word m prot e : phys m prot -> is_entry e -> is_Some (rd64 m (slot e)).
Proof. intros Hp He. eapply rd64_mapped, phys_mapped; eauto. Qed.

Lemma page_good_insert prot e e' v :
  page_good prot e -> is_entry e -> is_entry e' ->
  (v = protection e' \/ v = Z.lor (protection e') PROT_WRITE) ->
  page_good (<[page e' := v]> prot) e.
Proof.
  intros Hg He He' Hv. unfold page_good. destruct (decide (page e' = page e)) as [Hp|Hp].
  - rewrite Hp, lookup_insert_eq.
    assert (protection e' = protection e) as <-.
    { destruct He as [ ->| ->], He' as [ ->| ->]; try done; [symmetry|]; auto. }
    destruct Hv as [ ->| ->]; auto.
  - by rewrite lookup_insert_ne.
Qed.

Lemma phys_prot m prot e v :
  phys m prot -> is_entry e -> (v = protection e \/ v = Z.lor (protection e) PROT_WRITE) ->
  is_Some (prot !! page e) -> phys m (<[page e := v]> prot).
Proof.
  intros [] He Hv [v0 Hpg]. split; [done| |apply page_good_insert; try done; by left|
    apply page_good_insert; try done; by right|done|done|done|done].
  intros pg x Hx. apply lookup_insert_Some in Hx as [[<- <-]|[_ Hx]]; [|by apply ph_ok0].
  destruct (ph_ok0 _ _ Hpg) as (? & ? & ? & _). split_and!; try done.
  - destruct Hv as [ ->| ->]; [apply is_entry_ok in He; destruct He; lia|].
    apply lor_write_range, is_entry_ok, He.
  - destruct Hv as [ ->| ->]; [apply is_entry_ok in He; destruct He; lia|].
    apply lor_write_range, is_entry_ok, He.
Qed.

(** Predicates on memory and protections that the calls below do not disturb. *)
Section Frame.
Context (F : mem -> gmap Z Z -> Prop).

Definition KF (s : proc) : Prop := K s /\ F (p_mem s) (p_prot s).

Lemma hoare_tick : hoare KF tick (fun _ => KF).
Proof. intros s [[] HF]. eexists _, _. split; [done|]. split; [split; done|done]. Qed.

Lemma hoare_load e : is_entry e -> hoare KF (loadGotValue e)
  (fun v s => KF s /\ rd64 (p_mem s) (slot e) = Some v).
Proof.
  intros He s HK. destruct (phys_word (p_mem s) (p_prot s) e (k_phys _ (proj1 HK)) He) as [v Hv].
  exists v, s. split; [|done]. unfold loadGotValue, mbind, M_bind, gets, lift. by rewrite Hv.
Qed.

Lemma hoare_read_prot e : is_entry e -> hoare KF (read_prot (slot e))
  (fun v s => KF s /\ (v = protection e -> prot_at sysconf_pagesize (p_prot s) (slot e) = protection e)).
Proof.
  intros He s HK. pose proof (eo_prot _ (is_entry_ok _ He)) as Hr.
  destruct (hoare_tick s HK) as (n & s1 & Ht & HK1). unfold read_prot, mbind, M_bind, gets, lift.
  rewrite Ht. cbn. destruct (self_maps n (p_prot s1)) as [text|] eqn:Hm.
  - erewrite self_maps_spec by (try apply (ph_ok _ _ (k_phys _ (proj1 HK1))); exact Hm).
    eexists _, s1. split; [done|]. split; [done|]. done.
  - eexists _, s1. split; [done|]. split; [done|]. intros; lia.
Qed.

Definition verified (e : GotEntry) (v : Z) (s : proc) : Prop :=
  rd64 (p_mem s) (slot e) = Some v /\
  prot_at sysconf_pagesize (p_prot s) (slot e) = protection e.

Lemma hoare_verify e v : is_entry e -> hoare KF (verifyGotValue e v)
  (fun b s => KF s /\ (b = true -> verified e v s)).
Proof.
  intros He s HK. destruct (hoare_load e He s HK) as (a & s1 & H1 & HK1 & Ha).
  destruct (hoare_read_prot e He s1 HK1) as (pr & s2 & H2 & HK2 & Hp).
  assert (p_mem s2 = p_mem s1) as Hm.
  { revert H2. unfold read_prot, tick, gets, lift, mbind, M_bind. cbn. case_match; [|done]. by intros [= _ <-]. }
  unfold verifyGotValue, mbind, M_bind. rewrite H1, H2.
  destruct (Z.eqb_spec a v) as [ ->|]; [|by eexists _, s2].
  destruct (Z.eqb_spec pr (protection e)) as [ ->|]; [|by eexists _, s2].
  eexists _, s2. split; [done|]. split; [done|]. intros _. split; [by rewrite Hm|by apply Hp].
Qed.

Lemma hoare_pthread : hoare KF pthread_call (fun _ => KF).
Proof.
  unfold pthread_call. eapply hoare_bind; [apply hoare_tick|]. intros n. by apply hoare_ret.
Qed.

(** The condition variable's clock is monotonic when initIaWake reports success. *)
Lemma hoare_initIaWake : hoare KF initIaWake (fun rc s => KF s /\ (rc = 0 -> p_monotonic s = true)).
Proof.
  intros s HK. unfold initIaWake.
  destruct (hoare_pthread s HK) as (r1 & s1 & H1 & HK1). unfold mbind at 1, M_bind. rewrite H1.
  destruct (Z.eqb_spec r1 0) as [ ->|]; cbn [negb]; [|by eexists _, s1].
  destruct (hoare_pthread s1 HK1) as (r2 & s2 & H2 & HK2). unfold mbind at 1, M_bind. rewrite H2.
  destruct (Z.eqb_spec r2 0) as [ ->|Hr2].
  - destruct (hoare_pthread s2 HK2) as (r3 & s3 & H3 & HK3). unfold mbind, M_bind. rewrite H3.
    destruct (Z.eqb_spec r3 0) as [ ->|Hr3].
    + eexists _, _. split; [reflexivity|]. split; [|done]. destruct HK3 as [[] HF]. by split; [split|].
    + eexists _, _. split; [reflexivity|]. split; [|done]. destruct HK3 as [[] HF]. by split; [split|].
  - unfold mbind, M_bind. eexists _, _. split; [reflexivity|]. split; [|done].
    destruct HK2 as [[] HF]. by split; [split|].
Qed.

End Frame.

(** ** Stores *)

Definition writable_page (e : GotEntry) (s : proc) : Prop :=
  exists v, p_prot s !! page e = Some v /\ 0 <= v /\ Z.land v PROT_WRITE <> 0.

Lemma hoare_mprotect e v :
  is_entry e -> (v = protection e \/ v = Z.lor (protection e) PROT_WRITE) ->
  hoare K (mprotect (page e) v) (fun rc s => K s /\ (rc = 0 -> p_prot s !! page e = Some v)).
Proof.
  intros He Hv s HK. unfold mprotect, mbind, M_bind, tick, gets. cbn.
  destruct HK as [Hwk Hp Hpub Hst Hl].
  destruct (mprotect_ok _); [|eexists _, _; split; [reflexivity|]; split; [by split|done]].
  case_bool_decide as Hmap; [|eexists _, _; split; [reflexivity|]; split; [by split|done]].
  eexists _, _. split; [reflexivity|]. split; [|intros _; simpl; by rewrite lookup_insert_eq].
  split; simpl; try done. by apply phys_prot.
Qed.

Lemma can_write_word e s : K s -> is_entry e -> writable_page e s -> can_write s (slot e) = true.
Proof.
  intros HK He (v & Hv & Hv0 & Hvw). apply forallb_forall. intros i Hi. apply in_seq in Hi.
  pose proof (is_entry_ok _ He) as Heo. unfold prot_at.
  rewrite page_of_word by (apply Heo || lia). rewrite <- (eo_page _ Heo), Hv. simpl.
  rewrite (proj2 (Z.eqb_neq _ _) Hvw), (proj2 (Z.leb_le _ _) Hv0). simpl.
  apply bool_decide_eq_true. apply (phys_mapped _ _ e (k_phys _ HK) He). lia.
Qed.

(** Two aligned words are the same or apart. *)
Lemma words_apart a b x : a mod 8 = 0 -> b mod 8 = 0 -> a <> b -> b <= x < b + 8 -> ~ (a <= x < a + 8).
Proof.
  intros Ha Hb Hab Hx. pose proof (Z.div_mod a 8 ltac:(lia)). pose proof (Z.div_mod b 8 ltac:(lia)). lia.
Qed.

Lemma rd64_store_other m e e' v :
  is_entry e -> is_entry e' -> slot e <> slot e' -> rd64 (store64 m (slot e) v) (slot e') = rd64 m (slot e').
Proof.
  intros He He' Hd. unfold rd64. f_equal. apply load_ext. intros x Hx. unfold store64.
  rewrite store_bytes_lookup, length_le_bytes, bool_decide_false; [done|].
  apply (words_apart _ (slot e')); [apply is_entry_ok in He; apply He|apply is_entry_ok in He'; apply He'|done|].
  lia.
Qed.

(** The two values a slot may hold. *)
Definition slot_value (e : GotEntry) (v : Z) : Prop := v = original e \/ v = replacement e.

Lemma slot_value_range e v : is_entry e -> slot_value e v -> is_u64 v.
Proof. intros He [ ->| ->]; apply is_entry_ok in He; apply He. Qed.

Lemma held_store m e e' v :
  is_entry e -> is_entry e' -> slot_value e v -> held m e' -> held (store64 m (slot e) v) e'.
Proof.
  intros He He' Hv Hh. destruct (decide (slot e = slot e')) as [Heq|Hd].
  - assert (e = e') as <- by (destruct He as [ ->| ->], He' as [ ->| ->]; done).
    unfold held. rewrite rd64_store by (by eapply slot_value_range). destruct Hv as [ ->| ->]; auto.
  - unfold held. by rewrite rd64_store_other.
Qed.

Lemma K_store s e v :
  K s -> is_entry e -> slot_value e v ->
  K (mk_proc (store64 (p_mem s) (slot e) v) (p_prot s) (p_hooks s) (p_worker s) (p_monotonic s)
       (p_calls s) (p_log s ++ [mk_snap (store64 (p_mem s) (slot e) v) (p_hooks s) (p_worker s)])).
Proof.
  intros [Hwk [] [Hpu Hpc] Hst Hl] He Hv. split; simpl; try done.
  - split; try done; [|intros x Hx; apply store64_mapped; auto..
      |apply held_store; try done; by left|apply held_store; try done; by right].
    intros x Hx1 Hx2. rewrite <- (ph_frame0 x) by done. unfold store64. rewrite store_bytes_lookup.
    rewrite length_le_bytes, bool_decide_false; [done|]. destruct He as [ ->| ->]; lia.
  - apply Forall_app. split; [done|]. constructor; [|constructor]. split_and!; simpl; try done.
    by rewrite Hst.
Qed.

Lemma hoare_cas e expected desired :
  is_entry e -> slot_value e desired ->
  hoare (fun s => K s /\ writable_page e s) (cas_word (slot e) expected desired) (fun _ => K).
Proof.
  intros He Hdes s [HK Hw]. destruct (phys_word _ _ e (k_phys _ HK) He) as [v Hv].
  unfold cas_word, mbind, M_bind, gets, lift. rewrite Hv.
  destruct (v =? expected); [|by eexists _, s].
  unfold store_word, mbind, M_bind, gets. rewrite (can_write_word e s HK He Hw).
  eexists _, _. split; [reflexivity|]. by apply K_store.
Qed.

(** The page is writable where the store happens. *)
Lemma hoare_make_writable e :
  is_entry e ->
  hoare K (if negb (negb (Z.land (protection e) PROT_WRITE =? 0))
           then mprotect (page e) (Z.lor (protection e) PROT_WRITE) else mret 0)
    (fun rc s => K s /\ (rc = 0 -> writable_page e s)).
Proof.
  intros He. pose proof (eo_prot _ (is_entry_ok _ He)) as Hr.
  pose proof (lor_write_range _ Hr) as [[? _] ?]. apply hoare_if; intros Hb.
  - eapply hoare_conseq; [apply hoare_mprotect; [done|by right]|done|]. intros rc s [HK Hrc].
    split; [done|]. intros Hz. exists (Z.lor (protection e) PROT_WRITE). auto.
  - apply hoare_ret. intros s HK. split; [done|]. intros _. zb.
    destruct (phys_good _ _ e (k_phys _ HK) He) as [Hg|Hg]; eexists; (split; [exact Hg|]); split;
      done || lia.
Qed.

Lemma hoare_write e expected desired :
  is_entry e -> slot_value e desired -> hoare K (writeGotValue e expected desired) (fun _ => K).
Proof.
  intros He Hdes. unfold writeGotValue.
  eapply hoare_bind; [by apply hoare_make_writable|]. intros rc. apply hoare_if; intros Hrc.
  { by apply hoare_ret; intros s [? _]. }
  zb. eapply hoare_bind; [eapply hoare_conseq; [by apply (hoare_cas e expected desired)| |done]|].
  { intros s [? Hw]. auto. }
  intros success. eapply hoare_bind with (Q := fun _ => K).
  { apply hoare_if; intros _; [|by apply hoare_ret].
    eapply hoare_bind; [eapply hoare_conseq; [by apply (hoare_load (fun _ _ => True))|by split|]|].
    - intros x s [[HK _] _]. exact HK.
    - intros v. by apply hoare_ret. }
  intros success'. eapply hoare_bind with (Q := fun _ => K).
  { apply hoare_if; intros _; [|by apply hoare_ret].
    eapply hoare_conseq; [apply (hoare_mprotect e (protection e)); auto|done|]. by intros ? ? [? _]. }
  intros rc2. apply hoare_if; intros _; [|by apply hoare_ret].
  eapply hoare_conseq; [by apply (hoare_verify (fun _ _ => True))|by split|]. by intros b s [[? _] _].
Qed.

Lemma hoare_load_K e : is_entry e -> hoare K (loadGotValue e) (fun _ => K).
Proof.
  intros He. eapply hoare_conseq; [by apply (hoare_load (fun _ _ => True))|by split|].
  by intros b s [[? _] _].
Qed.

Lemma hoare_two_verify e1 v1 e2 v2 :
  is_entry e1 -> is_entry e2 ->
  hoare K (b1 ← verifyGotValue e1 v1; b2 ← verifyGotValue e2 v2; mret (b1 && b2))
    (fun b s => K s /\ (b = true -> verified e1 v1 s /\ verified e2 v2 s)).
Proof.
  intros H1 H2. eapply hoare_bind.
  { eapply hoare_conseq; [by apply (hoare_verify (fun _ _ => True) e1 v1)|by split|done]. }
  intros b1. set (F := fun m prot => b1 = true -> rd64 m (slot e1) = Some v1 /\
    prot_at sysconf_pagesize prot (slot e1) = protection e1).
  eapply hoare_bind with (Q := fun b2 s => KF F s /\ (b2 = true -> verified e2 v2 s)).
  { eapply hoare_conseq; [by apply (hoare_verify F e2 v2)| |done]. by intros s [[HK _] Hb]; split. }
  intros b2. apply hoare_ret. intros s [[HK HF] Hb2]. split; [done|]. intros Hb. zb. split; [by apply HF|auto].
Qed.

(** Whatever the rollback meets, its answer is what the slots and protections are. *)
Lemma hoare_rollback : hoare K (rollbackGotHooks u c)
  (fun b s => K s /\ (b = true -> verified u (original u) s /\ verified c (original c) s)).
Proof.
  unfold rollbackGotHooks. eapply hoare_bind; [apply hoare_load_K; by right|]. intros vc.
  eapply hoare_bind with (Q := fun _ => K).
  { apply hoare_if; intros _; [apply hoare_write; [by right|by left]|by apply hoare_ret]. }
  intros _. eapply hoare_bind; [apply hoare_load_K; by left|]. intros vu.
  eapply hoare_bind with (Q := fun _ => K).
  { apply hoare_if; intros _; [apply hoare_write; [by left|by left]|by apply hoare_ret]. }
  intros _. eapply hoare_conseq; [apply (hoare_two_verify c (original c) u (original u)); [by right|by left]|done|].
  intros b s [? Hb]. split; [done|]. intros Ht. destruct (Hb Ht). done.
Qed.

Lemma hoare_write_both : hoare K (write_both u c)
  (fun b s => K s /\ (b = true -> verified u (replacement u) s /\ verified c (replacement c) s)).
Proof.
  unfold write_both. eapply hoare_bind; [apply hoare_write; [by left|by right]|]. intros b1.
  apply hoare_if; intros _; [by apply hoare_ret|].
  eapply hoare_bind; [apply hoare_write; [by right|by right]|]. intros b2.
  apply hoare_if; intros _; [by apply hoare_ret|].
  intros s HK.
  destruct (hoare_two_verify u (replacement u) c (replacement c) ltac:(by left) ltac:(by right) s HK)
    as (b & s2 & Hb & HK2 & Hv).
  destruct (hoare_verify (fun _ _ => True) u (replacement u) ltac:(by left) s (conj HK I))
    as (b1' & s1 & H1 & [HK1 _] & _).
  destruct (hoare_verify (fun _ _ => True) c (replacement c) ltac:(by right) s1 (conj HK1 I))
    as (b2' & s3 & H2 & [HK3 _] & _).
  revert Hb. unfold mbind, M_bind. rewrite H1, H2. intros [= <- <-].
  destruct b1'; cbn [negb andb].
  - rewrite H2. by exists b2', s3.
  - by exists false, s1.
Qed.
(** ** What a failing call leaves

    The same operations, with the calls that failed: an operation that answers
    false or leaves a page writable had a call refused. *)

Lemma hoare_at {A} P (e : M A) Q s x s' : hoare P e Q -> P s -> e s = Some (x, s') -> Q x s'.
Proof. intros He Hs Hr. destruct (He s Hs) as (y & s1 & H1 & HQ). rewrite H1 in Hr. by injection Hr as <- <-. Qed.

Definition exact (prot : gmap Z Z) (e : GotEntry) : Prop := prot !! page e = Some (protection e).

Lemma got_mprotect_run s e v rc s' :
  K s -> is_entry e -> (v = protection e \/ v = Z.lor (protection e) PROT_WRITE) ->
  mprotect (page e) v s = Some (rc, s') ->
  K s' /\ p_mem s' = p_mem s /\ p_calls s' = S (p_calls s) /\
  ((rc = 0 /\ p_prot s' = <[page e := v]> (p_prot s)) \/
   (rc <> 0 /\ p_prot s' = p_prot s /\ refused (p_calls s))).
Proof.
  intros HK He Hv Hr. split; [by apply (hoare_at _ _ _ _ _ _ (hoare_mprotect e v He Hv) HK) in Hr as [? _]|].
  assert (is_Some (p_prot s !! page e)) as Hm
    by (destruct (phys_good _ _ e (k_phys _ HK) He) as [Hg|Hg]; rewrite Hg; eauto).
  revert Hr. unfold mprotect, mbind, M_bind, tick, gets. cbn. rewrite (bool_decide_true _ Hm).
  destruct (mprotect_ok (p_calls s)) eqn:Hok; cbn; intros [= <- <-]; cbn; split_and!; try done.
  - by left.
  - right. split_and!; try done. by left.
Qed.

Lemma verify_run s e v b s' :
  K s -> is_entry e -> exact (p_prot s) e -> rd64 (p_mem s) (slot e) = Some v ->
  verifyGotValue e v s = Some (b, s') ->
  K s' /\ p_mem s' = p_mem s /\ p_prot s' = p_prot s /\
  (b = false -> exists n, during s s' n /\ refused n).
Proof.
  intros HK He Hx Hv Hr.
  split; [by apply (hoare_at _ _ _ _ _ _ (hoare_verify (fun _ _ => True) e v He) (conj HK I)) in Hr as [[? _] _]|].
  assert (prot_at sysconf_pagesize (p_prot s) (slot e) = protection e) as Hpa
    by (unfold prot_at; by rewrite <- (eo_page _ (is_entry_ok _ He)), Hx).
  revert Hr. unfold verifyGotValue, loadGotValue, read_prot, mbind, M_bind, tick, gets, lift. cbn -[rd64 mappingProt].
  rewrite Hv. cbn -[rd64 mappingProt]. rewrite Z.eqb_refl. cbn -[rd64 mappingProt].
  destruct (self_maps (p_calls s) (p_prot s)) as [text|] eqn:Hm.
  - erewrite self_maps_spec by (try apply (ph_ok _ _ (k_phys _ HK)); exact Hm). cbn -[rd64 mappingProt].
    rewrite Hpa, Z.eqb_refl. cbn -[rd64 mappingProt]. intros [= <- <-]. cbn -[rd64 mappingProt]. split_and!; done.
  - change (mappingProt None (slot e)) with (Some (-1)). cbn -[rd64 Z.eqb].
    destruct (-1 =? protection e); cbn -[rd64 mappingProt]; intros [= <- <-]; cbn -[rd64 mappingProt]; (split; [done|split; [done|]]); [done|].
    intros _. exists (p_calls s). split; [unfold during; cbn -[rd64 mappingProt]; lia|]. right. by exists (p_prot s).
Qed.

Lemma cas_run s e expected desired b s' :
  K s -> is_entry e -> slot_value e desired -> rd64 (p_mem s) (slot e) = Some expected ->
  cas_word (slot e) expected desired s = Some (b, s') ->
  K s' /\ b = true /\ p_mem s' = store64 (p_mem s) (slot e) desired /\ p_prot s' = p_prot s /\
  p_calls s' = p_calls s.
Proof.
  intros HK He Hd Hv. unfold cas_word, store_word, mbind, M_bind, gets, lift. rewrite Hv, Z.eqb_refl.
  destruct (can_write s (slot e)); [|done]. cbn. intros [= <- <-]. cbn. split_and!; try done.
  by apply K_store.
Qed.

(** A page is made writable for the store, where it is not already. *)
Lemma unprotect_run s e rc s' :
  K s -> is_entry e ->
  (if negb (negb (Z.land (protection e) PROT_WRITE =? 0))
   then mprotect (page e) (Z.lor (protection e) PROT_WRITE) else mret 0) s = Some (rc, s') ->
  K s' /\ p_mem s' = p_mem s /\ (p_calls s <= p_calls s')%nat /\
  (forall pg, pg <> page e -> p_prot s' !! pg = p_prot s !! pg) /\
  (rc = 0 \/ (rc <> 0 /\ p_prot s' = p_prot s /\ exists n, during s s' n /\ refused n)).
Proof.
  intros HK He Hr. destruct (negb (Z.land _ _ =? 0)); cbn [negb] in Hr.
  - injection Hr as <- <-. split_and!; auto.
  - apply got_mprotect_run in Hr as (? & ? & Hcalls & [[-> Hp]|(Hrc & Hp & Hf)]); auto.
    + split_and!; auto; [lia|]. intros pg Hpg. rewrite Hp. by rewrite lookup_insert_ne.
    + split_and!; auto; [lia|by rewrite Hp|]. right. split_and!; auto. exists (p_calls s). split; [unfold during; lia|done].
Qed.

Lemma lor_write p : 0 <= p < 8 -> Z.land p PROT_WRITE <> 0 -> Z.lor p PROT_WRITE = p.
Proof.
  intros Hp Hw. assert (p = 0 \/ p = 1 \/ p = 2 \/ p = 3 \/ p = 4 \/ p = 5 \/ p = 6 \/ p = 7) as Hc8 by lia.
  destruct Hc8 as [ ->|[ ->|[ ->|[ ->|[ ->|[ ->|[ ->| ->]]]]]]]; vm_compute in Hw |- *; done.
Qed.

(** Its protection is restored, unless the kernel refuses. *)
Lemma reprotect_run s e rc s' :
  K s -> is_entry e ->
  (if negb (negb (Z.land (protection e) PROT_WRITE =? 0))
   then mprotect (page e) (protection e) else mret 0) s = Some (rc, s') ->
  K s' /\ p_mem s' = p_mem s /\ (p_calls s <= p_calls s')%nat /\
  (forall pg, pg <> page e -> p_prot s' !! pg = p_prot s !! pg) /\
  ((rc = 0 /\ exact (p_prot s') e) \/ (rc <> 0 /\ exists n, during s s' n /\ refused n)).
Proof.
  intros HK He Hr. destruct (Z.eqb_spec (Z.land (protection e) PROT_WRITE) 0) as [Hw|Hw]; cbn [negb] in Hr.
  - apply got_mprotect_run in Hr as (? & ? & Hcalls & [[-> Hp]|(Hrc & Hp & Hf)]); auto.
    + split_and!; auto; [lia| |left; split; [done|]; unfold exact; by rewrite Hp, lookup_insert_eq].
      intros pg Hpg. rewrite Hp. by rewrite lookup_insert_ne.
    + split_and!; auto; [lia|by rewrite Hp|]. right. split; [done|]. exists (p_calls s). split; [unfold during; lia|done].
  - injection Hr as <- <-. split_and!; auto. left. split; [done|].
    destruct (phys_good _ _ e (k_phys _ HK) He) as [Hg|Hg]; [exact Hg|]. unfold exact. rewrite Hg. f_equal.
    apply lor_write; [apply (eo_prot _ (is_entry_ok _ He))|done].
Qed.

(** One write, from a slot that holds [expected]. *)
Record written (e : GotEntry) (desired : Z) (s : proc) (b : bool) (s' : proc) : Prop := {
  wr_K : K s';
  wr_other : forall e', is_entry e' -> slot e <> slot e' ->
    rd64 (p_mem s') (slot e') = rd64 (p_mem s) (slot e');
  wr_pages : forall pg, pg <> page e -> p_prot s' !! pg = p_prot s !! pg;
  wr_either : (p_prot s' = p_prot s /\ p_mem s' = p_mem s) \/ rd64 (p_mem s') (slot e) = Some desired;
  wr_done : b = true -> rd64 (p_mem s') (slot e) = Some desired /\ exact (p_prot s') e;
  wr_failed : b = false -> exists n, during s s' n /\ refused n;
}.

Lemma write_run s e expected desired b s' :
  K s -> is_entry e -> slot_value e desired -> rd64 (p_mem s) (slot e) = Some expected ->
  writeGotValue e expected desired s = Some (b, s') -> written e desired s b s'.
Proof.
  intros HK He Hd Hv Hr. pose proof (slot_value_range _ _ He Hd) as Hu64. unfold writeGotValue in Hr.
  (* the page is made writable *)
  apply bind_inv in Hr as (rc & s1 & H1 & Hr).
  apply unprotect_run in H1 as (HK1 & Em1 & Ec1 & Ep1 & Hrc); [|done|done].
  destruct (Z.eqb_spec rc 0) as [Hrc0|Hrc0]; cbn [negb] in Hr.
  2:{ injection Hr as <- <-. destruct Hrc as [|(_ & Hp & Hf)]; [done|]. split; try done.
      - intros e' _ _. by rewrite Em1.
      - by left. }
  (* the store *)
  apply bind_inv in Hr as (ok & s2 & H2 & Hr).
  apply cas_run in H2 as (HK2 & -> & Em2 & Ep2 & Ec2); auto; [|by rewrite Em1].
  apply bind_inv in Hr as (ok & s3 & H3 & Hr).
  apply bind_inv in H3 as (v & s3' & H3 & H3'). unfold loadGotValue, mbind, M_bind, gets, lift in H3.
  rewrite Em2, rd64_store in H3 by done. injection H3 as <- <-. rewrite Z.eqb_refl in H3'.
  injection H3' as <- <-.
  assert (rd64 (p_mem s2) (slot e) = Some desired) as Hword by (rewrite Em2; by apply rd64_store).
  assert (forall e', is_entry e' -> slot e <> slot e' ->
    rd64 (p_mem s2) (slot e') = rd64 (p_mem s) (slot e')) as Hother
    by (intros e' He' Hne'; rewrite Em2, rd64_store_other, Em1; done).
  (* the protection is restored *)
  apply bind_inv in Hr as (rc2 & s4 & H4 & Hr).
  apply reprotect_run in H4 as (HK4 & Em4 & Ec4 & Ep4 & Hrc2); [|done|done].
  assert (forall s5 b5, K s5 -> p_mem s5 = p_mem s4 -> p_prot s5 = p_prot s4 ->
    (b5 = true -> exact (p_prot s4) e) -> (b5 = false -> exists n, during s s5 n /\ refused n) ->
    written e desired s b5 s5) as Hend.
  { intros s5 b5 HK5 Em5 Ep5 Ht Hf. split; auto.
    - intros e' He' Hne'. rewrite Em5, Em4. auto.
    - intros pg Hpg. rewrite Ep5, Ep4, Ep2, Ep1; done.
    - right. by rewrite Em5, Em4.
    - intros Hb. rewrite Em5, Em4, Ep5. auto. }
  destruct Hrc2 as [[-> Hx]|(Hrc2 & n & Hn & Hf)].
  - cbn in Hr. pose proof (counts_verify e desired _ _ _ Hr).
    apply verify_run in Hr as (? & ? & ? & Hb); [|done|done|done|by rewrite Em4].
    apply Hend; auto. intros Hfalse. destruct (Hb Hfalse) as (n & Hn & ?). exists n. split; [|done].
    unfold during in *. lia.
  - rewrite (proj2 (Z.eqb_neq _ _) Hrc2) in Hr. cbn in Hr. injection Hr as <- <-.
    apply Hend; auto; [done|]. intros _. exists n. split; [|done]. unfold during in *. lia.
Qed.

Lemma exact_same prot e e' : is_entry e -> is_entry e' -> page e = page e' -> exact prot e -> exact prot e'.
Proof.
  unfold exact. intros He He' Hp Hx. rewrite <- Hp, Hx.
  destruct He as [ ->| ->], He' as [ ->| ->]; try done; f_equal; [|symmetry]; auto.
Qed.

Lemma entry_cases e e' : is_entry e -> is_entry e' -> e' = e \/ slot e <> slot e'.
Proof. intros [ ->| ->] [ ->| ->]; auto. Qed.

(** Each page that is not as it was belongs to a slot of [L] that still holds its
    hook: what a rollback of the slots [L] relies on. *)
Definition repairable (L : list GotEntry) (s : proc) : Prop :=
  forall e, is_entry e -> exact (p_prot s) e \/
    exists e', e' ∈ L /\ is_entry e' /\ page e' = page e /\ rd64 (p_mem s) (slot e') = Some (replacement e').

Lemma write_keeps_exact e e' desired s s' :
  is_entry e -> is_entry e' -> written e desired s true s' -> exact (p_prot s) e' -> exact (p_prot s') e'.
Proof.
  intros He He' Hw Hx. destruct (decide (page e' = page e)) as [Hp|Hp].
  - apply (exact_same _ e); try done. by apply (wr_done _ _ _ _ _ Hw).
  - unfold exact. by rewrite (wr_pages _ _ _ _ _ Hw).
Qed.

Lemma hooking_repairable L e s b s' :
  is_entry e -> e ∈ L -> repairable L s -> written e (replacement e) s b s' -> repairable L s'.
Proof.
  intros He HL Hs Hw e1 He1. destruct (wr_either _ _ _ _ _ Hw) as [[Ep Em]|Hh].
  - rewrite Ep, Em. auto.
  - destruct (decide (page e = page e1)) as [Hp|Hp]; [right; by exists e|].
    destruct (Hs e1 He1) as [Hx|(e2 & ? & He2 & Hp2 & Hv)].
    + left. unfold exact. rewrite (wr_pages _ _ _ _ _ Hw); [done|congruence].
    + right. exists e2. split_and!; try done. destruct (entry_cases e e2 He He2) as [->|Hd]; [done|].
      by rewrite (wr_other _ _ _ _ _ Hw).
Qed.

Lemma write_both_run s b s' :
  K s -> exact (p_prot s) u -> exact (p_prot s) c ->
  rd64 (p_mem s) (slot u) = Some (original u) -> rd64 (p_mem s) (slot c) = Some (original c) ->
  write_both u c s = Some (b, s') ->
  repairable [u; c] s' /\ (b = false -> exists n, during s s' n /\ refused n).
Proof.
  intros HK Hxu Hxc Hwu Hwc Hr.
  assert (is_entry u) as Eu by (by left). assert (is_entry c) as Ec by (by right).
  assert (repairable [u; c] s) as H0 by (intros e [ ->| ->]; by left).
  unfold write_both in Hr. apply bind_inv in Hr as (b1 & s1 & H1 & Hr).
  pose proof (counts_write _ _ _ _ _ _ H1) as C1.
  apply write_run in H1; [|done|done|by right|done].
  pose proof (hooking_repairable [u; c] u s b1 s1 Eu ltac:(in_list) H0 H1) as R1.
  destruct b1; cbn [negb] in Hr; [|injection Hr as <- <-; split; [done|by apply H1]].
  destruct (wr_done _ _ _ _ _ H1 eq_refl) as [Wu1 Xu1].
  pose proof (write_keeps_exact u c _ _ _ Eu Ec H1 Hxc) as Xc1.
  apply bind_inv in Hr as (b2 & s2 & H2 & Hr). pose proof (counts_write _ _ _ _ _ _ H2) as C2.
  apply write_run in H2; [|apply H1|done|by right|by rewrite (wr_other _ _ _ _ _ H1)].
  pose proof (hooking_repairable [u; c] c s1 b2 s2 Ec ltac:(in_list) R1 H2) as R2.
  destruct b2; cbn [negb] in Hr; [|injection Hr as <- <-; split; [done|]].
  2:{ intros _. destruct (wr_failed _ _ _ _ _ H2 eq_refl) as (n & ? & ?). exists n. split; [|done].
      unfold during in *. lia. }
  destruct (wr_done _ _ _ _ _ H2 eq_refl) as [Wc2 Xc2].
  pose proof (write_keeps_exact c u _ _ _ Ec Eu H2 Xu1) as Xu2.
  apply bind_inv in Hr as (b3 & s3 & H3 & Hr). pose proof (counts_verify _ _ _ _ _ H3) as C3.
  apply verify_run in H3 as (K3 & Em3 & Ep3 & F3);
    [|apply H2|done|done|rewrite (wr_other _ _ _ _ _ H2); [done|done|congruence]].
  assert (forall s4, p_mem s4 = p_mem s3 -> p_prot s4 = p_prot s3 -> repairable [u; c] s4) as R3.
  { intros s4 Em4 Ep4 e He. unfold repairable in R2. rewrite Em4, Ep4, Em3, Ep3. auto. }
  destruct b3; cbn [negb] in Hr; [|injection Hr as <- <-; split; [by apply R3|]].
  2:{ intros _. destruct (F3 eq_refl) as (n & ? & ?). exists n. split; [|done]. unfold during in *. lia. }
  pose proof (counts_verify _ _ _ _ _ Hr) as C4.
  apply verify_run in Hr as (K4 & Em4 & Ep4 & F4); [|done|done|by rewrite Ep3|by rewrite Em3].
  split; [by apply R3|]. intros Hb. destruct (F4 Hb) as (n & ? & ?). exists n. split; [|done].
  unfold during in *. lia.
Qed.

(** One step of the rollback: the slot is restored, or a call was refused. *)
Lemma got_restore_run e L L' s v b s' :
  K s -> is_entry e -> repairable L s -> (forall e', e' ∈ L -> e' = e \/ e' ∈ L') ->
  rd64 (p_mem s) (slot e) = Some v ->
  (if v =? replacement e then writeGotValue e (replacement e) (original e) else mret false) s = Some (b, s') ->
  K s' /\ (p_calls s <= p_calls s')%nat /\
  ((exists n, during s s' n /\ refused n) \/
   (rd64 (p_mem s') (slot e) = Some (original e) /\ repairable L' s' /\
    forall e', is_entry e' -> slot e <> slot e' -> rd64 (p_mem s') (slot e') = rd64 (p_mem s) (slot e'))).
Proof.
  intros HK He HR HL Hv Hr. destruct (Z.eqb_spec v (replacement e)) as [ ->|Hne'].
  - pose proof (counts_write _ _ _ _ _ _ Hr) as Hc0.
    apply write_run in Hr; [|done|done|by left|done]. split; [apply Hr|]. split; [done|].
    destruct b; [|left; by apply Hr]. right. destruct (wr_done _ _ _ _ _ Hr eq_refl) as [Hw Hx].
    split; [done|]. split; [|apply Hr]. intros e1 He1.
    destruct (decide (page e = page e1)) as [Hp|Hp]; [left; by apply (exact_same _ e)|].
    destruct (HR e1 He1) as [Hx1|(e2 & H2 & He2 & Hp2 & Hv2)].
    + left. unfold exact. rewrite (wr_pages _ _ _ _ _ Hr); [done|congruence].
    + right. destruct (HL e2 H2) as [->|HL2]; [done|]. exists e2. split_and!; try done.
      destruct (entry_cases e e2 He He2) as [->|Hd]; [done|]. by rewrite (wr_other _ _ _ _ _ Hr).
  - injection Hr as <- <-. split; [done|]. split; [done|]. right. split_and!; try done.
    + destruct (phys_held _ _ e (k_phys _ HK) He) as [?|?]; [done|]. congruence.
    + intros e1 He1. destruct (HR e1 He1) as [?|(e2 & H2 & He2 & Hp2 & Hv2)]; [by left|].
      destruct (HL e2 H2) as [->|HL2]; [congruence|]. right. by exists e2.
Qed.

Lemma load_run s e v s' :
  loadGotValue e s = Some (v, s') -> s' = s /\ rd64 (p_mem s) (slot e) = Some v.
Proof.
  unfold loadGotValue, mbind, M_bind, gets, lift. destruct (rd64 _ _); [|done]. by intros [= <- <-].
Qed.

(** A rollback that answers false met a refused call. *)
Lemma rollback_run s s' :
  K s -> repairable [u; c] s -> rollbackGotHooks u c s = Some (false, s') ->
  exists n, during s s' n /\ refused n.
Proof.
  intros HK HR Hr.
  assert (is_entry u) as Eu by (by left). assert (is_entry c) as Ec by (by right).
  unfold rollbackGotHooks in Hr.
  apply bind_inv in Hr as (vc & s0 & H0 & Hr). apply load_run in H0 as [-> Hvc].
  apply bind_inv in Hr as (bc & s1 & H1 & Hr).
  apply (got_restore_run c [u; c] [u]) in H1 as (K1 & C1 & Hc1); [|done|done|done| |done].
  2:{ intros e' He'. rewrite elem_of_cons, list_elem_of_singleton in He'. rewrite list_elem_of_singleton. tauto. }
  assert (p_calls s1 <= p_calls s')%nat as C1'.
  { match type of Hr with ?t s1 = _ => assert (counts t) as Hct by solve_counts end. by apply Hct in Hr. }
  destruct Hc1 as [(n & ? & ?)|(Wc1 & R1 & O1)]; [exists n; split; [unfold during in *; lia|done]|].
  apply bind_inv in Hr as (vu & s1' & H1' & Hr). apply load_run in H1' as [-> Hvu].
  apply bind_inv in Hr as (bu & s2 & H2 & Hr).
  apply (got_restore_run u [u] []) in H2 as (K2 & C2 & Hc2); [|done|done|done| |done].
  2:{ intros e' He'. apply list_elem_of_singleton in He'. by left. }
  assert (p_calls s2 <= p_calls s')%nat as C2'.
  { match type of Hr with ?t s2 = _ => assert (counts t) as Hct by solve_counts end. by apply Hct in Hr. }
  destruct Hc2 as [(n & ? & ?)|(Wu2 & R2 & O2)]; [exists n; split; [unfold during in *; lia|done]|].
  assert (forall e, is_entry e -> exact (p_prot s2) e) as X2.
  { intros e He. destruct (R2 e He) as [?|(e' & Hin & _)]; [done|]. by apply not_elem_of_nil in Hin. }
  apply bind_inv in Hr as (b3 & s3 & H3 & Hr). pose proof (counts_verify _ _ _ _ _ H3) as C3.
  apply verify_run in H3 as (K3 & Em3 & Ep3 & F3); [|done|done|by apply X2|rewrite O2; done].
  apply bind_inv in Hr as (b4 & s4 & H4 & Hr). pose proof (counts_verify _ _ _ _ _ H4) as C4.
  apply verify_run in H4 as (K4 & Em4 & Ep4 & F4); [|done|done|rewrite Ep3; by apply X2|by rewrite Em3].
  injection Hr as Hb <-. destruct b3; cbn in Hb.
  - subst b4. destruct (F4 eq_refl) as (n & ? & ?). exists n. split; [unfold during in *; lia|done].
  - destruct (F3 eq_refl) as (n & ? & ?). exists n. split; [unfold during in *; lia|done].
Qed.

(** The state after the rollback tells whether it was refused. *)
Lemma undo_run s rc s' :
  K s -> repairable [u; c] s -> undo u c s = Some (rc, s') ->
  (p_calls s <= p_calls s')%nat /\
  (sIaHookState (p_hooks s') = IA_HOOKS_DISABLED \/
   (sIaHookState (p_hooks s') = IA_HOOKS_FAILED /\ exists n, during s s' n /\ refused n)).
Proof.
  intros HK HR Hr. unfold undo in Hr. apply bind_inv in Hr as (b & s1 & H1 & Hr).
  assert (p_calls s <= p_calls s1)%nat.
  { assert (counts (rollbackGotHooks u c)) as Hct by solve_counts. by apply Hct in H1. }
  cbv [set_hook_state gets publish mbind M_bind mret M_ret] in Hr. injection Hr as _ <-. cbn.
  split; [done|]. destruct b; [by left|right]. split; [done|].
  exact (rollback_run s s1 HK HR H1).
Qed.
End Pair.

Section Outcome.
Context (u c : GotEntry).
Context (Hu : entry_ok u) (Hc : entry_ok c).
Context (Hsame : page u = page c -> protection u = protection c).
Context (Hne : slot u <> slot c).
Context (m0 : mem).

(** Creating the worker logs a snapshot in which it exists. *)
Lemma K_worker s W w :
  K u c m0 W s -> K u c m0 w (mk_proc (p_mem s) (p_prot s) (p_hooks s) w (p_monotonic s) (p_calls s)
                       (p_log s ++ [mk_snap (p_mem s) (p_hooks s) w])).
Proof.
  intros [Hw Hp [Hpu Hpc] Hst Hl]. split; simpl; try done. apply Forall_app. split; [done|].
  constructor; [|constructor]. split_and!; simpl; try done. by rewrite Hst.
Qed.

Lemma pthread_keeps W F s :
  KF u c m0 W F s -> exists r s', pthread_call s = Some (r, s') /\ KF u c m0 W F s' /\
    p_monotonic s' = p_monotonic s.
Proof.
  intros HK. destruct (hoare_pthread u c m0 W F s HK) as (r & s' & Hr & HK').
  exists r, s'. split_and!; try done. revert Hr. cbv [pthread_call tick mbind M_bind mret M_ret].
  by intros [= _ <-].
Qed.

Lemma hoare_startIaWorker F : hoare (KF u c m0 false F) startIaWorker
  (fun rc s => (rc = 0 -> KF u c m0 true F s /\ p_monotonic s = true) /\ (rc <> 0 -> KF u c m0 false F s)).
Proof.
  intros s HK. unfold startIaWorker.
  destruct (hoare_initIaWake u c m0 false F s HK) as (r0 & s0 & H0 & HK0 & Hmono).
  unfold mbind at 1, M_bind. rewrite H0.
  destruct (Z.eqb_spec r0 0) as [ ->|]; cbn [negb]; [|by exists r0, s0].
  specialize (Hmono eq_refl).
  destruct (pthread_keeps _ _ s0 HK0) as (r1 & s1 & H1 & HK1 & Hm1). unfold mbind at 1, M_bind. rewrite H1.
  destruct (Z.eqb_spec r1 0) as [ ->|]; cbn [negb]; [|by exists r1, s1].
  destruct (pthread_keeps _ _ s1 HK1) as (r2 & s2 & H2 & HK2 & Hm2). unfold mbind at 1, M_bind. rewrite H2.
  destruct (Z.eqb_spec r2 0) as [ ->|Hr2]; unfold mbind, M_bind.
  - destruct (pthread_keeps _ _ s2 HK2) as (r3 & s3 & H3 & HK3 & Hm3). rewrite H3.
    destruct (Z.eqb_spec r3 0) as [ ->|Hr3]; cbn -[pthread_call].
    + destruct (pthread_keeps true F _ (conj (K_worker s3 _ true (proj1 HK3)) (proj2 HK3)))
        as (r4 & s4 & H4 & HK4 & Hm4).
      cbn in H4. rewrite H4. exists 0, s4. split_and!; [done| |done]. intros _. split; [done|].
      rewrite Hm4. cbn. congruence.
    + destruct (pthread_keeps _ _ _ HK3) as (r4 & s4 & H4 & HK4 & _). rewrite H4. by exists r3, s4.
  - cbn -[pthread_call]. destruct (pthread_keeps _ _ _ HK2) as (r4 & s4 & H4 & HK4 & _).
    rewrite H4. by exists r2, s4.
Qed.

Lemma pthread_run s rc s' :
  pthread_call s = Some (rc, s') -> rc = pthread_rc (p_calls s) /\ p_calls s' = S (p_calls s).
Proof. cbv [pthread_call tick mbind M_bind mret M_ret]. by intros [= <- <-]. Qed.

(** A nonzero answer is that of a failed call. *)
Definition answers (e : M Z) : Prop :=
  forall s rc s', e s = Some (rc, s') ->
    (p_calls s <= p_calls s')%nat /\ (rc <> 0 -> exists n, during s s' n /\ pthread_rc n <> 0).

Lemma answers_pthread : answers pthread_call.
Proof.
  intros s rc s' Hr. apply pthread_run in Hr as [-> Hn]. split; [lia|]. intros Hrc.
  exists (p_calls s). split; [unfold during; lia|done].
Qed.

(** The error convention of the two functions: go on only after a zero. *)
Lemma answers_then e (f : Z -> M Z) :
  answers e -> (forall rc, counts (f rc)) ->
  (forall rc s y s', rc <> 0 -> f rc s = Some (y, s') -> y = rc) -> answers (f 0) ->
  answers (rc ← e; f rc).
Proof.
  intros He Hc0 Hn Hf s y s' Hr. apply bind_inv in Hr as (rc & s1 & H1 & Hr).
  apply He in H1 as [C1 F1]. pose proof (Hc0 _ _ _ _ Hr) as C2. split; [lia|].
  intros Hy. destruct (decide (rc = 0)) as [->|Hrc].
  - apply Hf in Hr as [_ Fr]. destruct (Fr Hy) as (n & ? & ?). exists n. split; [|done]. unfold during in *; lia.
  - destruct (F1 Hrc) as (n & ? & ?). exists n. split; [|done]. unfold during in *; lia.
Qed.

(** The cleanup call's own answer is dropped. *)
Lemma answers_cleanup rc (e : M Z) : counts e -> rc = 0 -> answers (_ ← e; mret rc).
Proof.
  intros He -> s y s' Hr. apply bind_inv in Hr as (z & s1 & H1 & Hr). injection Hr as <- <-.
  apply He in H1. done.
Qed.

Lemma cleanup_value rc (e : M Z) s y s' : ((_ ← e; mret rc) : M Z) s = Some (y, s') -> y = rc.
Proof. intros Hr. apply bind_inv in Hr as (z & s1 & _ & Hr). by injection Hr as <- _. Qed.

Lemma answers_inner (act : M unit) :
  counts act ->
  answers (rc ← pthread_call; rc ← (if rc =? 0 then
    rc ← pthread_call; _ ← (if rc =? 0 then act else mret tt); mret rc else mret rc); _ ← pthread_call; mret rc).
Proof.
  intros Hact. apply answers_then; [apply answers_pthread|intros; solve_counts; done| |].
  - intros rc s y s' Hrc. rewrite (proj2 (Z.eqb_neq _ _) Hrc). intros Hr.
    apply bind_inv in Hr as (r & s1 & H1 & Hr). injection H1 as <- <-. by apply cleanup_value in Hr.
  - cbn [Z.eqb]. apply answers_then; [|intros; solve_counts| |].
    + intros s y s' Hr. apply bind_inv in Hr as (rc & s1 & H1 & Hr). apply answers_pthread in H1 as [C1 F1].
      assert (counts ((_ ← (if rc =? 0 then act else mret tt); mret rc) : M Z)) as Hct by (solve_counts; done).
      pose proof (Hct _ _ _ Hr) as C2. apply bind_inv in Hr as (? & s2 & _ & Hr). injection Hr as <- <-.
      split; [lia|]. intros Hrc. destruct (F1 Hrc) as (n & ? & ?). exists n. split; [unfold during in *; lia|done].
    + intros rc s y s' _ Hr. by apply cleanup_value in Hr.
    + apply answers_cleanup; [solve_counts|done].
Qed.

Lemma answers_initIaWake : answers initIaWake.
Proof.
  unfold initIaWake. apply answers_then; [apply answers_pthread|intros; solve_counts| |].
  - intros rc s y s' Hrc. rewrite (proj2 (Z.eqb_neq _ _) Hrc). by intros [= <- _].
  - cbn [Z.eqb negb]. apply answers_inner. solve_counts.
Qed.

Lemma answers_startIaWorker : answers startIaWorker.
Proof.
  unfold startIaWorker. apply answers_then; [apply answers_initIaWake|intros; solve_counts| |].
  { intros rc s y s' Hrc. rewrite (proj2 (Z.eqb_neq _ _) Hrc). by intros [= <- _]. }
  cbn [Z.eqb negb]. apply answers_then; [apply answers_pthread|intros; solve_counts| |].
  { intros rc s y s' Hrc. rewrite (proj2 (Z.eqb_neq _ _) Hrc). by intros [= <- _]. }
  cbn [Z.eqb negb]. apply answers_inner. solve_counts.
Qed.

(** ** Outcomes *)

(** The final states: the transaction is complete, undone, or could not be undone. *)
Definition committed (s : proc) : Prop :=
  sIaHookState (p_hooks s) = IA_HOOKS_ACTIVE /\
  verified u (replacement u) s /\ verified c (replacement c) s /\
  p_worker s = true /\ p_monotonic s = true.

Definition undone (s : proc) : Prop :=
  sIaHookState (p_hooks s) = IA_HOOKS_DISABLED /\
  verified u (original u) s /\ verified c (original c) s /\ p_worker s = false.

Definition residual (s : proc) : Prop :=
  sIaHookState (p_hooks s) = IA_HOOKS_FAILED /\ p_worker s = false /\
  held (p_mem s) u /\ held (p_mem s) c.

Definition published (s : proc) : Prop :=
  sRealOnUnsol (p_hooks s) = original u /\ sRealOnComplete (p_hooks s) = original c /\
  Forall (snap_safe u c) (p_log s) /\ frame u c m0 (p_mem s).

Lemma hoare_set_state W st (G : proc -> Prop) :
  (forall m prot hk hk' w mono n log log',
     G (mk_proc m prot hk w mono n log) -> G (mk_proc m prot hk' w mono n log')) ->
  (st = IA_HOOKS_ACTIVE -> forall s, K u c m0 W s -> G s ->
     rd64 (p_mem s) (slot u) = Some (replacement u) /\
     rd64 (p_mem s) (slot c) = Some (replacement c) /\ W = true) ->
  hoare (fun s => K u c m0 W s /\ G s) (set_hook_state st)
    (fun _ s => published s /\ sIaHookState (p_hooks s) = st /\ p_worker s = W /\ G s).
Proof.
  intros HG Ha s [HK Hs]. eexists _, _. split; [reflexivity|]. unfold published. simpl.
  assert (G (mk_proc (p_mem s) (p_prot s) (p_hooks s) (p_worker s) (p_monotonic s) (p_calls s) (p_log s)))
    as Hs' by (by destruct s).
  pose proof HK as [Hw Hp [Hpu Hpc] Hst Hl]. split_and!; try done.
  - apply Forall_app. split; [done|]. constructor; [|constructor]. split_and!; simpl; try done.
    intros Hact. rewrite Hw. by apply Ha.
  - apply Hp.
  - by eapply HG.
Qed.

Lemma hoare_undo :
  hoare (K u c m0 false) (undo u c) (fun rc s => rc = -1 /\ published s /\ (undone s \/ residual s)).
Proof.
  unfold undo. eapply hoare_bind; [by apply hoare_rollback|]. intros b.
  eapply hoare_bind.
  - eapply hoare_conseq.
    + apply (hoare_set_state false (if b then IA_HOOKS_DISABLED else IA_HOOKS_FAILED)
        (fun s => (held (p_mem s) u /\ held (p_mem s) c) /\
           (b = true -> verified u (original u) s /\ verified c (original c) s))); [done|].
      by destruct b.
    + intros s [HK Hv]. split; [exact HK|]. split; [|exact Hv]. split; apply (k_phys _ _ _ _ _ HK).
    + intros x s Hs. exact Hs.
  - intros x. apply hoare_ret. intros s (Hp & Hst & Hw & [? ?] & Hv). split_and!; try done.
    destruct b; [left|right]; split_and!; try done; by apply Hv.
Qed.

(** From the published originals on. *)
Definition finish_install : M Z :=
  ok ← write_both u c;
  if negb ok then undo u c else
  rc ← startIaWorker;
  if negb (rc =? 0) then undo u c else
  _ ← set_hook_state IA_HOOKS_ACTIVE;
  mret 0.

Definition both_hooked (m : mem) (prot : gmap Z Z) : Prop :=
  (rd64 m (slot u) = Some (replacement u) /\ prot_at sysconf_pagesize prot (slot u) = protection u) /\
  (rd64 m (slot c) = Some (replacement c) /\ prot_at sysconf_pagesize prot (slot c) = protection c).

Lemma hoare_finish :
  hoare (K u c m0 false) finish_install
    (fun rc s => published s /\ ((rc = 0 /\ committed s) \/ (rc = -1 /\ (undone s \/ residual s)))).
Proof.
  assert (forall s, published s /\ (undone s \/ residual s) ->
    published s /\ ((-1 = 0 /\ committed s) \/ (-1 = -1 /\ (undone s \/ residual s)))) as Hundo by tauto.
  unfold finish_install. eapply hoare_bind; [by apply hoare_write_both|]. intros ok.
  apply hoare_if; intros Hok.
  { eapply hoare_conseq; [apply hoare_undo|by intros s [? _]|]. intros rc s [ -> ?]. by apply Hundo. }
  zb. subst ok. eapply hoare_bind.
  { eapply hoare_conseq; [apply (hoare_startIaWorker both_hooked)| |intros rc s Hs; exact Hs].
    intros s [HK Hv]. split; [done|]. exact (Hv eq_refl). }
  intros rc. apply hoare_if; intros Hrc; zb.
  { eapply hoare_conseq; [apply hoare_undo|by intros s [_ Hs]; apply Hs|].
    intros rc' s [ -> ?]. by apply Hundo. }
  subst rc. eapply hoare_bind.
  - eapply hoare_conseq.
    + apply (hoare_set_state true IA_HOOKS_ACTIVE
        (fun s => both_hooked (p_mem s) (p_prot s) /\ p_monotonic s = true)); [done|].
      intros _ s HK [[[? ?] [? ?]] _]. done.
    + intros s [Hs _]. destruct (Hs eq_refl) as [[HK HF] Hm]. split; [exact HK|]. split; [exact HF|exact Hm].
    + intros x s Hs. exact Hs.
  - intros x. apply hoare_ret. intros s (Hp & Hst & Hw & [HF1 HF2] & Hm). split; [done|]. left. done.
Qed.

(** How the transaction ended, and for which failures: committed; undone, after a
    failing call; or left over, after a failing call and a later refusal. *)
Definition outcome (s : proc) (rc : Z) (s' : proc) : Prop :=
  (rc = 0 /\ committed s') \/
  (rc = -1 /\ undone s' /\ exists n, during s s' n /\ call_failed n) \/
  (rc = -1 /\ residual s' /\ exists n1 n2, (n1 < n2)%nat /\ during s s' n1 /\ during s s' n2 /\
     call_failed n1 /\ refused n2).

(** The hook state at the end against the calls that failed. *)
Lemma finish_run s rc s' :
  K u c m0 false s -> exact (p_prot s) u -> exact (p_prot s) c ->
  rd64 (p_mem s) (slot u) = Some (original u) -> rd64 (p_mem s) (slot c) = Some (original c) ->
  finish_install s = Some (rc, s') ->
  (sIaHookState (p_hooks s') = IA_HOOKS_DISABLED -> exists n, during s s' n /\ call_failed n) /\
  (sIaHookState (p_hooks s') = IA_HOOKS_FAILED -> exists n1 n2, (n1 < n2)%nat /\ during s s' n1 /\
     during s s' n2 /\ call_failed n1 /\ refused n2).
Proof.
  intros HK Hxu Hxc Hwu Hwc Hr. unfold finish_install in Hr.
  assert (forall s1, K u c m0 false s1 -> repairable u c [u; c] s1 ->
    (exists n, during s s1 n /\ call_failed n) -> undo u c s1 = Some (rc, s') ->
    (sIaHookState (p_hooks s') = IA_HOOKS_DISABLED -> exists n, during s s' n /\ call_failed n) /\
    (sIaHookState (p_hooks s') = IA_HOOKS_FAILED -> exists n1 n2, (n1 < n2)%nat /\ during s s' n1 /\
       during s s' n2 /\ call_failed n1 /\ refused n2)) as Hundo.
  { intros s1 K1 R1 (n1 & Hn1 & F1) Hun.
    apply (undo_run u c Hu Hc Hsame Hne m0 false) in Hun as [Hc1 Hst]; [|done|done].
    unfold during in *. split; [intros _; exists n1; split; [lia|done]|]. intros Hfail.
    destruct Hst as [Hst|(_ & n2 & Hn2 & F2)]; [congruence|]. exists n1, n2. split_and!; try done; lia. }
  apply bind_inv in Hr as (ok & s1 & H1 & Hr).
  pose proof (hoare_at _ _ _ _ _ _ (hoare_write_both u c Hu Hc Hsame Hne m0 false) HK H1) as [K1 V1].
  assert (p_calls s <= p_calls s1)%nat as C1.
  { assert (counts (write_both u c)) as Hct by solve_counts. by apply Hct in H1. }
  apply (write_both_run u c Hu Hc Hsame Hne m0 false) in H1 as [R1 F1]; try done.
  destruct ok; cbn [negb] in Hr.
  2:{ apply (Hundo s1); try done. destruct (F1 eq_refl) as (n & ? & ?). exists n. split; [done|by left]. }
  apply bind_inv in Hr as (rc1 & s2 & H2 & Hr).
  pose proof (hoare_at _ _ _ _ _ _ (hoare_startIaWorker (fun m prot => m = p_mem s1 /\ prot = p_prot s1))
    (conj K1 (conj eq_refl eq_refl)) H2) as [_ Hbad].
  apply answers_startIaWorker in H2 as [C2 F2].
  destruct (Z.eqb_spec rc1 0) as [ ->|Hrc1]; cbn [negb] in Hr.
  - apply bind_inv in Hr as (? & s3 & H3 & Hr). injection Hr as _ <-.
    cbv [set_hook_state gets publish mbind M_bind mret M_ret] in H3. injection H3 as _ <-. cbn. done.
  - destruct (Hbad Hrc1) as [K2 [Em Ep]]. apply (Hundo s2); try done.
    + intros e He. destruct (R1 e He) as [?|?]; [left|right]; by rewrite ?Em, ?Ep.
    + destruct (F2 Hrc1) as (n & ? & ?). exists n. split; [unfold during in *; lia|by right].
Qed.

Lemma finish_outcome s :
  K u c m0 false s -> exact (p_prot s) u -> exact (p_prot s) c ->
  rd64 (p_mem s) (slot u) = Some (original u) -> rd64 (p_mem s) (slot c) = Some (original c) ->
  exists rc s', finish_install s = Some (rc, s') /\ published s' /\ outcome s rc s'.
Proof.
  intros HK Hxu Hxc Hwu Hwc. destruct (hoare_finish s HK) as (rc & s' & Hr & Hp & Hres).
  exists rc, s'. split; [done|]. split; [done|].
  destruct (finish_run s rc s' HK Hxu Hxc Hwu Hwc Hr) as [Hd Hf].
  destruct Hres as [?|[-> [Hun|Hre]]]; [by left|right; left|right; right]; split_and!; try done.
  - apply Hd, Hun.
  - apply Hf, Hre.
Qed.
End Outcome.

(** ** Resolution *)

(** The entries are the module's slots as they were. *)
Definition resolved (scan : GotScan) (s : proc) (sym : list Z) (repl : Z) (e : GotEntry) : Prop :=
  symbol e = sym /\ replacement e = repl /\
  slot e mod 8 = 0 /\ page e = page_of sysconf_pagesize (slot e) /\
  prot_at sysconf_pagesize (p_prot s) (slot e) = protection e /\ 0 <= protection e /\
  rd64 (p_mem s) (slot e) = Some (original e) /\ original e <> NULL /\ original e <> repl /\
  inModule scan (slot e) 8 = true /\
  exists i r, Z.of_nat i < jmprelCount scan /\ jump_slot_for (p_mem s) scan sym i r /\
    slot e = base scan + r.

(** Everything but the call counter. *)
Definition same_but_calls (s s' : proc) : Prop :=
  p_mem s' = p_mem s /\ p_prot s' = p_prot s /\ p_hooks s' = p_hooks s /\ p_worker s' = p_worker s /\
  p_monotonic s' = p_monotonic s /\ p_log s' = p_log s.

(** What the loader and the linker guarantee of the module. *)
Record module_ok (scan : GotScan) (m : mem) : Prop := {
  mo_phdrs : phdrs_ok (phdr scan);
  mo_mapped : segments_mapped m (base scan) (phdr scan);
  mo_aligned : forall sym i r, Z.of_nat i < jmprelCount scan ->
    jump_slot_for m scan sym i r -> (base scan + r) mod 8 = 0;
}.

Lemma self_maps_defined n prot a :
  prot_ok sysconf_pagesize prot -> is_Some (mappingProt (self_maps n prot) a).
Proof.
  intros Hp. destruct (self_maps n prot) eqn:Hm; [|by eexists].
  erewrite self_maps_spec by eauto. by eexists.
Qed.

(** No entry for the symbol can be read off the module, with the protections that
    call [n] tells. *)
Definition no_entry (scan : GotScan) (s : proc) (sym : list Z) (repl : Z) (n : nat) : Prop :=
  forall e, ~ entry_for (p_mem s) scan sym repl sysconf_pagesize (self_maps n (p_prot s)) e.

(** Why a pair of slots is not resolved. *)
Definition unresolved (scan : GotScan) (s s' : proc) : Prop :=
  found scan = false \/
  (exists n, during s s' n /\
     (no_entry scan s (lit "RIL_onUnsolicitedResponse") unsolHook_addr n \/
      no_entry scan s (lit "RIL_onRequestComplete") completeHook_addr n)) \/
  (exists u c, resolved scan s (lit "RIL_onUnsolicitedResponse") unsolHook_addr u /\
     resolved scan s (lit "RIL_onRequestComplete") completeHook_addr c /\ slot u = slot c).

Lemma find_entry_spec scan sym repl s :
  mem_ok (p_mem s) -> prot_ok sysconf_pagesize (p_prot s) -> module_ok scan (p_mem s) ->
  scan_ok scan ->
  exists r s', find_entry scan sym repl s = Some (r, s') /\ same_but_calls s s' /\
    p_calls s' = S (p_calls s) /\ (forall e, r = Some e -> resolved scan s sym repl e) /\
    (r = None -> no_entry scan s sym repl (p_calls s)).
Proof.
  intros Hm Hp [Hph Hseg Hal] Hok. unfold find_entry, mbind, M_bind, gets, tick, lift. cbn.
  destruct (find_exact (p_mem s) scan sym repl sysconf_pagesize (self_maps (p_calls s) (p_prot s)))
    as (r & Hr & Hiff); [done..|intros a; by apply self_maps_defined|].
  rewrite Hr. eexists _, _. split; [reflexivity|]. split; [done|]. split; [done|].
  split; [|intros -> e He; by apply Hiff in He]. intros e ->.
  destruct (proj1 (Hiff e) eq_refl) as
    (i & off & Hi & Hma & _ & _ & _ & Hin & prot & orig & Hprot & H0 & Hrd & Hn & Hne & ->).
  apply (inModule_inside scan) in Hin; [|done|done].
  assert (prot_at sysconf_pagesize (p_prot s) (base scan + off) = prot) as Hpa.
  { destruct (self_maps (p_calls s) (p_prot s)) eqn:Hmaps.
    - erewrite self_maps_spec in Hprot by eauto. congruence.
    - simpl in Hprot. injection Hprot as <-. lia. }
  split_and!; simpl; try done; [by eapply Hal|]. by exists i, off.
Qed.

Lemma resolved_same scan s s' sym repl e :
  p_mem s' = p_mem s -> p_prot s' = p_prot s -> resolved scan s' sym repl e -> resolved scan s sym repl e.
Proof. unfold resolved. by intros -> ->. Qed.

Lemma resolve_entries_spec scan s :
  mem_ok (p_mem s) -> prot_ok sysconf_pagesize (p_prot s) ->
  (found scan = true -> scan_ok scan /\ module_ok scan (p_mem s)) ->
  exists r s', resolve_entries scan s = Some (r, s') /\ same_but_calls s s' /\
    (p_calls s <= p_calls s')%nat /\ (r = None -> unresolved scan s s') /\
    (forall u c, r = Some (u, c) -> slot u <> slot c /\ found scan = true /\
       resolved scan s (lit "RIL_onUnsolicitedResponse") unsolHook_addr u /\
       resolved scan s (lit "RIL_onRequestComplete") completeHook_addr c).
Proof.
  intros Hm Hp Hf. unfold resolve_entries.
  destruct (found scan) eqn:Hfound; cbn [negb]; [|exists None, s; split_and!; try done; by left].
  destruct (Hf eq_refl) as [Hok Hmo]. unfold mbind, M_bind.
  destruct (find_entry_spec scan (lit "RIL_onUnsolicitedResponse") unsolHook_addr s Hm Hp Hmo Hok)
    as (r1 & s1 & H1 & (Em & Ep & Eh & Ew & Emo & El) & Ec & He1 & Hn1). rewrite H1.
  destruct r1 as [u|].
  2:{ exists None, s1. split_and!; try done; [lia|]. intros _. right; left. exists (p_calls s).
      split; [unfold during; lia|]. left. by apply Hn1. }
  destruct (find_entry_spec scan (lit "RIL_onRequestComplete") completeHook_addr s1)
    as (r2 & s2 & H2 & (Em2 & Ep2 & Eh2 & Ew2 & Emo2 & El2) & Ec2 & He2 & Hn2);
    [by rewrite Em|by rewrite Ep|by rewrite Em|done|]. rewrite H2.
  assert (same_but_calls s s2) as Hsame by (split_and!; congruence).
  destruct r2 as [c|].
  2:{ exists None, s2. split_and!; try apply Hsame; try done; [lia|]. intros _. right; left. exists (p_calls s1).
      split; [unfold during; lia|]. right. specialize (Hn2 eq_refl). unfold no_entry in *. by rewrite Em, Ep in Hn2. }
  assert (resolved scan s (lit "RIL_onRequestComplete") completeHook_addr c) as Hc.
  { eapply resolved_same; [exact Em|exact Ep|auto]. }
  destruct (Z.eqb_spec (slot u) (slot c)).
  - exists None, s2. split_and!; try apply Hsame; try done; [lia|]. intros _. right; right. exists u, c. auto.
  - exists (Some (u, c)), s2. split; [done|]. split; [done|]. split; [lia|]. split; [done|].
    intros ? ? [= <- <-]. split_and!; auto.
Qed.

Lemma prot_at_range prot a :
  prot_ok sysconf_pagesize prot -> 0 <= prot_at sysconf_pagesize prot a ->
  prot !! page_of sysconf_pagesize a = Some (prot_at sysconf_pagesize prot a) /\
  prot_at sysconf_pagesize prot a < 8.
Proof.
  unfold prot_at. intros Hok Hr. destruct (prot !! _) eqn:Hl; simpl in *; [|lia].
  apply Hok in Hl. split; [done|lia].
Qed.

Lemma resolved_entry scan s sym repl e :
  mem_ok (p_mem s) -> prot_ok sysconf_pagesize (p_prot s) -> is_u64 repl ->
  resolved scan s sym repl e -> entry_ok e.
Proof.
  intros Hm Hp Hr (_ & Er & Ha & Hpg & Hpa & H0 & Hrd & _).
  destruct (prot_at_range (p_prot s) (slot e) Hp ltac:(lia)).
  split; try done; [lia|by eapply rd64_range|by rewrite Er].
Qed.

Lemma resolved_exact scan s sym repl e :
  prot_ok sysconf_pagesize (p_prot s) -> resolved scan s sym repl e -> exact (p_prot s) e.
Proof.
  intros Hp (_ & _ & _ & Hpg & Hpa & H0 & _).
  destruct (prot_at_range (p_prot s) (slot e) Hp ltac:(lia)) as [Hlk _].
  unfold exact. by rewrite Hpg, Hlk, Hpa.
Qed.

Lemma outcome_earlier u c s0 s rc s' :
  (p_calls s0 <= p_calls s)%nat -> outcome u c s rc s' -> outcome u c s0 rc s'.
Proof.
  intros Hle. assert (forall n, during s s' n -> during s0 s' n) as Hd by (unfold during; intros; lia).
  unfold outcome. naive_solver.
Qed.

(** The state in which the originals have just been published. *)
Lemma K_initial scan s u c n sym1 sym2 r1 r2 hk :
  prot_ok sysconf_pagesize (p_prot s) -> module_ok scan (p_mem s) -> p_worker s = false -> p_log s = [] ->
  resolved scan s sym1 r1 u -> resolved scan s sym2 r2 c ->
  K u c (p_mem s) false (mk_proc (p_mem s) (p_prot s)
    (mk_hooks IA_HOOKS_INSTALLING (original u) (original c)) false (p_monotonic s) n
    (([mk_snap (p_mem s) (mk_hooks IA_HOOKS_INSTALLING (sRealOnUnsol hk) (sRealOnComplete hk)) false] ++
      [mk_snap (p_mem s) (mk_hooks IA_HOOKS_INSTALLING (original u) (sRealOnComplete hk)) false]) ++
      [mk_snap (p_mem s) (mk_hooks IA_HOOKS_INSTALLING (original u) (original c)) false])).
Proof.
  intros Hp [Hph Hseg _] Hw Hl Hu Hc.
  assert (forall sym r e, resolved scan s sym r e ->
    page_good (p_prot s) e /\ mapped (p_mem s) (slot e) 8 /\
    rd64 (p_mem s) (slot e) <> Some (replacement e) /\ held (p_mem s) e) as He.
  { intros sym r e (_ & Er & _ & Hpg & Hpa & H0 & Hrd & _ & Hne & Hin & _).
    destruct (prot_at_range (p_prot s) (slot e) Hp ltac:(lia)) as [Hlk _]. split_and!.
    - left. by rewrite Hpg, <- Hpa.
    - apply inModule_inside in Hin; [|done|done]. by eapply inside_mapped.
    - rewrite Hrd, Er. congruence.
    - by left. }
  destruct (He _ _ _ Hu) as (? & ? & Hnu & ?), (He _ _ _ Hc) as (? & ? & Hnc & ?).
  split; simpl; try done. repeat constructor; simpl; done.
Qed.

Lemma install_cases s scan :
  sIaHookState (p_hooks s) = IA_HOOKS_DISABLED -> p_worker s = false -> p_log s = [] ->
  mem_ok (p_mem s) -> prot_ok sysconf_pagesize (p_prot s) ->
  is_u64 unsolHook_addr -> is_u64 completeHook_addr ->
  dl_iterate_phdr (p_mem s) modules (mk_scan (lit "mtk-rilproxy.so") 0 [] 0 0 0 0 false) = Some scan ->
  (found scan = true -> module_ok scan (p_mem s)) ->
  exists rc s', installAttachApnHooks s = Some (rc, s') /\
    ((rc = -1 /\ unresolved scan s s' /\ sIaHookState (p_hooks s') = IA_HOOKS_DISABLED /\
      p_mem s' = p_mem s /\ p_prot s' = p_prot s /\ p_worker s' = false /\
      Forall (fun sn => sn_mem sn = p_mem s) (p_log s')) \/
     exists u c, found scan = true /\ slot u <> slot c /\
       resolved scan s (lit "RIL_onUnsolicitedResponse") unsolHook_addr u /\
       resolved scan s (lit "RIL_onRequestComplete") completeHook_addr c /\
       published u c (p_mem s) s' /\ outcome u c s rc s').
Proof.
  intros Hst Hw Hlog Hm Hp Hua Hca Hit Hmo. unfold installAttachApnHooks.
  rewrite (bind_run (gets _) _ s _ _ eq_refl), Hst. rewrite bool_decide_true by done. cbn [negb].
  erewrite (bind_run (set_hook_state _)) by reflexivity.
  erewrite (bind_run (gets p_mem)) by reflexivity. cbn [p_mem].
  erewrite (bind_run (lift _)) by (unfold lift; rewrite Hit; reflexivity).
  set (s1 := mk_proc (p_mem s) _ _ _ _ _ _).
  destruct (resolve_entries_spec scan s1) as (r & s2 & H2 & (E1 & E2 & E3 & E4 & E5 & E6) & E7 & Hn & Hr);
    [done|done|intros Hf; split; [by eapply iterate_found|by apply Hmo]|].
  rewrite (bind_run _ _ _ _ _ H2). destruct r as [[u c]|].
  - destruct (Hr u c eq_refl) as (Hne & Hf & Hu & Hc). apply (resolved_same _ s) in Hu, Hc; try done.
    pose proof (resolved_entry _ _ _ _ _ Hm Hp Hua Hu) as Hue.
    pose proof (resolved_entry _ _ _ _ _ Hm Hp Hca Hc) as Hce.
    pose proof (resolved_exact _ _ _ _ _ Hp Hu) as Hxu. pose proof (resolved_exact _ _ _ _ _ Hp Hc) as Hxc.
    assert (page u = page c -> protection u = protection c) as Hsame.
    { intros Hpg. unfold exact in *. rewrite Hpg in Hxu. congruence. }
    pose proof (K_initial scan s u c (p_calls s2) _ _ _ _ (p_hooks s) Hp (Hmo Hf) Hw Hlog Hu Hc) as HK.
    destruct (finish_outcome u c Hue Hce Hsame Hne _ _ HK Hxu Hxc) as (rc & s3 & H3 & Hres & Hout);
      [apply Hu|apply Hc|].
    exists rc, s3. split; [|right; exists u, c; split_and!; try done].
    + rewrite <- H3. erewrite bind_run by reflexivity. unfold finish_install. f_equal.
      destruct s2. simpl in *. subst. by rewrite Hw, Hlog.
    + by eapply outcome_earlier; [|exact Hout].
  - erewrite bind_run by reflexivity. eexists _, _. split; [reflexivity|]. left. simpl.
    rewrite E1, E2, E4, E6. simpl. rewrite Hw, Hlog. split_and!; try done; [|by repeat constructor].
    exact (Hn eq_refl).
Qed.

(** ** The theorems *)

(** C3: Installing the two hooks is a transaction.  On a process whose module is
    mapped, whatever calls fail, installAttachApnHooks returns without a fault,
    and one of four things holds.  Either the slots could not be resolved (no
    module, no entry for one of the symbols, or one slot for both), and memory,
    protections and hook state are as before; or both slots hold the hooks under
    their original protections, the worker exists, waits on the monotonic clock,
    and the state is ACTIVE; or some call failed, both slots hold their originals
    under their original protections, there is no worker and the state is
    DISABLED; or some call failed and after it the kernel refused another one, in
    the rollback: then the state is FAILED, there is no worker, and each slot holds
    its original or its hook.  So without a failing call the hooks are installed,
    and a single failing call is always undone.  No byte outside the two words
    changes. *)
Theorem install_transaction s scan :
  sIaHookState (p_hooks s) = IA_HOOKS_DISABLED -> p_worker s = false -> p_log s = [] ->
  mem_ok (p_mem s) -> prot_ok sysconf_pagesize (p_prot s) ->
  is_u64 unsolHook_addr -> is_u64 completeHook_addr ->
  dl_iterate_phdr (p_mem s) modules (mk_scan (lit "mtk-rilproxy.so") 0 [] 0 0 0 0 false) = Some scan ->
  (found scan = true -> module_ok scan (p_mem s)) ->
  exists rc s', installAttachApnHooks s = Some (rc, s') /\
    ((rc = -1 /\ unresolved scan s s' /\ sIaHookState (p_hooks s') = IA_HOOKS_DISABLED /\
      p_mem s' = p_mem s /\ p_prot s' = p_prot s /\ p_worker s' = false) \/
     exists u c, slot u <> slot c /\
       resolved scan s (lit "RIL_onUnsolicitedResponse") unsolHook_addr u /\
       resolved scan s (lit "RIL_onRequestComplete") completeHook_addr c /\
       frame u c (p_mem s) (p_mem s') /\
       ((rc = 0 /\ committed u c s') \/
        (rc = -1 /\ undone u c s' /\ exists n, during s s' n /\ call_failed n) \/
        (rc = -1 /\ residual u c s' /\ exists n1 n2, (n1 < n2)%nat /\ during s s' n1 /\ during s s' n2 /\
           call_failed n1 /\ refused n2))).
Proof.
  intros. destruct (install_cases s scan) as (rc & s' & Hr & Hc); try assumption.
  exists rc, s'. split; [assumption|].
  destruct Hc as [(? & ? & ? & ? & ? & ? & _)|(u & c & _ & ? & ? & ? & (_ & _ & _ & ?) & ?)];
    [by left|right; by exists u, c].
Qed.

(** C4: At every moment of the installation and of its rollback, a thread that
    calls through a slot is safe: when the word of a slot is a hook, the original
    that hook forwards to has been published and is the non-null pointer the slot
    held before; and ACTIVE is visible only with both hooks in place and the
    worker running.  This includes hooks a failed rollback leaves behind. *)
Theorem hooks_never_unpublished s scan :
  sIaHookState (p_hooks s) = IA_HOOKS_DISABLED -> p_worker s = false -> p_log s = [] ->
  mem_ok (p_mem s) -> prot_ok sysconf_pagesize (p_prot s) ->
  is_u64 unsolHook_addr -> is_u64 completeHook_addr ->
  dl_iterate_phdr (p_mem s) modules (mk_scan (lit "mtk-rilproxy.so") 0 [] 0 0 0 0 false) = Some scan ->
  (found scan = true -> module_ok scan (p_mem s)) ->
  exists rc s', installAttachApnHooks s = Some (rc, s') /\
    (Forall (fun sn => sn_mem sn = p_mem s) (p_log s') \/
     exists u c, rd64 (p_mem s) (slot u) = Some (original u) /\ original u <> NULL /\
       rd64 (p_mem s) (slot c) = Some (original c) /\ original c <> NULL /\
       replacement u = unsolHook_addr /\ replacement c = completeHook_addr /\
       Forall (snap_safe u c) (p_log s') /\
       sRealOnUnsol (p_hooks s') = original u /\ sRealOnComplete (p_hooks s') = original c).
Proof.
  intros. destruct (install_cases s scan) as (rc & s' & Hr & Hc); try assumption.
  exists rc, s'. split; [assumption|].
  destruct Hc as [(_ & _ & _ & _ & _ & _ & ?)|(u & c & _ & _ & Hu & Hc & (? & ? & ? & ?) & _)]; [by left|right].
  destruct Hu as (_ & ? & _ & _ & _ & _ & ? & ? & _), Hc as (_ & ? & _ & _ & _ & _ & ? & ? & _).
  exists u, c. split_and!; assumption.
Qed.
End Install.

(** ** A kernel that meets the interface *)

Definition page_vma (p : Z * Z) : vma :=
  mk_vma p.1 (p.1 + 4096) (Z.testbit p.2 0) (Z.testbit p.2 1) (Z.testbit p.2 2) false [].

Definition host_maps (prot : gmap Z Z) : list Z := render_maps (map page_vma (map_to_list prot)).

Lemma length_hex_fixed n z : length (hex_fixed n z) = n.
Proof. revert z. induction n as [|n IH]; intros z; [done|]. simpl. rewrite length_app, IH. simpl. lia. Qed.

Lemma hex_width_le z : is_u64 z -> (hex_width z <= 16)%nat.
Proof.
  intros [Hz Hz1]. unfold hex_width.
  assert (Z.log2 z < 64) as Hl.
  { destruct (decide (z = 0)) as [ ->|]; [done|]. apply Z.log2_lt_pow2; lia. }
  assert (Z.log2 z / 4 < 16) by (apply Z.div_lt_upper_bound; lia). lia.
Qed.

Lemma page_vma_ok prot p : prot_ok 4096 prot -> p ∈ map_to_list prot -> vma_ok (page_vma p).
Proof.
  destruct p as [pg m]. intros Hok Hp. apply elem_of_map_to_list in Hp. apply Hok in Hp as (_ & ? & ? & _).
  assert (is_u64 pg) as H1 by (split; simpl; lia). assert (is_u64 (pg + 4096)) as H2 by (split; simpl; lia).
  split_and!; simpl; [done|done| |constructor].
  unfold render_vma. rewrite !length_app, !length_hex_fixed. simpl.
  apply hex_width_le in H1, H2. lia.
Qed.

Lemma page_vma_prot pg m : 0 <= m < 8 -> vma_prot (page_vma (pg, m)) = m.
Proof.
  intros Hm. assert (m = 0 \/ m = 1 \/ m = 2 \/ m = 3 \/ m = 4 \/ m = 5 \/ m = 6 \/ m = 7) as Hc by lia.
  destruct Hc as [ ->|[ ->|[ ->|[ ->|[ ->|[ ->|[ ->| ->]]]]]]]; done.
Qed.

Lemma page_vma_in a pg m : pg mod 4096 = 0 -> in_vma a (page_vma (pg, m)) = true <-> pg = page_of 4096 a.
Proof.
  intros Hpg. unfold in_vma, page_of. simpl. pose proof (Z.mod_pos_bound a 4096 ltac:(lia)).
  pose proof (Z.div_mod a 4096 ltac:(lia)). pose proof (Z.div_mod pg 4096 ltac:(lia)).
  split; [intros; zb|intros ->; apply andb_true_iff]; lia.
Qed.

Lemma host_maps_spec prot a :
  prot_ok 4096 prot -> mappingProt (Some (host_maps prot)) a = Some (prot_at 4096 prot a).
Proof.
  intros Hok. unfold mappingProt, host_maps.
  assert (Forall vma_ok (map page_vma (map_to_list prot))) as Hv.
  { apply Forall_fmap, Forall_forall. intros p Hp. by eapply page_vma_ok. }
  rewrite fgets_render, scan_maps_render by done. f_equal. unfold prot_at.
  destruct (List.find _ _) as [v|] eqn:Hf.
  - apply find_some in Hf as [Hin Hb]. apply in_map_iff in Hin as ([pg m] & <- & Hin).
    apply list_elem_of_In, elem_of_map_to_list in Hin. pose proof (Hok _ _ Hin) as (Hal & _ & _ & Hm).
    apply page_vma_in in Hb as ->; [|done]. rewrite Hin. by apply page_vma_prot.
  - destruct (prot !! page_of 4096 a) as [m|] eqn:Hl; [|done].
    pose proof (Hok _ _ Hl) as (Hal & _). apply elem_of_map_to_list, list_elem_of_In in Hl.
    apply (in_map page_vma) in Hl. apply (find_none _ _ Hf) in Hl.
    rewrite (proj2 (page_vma_in a _ m Hal)) in Hl by done. done.
Qed.

Definition host_linux : Linux.
Proof.
  refine (Build_Linux 4096 (fun _ => true) (fun _ prot => Some (host_maps prot)) (fun _ => 0) _ _).
  - by exists 12.
  - intros n prot text a Hok [= <-]. by apply host_maps_spec.
Defined.

(** The sample module in a process that has one read-only page. *)
Definition sample_proc : proc :=
  mk_proc sample_mem {[ 0x10000 := PROT_READ ]} (mk_hooks IA_HOOKS_DISABLED 0 0) false false 0 [].

Lemma sample_prot_ok : prot_ok 4096 (p_prot sample_proc).
Proof.
  intros pg m Hm. cbn [p_prot sample_proc] in Hm. apply lookup_singleton_Some in Hm as [<- <-].
  vm_compute. done.
Qed.

Lemma sample_module_ok : module_ok sample_scan sample_mem.
Proof.
  split; [exact sample_phdrs_ok|exact sample_segments|]. intros sym i r Hi Hm.
  apply jump_slot_offset in Hm.
  destruct i as [|[|i]]; [| |simpl in Hi; lia]; vm_compute in Hm; injection Hm as <-; reflexivity.
Qed.

Lemma install_transaction_witness :
  exists rc s', installAttachApnHooks (H := host_linux) 0x500 0x600 sample_infos sample_proc = Some (rc, s').
Proof.
  destruct (install_transaction (H := host_linux) 0x500 0x600 sample_infos sample_proc sample_scan
    eq_refl eq_refl eq_refl sample_mem_ok sample_prot_ok ltac:(vm_compute; split; done)
    ltac:(vm_compute; split; done) sample_iterates (fun _ => sample_module_ok)) as (rc & s' & Hr & _).
  by exists rc, s'.
Defined.

Lemma hooks_never_unpublished_witness :
  exists rc s', installAttachApnHooks (H := host_linux) 0x500 0x600 sample_infos sample_proc = Some (rc, s').
Proof.
  destruct (hooks_never_unpublished (H := host_linux) 0x500 0x600 sample_infos sample_proc sample_scan
    eq_refl eq_refl eq_refl sample_mem_ok sample_prot_ok ltac:(vm_compute; split; done)
    ltac:(vm_compute; split; done) sample_iterates (fun _ => sample_module_ok)) as (rc & s' & Hr & _).
  by exists rc, s'.
Defined.

(** On this process the installation commits. *)
Example sample_install_commits :
  match installAttachApnHooks (H := host_linux) 0x500 0x600 sample_infos sample_proc with
  | Some (rc, s') =>
      rc = 0 /\ sIaHookState (p_hooks s') = IA_HOOKS_ACTIVE /\
      rd64 (p_mem s') 0x10400 = Some 0x500 /\ rd64 (p_mem s') 0x10408 = Some 0x600 /\
      p_prot s' !! 0x10000 = Some PROT_READ
  | None => False
  end.
Proof. vm_compute. done. Qed.

(** The same kernel with mprotect failing at the numbered calls.  Calls 0 and 1
    resolve the slots; the first slot's page is made writable by call 2 and
    restored by call 3. *)
Definition flaky_linux (fails : list nat) : Linux.
Proof.
  refine (Build_Linux 4096 (fun n => bool_decide (n ∉ fails)) (fun _ prot => Some (host_maps prot)) (fun _ => 0) _ _).
  - by exists 12.
  - intros n prot text a Hok [= <-]. by apply host_maps_spec.
Defined.

(** Restoring the protection fails once: the rollback repairs slot and page. *)
Example sample_install_undone :
  match installAttachApnHooks (H := flaky_linux [3%nat]) 0x500 0x600 sample_infos sample_proc with
  | Some (rc, s') =>
      rc = -1 /\ sIaHookState (p_hooks s') = IA_HOOKS_DISABLED /\
      rd64 (p_mem s') 0x10400 = Some 0xaaaa0 /\ p_prot s' !! 0x10000 = Some PROT_READ
  | None => False
  end.
Proof. vm_compute. done. Qed.

(** It fails again in the rollback: the hook stays and the state says so. *)
Example sample_install_residual :
  match installAttachApnHooks (H := flaky_linux [3%nat; 4%nat]) 0x500 0x600 sample_infos sample_proc with
  | Some (rc, s') =>
      rc = -1 /\ sIaHookState (p_hooks s') = IA_HOOKS_FAILED /\
      rd64 (p_mem s') 0x10400 = Some 0x500
  | None => False
  end.
Proof. vm_compute. done. Qed.
