(* ===== verification/RilShim.v ===== *)
(** * The shim's entry points (ril-shim/k50sv1_ril_shim.c)

    [onRequestShim] routes a request; [RIL_Init] opens the vendor library, runs
    its RIL_Init, patches the function table in place and installs the hooks;
    [RIL_SAP_Init] forwards.  The vendor library and the dynamic linker are the
    interface [VendorRil].  The theorems compose those of the components: what
    reaches the vendor and what does not, that no unpatched table is ever handed
    out, and that a second call changes nothing. *)

From S2P Require Import Prelude CMem RilHeader RilCapability RilIaMem RilMaps.
From S2P Require Import RilGot RilAttachApn RilInstall.

(** ** Requests *)

(** What [data] points to, read as either structure; null when both are absent. *)
Record payload := mk_payload {
  raw : Z;
  as_capability : option RIL_RadioCapability;
  as_apn : option ia_mem;
}.

Inductive shim_event :=
  | ToFramework (ev : rc_event)
  | ToVendor (request data datalen : Z) (t : RIL_Token) (socketId : Z).

(** The state the request path touches. *)
Record request_state := mk_rs { rs_rc : rc_state; rs_cache : ia_cache }.

Section Requests.
Context `{RilHeader} `{Allocator}.

Definition onRequestShim (hk : hook_env) (request : Z) (data : payload) (datalen : Z)
    (t : RIL_Token) (socketId : Z) (st : request_state) : option (list shim_event * request_state) :=
  if request =? RIL_REQUEST_GET_RADIO_CAPABILITY then
    Some (ToFramework <$> getRadioCapability t socketId, st)
  else if request =? RIL_REQUEST_SET_RADIO_CAPABILITY then
    let '(ev, rc) := setRadioCapability (as_capability data) datalen t socketId (rs_rc st) in
    Some (ToFramework <$> ev, mk_rs rc (rs_cache st))
  else
    cache ← (if (request =? RIL_REQUEST_SET_INITIAL_ATTACH_APN) && attachApnHooksActive hk
             then cacheInitialAttachApn socketId (as_apn data) datalen (rs_cache st)
             else Some (rs_cache st));
    Some ([ToVendor request (raw data) datalen t socketId], mk_rs (rs_rc st) cache).
End Requests.

(** ** Initialisation *)

(** The dynamic linker and the vendor library: handles and symbols may be null;
    the vendor's RIL_Init returns its function table and may change the process. *)
Class VendorRil := {
  vr_dlopen : nat -> Z;
  vr_dlsym : Z -> list Z -> Z;
  vr_init : Z -> proc -> Z * proc;
  vr_sap_init : Z -> proc -> Z * proc;
}.

Record shim := mk_shim {
  sh_proc : proc;
  sRealHandle : Z;
  sRealFuncs : Z;
  sRealOnRequest : Z;
  sEnv : Z;
  sOnRequestPatched : bool;
  sh_init_calls : nat;  (* calls of the vendor's RIL_Init *)
}.

Definition N (A : Type) : Type := shim -> option (A * shim).

#[global] Instance N_ret : MRet N := fun A x s => Some (x, s).
#[global] Instance N_bind : MBind N := fun A B f e s =>
  match e s with None => None | Some (x, s') => f x s' end.

Definition sgets {A} (f : shim -> A) : N A := fun s => Some (f s, s).

(** A call on the process. *)
Definition on_proc {A} (e : M A) : N A := fun s =>
  match e (sh_proc s) with
  | None => None
  | Some (x, p) => Some (x, mk_shim p (sRealHandle s) (sRealFuncs s) (sRealOnRequest s) (sEnv s)
                              (sOnRequestPatched s) (sh_init_calls s))
  end.

Definition set_handle (h : Z) : N unit := fun s =>
  Some (tt, mk_shim (sh_proc s) h (sRealFuncs s) (sRealOnRequest s) (sEnv s) (sOnRequestPatched s)
              (sh_init_calls s)).
Definition set_real_on_request (f : Z) : N unit := fun s =>
  Some (tt, mk_shim (sh_proc s) (sRealHandle s) (sRealFuncs s) f (sEnv s) (sOnRequestPatched s)
              (sh_init_calls s)).
Definition set_patched : N unit := fun s =>
  Some (tt, mk_shim (sh_proc s) (sRealHandle s) (sRealFuncs s) (sRealOnRequest s) (sEnv s) true
              (sh_init_calls s)).

Section Init.
Context `{Linux} `{VendorRil}.
Context (onRequestShim_addr unsolHook_addr completeHook_addr : Z) (modules : list dl_phdr_info).

Definition rd_word (a : Z) : M Z := m ← gets p_mem; lift (rd64 m a).
Definition rd_int (a : Z) : M Z := m ← gets p_mem; lift (s32 <$> rd32 m a).

(** mprotect, and once more when it fails. *)
Definition restore_prot (pg prot : Z) : M unit :=
  rc ← mprotect pg prot;
  if negb (rc =? 0) then _ ← mprotect pg prot; mret tt else mret tt.

(** offsetof(RIL_RadioFunctions, onRequest) is 8, of version 0. *)
Definition patchOnRequest (funcs : Z) : N Z :=
  let field := funcs + 8 in
  let pageSize := sysconf_pagesize in
  if pageSize <=? 0 then mret (-1) else
  version ← on_proc (rd_int funcs);
  if (version <? 6) || (20 <? version) then mret (-1) else
  onRequest ← on_proc (rd_word field);
  if onRequest =? NULL then mret (-1) else
  let page := Z.ldiff field (pageSize - 1) in
  oldProt ← on_proc (read_prot field);
  if oldProt <? 0 then mret (-1) else
  let readonly := Z.land oldProt PROT_WRITE =? 0 in
  rc ← (if readonly then on_proc (mprotect page (Z.lor oldProt PROT_WRITE)) else mret 0);
  if negb (rc =? 0) then mret (-1) else
  _ ← set_real_on_request onRequest;
  _ ← on_proc (write_word field onRequestShim_addr);
  v ← on_proc (rd_word field);
  let patched := v =? onRequestShim_addr in
  _ ← (if readonly then on_proc (restore_prot page oldProt) else mret tt);
  if negb patched then mret (-1) else mret 0.

Definition openRealRil : N Z :=
  h ← sgets sRealHandle;
  if h =? NULL then
    n ← on_proc tick;
    let h := vr_dlopen n in
    _ ← set_handle h; mret h
  else mret h.

(** sEnv = env; sRealFuncs = realInit(env, argc, argv); *)
Definition call_real_init (env : Z) : N Z := fun s =>
  let '(funcs, p) := vr_init env (sh_proc s) in
  Some (funcs, mk_shim p (sRealHandle s) funcs (sRealOnRequest s) env (sOnRequestPatched s)
                 (S (sh_init_calls s))).

Definition RIL_Init (env : Z) : N Z :=
  done_ ← sgets sOnRequestPatched;
  if (done_ : bool) then sgets sRealFuncs else
  handle ← openRealRil;
  if handle =? NULL then mret NULL else
  if vr_dlsym handle (lit "RIL_Init") =? NULL then mret NULL else
  funcs ← call_real_init env;
  if funcs =? NULL then mret NULL else
  rc ← patchOnRequest funcs;
  if negb (rc =? 0) then mret NULL else
  _ ← set_patched;
  version ← on_proc (rd_int funcs);
  _ ← (if version <? 15 then mret 0
       else on_proc (installAttachApnHooks unsolHook_addr completeHook_addr modules));
  mret funcs.

Definition call_real_sap_init (env : Z) : N Z := fun s =>
  let '(funcs, p) := vr_sap_init env (sh_proc s) in
  Some (funcs, mk_shim p (sRealHandle s) (sRealFuncs s) (sRealOnRequest s) (sEnv s)
                 (sOnRequestPatched s) (sh_init_calls s)).

Definition RIL_SAP_Init (env : Z) : N Z :=
  handle ← openRealRil;
  if handle =? NULL then mret NULL else
  if vr_dlsym handle (lit "RIL_SAP_Init") =? NULL then mret NULL else
  call_real_sap_init env.

(** ** Lemmas *)

Lemma nbind_run {A B} (e : N A) (f : A -> N B) s x s' :
  e s = Some (x, s') -> (e ≫= f) s = f x s'.
Proof. intros He. unfold mbind, N_bind. by rewrite He. Qed.

(** The shim with another process. *)
Definition with_proc (s : shim) (p : proc) : shim :=
  mk_shim p (sRealHandle s) (sRealFuncs s) (sRealOnRequest s) (sEnv s) (sOnRequestPatched s)
    (sh_init_calls s).

Lemma on_proc_run {A} (e : M A) s x p :
  e (sh_proc s) = Some (x, p) -> on_proc e s = Some (x, with_proc s p).
Proof. intros He. unfold on_proc. by rewrite He. Qed.

(** With a page size that is a power of two the mask is the page address. *)
Lemma ldiff_page a : Z.ldiff a (sysconf_pagesize - 1) = page_of sysconf_pagesize a.
Proof.
  destruct pagesize_pow2 as (k & Hk & ->). unfold page_of.
  rewrite Z.sub_1_r, <- Z.ones_equiv, Z.ldiff_ones_r by lia.
  rewrite Z.shiftl_mul_pow2, Z.shiftr_div_pow2 by lia.
  pose proof (Z.div_mod a (2 ^ k) ltac:(lia)). lia.
Qed.

(** What the patch needs of the table the vendor returned. *)
Record table_ok (funcs : Z) (p : proc) : Prop := {
  to_mem : mem_ok (p_mem p);
  to_prot : prot_ok sysconf_pagesize (p_prot p);
  to_mapped : mapped (p_mem p) funcs 16;
  to_aligned : funcs mod 8 = 0;
}.

(** The process after a call that only touched protections and the counter. *)
Definition same_data (p p' : proc) : Prop :=
  p_mem p' = p_mem p /\ p_hooks p' = p_hooks p /\ p_worker p' = p_worker p /\
  p_monotonic p' = p_monotonic p /\ p_log p' = p_log p /\ prot_ok sysconf_pagesize (p_prot p').

Lemma mprotect_run p pg v :
  prot_ok sysconf_pagesize (p_prot p) -> 0 <= v < 8 ->
  exists rc p', mprotect pg v p = Some (rc, p') /\ same_data p p' /\
    (rc = 0 -> p_prot p' !! pg = Some v).
Proof.
  intros Hp Hv. unfold mprotect, mbind, M_bind, tick, gets. cbn.
  destruct (mprotect_ok _); [|by eexists _, _].
  case_bool_decide as Hm; [|by eexists _, _]. eexists _, _. split; [reflexivity|].
  split; [|intros _; simpl; by rewrite lookup_insert_eq]. split_and!; try done. simpl.
  intros k x Hx. apply lookup_insert_Some in Hx as [[<- <-]|[_ Hx]]; [|by apply Hp].
  destruct Hm as [y Hy]. destruct (Hp _ _ Hy) as (? & ? & ? & _). done.
Qed.

Lemma restore_run p pg v :
  prot_ok sysconf_pagesize (p_prot p) -> 0 <= v < 8 ->
  exists p', restore_prot pg v p = Some (tt, p') /\ same_data p p'.
Proof.
  intros Hp Hv. unfold restore_prot. destruct (mprotect_run p pg v Hp Hv) as (rc & p1 & H1 & Hs1 & _).
  rewrite (bind_run _ _ _ _ _ H1). destruct (rc =? 0); cbn [negb]; [by exists p1|].
  destruct (mprotect_run p1 pg v) as (rc2 & p2 & H2 & Hs2 & _); [apply Hs1|done|].
  rewrite (bind_run _ _ _ _ _ H2). exists p2. split; [done|].
  unfold same_data in *. destruct Hs1 as (? & ? & ? & ? & ? & _), Hs2 as (? & ? & ? & ? & ? & ?).
  split_and!; congruence || done.
Qed.

Lemma read_prot_run p a :
  prot_ok sysconf_pagesize (p_prot p) ->
  exists v p', read_prot a p = Some (v, p') /\ same_data p p' /\ p_prot p' = p_prot p /\
    (v = -1 \/ v = prot_at sysconf_pagesize (p_prot p) a).
Proof.
  intros Hp. unfold read_prot, mbind, M_bind, tick, gets, lift. cbn.
  destruct (self_maps (p_calls p) (p_prot p)) eqn:Hm.
  - erewrite self_maps_spec by eauto. eexists _, _. split; [reflexivity|].
    split; [by split_and!|]. split; [done|]. auto.
  - eexists _, _. split; [reflexivity|].
    split; [by split_and!|]. split; [done|]. auto.
Qed.

(** The words of the table. *)
Lemma rd_word_run p a v : rd64 (p_mem p) a = Some v -> rd_word a p = Some (v, p).
Proof. intros Hv. unfold rd_word, mbind, M_bind, gets, lift. by rewrite Hv. Qed.

Lemma rd_int_run p a v : rd32 (p_mem p) a = Some v -> rd_int a p = Some (s32 v, p).
Proof. intros Hv. unfold rd_int, mbind, M_bind, gets, lift. by rewrite Hv. Qed.

Lemma field_writable p field v :
  field mod 8 = 0 -> mapped (p_mem p) field 8 ->
  p_prot p !! page_of sysconf_pagesize field = Some v -> 0 <= v -> Z.land v PROT_WRITE <> 0 ->
  can_write p field = true.
Proof.
  intros Ha Hm Hv Hv0 Hw. apply forallb_forall. intros i Hi. apply in_seq in Hi. unfold prot_at.
  rewrite page_of_word by (done || lia). rewrite Hv. simpl.
  rewrite (proj2 (Z.eqb_neq _ _) Hw), (proj2 (Z.leb_le _ _) Hv0). simpl.
  apply bool_decide_eq_true, Hm. lia.
Qed.

Lemma write_word_run p a v :
  can_write p a = true ->
  write_word a v p = Some (tt, mk_proc (store64 (p_mem p) a v) (p_prot p) (p_hooks p) (p_worker p)
    (p_monotonic p) (p_calls p) (p_log p)).
Proof. intros Hw. unfold write_word. by rewrite Hw. Qed.

(** Outcome of the patch: refused with the memory as it was, or done, with the
    vendor's entry kept. *)
Definition patch_result (funcs orig version : Z) (s : shim) (rc : Z) (s' : shim) : Prop :=
  sRealHandle s' = sRealHandle s /\ sRealFuncs s' = sRealFuncs s /\ sEnv s' = sEnv s /\
  sOnRequestPatched s' = sOnRequestPatched s /\ sh_init_calls s' = sh_init_calls s /\
  p_hooks (sh_proc s') = p_hooks (sh_proc s) /\ p_worker (sh_proc s') = p_worker (sh_proc s) /\
  p_log (sh_proc s') = p_log (sh_proc s) /\ prot_ok sysconf_pagesize (p_prot (sh_proc s')) /\
  ((rc = -1 /\ p_mem (sh_proc s') = p_mem (sh_proc s) /\ sRealOnRequest s' = sRealOnRequest s) \/
   (rc = 0 /\ 6 <= version <= 20 /\ orig <> NULL /\ sRealOnRequest s' = orig /\
    p_mem (sh_proc s') = store64 (p_mem (sh_proc s)) (funcs + 8) onRequestShim_addr)).

Lemma prot_page_range p a v :
  prot_ok sysconf_pagesize (p_prot p) -> v = prot_at sysconf_pagesize (p_prot p) a -> 0 <= v ->
  p_prot p !! page_of sysconf_pagesize a = Some v /\ 0 <= v < 8.
Proof. intros Hp -> Hv0. destruct (prot_at_range (p_prot p) a Hp Hv0). split; [done|lia]. Qed.

(** The tail of the patch, from a state whose page is writable. *)
Definition patch_store (field orig pg oldProt : Z) (readonly : bool) : N Z :=
  _ ← set_real_on_request orig;
  _ ← on_proc (write_word field onRequestShim_addr);
  v ← on_proc (rd_word field);
  let patched := v =? onRequestShim_addr in
  _ ← (if readonly then on_proc (restore_prot pg oldProt) else mret tt);
  if negb patched then mret (-1) else mret 0.

Lemma patch_store_run field orig pg oldProt readonly s :
  can_write (sh_proc s) field = true -> prot_ok sysconf_pagesize (p_prot (sh_proc s)) ->
  0 <= oldProt < 8 -> is_u64 onRequestShim_addr ->
  exists s', patch_store field orig pg oldProt readonly s = Some (0, s') /\
    sRealHandle s' = sRealHandle s /\ sRealFuncs s' = sRealFuncs s /\ sEnv s' = sEnv s /\
    sOnRequestPatched s' = sOnRequestPatched s /\ sh_init_calls s' = sh_init_calls s /\
    p_hooks (sh_proc s') = p_hooks (sh_proc s) /\ p_worker (sh_proc s') = p_worker (sh_proc s) /\
    p_log (sh_proc s') = p_log (sh_proc s) /\ prot_ok sysconf_pagesize (p_prot (sh_proc s')) /\ sRealOnRequest s' = orig /\
    p_mem (sh_proc s') = store64 (p_mem (sh_proc s)) field onRequestShim_addr.
Proof.
  intros Hw Hp Hop Hsa. unfold patch_store. erewrite nbind_run by reflexivity.
  erewrite nbind_run by (apply on_proc_run, write_word_run, Hw).
  erewrite nbind_run by (apply on_proc_run, rd_word_run, rd64_store, Hsa).
  rewrite Z.eqb_refl. cbn [negb]. destruct readonly.
  - edestruct (restore_run (mk_proc (store64 (p_mem (sh_proc s)) field onRequestShim_addr)
      (p_prot (sh_proc s)) (p_hooks (sh_proc s)) (p_worker (sh_proc s)) (p_monotonic (sh_proc s))
      (p_calls (sh_proc s)) (p_log (sh_proc s))) pg oldProt)
      as (p' & Hr & (E1 & E2 & E3 & E4 & E5 & E6)); [exact Hp|exact Hop|].
    erewrite nbind_run by (apply on_proc_run; exact Hr).
    eexists. split; [reflexivity|]. split_and!; done.
  - erewrite nbind_run by reflexivity. eexists. split; [reflexivity|]. split_and!; done.
Qed.

Lemma patch_run funcs s v w :
  table_ok funcs (sh_proc s) -> is_u64 onRequestShim_addr ->
  rd32 (p_mem (sh_proc s)) funcs = Some v -> rd64 (p_mem (sh_proc s)) (funcs + 8) = Some w ->
  exists rc s', patchOnRequest funcs s = Some (rc, s') /\ patch_result funcs w (s32 v) s rc s'.
Proof.
  intros [Hm Hp Hmap Hal] Hsa Hv Hw. unfold patchOnRequest.
  assert (patch_result funcs w (s32 v) s (-1) s) as Hno by (split_and!; auto).
  assert (with_proc s (sh_proc s) = s) as Hid by (by destruct s).
  rewrite (proj2 (Z.leb_gt _ _) pagesize_pos).
  erewrite nbind_run by (apply on_proc_run, rd_int_run, Hv). rewrite Hid.
  destruct ((s32 v <? 6) || (20 <? s32 v)) eqn:Hver; [by exists (-1), s|]. zb.
  erewrite nbind_run by (apply on_proc_run, rd_word_run, Hw). rewrite Hid.
  destruct (Z.eqb_spec w NULL); [by exists (-1), s|]. rewrite ldiff_page.
  destruct (read_prot_run (sh_proc s) (funcs + 8) Hp) as (op & p1 & Hrp & (E1 & E2 & E3 & E4 & E5 & E6) & Hpp1 & Hop).
  erewrite nbind_run by (apply on_proc_run, Hrp).
  destruct (Z.ltb_spec op 0).
  { eexists _, _. split; [reflexivity|]. split_and!; try done. left. done. }
  destruct (prot_page_range (sh_proc s) (funcs + 8) op Hp) as [Hpg Hor]; [by destruct Hop; [lia|]|done|].
  pose proof (lor_write_range _ Hor) as [[Hlr Hlr'] Hlw].
  assert ((funcs + 8) mod 8 = 0) as Hal8 by (rewrite <- (Z.mul_1_l 8) at 1; rewrite Z.mod_add by lia; done).
  assert (mapped (p_mem (sh_proc s)) (funcs + 8) 8) as Hmap8 by (eapply mapped_sub; [exact Hmap|lia|lia]).
  set (pg := page_of sysconf_pagesize (funcs + 8)) in *.
  change (exists rc s', ((rc ← (if Z.land op PROT_WRITE =? 0 then on_proc (mprotect pg (Z.lor op PROT_WRITE)) else mret 0);
    if negb (rc =? 0) then mret (-1) else patch_store (funcs + 8) w pg op (Z.land op PROT_WRITE =? 0)) : N Z)
      (with_proc s p1) = Some (rc, s') /\ patch_result funcs w (s32 v) s rc s').
  destruct (Z.eqb_spec (Z.land op PROT_WRITE) 0) as [Hro|Hrw].
  - destruct (mprotect_run p1 pg (Z.lor op PROT_WRITE) E6 ltac:(lia)) as (rc & p2 & Hmp & (F1 & F2 & F3 & F4 & F5 & F6) & Hrc).
    erewrite nbind_run by (apply on_proc_run; exact Hmp).
    destruct (Z.eqb_spec rc 0); cbn [negb].
    2: { eexists _, _. split; [reflexivity|]. split_and!; try done; simpl; try congruence.
         left. split_and!; try done. simpl. congruence. }
    destruct (patch_store_run (funcs + 8) w pg op true (with_proc (with_proc s p1) p2)) as (s' & Hs' & R);
      [|exact F6|done|done|].
    { simpl. eapply field_writable; [done|by rewrite F1, E1|by apply Hrc|done|done]. }
    exists 0, s'. split; [exact Hs'|]. simpl in R. unfold patch_result.
    destruct R as (? & ? & ? & ? & ? & ? & ? & ? & ? & ? & Rm). split_and!; try congruence; try done.
    right. split_and!; try done; try lia. by rewrite Rm, F1, E1.
  - erewrite nbind_run by reflexivity. cbn [negb Z.eqb].
    destruct (patch_store_run (funcs + 8) w pg op false (with_proc s p1)) as (s' & Hs' & R); [|exact E6|done|done|].
    { simpl. eapply field_writable; [done|by rewrite E1|by rewrite Hpp1|done|done]. }
    exists 0, s'. split; [exact Hs'|]. simpl in R. unfold patch_result.
    destruct R as (? & ? & ? & ? & ? & ? & ? & ? & ? & ? & Rm). split_and!; try congruence; try done.
    right. split_and!; try done; try lia. by rewrite Rm, E1.
Qed.

(** ** The vendor's side *)

(** What the code relies on after the vendor's RIL_Init returned a table: the
    table is mapped and aligned, no hook has been installed, and the module is
    mapped, its jump slots being words other than the table's entry. *)
Record vendor_state_ok (funcs : Z) (p : proc) : Prop := {
  vs_table : table_ok funcs p;
  vs_hooks : sIaHookState (p_hooks p) = IA_HOOKS_DISABLED;
  vs_worker : p_worker p = false;
  vs_log : p_log p = [];
  vs_module : let m := store64 (p_mem p) (funcs + 8) onRequestShim_addr in
    exists scan, dl_iterate_phdr m modules (mk_scan (lit "mtk-rilproxy.so") 0 [] 0 0 0 0 false) = Some scan /\
      (found scan = true -> module_ok scan m /\
         forall sym i r, Z.of_nat i < jmprelCount scan -> jump_slot_for m scan sym i r ->
           base scan + r <> funcs + 8);
}.

Definition addrs_ok : Prop :=
  is_u64 onRequestShim_addr /\ is_u64 unsolHook_addr /\ is_u64 completeHook_addr.

Lemma rd64_ext m m' a : (forall x, a <= x < a + 8 -> m !! x = m' !! x) -> rd64 m a = rd64 m' a.
Proof. intros He. unfold rd64. by rewrite (load_ext m m' a 8 He). Qed.

(** The installation leaves the table's entry patched. *)
Lemma install_keeps_table funcs p p1 :
  addrs_ok -> vendor_state_ok funcs p ->
  p_hooks p1 = p_hooks p -> p_worker p1 = p_worker p -> p_log p1 = p_log p ->
  prot_ok sysconf_pagesize (p_prot p1) -> p_mem p1 = store64 (p_mem p) (funcs + 8) onRequestShim_addr ->
  exists rc p2, installAttachApnHooks unsolHook_addr completeHook_addr modules p1 = Some (rc, p2) /\
    rd64 (p_mem p2) (funcs + 8) = Some onRequestShim_addr.
Proof.
  intros (Hsa & Hua & Hca) [[Hm Hp Hmap Hal] Hh Hw Hl (scan & Hit & Hmo)] E1 E2 E3 E4 E5. rewrite <- E5 in *.
  assert ((funcs + 8) mod 8 = 0) as Hal8 by (rewrite <- (Z.mul_1_l 8) at 1; rewrite Z.mod_add by lia; done).
  destruct (install_cases unsolHook_addr completeHook_addr modules p1 scan) as (rc & p2 & Hi & Hc);
    [by rewrite E1|by rewrite E2|by rewrite E3|rewrite E5; by apply store64_mem_ok|done|done|done|done
    |intros Hf; by apply Hmo|].
  exists rc, p2. split; [done|].
  assert (rd64 (p_mem p1) (funcs + 8) = Some onRequestShim_addr) as Hp1 by (rewrite E5; by apply rd64_store).
  destruct Hc as [(_ & _ & _ & -> & _)|(u & c & Hf & _ & Hu & Hc & (_ & _ & _ & Hfr) & _)]; [done|].
  rewrite <- Hp1. apply rd64_ext. intros x Hx.
  destruct Hu as (_ & _ & Hau & _ & _ & _ & _ & _ & _ & _ & i & r & Hir & Hmr & Hsu).
  destruct Hc as (_ & _ & Hac & _ & _ & _ & _ & _ & _ & _ & j & q & Hjq & Hmq & Hsc).
  destruct (Hmo Hf) as [_ Hne]. apply Hfr.
  - apply (words_apart _ (funcs + 8)); try done. rewrite Hsu. exact (Hne _ _ _ Hir Hmr).
  - apply (words_apart _ (funcs + 8)); try done. rewrite Hsc. exact (Hne _ _ _ Hjq Hmq).
Qed.

Lemma openRealRil_run s :
  exists h s', openRealRil s = Some (h, s') /\ sOnRequestPatched s' = sOnRequestPatched s /\
    sRealFuncs s' = sRealFuncs s /\ sh_init_calls s' = sh_init_calls s /\ sRealHandle s' = h.
Proof.
  unfold openRealRil, mbind, N_bind, sgets. destruct (sRealHandle s =? NULL); by eexists _, _.
Qed.

(** C6: RIL_Init fails closed.  On a first call it returns, whatever calls fail,
    either NULL with nothing marked as patched, or the vendor's own table with its
    onRequest entry replaced by the shim, the vendor's non-null entry kept for
    forwarding, and the initialisation marked complete.  It never hands out a
    table through which the vendor's capability switch can be reached, and the
    hook installation cannot undo the patch.  After a success every further call
    returns the same table and changes nothing, so the vendor is not initialised
    again and the kept entry never becomes the shim itself. *)
Theorem RIL_Init_fails_closed env s :
  sOnRequestPatched s = false -> addrs_ok ->
  (forall p funcs p1, vr_init env p = (funcs, p1) -> funcs <> NULL -> vendor_state_ok funcs p1) ->
  exists r s', RIL_Init env s = Some (r, s') /\
    ((r = NULL /\ sOnRequestPatched s' = false) \/
     (r <> NULL /\ sRealFuncs s' = r /\ sOnRequestPatched s' = true /\
      rd64 (p_mem (sh_proc s')) (r + 8) = Some onRequestShim_addr /\
      sRealOnRequest s' <> NULL /\
      (forall env', RIL_Init env' s' = Some (r, s')) /\
      exists p p1, vr_init env p = (r, p1) /\ rd64 (p_mem p1) (r + 8) = Some (sRealOnRequest s'))).
Proof.
  intros Hs Ha Hv. unfold RIL_Init. erewrite nbind_run by reflexivity. rewrite Hs.
  destruct (openRealRil_run s) as (h & s1 & Ho & Hp1 & _ & _ & _). rewrite Hs in Hp1.
  rewrite (nbind_run _ _ _ _ _ Ho).
  destruct (h =? NULL); [exists NULL, s1; auto|]. destruct (vr_dlsym h _ =? NULL); [exists NULL, s1; auto|].
  destruct (vr_init env (sh_proc s1)) as [funcs p1] eqn:Hi.
  erewrite nbind_run by (unfold call_real_init; rewrite Hi; reflexivity).
  destruct (Z.eqb_spec funcs NULL) as [|Hn]; [eexists NULL, _; split; [reflexivity|by left]|].
  pose proof (Hv _ _ _ Hi Hn) as Hvs. pose proof (vs_table _ _ Hvs) as Ht.
  destruct (rd32_mapped (p_mem p1) funcs) as [v Hrv]; [eapply mapped_sub; [apply Ht|lia|lia]|].
  destruct (rd64_mapped (p_mem p1) (funcs + 8)) as [w Hrw]; [eapply mapped_sub; [apply Ht|lia|lia]|].
  set (s2 := mk_shim p1 _ _ _ _ _ _).
  destruct (patch_run funcs s2 v w Ht (proj1 Ha) Hrv Hrw) as (rc & s3 & Hpr & R).
  rewrite (nbind_run _ _ _ _ _ Hpr). destruct R as (R1 & R2 & R3 & R4 & R5 & R6 & R7 & R8 & R9 & Rc).
  destruct Rc as [(-> & Rm & _)|(-> & Rv & Rn & Rr & Rm)]; cbn [negb Z.eqb].
  { exists NULL, s3. split; [done|]. left. split; [done|]. by rewrite R4. }
  erewrite nbind_run by reflexivity.
  assert (rd32 (p_mem (sh_proc s3)) funcs = Some v) as Hrv3.
  { rewrite <- Hrv, Rm. unfold rd32. erewrite (load_ext _ (p_mem p1)); [done|]. intros x Hx.
    unfold store64. rewrite store_bytes_lookup, length_le_bytes, bool_decide_false; [done|]. simpl. lia. }
  erewrite nbind_run by (apply on_proc_run, rd_int_run; exact Hrv3).
  destruct (install_keeps_table funcs p1 (sh_proc s3) Ha Hvs) as (ri & p4 & Hin & Hfin); [done..|].
  assert (rd64 (p_mem (sh_proc s3)) (funcs + 8) = Some onRequestShim_addr) as Hf3
    by (rewrite Rm; apply rd64_store, Ha).
  destruct (s32 v <? 15).
  - erewrite nbind_run by reflexivity. eexists funcs, _. split; [reflexivity|]. right. simpl.
    rewrite R2, Rr. split_and!; try done. by exists (sh_proc s1), p1.
  - erewrite nbind_run by (apply on_proc_run; exact Hin). eexists funcs, _. split; [reflexivity|].
    right. simpl. rewrite R2, Rr. split_and!; try done. by exists (sh_proc s1), p1.
Qed.
End Init.

(** ** Witnesses and routing *)

Section Routing.
Context `{RilHeader} `{Allocator}.

Lemma routing_distinct :
  RIL_REQUEST_SET_INITIAL_ATTACH_APN <> RIL_REQUEST_GET_RADIO_CAPABILITY /\
  RIL_REQUEST_SET_INITIAL_ATTACH_APN <> RIL_REQUEST_SET_RADIO_CAPABILITY /\
  RIL_REQUEST_GET_RADIO_CAPABILITY <> RIL_REQUEST_SET_RADIO_CAPABILITY.
Proof.
  pose proof requests_distinct as Hd. rewrite !NoDup_cons in Hd. set_solver.
Qed.

Definition is_capability_request (request : Z) : Prop :=
  request = RIL_REQUEST_GET_RADIO_CAPABILITY \/ request = RIL_REQUEST_SET_RADIO_CAPABILITY.

(** The answer to a capability request starts with the one completion. *)
Lemma capability_answer request data datalen t socketId st hk :
  is_capability_request request ->
  exists e r rest rc, onRequestShim hk request data datalen t socketId st =
    Some (ToFramework (OnRequestComplete t e r) :: (ToFramework <$> rest), mk_rs rc (rs_cache st)) /\
    Forall (fun ev => match ev with OnRequestComplete _ _ _ => False | _ => True end) rest.
Proof.
  pose proof routing_distinct as (_ & _ & Hgs). intros [ ->| ->]; unfold onRequestShim.
  - rewrite Z.eqb_refl. unfold getRadioCapability, rejectRadioCapabilityRequest.
    destruct (fillFixedRadioCapability _ _ _ _ _) as [[] r];
      (eexists _, _, [], (rs_rc st); split; [destruct st; reflexivity|constructor]).
  - rewrite (proj2 (Z.eqb_neq _ _)), Z.eqb_refl by congruence.
    unfold setRadioCapability, rejectRadioCapabilityRequest.
    repeat case_match; simplify_eq/=;
      first [by eexists _, _, [], _; split; [reflexivity|constructor]
            |by eexists _, _, [_], _; split; [reflexivity|repeat constructor]].
Qed.

(** What reaches the vendor.  GET and SET_RADIO_CAPABILITY are never passed to
    the vendor, whatever their payload: each is completed exactly once, as the
    first thing.  Every other request reaches the vendor exactly once with the
    same arguments and nothing else is called; the attach-APN cache is updated
    before that, and only for SET_INITIAL_ATTACH_APN while the hooks are active,
    to the caller's payload. *)
Theorem onRequestShim_routing hk request data datalen t socketId st :
  cache_inv (rs_cache st) ->
  match as_apn data with
  | Some src => Forall (valid_str (h_live (ic_heap (rs_cache st)))) (ia_strings src)
  | None => True
  end ->
  exists ev st', onRequestShim hk request data datalen t socketId st = Some (ev, st') /\
    cache_inv (rs_cache st') /\
    ((is_capability_request request /\ rs_cache st' = rs_cache st /\
      exists e r rest, ev = ToFramework (OnRequestComplete t e r) :: (ToFramework <$> rest) /\
        Forall (fun x => match x with OnRequestComplete _ _ _ => False | _ => True end) rest) \/
     (~ is_capability_request request /\ rs_rc st' = rs_rc st /\
      ev = [ToVendor request (raw data) datalen t socketId] /\
      exists stored, (forall i, cached_value (rs_cache st') i =
          if (stored : bool) && bool_decide (i = Z.to_nat socketId)
          then view (h_live (ic_heap (rs_cache st))) <$> as_apn data else cached_value (rs_cache st) i) /\
        (stored = true -> request = RIL_REQUEST_SET_INITIAL_ATTACH_APN /\
           sIaHookState hk = IA_HOOKS_ACTIVE))).
Proof.
  intros Hinv Hdata.
  destruct (decide (request = RIL_REQUEST_GET_RADIO_CAPABILITY \/ request = RIL_REQUEST_SET_RADIO_CAPABILITY))
    as [Hc|Hc].
  { destruct (capability_answer request data datalen t socketId st hk Hc) as (e & r & rest & rc & Hr & Hf).
    eexists _, _. split; [exact Hr|]. split; [done|]. left. split_and!; try done. by exists e, r, rest. }
  unfold onRequestShim. rewrite (proj2 (Z.eqb_neq _ _)), (proj2 (Z.eqb_neq _ _)) by tauto.
  destruct (_ && _) eqn:Ha.
  - destruct (cache_apn_ok socketId (as_apn data) datalen (rs_cache st) Hinv Hdata)
      as (c' & stored & Hr & Hci & Hval & _). rewrite Hr. cbn [mbind option_bind].
    eexists _, _. split; [reflexivity|]. split; [done|]. right. split_and!; try done.
    exists stored. split; [done|]. intros _. unfold attachApnHooksActive in Ha. zb. done.
  - cbn [mbind option_bind]. eexists _, _. split; [reflexivity|]. split; [done|]. right.
    split_and!; try done. by exists false.
Qed.
End Routing.

Lemma onRequestShim_routing_witness :
  exists ev st', onRequestShim (H := aosp_ril_h) demo_hooks 111 (mk_payload 0x900 None (Some sample_ia)) 88 5 0
    (mk_rs rc_init empty_cache) = Some (ev, st') /\ cache_inv (rs_cache st').
Proof.
  destruct (onRequestShim_routing (H := aosp_ril_h) demo_hooks 111 (mk_payload 0x900 None (Some sample_ia)) 88 5 0
    (mk_rs rc_init empty_cache)) as (ev & st' & Hr & Hi & _).
  - split_and!; [done..|]. split; [apply NoDup_nil_2|constructor].
  - exact sample_ia_valid.
  - by exists ev, st'.
Defined.

(** A vendor library with the sample module and a table of version 15. *)
Definition table_mem : mem :=
  store_bytes sample_mem 0x20000 (le_bytes 8 15 ++ le_bytes 8 0x777).
Definition table_proc : proc :=
  mk_proc table_mem (<[0x20000 := PROT_READ]> {[ 0x10000 := PROT_READ ]})
    (mk_hooks IA_HOOKS_DISABLED 0 0) false false 0 [].
Definition sample_vendor : VendorRil :=
  Build_VendorRil (fun _ => 1) (fun _ _ => 2) (fun _ _ => (0x20000, table_proc)) (fun _ p => (NULL, p)).

Definition sample_shim : shim := mk_shim sample_proc 0 0 0 0 false 0.

Lemma table_mem_ok : mem_ok table_mem.
Proof.
  intros x b. unfold table_mem. rewrite store_bytes_lookup. case_bool_decide; [|apply sample_mem_ok].
  intros Hb. eapply Forall_lookup_1; [|exact Hb]. apply Forall_app. split; apply le_bytes_ok.
Qed.

Lemma table_prot_ok : prot_ok 4096 (p_prot table_proc).
Proof.
  intros pg m Hm. cbn [p_prot table_proc] in Hm.
  apply lookup_insert_Some in Hm as [[<- <-]|[_ Hm]]; [vm_compute; done|].
  apply lookup_singleton_Some in Hm as [<- <-]. vm_compute. done.
Qed.

Lemma table_state_ok :
  vendor_state_ok (H := host_linux) 0x400 sample_infos 0x20000 table_proc.
Proof.
  split; [split|done|done|done|].
  - exact table_mem_ok.
  - exact table_prot_ok.
  - intros x Hx. change (p_mem table_proc) with table_mem. unfold table_mem.
    rewrite store_bytes_lookup, bool_decide_true by (rewrite length_app, !length_le_bytes; lia).
    apply lookup_lt_is_Some_2. rewrite length_app, !length_le_bytes. lia.
  - done.
  - cbv zeta. exists sample_scan. split; [vm_compute; reflexivity|]. intros _.
    assert (forall sym i r, Z.of_nat i < 2 ->
      jump_slot_for (store64 (p_mem table_proc) (0x20000 + 8) 0x400) sample_scan sym i r ->
      r = 0x400 \/ r = 0x408) as Hr.
    { intros sym i r Hi Hm. apply jump_slot_offset in Hm.
      destruct i as [|[|i]]; [| |lia]; vm_compute in Hm; injection Hm as <-; auto. }
    split; [split|].
    + exact sample_phdrs_ok.
    + intros ph Hph Ht Hb x Hx. apply store64_mapped. unfold table_proc, p_mem, table_mem.
      rewrite store_bytes_lookup. case_bool_decide; [by apply lookup_lt_is_Some_2; lia|].
      by apply (sample_segments ph Hph Ht Hb).
    + intros sym i r Hi Hm. by destruct (Hr sym i r Hi Hm) as [ ->| ->].
    + intros sym i r Hi Hm. by destruct (Hr sym i r Hi Hm) as [ ->| ->].
Qed.

Lemma RIL_Init_fails_closed_witness :
  exists r s', RIL_Init (H := host_linux) (H0 := sample_vendor) 0x400 0x500 0x600 sample_infos 9 sample_shim
    = Some (r, s').
Proof.
  destruct (RIL_Init_fails_closed (H := host_linux) (H0 := sample_vendor) 0x400 0x500 0x600 sample_infos 9
    sample_shim) as (r & s' & Hr & _).
  - reflexivity.
  - split_and!; vm_compute; done.
  - intros p funcs p1 [= <- <-] _. exact table_state_ok.
  - by exists r, s'.
Defined.

(** Here initialisation succeeds and arms the hooks. *)
Example sample_init_succeeds :
  match RIL_Init (H := host_linux) (H0 := sample_vendor) 0x400 0x500 0x600 sample_infos 9 sample_shim with
  | Some (r, s') =>
      r = 0x20000 /\ sRealOnRequest s' = 0x777 /\ rd64 (p_mem (sh_proc s')) 0x20008 = Some 0x400 /\
      sIaHookState (p_hooks (sh_proc s')) = IA_HOOKS_ACTIVE /\
      p_prot (sh_proc s') !! 0x20000 = Some PROT_READ
  | None => False
  end.
Proof. vm_compute. done. Qed.
