(* ===== verification/StateM.v ===== *)
(** * Methods on the state of an object

    A method reads and changes the members of its object and may fault ([None]: a
    null or dangling pointer, an exception that is not caught).  [ok s m Q]: from [s]
    the method returns without a fault and [Q] holds of the result and the new
    state. *)

From S2P Require Import Prelude.

Section Methods.
Context {S : Type}.

Definition M (A : Type) : Type := S -> option (A * S).
#[global] Instance M_ret : MRet M := fun A x s => Some (x, s).
#[global] Instance M_bind : MBind M := fun A B f m s =>
  match m s with Some (x, s') => f x s' | None => None end.

Definition gets {A} (f : S -> A) : M A := fun s => Some (f s, s).
Definition modify (f : S -> S) : M unit := fun s => Some (tt, f s).
Definition lift {A} (x : option A) : M A := fun s => match x with Some a => Some (a, s) | None => None end.

Definition ok {A} (s : S) (m : M A) (Q : A -> S -> Prop) : Prop :=
  match m s with Some (a, s') => Q a s' | None => False end.

Lemma ok_bind {A B} s (m : M A) (f : A -> M B) Q :
  ok s m (fun a s' => ok s' (f a) Q) -> ok s (m ≫= f) Q.
Proof. unfold ok, mbind, M_bind. by destruct (m s) as [[a s']|]. Qed.

Lemma mbind_run {A B} s (m : M A) (f : A -> M B) a s' : m s = Some (a, s') -> (m ≫= f) s = f a s'.
Proof. unfold mbind, M_bind. by intros ->. Qed.

(** Reads a run of a method backwards. *)
Lemma mbind_inv {A B} (m : M A) (f : A -> M B) s b s' :
  (m ≫= f) s = Some (b, s') -> exists a s1, m s = Some (a, s1) /\ f a s1 = Some (b, s').
Proof. unfold mbind, M_bind. destruct (m s) as [[a s1]|]; [|done]. eauto. Qed.

Lemma ok_ret {A} s (a : A) Q : Q a s -> ok s (mret a) Q.
Proof. done. Qed.

Lemma ok_mono {A} s (m : M A) (Q Q' : A -> S -> Prop) :
  ok s m Q -> (forall a s', Q a s' -> Q' a s') -> ok s m Q'.
Proof. unfold ok. destruct (m s) as [[a s']|]; auto. Qed.

Lemma ok_and {A} s (m : M A) P Q : ok s m P -> ok s m Q -> ok s m (fun a s' => P a s' /\ Q a s').
Proof. unfold ok. by destruct (m s) as [[a s']|]. Qed.

Lemma ok_ran {A} s (m : M A) Q : ok s m Q -> ok s m (fun a s' => m s = Some (a, s') /\ Q a s').
Proof. unfold ok. by destruct (m s) as [[a s']|]. Qed.

Lemma ok_ext {A} s (m m' : M A) Q : m s = m' s -> ok s m' Q -> ok s m Q.
Proof. unfold ok. by intros ->. Qed.

Lemma ok_run {A} s (m : M A) a s' (Q : A -> S -> Prop) : m s = Some (a, s') -> Q a s' -> ok s m Q.
Proof. unfold ok. by intros ->. Qed.

Lemma ok_gets {A} s (f : S -> A) Q : Q (f s) s -> ok s (gets f) Q.
Proof. done. Qed.

Lemma ok_modify s (f : S -> S) Q : Q tt (f s) -> ok s (modify f) Q.
Proof. done. Qed.

Lemma ok_lift {A} s (x : A) (o : option A) Q : o = Some x -> Q x s -> ok s (lift o) Q.
Proof. by intros ->. Qed.

Lemma ok_result {A} s (m : M A) Q a s' : ok s m Q -> m s = Some (a, s') -> Q a s'.
Proof. unfold ok. intros HQ Hr. by rewrite Hr in HQ. Qed.

Lemma ok_total {A} s (m : M A) Q : ok s m Q -> exists a s', m s = Some (a, s') /\ Q a s'.
Proof. unfold ok. destruct (m s) as [[a s']|]; [|done]. by exists a, s'. Qed.
End Methods.
#[global] Arguments M : clear implicits.

(** ** Relations that hold from the start to the end of a run *)

Section Relations.
Context {S : Type} (R : S -> S -> Prop) `{!PreOrder R}.

Definition runs_in {A} (m : M S A) : Prop := forall s a s', m s = Some (a, s') -> R s s'.

Lemma runs_in_ret {A} (a : A) : runs_in (mret a).
Proof. by intros s ? ? [= _ <-]. Qed.
Lemma runs_in_gets {A} (f : S -> A) : runs_in (gets f).
Proof. by intros s ? ? [= _ <-]. Qed.
Lemma runs_in_lift {A} (o : option A) : runs_in (lift o).
Proof. intros s a s'. destruct o; [|done]. by intros [= _ <-]. Qed.
Lemma runs_in_modify (f : S -> S) : (forall s, R s (f s)) -> runs_in (modify f).
Proof. by intros Hf s a s' [= _ <-]. Qed.
Lemma runs_in_bind {A B} (m : M S A) (f : A -> M S B) :
  runs_in m -> (forall a, runs_in (f a)) -> runs_in (m ≫= f).
Proof.
  intros Hm Hf s b s'. unfold mbind, M_bind. destruct (m s) as [[a s1]|] eqn:Hr; [|done].
  intros Hk. etrans; [by eapply Hm|by eapply Hf].
Qed.
(** What was just read is what is there. *)
Lemma runs_in_read {A B} (f : S -> A) (k : A -> M S B) :
  (forall s a s', k (f s) s = Some (a, s') -> R s s') -> runs_in (gets f ≫= k).
Proof. intros Hk s a s' Hr. by apply Hk in Hr. Qed.
End Relations.

Create HintDb runs_in.

(** Goes through a method part by part; the database knows the methods it calls. *)
Ltac runs_in_parts :=
  cbv zeta; intros;
  lazymatch goal with
  | |- runs_in _ (mbind _ _) => apply runs_in_bind; [exact _|runs_in_parts|runs_in_parts]
  | |- runs_in _ (gets _) => apply runs_in_gets; exact _
  | |- runs_in _ (mret _) => apply runs_in_ret; exact _
  | |- runs_in _ (lift _) => apply runs_in_lift; exact _
  | |- runs_in _ (match ?x with _ => _ end) => destruct x; runs_in_parts
  | |- runs_in _ _ => solve [eauto with runs_in nocore]
  end.
