(* ===== verification/StdMap.v ===== *)
(** * std::map with integer keys

    The C++ components keep their sensors, activations and channels in std::map and
    std::set, and walk them in key order.  A map is the list of its entries in
    strictly increasing key order; [to_gmap] is the finite map it represents, and
    each operation is related to the one of finite maps. *)

From Stdlib Require Import Sorted.
From S2P Require Import Prelude.

Definition omap (A : Type) : Type := list (Z * A).

Section Ops.
Context {A : Type}.
Implicit Types (m : omap A) (k : Z) (v : A).

(** [find] followed by a dereference; [None] is [end()]. *)
Fixpoint map_find k m : option A :=
  match m with
  | [] => None
  | (k', v) :: m => if k' =? k then Some v else map_find k m
  end.

(** [emplace]: nothing happens when the key is there. *)
Fixpoint map_emplace k v m : omap A :=
  match m with
  | [] => [(k, v)]
  | (k', v') :: m' =>
      if k <? k' then (k, v) :: m
      else if k =? k' then m else (k', v') :: map_emplace k v m'
  end.

(** [operator[]] on the left of an assignment. *)
Fixpoint map_assign k v m : omap A :=
  match m with
  | [] => [(k, v)]
  | (k', v') :: m' =>
      if k <? k' then (k, v) :: m
      else if k =? k' then (k, v) :: m' else (k', v') :: map_assign k v m'
  end.

Fixpoint map_erase k m : omap A :=
  match m with
  | [] => []
  | (k', v') :: m' => if k' =? k then m' else (k', v') :: map_erase k m'
  end.

Definition map_mem k m : bool := match map_find k m with Some _ => true | None => false end.

Definition map_ok m : Prop := StronglySorted Z.lt m.*1.

Definition to_gmap m : gmap Z A := list_to_map m.

Lemma map_ok_nil : map_ok [].
Proof. constructor. Qed.

Lemma map_ok_cons k v m : map_ok ((k, v) :: m) <-> Forall (fun k' => k < k') m.*1 /\ map_ok m.
Proof.
  unfold map_ok. simpl. split.
  - intros H. apply StronglySorted_inv in H. tauto.
  - intros [? ?]. by constructor.
Qed.

Lemma map_ok_NoDup m : map_ok m -> NoDup m.*1.
Proof.
  induction m as [|[k v] m IH]; [constructor|]. rewrite map_ok_cons. intros [Hk Hm].
  simpl. constructor; [|by apply IH]. intros Hin. rewrite Forall_forall in Hk. apply Hk in Hin. lia.
Qed.

Lemma to_gmap_cons k v m : to_gmap ((k, v) :: m) = <[k := v]> (to_gmap m).
Proof. done. Qed.

Lemma map_find_lookup k m : map_find k m = to_gmap m !! k.
Proof.
  induction m as [|[k' v] m IH]; [done|]. cbn [map_find]. rewrite to_gmap_cons.
  destruct (k' =? k) eqn:E; zb; [by subst; rewrite lookup_insert_eq|].
  by rewrite lookup_insert_ne.
Qed.

Lemma map_mem_spec k m : map_mem k m = bool_decide (is_Some (to_gmap m !! k)).
Proof.
  unfold map_mem. rewrite map_find_lookup. destruct (to_gmap m !! k).
  - by rewrite bool_decide_true by done.
  - rewrite bool_decide_false; [done|]. intros [? ?]. done.
Qed.

Lemma map_below_None k m : Forall (fun k' => k < k') m.*1 -> to_gmap m !! k = None.
Proof.
  intros H. apply not_elem_of_list_to_map_1. intros Hin. rewrite Forall_forall in H. apply H in Hin. lia.
Qed.

Lemma Forall_keys_emplace (P : Z -> Prop) k v m :
  P k -> Forall P m.*1 -> Forall P (map_emplace k v m).*1.
Proof.
  intros Hk. induction m as [|[k' v'] m IH]; intros H; [by constructor|].
  inversion H; subst. cbn [map_emplace]. destruct (k <? k'); [by constructor|].
  destruct (k =? k'); [done|]. constructor; auto.
Qed.

Lemma map_emplace_ok k v m : map_ok m -> map_ok (map_emplace k v m).
Proof.
  induction m as [|[k' v'] m IH]; intros Hm.
  { apply map_ok_cons. split; [constructor|done]. }
  pose proof Hm as [Hk' Hm']%map_ok_cons. cbn [map_emplace]. destruct (k <? k') eqn:E; zb.
  { apply map_ok_cons. split; [|done]. constructor; [done|].
    eapply Forall_impl; [exact Hk'|]. simpl. lia. }
  destruct (k =? k') eqn:E2; zb; [done|].
  apply map_ok_cons. split; [|by apply IH]. apply Forall_keys_emplace; [lia|done].
Qed.

Lemma to_gmap_emplace k v m :
  map_ok m ->
  to_gmap (map_emplace k v m) =
  match to_gmap m !! k with Some _ => to_gmap m | None => <[k := v]> (to_gmap m) end.
Proof.
  induction m as [|[k' v'] m IH]; intros Hm; [done|].
  apply map_ok_cons in Hm as [Hk' Hm']. cbn [map_emplace]. destruct (k <? k') eqn:E; zb.
  { rewrite (to_gmap_cons k v), map_below_None; [done|]. constructor; [done|].
    eapply Forall_impl; [exact Hk'|]. simpl. lia. }
  destruct (k =? k') eqn:E2; zb.
  { subst. by rewrite to_gmap_cons, lookup_insert_eq. }
  rewrite !to_gmap_cons, IH by done. rewrite lookup_insert_ne by lia.
  destruct (to_gmap m !! k); [done|]. rewrite insert_insert_ne by lia. done.
Qed.

Lemma to_gmap_assign k v m : map_ok m -> to_gmap (map_assign k v m) = <[k := v]> (to_gmap m).
Proof.
  induction m as [|[k' v'] m IH]; intros Hm; [done|].
  apply map_ok_cons in Hm as [Hk' Hm']. cbn [map_assign]. destruct (k <? k') eqn:E; zb; [done|].
  destruct (k =? k') eqn:E2; zb.
  { subst. by rewrite !to_gmap_cons, insert_insert_eq. }
  rewrite !to_gmap_cons, IH by done. rewrite insert_insert_ne by lia. done.
Qed.

Lemma map_assign_ok k v m : map_ok m -> map_ok (map_assign k v m).
Proof.
  assert (Forall_keys : forall (P : Z -> Prop) l, P k -> Forall P l.*1 -> Forall P (map_assign k v l).*1).
  { intros P l Hk. induction l as [|[k' v'] l IH]; intros H; [by constructor|].
    inversion H; subst. cbn [map_assign]. destruct (k <? k'); [by constructor|].
    destruct (k =? k'); constructor; auto. }
  induction m as [|[k' v'] m IH]; intros Hm.
  { apply map_ok_cons. split; [constructor|done]. }
  pose proof Hm as [Hk' Hm']%map_ok_cons. cbn [map_assign]. destruct (k <? k') eqn:E; zb.
  { apply map_ok_cons. split; [|done]. constructor; [done|].
    eapply Forall_impl; [exact Hk'|]. simpl. lia. }
  destruct (k =? k') eqn:E2; zb; [subst; by apply map_ok_cons|].
  apply map_ok_cons. split; [|by apply IH]. apply Forall_keys; [lia|done].
Qed.

Lemma Forall_keys_erase (P : Z -> Prop) k m : Forall P m.*1 -> Forall P (map_erase k m).*1.
Proof.
  induction m as [|[k' v'] m IH]; intros H; [done|]. inversion H; subst. cbn [map_erase].
  destruct (k' =? k); [done|]. constructor; auto.
Qed.

Lemma map_erase_ok k m : map_ok m -> map_ok (map_erase k m).
Proof.
  induction m as [|[k' v'] m IH]; intros Hm; [done|]. apply map_ok_cons in Hm as [Hk' Hm'].
  cbn [map_erase]. destruct (k' =? k); [done|]. apply map_ok_cons. split; [|by apply IH].
  by apply Forall_keys_erase.
Qed.

Lemma to_gmap_erase k m : map_ok m -> to_gmap (map_erase k m) = delete k (to_gmap m).
Proof.
  induction m as [|[k' v'] m IH]; intros Hm; [symmetry; apply delete_empty|].
  apply map_ok_cons in Hm as [Hk' Hm']. cbn [map_erase]. destruct (k' =? k) eqn:E; zb.
  { subst. rewrite to_gmap_cons, delete_insert_eq. rewrite delete_id; [done|].
    by apply map_below_None. }
  rewrite !to_gmap_cons, IH by done. by rewrite delete_insert_ne.
Qed.
End Ops.

#[export] Hint Resolve map_ok_nil map_emplace_ok map_assign_ok map_erase_ok : kmap.

#[global] Arguments to_gmap {A} m : simpl never.
