(* ===== verification/Sensors.v ===== *)
(** * The accelerometer filter (sensors/sensors.c)

    A wrapper module around the stock sensors library that shows one sensor.  The
    dynamic linker and the stock library are parameters: what they answer at each
    moment.  The state is the file's statics, with a log of the calls on them;
    [pthread_once] runs its function on the first call.  The theorem: over any
    sequence of calls every enumeration gives the same answer, the preferred
    accelerometer of the stock list or nothing, and opened devices enumerate
    through the filter. *)

From S2P Require Import Prelude CMem.

(** ** The stock library *)

(** A sensor entry; the fields the filter only copies are [s_other]. *)
Record sensor_t := mk_sensor { s_handle : Z; s_type : Z; s_flags : Z; s_other : list Z }.

#[global] Instance sensor_eq_dec : EqDecision sensor_t.
Proof. solve_decision. Defined.

(** The module structure behind the HMI symbol.  [m_methods] is the methods
    pointer, with whether its [open] is set. *)
Record sensors_module := mk_module {
  m_tag : Z;
  m_id : option (list Z);
  m_methods : option bool;
  m_get_sensors_list : bool;
  m_set_operation_mode : bool;
  m_dso : bool;      (* common.dso was set to the handle *)
}.

(** Whose module a device points to. *)
Inductive owner := Stock | Filter.
Record hw_device := mk_device { dv_module : owner; dv_body : list Z }.

Inductive vendor_call := VDlopen | VDlclose | VList | VOpen | VMode.

#[global] Instance vendor_call_eq_dec : EqDecision vendor_call.
Proof. solve_decision. Defined.

(** What the linker and the library answer, given what was called before. *)
Record vendor := mk_vendor {
  v_dlopen : list vendor_call -> bool;
  v_dlsym : list vendor_call -> option sensors_module * bool;   (* symbol, dlerror set *)
  v_list : list vendor_call -> Z * option (list sensor_t);
  v_open : list vendor_call -> list Z -> option hw_device -> Z * option hw_device;
  v_mode : list vendor_call -> Z -> Z;
}.

Definition HARDWARE_MODULE_TAG : Z := 0x48574d54.
Definition SENSORS_HARDWARE_MODULE_ID : list Z := lit "sensors" ++ [NUL].
Definition SENSOR_TYPE_ACCELEROMETER : Z := 1.
Definition SENSOR_FLAG_WAKE_UP : Z := 1.

(** ** The statics *)

Record statics := mk_statics {
  backend_once : bool;
  backend_module : option sensors_module;
  backend_error : Z;
  sensor_list_once : bool;
  visible_sensor : option sensor_t;
  visible_sensor_count : Z;
  calls : list vendor_call;
}.

Definition statics0 : statics := mk_statics false None (- ENODEV) false None 0 [].

Definition called (c : vendor_call) (s : statics) : statics :=
  mk_statics (backend_once s) (backend_module s) (backend_error s) (sensor_list_once s)
    (visible_sensor s) (visible_sensor_count s) (calls s ++ [c]).
Definition set_backend (m : option sensors_module) (e : Z) (s : statics) : statics :=
  mk_statics (backend_once s) m e (sensor_list_once s) (visible_sensor s) (visible_sensor_count s) (calls s).
Definition set_visible (v : option sensor_t) (n : Z) (s : statics) : statics :=
  mk_statics (backend_once s) (backend_module s) (backend_error s) (sensor_list_once s) v n (calls s).

Section Filter.
Context (v : vendor).

(** The legacy HAL contract, in the order of the code. *)
Definition contract_broken (m : sensors_module) : option bool :=
  if negb (m_tag m =? HARDWARE_MODULE_TAG) then Some true else
  match m_id m with
  | None => Some true
  | Some id =>
      same ← strcmp_eq id SENSORS_HARDWARE_MODULE_ID;
      if negb same then Some true else
      match m_methods m with
      | None => Some true
      | Some open => Some (negb open || negb (m_get_sensors_list m))
      end
  end.

Definition load_backend (s : statics) : option statics :=
  let s := called VDlopen s in
  if negb (v_dlopen v (calls s)) then Some s else
  match v_dlsym v (calls s) with
  | (Some m, false) =>
      broken ← contract_broken m;
      if (broken : bool) then Some (set_backend (backend_module s) (- EINVAL) (called VDlclose s)) else
      Some (set_backend (Some (mk_module (m_tag m) (m_id m) (m_methods m) (m_get_sensors_list m)
                                 (m_set_operation_mode m) true)) 0 s)
  | _ => Some (set_backend (backend_module s) (- EINVAL) (called VDlclose s))
  end.

(** The module, the error and the new state. *)
Definition get_backend (s : statics) : option (option sensors_module * Z * statics) :=
  s ← (if backend_once s then Some s else
       s ← load_backend s;
       Some (mk_statics true (backend_module s) (backend_error s) (sensor_list_once s)
               (visible_sensor s) (visible_sensor_count s) (calls s)));
  Some (backend_module s, backend_error s, s).

(** [device] is the caller's pointer to a device pointer. *)
Definition open_sensors (id : option (list Z)) (device : option (option hw_device)) (s : statics)
    : option (Z * option (option hw_device) * statics) :=
  match id, device with
  | Some id, Some d =>
      '(backend, error, s) ← get_backend s;
      match backend with
      | None => Some (error, device, s)
      | Some _ =>
          let s := called VOpen s in
          let '(rc, d) := v_open v (calls s) id d in
          match d with
          | Some dev => if rc =? 0 then Some (0, Some (Some (mk_device Filter (dv_body dev))), s)
                        else Some (rc, Some d, s)
          | None => Some (rc, Some d, s)
          end
      end
  | _, _ => Some (- EINVAL, device, s)
  end.

Definition is_wake_up (x : sensor_t) : bool := negb (Z.land (s_flags x) SENSOR_FLAG_WAKE_UP =? 0).

(** One iteration of the scan: the accelerometer so far and their number. *)
Definition scan_sensor (stock : list sensor_t) (i : nat) (acc : option sensor_t * Z)
    : option (option sensor_t * Z) :=
  x ← stock !! i;
  if negb (s_type x =? SENSOR_TYPE_ACCELEROMETER) then Some acc else
  let n := acc.2 + 1 in
  match acc.1 with
  | None => Some (Some x, n)
  | Some a => Some (if is_wake_up a && negb (is_wake_up x) then Some x else Some a, n)
  end.

Definition initialize_sensor_list (s : statics) : option statics :=
  '(backend, error, s) ← get_backend s;
  match backend with
  | None => Some s
  | Some _ =>
      let s := called VList s in
      match v_list v (calls s) with
      | (stock_count, Some stock) =>
          if stock_count <=? 0 then Some s else
          '(accelerometer, _) ← for_c (seq 0 (Z.to_nat stock_count)) (None, 0) (scan_sensor stock);
          match accelerometer with
          | None => Some s
          | Some a => Some (set_visible (Some a) 1 s)
          end
      | (_, None) => Some s
      end
  end.

(** [list] tells whether the caller's pointer is set; the answer is the count and
    what [*list] points to. *)
Definition get_sensors_list (list : bool) (s : statics) : option (Z * option sensor_t * statics) :=
  if negb list then Some (0, None, s) else
  s ← (if sensor_list_once s then Some s else
       s ← initialize_sensor_list s;
       Some (mk_statics (backend_once s) (backend_module s) (backend_error s) true
               (visible_sensor s) (visible_sensor_count s) (calls s)));
  Some (visible_sensor_count s, visible_sensor s, s).

Definition set_operation_mode (mode : Z) (s : statics) : option (Z * statics) :=
  '(backend, error, s) ← get_backend s;
  match backend with
  | None => Some (error, s)
  | Some m =>
      if negb (m_set_operation_mode m) then Some (- EINVAL, s) else
      let s := called VMode s in
      Some (v_mode v (calls s) mode, s)
  end.
End Filter.

(** ** The preferred accelerometer *)

Definition is_accelerometer (x : sensor_t) : bool := s_type x =? SENSOR_TYPE_ACCELEROMETER.

(** The first that does not wake the device up, or else the first. *)
Definition preferred (l : list sensor_t) : option sensor_t :=
  match List.find (fun x => is_accelerometer x && negb (is_wake_up x)) l with
  | Some x => Some x
  | None => List.find is_accelerometer l
  end.

Lemma find_snoc {A} (P : A -> bool) l x :
  List.find P (l ++ [x]) = match List.find P l with Some y => Some y | None => if P x then Some x else None end.
Proof. induction l as [|y l IH]; [done|]. simpl. by destruct (P y). Qed.

Lemma preferred_snoc l x :
  preferred (l ++ [x]) =
  if is_accelerometer x then
    match preferred l with
    | None => Some x
    | Some a => if is_wake_up a && negb (is_wake_up x) then Some x else Some a
    end
  else preferred l.
Proof.
  unfold preferred. rewrite !find_snoc. destruct (is_accelerometer x) eqn:Hx; cbn [andb].
  2: { destruct (List.find (fun x => _ && _) l); [done|]. by destruct (List.find is_accelerometer l). }
  destruct (List.find (fun x => is_accelerometer x && negb (is_wake_up x)) l) as [a|] eqn:Hn.
  { apply find_some in Hn as [_ Hn]. apply andb_true_iff in Hn as [_ Hw]. apply negb_true_iff in Hw. by rewrite Hw. }
  destruct (List.find is_accelerometer l) as [a|] eqn:Ha.
  - assert (is_wake_up a = true) as ->.
    { apply find_some in Ha as [Hin Ha]. pose proof (find_none _ _ Hn a Hin) as Hb. cbn in Hb. rewrite Ha in Hb. by apply negb_false_iff in Hb. }
    by destruct (is_wake_up x).
  - by destruct (is_wake_up x).
Qed.

Lemma scan_ok stock n :
  (n <= length stock)%nat ->
  exists k, for_c (seq 0 n) (None, 0) (scan_sensor stock) = Some (preferred (take n stock), k).
Proof.
  induction n as [|n IH]; intros Hn; [by eexists|]. destruct IH as [k Hk]; [lia|].
  rewrite seq_S, for_c_app, Hk. destruct (lookup_lt_is_Some_2 stock n) as [x Hx]; [lia|].
  rewrite (take_S_r _ _ _ Hx), preferred_snoc. cbn [for_c mbind option_bind]. unfold scan_sensor. rewrite Nat.add_0_l, Hx.
  cbn [mbind option_bind]. fold (is_accelerometer x). destruct (is_accelerometer x); cbn [negb fst snd mbind option_bind]; [|by eexists].
  destruct (preferred (take n stock)) as [a|]; [|by eexists].
  by destruct (is_wake_up a && negb (is_wake_up x)); eexists.
Qed.

(** ** Sequences of calls *)

Inductive op := OList (list : bool) | OOpen (id : option (list Z)) (device : option (option hw_device)) | OMode (mode : Z).
Inductive answer := AList (count : Z) (list : option sensor_t) | AOpen (rc : Z) (device : option (option hw_device)) | AMode (rc : Z).

Section Runs.
Context (v : vendor).

Definition perform (o : op) (s : statics) : option (answer * statics) :=
  match o with
  | OList l => '(n, x, s) ← get_sensors_list v l s; Some (AList n x, s)
  | OOpen id d => '(rc, d, s) ← open_sensors v id d s; Some (AOpen rc d, s)
  | OMode mode => '(rc, s) ← set_operation_mode v mode s; Some (AMode rc, s)
  end.

Fixpoint performs (ops : list op) (s : statics) : option (list answer * statics) :=
  match ops with
  | [] => Some ([], s)
  | o :: ops => '(a, s) ← perform o s; '(l, s) ← performs ops s; Some (a :: l, s)
  end.

(** The library's side of the HAL contract: the identifier is a string and the
    list has as many entries as it says. *)
Definition vendor_ok : Prop :=
  (forall cs m e id, v_dlsym v cs = (Some m, e) -> m_id m = Some id -> is_Some (cstr id)) /\
  (forall cs n l, v_list v cs = (n, Some l) -> n <= Z.of_nat (length l)).

(** What the stock list makes visible. *)
Definition exposes (cs : list vendor_call) : option sensor_t :=
  match v_list v cs with
  | (n, Some l) => preferred (take (Z.to_nat n) l)
  | (_, None) => None
  end.

Definition shown_count (x : option sensor_t) : Z := match x with Some _ => 1 | None => 0 end.
Definition counts (c : vendor_call) (s : statics) : nat := countb (fun x => bool_decide (x = c)) (calls s).

Record inv (s : statics) : Prop := {
  i_count : visible_sensor_count s = shown_count (visible_sensor s);
  i_before : sensor_list_once s = false -> visible_sensor s = None;
  i_after : sensor_list_once s = true ->
    (backend_module s = None /\ visible_sensor s = None) \/
    exists cs rest, calls s = cs ++ rest /\ visible_sensor s = exposes cs;
  i_lists : (counts VList s <= Nat.b2n (sensor_list_once s))%nat;
  i_dlopens : counts VDlopen s = Nat.b2n (backend_once s);
  i_backend : backend_once s = false -> backend_module s = None;
  i_error : backend_module s = None -> backend_error s <> 0;
  i_order : sensor_list_once s = true -> backend_once s = true;
}.

Lemma inv_statics0 : inv statics0.
Proof. by split. Qed.

Lemma calls_called c s : calls (called c s) = calls s ++ [c].
Proof. done. Qed.

Lemma counts_called c d s : counts c (called d s) = (counts c s + Nat.b2n (bool_decide (d = c)))%nat.
Proof. unfold counts. rewrite calls_called, countb_app. unfold countb at 2. simpl. by destruct (bool_decide (d = c)). Qed.

(** A call on the library other than the two counted ones keeps the invariant. *)
Lemma inv_called c s : inv s -> c <> VList -> c <> VDlopen -> inv (called c s).
Proof.
  intros [H1 H2 H3 H4 H5 H6 H7 H8] Hl Hd. split; rewrite ?counts_called, ?bool_decide_false, ?Nat.add_0_r by done; try done.
  intros Ho. destruct (H3 Ho) as [?|(cs & rest & Hc & ?)]; [by left|right]. exists cs, (rest ++ [c]).
  split; [|done]. cbn [called calls]. by rewrite Hc, <- (assoc_L (++)).
Qed.

Ltac fields :=
  cbn [mbind option_bind backend_once backend_module backend_error sensor_list_once visible_sensor
       visible_sensor_count calls set_backend set_visible called].

(** The statics after loading: one dlopen and maybe a dlclose more. *)
Definition loaded (s : statics) m e (cs : list vendor_call) : statics :=
  mk_statics true m e (sensor_list_once s) (visible_sensor s) (visible_sensor_count s) ((calls s ++ [VDlopen]) ++ cs).

Lemma counts_loaded s m e cs c :
  Forall (fun c => c = VDlclose) cs -> c <> VDlclose ->
  counts c (loaded s m e cs) = (counts c s + Nat.b2n (bool_decide (VDlopen = c)))%nat.
Proof.
  intros Hcs Hc. unfold counts, loaded. cbn [calls]. rewrite !countb_app.
  assert (countb (fun x => bool_decide (x = c)) cs = 0%nat) as ->.
  { apply countb_zero. eapply Forall_impl; [exact Hcs|]. intros x ->. by apply bool_decide_eq_false. }
  unfold countb at 2. simpl. destruct (bool_decide (VDlopen = c)); simpl; lia.
Qed.

Lemma loaded_ok s m e cs :
  inv s -> backend_once s = false -> (m = None -> e <> 0) -> Forall (fun c => c = VDlclose) cs ->
  inv (loaded s m e cs) /\ counts VList (loaded s m e cs) = counts VList s.
Proof.
  intros [H1 H2 H3 H4 H5 H6 H7 H8] Hb Hme Hcs.
  assert (sensor_list_once s = false) as Hlo by (destruct (sensor_list_once s); [by rewrite H8 in Hb|done]).
  pose proof (counts_loaded s m e cs VList Hcs) as HL. pose proof (counts_loaded s m e cs VDlopen Hcs) as HD.
  rewrite bool_decide_false in HL by done. rewrite bool_decide_true in HD by done. simpl in HL, HD.
  rewrite Hb in H5. split; [|rewrite HL by done; lia].
  split; rewrite ?HL, ?HD by done;
    cbn [loaded visible_sensor_count visible_sensor sensor_list_once backend_module backend_once backend_error]; try done.
  - by rewrite Hlo.
  - lia.
  - by rewrite H5.
Qed.

Lemma contract_decided cs m e : vendor_ok -> v_dlsym v cs = (Some m, e) -> exists b, contract_broken m = Some b.
Proof.
  intros [Hid _] Hsym. unfold contract_broken. destruct (negb _); [by eexists|]. destruct (m_id m) as [id|] eqn:Hmid; [|by eexists].
  destruct (Hid _ _ _ _ Hsym Hmid) as [t Ht].
  rewrite (strcmp_eq_spec _ _ t (lit "sensors") Ht) by reflexivity. cbn [mbind option_bind].
  destruct (negb _); [by eexists|]. destruct (m_methods m); by eexists.
Qed.

(** Loading is done once and leaves the list alone. *)
Lemma get_backend_ok s :
  vendor_ok -> inv s ->
  exists s', get_backend v s = Some (backend_module s', backend_error s', s') /\ inv s' /\
    sensor_list_once s' = sensor_list_once s /\ visible_sensor s' = visible_sensor s /\
    backend_once s' = true /\ counts VList s' = counts VList s.
Proof.
  intros Hv Hi. unfold get_backend. destruct (backend_once s) eqn:Hb; [exists s; by split_and!|].
  assert (forall m e cs, (m = None -> e <> 0) -> Forall (fun c => c = VDlclose) cs ->
    exists s', Some (m, e, loaded s m e cs) = Some (backend_module s', backend_error s', s') /\ inv s' /\
    sensor_list_once s' = sensor_list_once s /\ visible_sensor s' = visible_sensor s /\
    backend_once s' = true /\ counts VList s' = counts VList s) as Hend.
  { intros m e cs Hme Hcs. exists (loaded s m e cs). destruct (loaded_ok s m e cs Hi Hb Hme Hcs). by split_and!. }
  unfold loaded in Hend. unfold load_backend. cbv zeta. cbn [called calls].
  destruct (v_dlopen v (calls s ++ [VDlopen])); cbn [negb].
  2: { fields. rewrite <- (app_nil_r (calls s ++ [VDlopen])). apply Hend; [by apply (i_error _ Hi)|constructor]. }
  destruct (v_dlsym v (calls s ++ [VDlopen])) as [[m|] err] eqn:Hsym.
  2: { fields. apply (Hend _ _ [VDlclose]); [done|by repeat constructor]. }
  destruct err; [fields; apply (Hend _ _ [VDlclose]); [done|by repeat constructor]|].
  destruct (contract_decided _ _ _ Hv Hsym) as [broken Hbr]. rewrite Hbr. cbn [mbind option_bind].
  destruct broken; fields.
  - apply (Hend _ _ [VDlclose]); [done|by repeat constructor].
  - rewrite <- (app_nil_r (calls s ++ [VDlopen])). apply Hend; [done|constructor].
Qed.

Definition listed (s : statics) : statics :=
  mk_statics (backend_once s) (backend_module s) (backend_error s) true
    (visible_sensor s) (visible_sensor_count s) (calls s).

(** The list is built once. *)
Lemma list_ok s :
  vendor_ok -> inv s ->
  exists s', get_sensors_list v true s = Some (visible_sensor_count s', visible_sensor s', s') /\ inv s' /\
    sensor_list_once s' = true /\ (sensor_list_once s = true -> s' = s).
Proof.
  intros Hv Hi. unfold get_sensors_list. cbn [negb]. destruct (sensor_list_once s) eqn:Ho.
  { exists s. by split_and!. }
  unfold initialize_sensor_list. destruct (get_backend_ok s Hv Hi) as (s1 & -> & Hi1 & Ho1 & Hv1 & Hb1 & Hc1). cbn [mbind option_bind].
  pose proof Hi1 as [H1 H2 H3 H4 H5 H6 H7 H8]. rewrite Ho in Ho1. specialize (H2 Ho1). rewrite H2 in H1.
  assert (forall x, x = exposes (calls s1 ++ [VList]) ->
    let s' := mk_statics (backend_once s1) (backend_module s1) (backend_error s1) true x (shown_count x) (calls s1 ++ [VList]) in
    inv s') as Hmk.
  { intros x Hx. split; cbn [visible_sensor_count visible_sensor sensor_list_once backend_module backend_once backend_error calls]; try done.
    - intros _. right. exists (calls s1 ++ [VList]), []. by rewrite app_nil_r.
    - rewrite Ho1 in H4. pose proof (counts_called VList VList s1) as Hcc. rewrite bool_decide_true in Hcc by done.
      unfold counts in *. cbn [calls called] in *. rewrite Hcc. simpl in *. lia.
    - pose proof (counts_called VDlopen VList s1) as Hcc. rewrite bool_decide_false in Hcc by done.
      unfold counts in *. cbn [calls called] in *. rewrite Hcc, H5. simpl. lia. }
  destruct (backend_module s1) as [m|] eqn:Hm.
  2: { fields. eexists (listed s1). split; [reflexivity|]. split_and!; [|done|done].
       split; cbn [listed visible_sensor_count visible_sensor sensor_list_once backend_module backend_once backend_error calls]; try done.
       - by rewrite H2.
       - intros _. by left.
       - unfold counts in *. cbn [listed calls]. rewrite Ho1 in H4. simpl in *. lia.
       - rewrite Hm. done. }
  fields. unfold exposes in Hmk. destruct (v_list v (calls s1 ++ [VList])) as [n [l|]] eqn:Hl.
  2: { fields. rewrite H2, H1. eexists (mk_statics _ _ _ _ None 0 _). split; [reflexivity|]. split_and!; [|done|done].
       rewrite Hm. by apply (Hmk None). }
  destruct (Z.leb_spec n 0).
  { fields. rewrite H2, H1. eexists (mk_statics _ _ _ _ None 0 _). split; [reflexivity|]. split_and!; [|done|done].
    rewrite Hm. apply (Hmk None). by replace (Z.to_nat n) with 0%nat by lia. }
  destruct (scan_ok l (Z.to_nat n)) as [k Hk]; [pose proof (proj2 Hv _ _ _ Hl); lia|]. rewrite Hk. fields.
  destruct (preferred (take (Z.to_nat n) l)) as [a|] eqn:Hp; fields.
  - eexists (mk_statics _ _ _ _ (Some a) 1 _). split; [reflexivity|]. split_and!; [|done|done]. rewrite Hm. by apply (Hmk (Some a)).
  - rewrite H2, H1. eexists (mk_statics _ _ _ _ None 0 _). split; [reflexivity|]. split_and!; [|done|done]. rewrite Hm. by apply (Hmk None).
Qed.

(** What an answer must be when [shown] is what the filter exposes. *)
Definition answer_ok (shown : option sensor_t) (o : op) (a : answer) : Prop :=
  match o, a with
  | OList true, AList n x => x = shown /\ n = shown_count shown
  | OList false, AList n x => x = None /\ n = 0
  | OOpen _ _, AOpen rc d => rc = 0 -> forall dev, d = Some (Some dev) -> dv_module dev = Filter
  | OMode _, AMode _ => True
  | _, _ => False
  end.

Lemma perform_ok o s :
  vendor_ok -> inv s ->
  exists a s', perform o s = Some (a, s') /\ inv s' /\
    (sensor_list_once s = true -> sensor_list_once s' = true /\ visible_sensor s' = visible_sensor s) /\
    (o = OList true -> sensor_list_once s' = true) /\ answer_ok (visible_sensor s') o a.
Proof.
  intros Hv Hi. destruct o as [[]|id device|mode]; unfold perform.
  - destruct (list_ok s Hv Hi) as (s' & -> & Hi' & Ho' & Heq). cbn [mbind option_bind].
    eexists _, s'. split; [reflexivity|]. split_and!; [done| |done|].
    + intros Ho. by rewrite (Heq Ho).
    + split; [done|]. apply (i_count _ Hi').
  - eexists _, s. split; [reflexivity|]. by split_and!.
  - unfold open_sensors. destruct id as [id|]; [|eexists _, s; split; [reflexivity|]; by split_and!].
    destruct device as [d|]; [|eexists _, s; split; [reflexivity|]; by split_and!].
    destruct (get_backend_ok s Hv Hi) as (s1 & -> & Hi1 & Ho1 & Hv1 & _). cbn [mbind option_bind].
    destruct (backend_module s1) eqn:Hm.
    2: { cbn [mbind option_bind]. eexists _, s1. split; [reflexivity|]. split_and!; [done|by rewrite Ho1, Hv1|done|].
         intros He. by destruct (i_error _ Hi1 Hm). }
    assert (inv (called VOpen s1)) as Hi2 by (by apply inv_called).
    destruct (v_open v _ id d) as [rc d']. destruct d' as [dev|]; [destruct (Z.eqb_spec rc 0)|]; cbn [mbind option_bind];
      (eexists _, (called VOpen s1); split; [reflexivity|]; split_and!; [done|by cbn; rewrite Ho1, Hv1|done|]);
      cbn; intros; simplify_eq; done.
  - unfold set_operation_mode. destruct (get_backend_ok s Hv Hi) as (s1 & -> & Hi1 & Ho1 & Hv1 & _). cbn [mbind option_bind].
    destruct (backend_module s1) as [m|] eqn:Hm.
    2: { cbn [mbind option_bind]. eexists _, s1. split; [reflexivity|]. split_and!; [done|by rewrite Ho1, Hv1|done|done]. }
    destruct (negb _); cbn [mbind option_bind].
    { eexists _, s1. split; [reflexivity|]. split_and!; [done|by rewrite Ho1, Hv1|done|done]. }
    eexists _, (called VMode s1). split; [reflexivity|]. split_and!; [by apply inv_called|by cbn; rewrite Ho1, Hv1|done|done].
Qed.

Lemma performs_ok ops s :
  vendor_ok -> inv s ->
  exists l s', performs ops s = Some (l, s') /\ inv s' /\
    (sensor_list_once s = true -> visible_sensor s' = visible_sensor s) /\
    (sensor_list_once s = true \/ OList true ∈ ops -> sensor_list_once s' = true) /\
    Forall2 (answer_ok (visible_sensor s')) ops l.
Proof.
  intros Hv. revert s. induction ops as [|o ops IH]; intros s Hi.
  { exists [], s. split_and!; [done|done|done|intros [?|Hin]; [done|by apply not_elem_of_nil in Hin]|constructor]. }
  destruct (perform_ok o s Hv Hi) as (a & s1 & Ha & Hi1 & Hk & Hlist & Hok).
  destruct (IH s1 Hi1) as (l & s' & Hl & Hi' & Hk' & Hon & Hall). exists (a :: l), s'. cbn [performs].
  rewrite Ha. cbn [mbind option_bind]. rewrite Hl. split_and!; [done|done| | |].
  - intros Ho. destruct (Hk Ho) as [Ho1 Hv1]. by rewrite (Hk' Ho1).
  - intros [Ho|Hin]; apply Hon; [left; by apply Hk|].
    apply elem_of_cons in Hin as [<-|Hin]; [left; by apply Hlist|by right].
  - constructor; [|done]. destruct o as [[]|id device|mode]; try done.
    rewrite (Hk' (Hlist eq_refl)). exact Hok.
Qed.

(** C36: The filter shows one accelerometer or nothing, and always the same.  For
    any stock library that keeps the HAL contract and any sequence of calls from
    the initial state: every call returns; there is one sensor (or none) that all
    enumerations report, with its count; it is the stock list's first
    accelerometer that does not wake the device up, else its first accelerometer,
    as the library listed it once, and there is none only if the library could not
    be used or its list has no accelerometer; the library is loaded and asked for
    its list at most once; and every device that opens successfully points to the
    filter, so enumerating through it shows the same. *)
Theorem sensors_filter_spec ops :
  vendor_ok ->
  exists answers s, performs ops statics0 = Some (answers, s) /\
    Forall2 (answer_ok (visible_sensor s)) ops answers /\
    (OList true ∈ ops -> (backend_module s = None /\ visible_sensor s = None) \/
       exists cs rest, calls s = cs ++ rest /\ visible_sensor s = exposes cs) /\
    (counts VList s <= 1)%nat /\ (counts VDlopen s <= 1)%nat.
Proof.
  intros Hv. destruct (performs_ok ops statics0 Hv inv_statics0) as (l & s & Hr & Hi & _ & Hon & Hall).
  exists l, s. split_and!; [done|done|intros Hin; apply (i_after _ Hi), Hon; by right| |].
  - pose proof (i_lists _ Hi). destruct (sensor_list_once s); simpl in *; lia.
  - rewrite (i_dlopens _ Hi). destruct (backend_once s); simpl; lia.
Qed.
End Runs.

(** A stock library with a wake-up and a non-wake-up accelerometer. *)
Definition sample_module : sensors_module :=
  mk_module HARDWARE_MODULE_TAG (Some SENSORS_HARDWARE_MODULE_ID) (Some true) true false false.

Definition sample_vendor : vendor :=
  mk_vendor (fun _ => true) (fun _ => (Some sample_module, false))
    (fun _ => (3, Some [mk_sensor 5 2 0 []; mk_sensor 6 1 1 []; mk_sensor 7 1 0 []]))
    (fun _ _ _ => (0, Some (mk_device Stock []))) (fun _ _ => 0).

Lemma sample_vendor_ok : vendor_ok sample_vendor.
Proof.
  split.
  - intros cs m e id [= <- <-] [= <-]. by eexists.
  - intros cs n l [= <- <-]. vm_compute. discriminate.
Qed.

Lemma sensors_filter_spec_witness :
  exists answers s, performs sample_vendor [OList true; OOpen (Some []) (Some None); OList true] statics0 =
      Some (answers, s) /\ visible_sensor s = Some (mk_sensor 7 1 0 []) /\
    Forall2 (answer_ok (visible_sensor s)) [OList true; OOpen (Some []) (Some None); OList true] answers.
Proof.
  destruct (sensors_filter_spec sample_vendor [OList true; OOpen (Some []) (Some None); OList true])
    as (answers & s & Hr & Hall & _).
  - exact sample_vendor_ok.
  - exists answers, s. split_and!; [exact Hr| |exact Hall].
    vm_compute in Hr. injection Hr as _ <-. reflexivity.
Defined.
