(* ===== verification/SensorTypes.v ===== *)
(** * Types of the sensors interfaces

    What the sub-HAL and its proxy use of the HIDL types of hardware/sensors 1.0 and
    2.0 and of the legacy HAL headers, which are not part of the repository.  Fields
    that are only copied are [_other] and [_payload]. *)

From S2P Require Import Prelude.

Inductive Result := OK | PERMISSION_DENIED | NO_MEMORY | BAD_VALUE | INVALID_OPERATION.

#[global] Instance result_eq_dec : EqDecision Result.
Proof. solve_decision. Defined.

Inductive RateLevel := STOP | NORMAL_RATE | FAST | VERY_FAST.

#[global] Instance rate_eq_dec : EqDecision RateLevel.
Proof. solve_decision. Defined.

(** status_t values of utils/Errors.h. *)
Definition st_OK : Z := 0.
Definition st_PERMISSION_DENIED : Z := - 1.
Definition st_NO_MEMORY : Z := - 12.
Definition st_NO_INIT : Z := - 19.
Definition st_BAD_VALUE : Z := - 22.

(** OperationMode::NORMAL; device API versions; flag and type values of the HAL
    headers. *)
Definition MODE_NORMAL : Z := 0.
Definition SENSORS_DEVICE_API_VERSION_1_3 : Z := 0x01030001.
Definition SENSORS_DEVICE_API_VERSION_1_4 : Z := 0x01040001.
Definition WAKE_UP : Z := 1.
Definition META_DATA : Z := 0.

Record SensorInfo := mk_info { si_handle : Z; si_flags : Z; si_other : list Z }.
Record Event := mk_event { ev_handle : Z; ev_type : Z; ev_timestamp : Z; ev_payload : list Z }.
