(* ===== verification/SensorsSubHal.v ===== *)
(** * The sensors sub-HAL (sensors-hal/SensorsSubHal.cpp, PollPolicy.h)

    The object that runs framework sessions over a legacy sensors device.  Every
    method runs under [mMutex] and is one function on the object's state; the poll
    thread is split where it gives the mutex up (around [poll]), and [step]
    interleaves its parts with the framework's calls.  The device answers each call
    from what happened before; the log records those calls, the writes that start
    and publish a session, and what is posted.

    The theorems: the object's bookkeeping is what a replay of the device's answers
    gives; what is posted belongs to the current session and to active sensors; and
    a session start either resets everything or leaves no callback. *)

From S2P Require Import Prelude CMem StateM StdMap Sensors SensorTypes.

(** ** Conversions *)

(** sensors/convert.h is AOSP's: the legacy types it converts from and to, and the
    conversions. *)
Class Convert := {
  sensors_event_t : Type;
  sensors_direct_mem_t : Type;
  SharedMemInfo : Type;
  convertFromSensor : sensor_t -> SensorInfo;
  convertFromSensorEvent : sensors_event_t -> Event;
  convertToSensorEvent : Event -> sensors_event_t;
  convertFromSharedMemInfo : SharedMemInfo -> option sensors_direct_mem_t;
  convertFromRateLevel : RateLevel -> Z;
}.

(** ** PollPolicy.h *)

(** [unsigned] is 32 bits. *)
Definition retryDelayMs (failures : Z) : Z :=
  if 7 <=? failures then 1000
  else u32 (Z.shiftl 20 (if failures =? 0 then 0 else failures - 1)).

Definition belongsToSession (pollEpoch currentEpoch timestamp activatedAt : Z) : bool :=
  (pollEpoch =? currentEpoch) && (activatedAt <=? timestamp).

(** ** The object *)

(** Which functions of the device are set, and its version. *)
Record device_desc := mk_dev {
  dd_version : Z;
  dd_poll : bool; dd_activate : bool; dd_batch : bool; dd_flush : bool;
  dd_inject_sensor_data : bool; dd_register_direct_channel : bool; dd_config_direct_report : bool;
}.

(** The module: [get_sensors_list] with its answer, whether [set_operation_mode] is
    set, and what opening the device gives. *)
Record module_desc := mk_mod {
  md_get_sensors_list : option (Z * option (list sensor_t));
  md_set_operation_mode : bool;
  md_open : Z * option device_desc;
}.

Section SubHal.
Context `{Convert}.

(** Calls on the device, the module and the clock. *)
Inductive dev_call :=
  | DActivate (handle : Z) (enabled : bool)
  | DBatch (handle flags period latency : Z)
  | DFlush (handle : Z)
  | DInject (event : sensors_event_t)
  | DRegister (mem : option sensors_direct_mem_t) (channel : Z)
  | DConfig (handle channel rate_level : Z)
  | DMode (mode : Z)
  | DClock.

Inductive event :=
  | Called (c : dev_call) (answer : Z)
  | NewSession                       (* ++mEpoch; mCallback = nullptr *)
  | Published (callback : Z)         (* mCallback = callback *)
  | PollStarted                      (* the epoch was read *)
  | Polled (count : Z) (data : list sensors_event_t)
  | Slept (ms : Z)
  | Posted (callback : Z) (wakeup : bool) (events : list Event).

(** Where the poll thread is; [Got] holds a batch and waits for the mutex. *)
Inductive poll_pc :=
  | NoThread
  | Top (failures : Z)
  | Polling (failures epoch : Z)
  | Got (epoch count : Z) (data : list sensors_event_t).

(** Members the constructor sets. *)
Record config := mk_config {
  mSensors : omap SensorInfo;
  mInitStatus : Z;
  mSensorDevice : option device_desc;
  mSensorModule : option module_desc;
}.

Record subhal := mk_subhal {
  mConfig : config;
  mCallback : option Z;
  mCurrentOperationMode : Z;
  mActiveSince : omap Z;
  mDirectChannels : omap unit;
  mEpoch : Z;
  mPollThread : poll_pc;
  log : list event;
}.

(** Whatever answers: a function of the log. *)
Definition device := list event -> dev_call -> Z.

Context (dev : device).

Notation M := (StateM.M subhal).

Definition emit (e : event) : M unit := modify (fun s =>
  mk_subhal (mConfig s) (mCallback s) (mCurrentOperationMode s) (mActiveSince s)
     (mDirectChannels s) (mEpoch s) (mPollThread s) (log s ++ [e])).
Definition set_mode (mode : Z) : M unit := modify (fun s =>
  mk_subhal (mConfig s) (mCallback s) mode (mActiveSince s)
     (mDirectChannels s) (mEpoch s) (mPollThread s) (log s)).
Definition set_active (m : omap Z) : M unit := modify (fun s =>
  mk_subhal (mConfig s) (mCallback s) (mCurrentOperationMode s) m
     (mDirectChannels s) (mEpoch s) (mPollThread s) (log s)).
Definition set_channels (m : omap unit) : M unit := modify (fun s =>
  mk_subhal (mConfig s) (mCallback s) (mCurrentOperationMode s) (mActiveSince s)
     m (mEpoch s) (mPollThread s) (log s)).
Definition new_session : M unit := modify (fun s =>
  mk_subhal (mConfig s) None (mCurrentOperationMode s) (mActiveSince s)
     (mDirectChannels s) (u64 (mEpoch s + 1)) (mPollThread s) (log s ++ [NewSession])).
Definition publish (cb : Z) : M unit := modify (fun s =>
  mk_subhal (mConfig s) (Some cb) (mCurrentOperationMode s) (mActiveSince s)
     (mDirectChannels s) (mEpoch s) (mPollThread s) (log s ++ [Published cb])).
Definition set_thread (p : poll_pc) : M unit := modify (fun s =>
  mk_subhal (mConfig s) (mCallback s) (mCurrentOperationMode s) (mActiveSince s)
     (mDirectChannels s) (mEpoch s) p (log s)).

(** A call through a function pointer; a null device or pointer is a fault. *)
Definition ask (c : dev_call) : M Z :=
  h ← gets log;
  let r := dev h c in
  _ ← emit (Called c r);
  mret r.
Definition via_device (f : device_desc -> bool) (c : dev_call) : M Z :=
  d ← gets (fun s => mSensorDevice (mConfig s));
  d ← lift d;
  if f d then ask c else lift None.

(** ** Results and queries *)

Definition resultFromStatus (err : Z) : Result :=
  if err =? st_OK then OK
  else if err =? st_PERMISSION_DENIED then PERMISSION_DENIED
  else if err =? st_NO_MEMORY then NO_MEMORY
  else if err =? st_BAD_VALUE then BAD_VALUE
  else INVALID_OPERATION.

Definition isReady (c : config) : bool := mInitStatus c =? st_OK.

Definition getHalDeviceVersion (c : config) : Z :=
  match mSensorDevice c with Some d => dd_version d | None => - 1 end.

Definition isWakeUpSensor (handle : Z) (c : config) : bool :=
  match map_find handle (mSensors c) with
  | Some sensor => negb (Z.land (si_flags sensor) WAKE_UP =? 0)
  | None => false
  end.

(** [None] is a null device dereferenced. *)
Definition supportsDirectChannels (c : config) : option bool :=
  if negb (isReady c) then Some false else
  if getHalDeviceVersion c <? SENSORS_DEVICE_API_VERSION_1_4 then Some false else
  d ← mSensorDevice c;
  Some (dd_register_direct_channel d && dd_config_direct_report d).

(** ** The constructor *)

Definition enumerateSensors (answer : Z * option (list sensor_t)) : option (Z * omap SensorInfo) :=
  let '(count, list) := answer in
  match list with
  | Some list =>
      if count <=? 0 then Some (st_NO_INIT, []) else
      sensors ← for_c (seq 0 (Z.to_nat count)) [] (fun i m =>
        x ← list !! i;
        let sensor := convertFromSensor x in
        Some (map_emplace (si_handle sensor) sensor m));
      Some (st_OK, sensors)
  | None => Some (st_NO_INIT, [])
  end.

Definition device_incomplete (d : device_desc) : bool :=
  (dd_version d <? SENSORS_DEVICE_API_VERSION_1_3) ||
  negb (dd_poll d) || negb (dd_activate d) || negb (dd_batch d) || negb (dd_flush d).

(** [hw] is what hw_get_module gives. *)
Definition construct (hw : Z * option module_desc) : option config :=
  let '(status, module) := hw in
  match module with
  | Some m =>
      match md_get_sensors_list m with
      | Some answer =>
          if negb (status =? st_OK) then Some (mk_config [] st_NO_INIT None module) else
          let '(status, d) := md_open m in
          match d with
          | Some desc =>
              if negb (status =? st_OK) then Some (mk_config [] st_NO_INIT d module) else
              if device_incomplete desc then Some (mk_config [] st_NO_INIT d module) else
              '(status, sensors) ← enumerateSensors answer;
              Some (mk_config sensors status d module)
          | None => Some (mk_config [] st_NO_INIT None module)
          end
      | None => Some (mk_config [] st_NO_INIT None module)
      end
  | None => Some (mk_config [] st_NO_INIT None None)
  end.

Definition SensorsSubHal (hw : Z * option module_desc) : option subhal :=
  c ← construct hw;
  Some (mk_subhal c None MODE_NORMAL [] [] 0 NoThread []).

(** The singleton, or null. *)
Definition sensorsHalGetSubHal (hw : Z * option module_desc) : option (option subhal) :=
  s ← SensorsSubHal hw;
  Some (if isReady (mConfig s) then Some s else None).

(** ** The methods *)

Definition getSensorsList (c : config) : list SensorInfo := (mSensors c).*2.

Definition setOperationModeLocked (mode : Z) : M Result :=
  c ← gets mConfig;
  if negb (isReady c) then mret INVALID_OPERATION else
  cur ← gets mCurrentOperationMode;
  if mode =? cur then mret OK else
  if getHalDeviceVersion c <? SENSORS_DEVICE_API_VERSION_1_4 then mret INVALID_OPERATION else
  m ← lift (mSensorModule c);
  if negb (md_set_operation_mode m) then mret INVALID_OPERATION else
  status ← ask (DMode (u32 mode));
  _ ← (if status =? st_OK then set_mode mode else mret tt);
  mret (resultFromStatus status).

Definition activate (handle : Z) (enabled : bool) : M Result :=
  c ← gets mConfig;
  if negb (isReady c) then mret INVALID_OPERATION else
  if negb (map_mem handle (mSensors c)) then mret BAD_VALUE else
  cb ← gets mCallback;
  if enabled && negb (bool_decide (is_Some cb)) then mret INVALID_OPERATION else
  status ← via_device dd_activate (DActivate handle enabled);
  _ ← (if status =? st_OK then
         if (enabled : bool) then
           now ← ask DClock;
           a ← gets mActiveSince;
           set_active (map_emplace handle now a)
         else
           a ← gets mActiveSince;
           set_active (map_erase handle a)
       else mret tt);
  mret (resultFromStatus status).

Definition batch (handle period latency : Z) : M Result :=
  c ← gets mConfig;
  if negb (isReady c) then mret INVALID_OPERATION else
  if negb (map_mem handle (mSensors c)) || (period <? 0) || (latency <? 0) then mret BAD_VALUE else
  status ← via_device dd_batch (DBatch handle 0 period latency);
  mret (resultFromStatus status).

Definition flush (handle : Z) : M Result :=
  c ← gets mConfig;
  if negb (isReady c) then mret INVALID_OPERATION else
  a ← gets mActiveSince;
  if negb (map_mem handle a) then mret BAD_VALUE else
  status ← via_device dd_flush (DFlush handle);
  mret (resultFromStatus status).

Definition injectSensorData (ev : Event) : M Result :=
  c ← gets mConfig;
  if negb (isReady c) then mret INVALID_OPERATION else
  if getHalDeviceVersion c <? SENSORS_DEVICE_API_VERSION_1_4 then mret INVALID_OPERATION else
  d ← lift (mSensorDevice c);
  if negb (dd_inject_sensor_data d) then mret INVALID_OPERATION else
  if negb (map_mem (ev_handle ev) (mSensors c)) then mret BAD_VALUE else
  status ← via_device dd_inject_sensor_data (DInject (convertToSensorEvent ev));
  mret (resultFromStatus status).

(** The two arguments of the caller's callback. *)
Definition registerDirectChannel (mem : SharedMemInfo) : M (Result * Z) :=
  c ← gets mConfig;
  supported ← lift (supportsDirectChannels c);
  if negb supported then mret (INVALID_OPERATION, - 1) else
  match convertFromSharedMemInfo mem with
  | None => mret (BAD_VALUE, - 1)
  | Some out =>
      channel ← via_device dd_register_direct_channel (DRegister (Some out) (- 1));
      _ ← (if 0 <? channel then chs ← gets mDirectChannels; set_channels (map_emplace channel tt chs)
           else mret tt);
      mret (if 0 <? channel then OK
            else resultFromStatus (if channel =? 0 then st_BAD_VALUE else channel),
            if 0 <? channel then channel else - 1)
  end.

Definition unregisterDirectChannel (channel : Z) : M Result :=
  c ← gets mConfig;
  supported ← lift (supportsDirectChannels c);
  if negb supported then mret INVALID_OPERATION else
  chs ← gets mDirectChannels;
  if negb (map_mem channel chs) then mret BAD_VALUE else
  status ← via_device dd_register_direct_channel (DRegister None channel);
  _ ← (if status =? st_OK then set_channels (map_erase channel chs) else mret tt);
  mret (resultFromStatus status).

Definition configDirectReport (handle channel : Z) (rate : RateLevel) : M (Result * Z) :=
  c ← gets mConfig;
  supported ← lift (supportsDirectChannels c);
  if negb supported then mret (INVALID_OPERATION, - 1) else
  let rate_level := convertFromRateLevel rate in
  chs ← gets mDirectChannels;
  if (rate_level <? 0) || negb (map_mem channel chs) ||
     (negb (map_mem handle (mSensors c)) && negb ((handle =? - 1) && bool_decide (rate = STOP)))
  then mret (BAD_VALUE, - 1) else
  result ← via_device dd_config_direct_report (DConfig handle channel rate_level);
  if bool_decide (rate = STOP) then mret (resultFromStatus result, - 1) else
  mret (if 0 <? result then OK
        else resultFromStatus (if result =? 0 then st_BAD_VALUE else result), result).

(** The loops of initialize, over the entries the container had when they began;
    a call that succeeds erases its entry. *)
Fixpoint deactivate_all (l : omap Z) (result : Result) : M Result :=
  match l with
  | [] => mret result
  | (handle, _) :: l =>
      status ← via_device dd_activate (DActivate handle false);
      if negb (status =? st_OK) then deactivate_all l (resultFromStatus status) else
      a ← gets mActiveSince;
      _ ← set_active (map_erase handle a);
      deactivate_all l result
  end.

Fixpoint unregister_all (l : omap unit) (result : Result) : M Result :=
  match l with
  | [] => mret result
  | (channel, _) :: l =>
      status ← via_device dd_register_direct_channel (DRegister None channel);
      if negb (status =? st_OK) then unregister_all l (resultFromStatus status) else
      chs ← gets mDirectChannels;
      _ ← set_channels (map_erase channel chs);
      unregister_all l result
  end.

Definition initialize (callback : option Z) : M Result :=
  c ← gets mConfig;
  if negb (isReady c) then mret INVALID_OPERATION else
  match callback with
  | None => mret BAD_VALUE
  | Some cb =>
      _ ← new_session;
      a ← gets mActiveSince;
      result ← deactivate_all a OK;
      chs ← gets mDirectChannels;
      result ← unregister_all chs result;
      modeResult ← setOperationModeLocked MODE_NORMAL;
      let result := if negb (bool_decide (modeResult = OK)) then modeResult else result in
      if negb (bool_decide (result = OK)) then mret result else
      _ ← publish cb;
      pc ← gets mPollThread;
      _ ← (match pc with NoThread => set_thread (Top 0) | _ => mret tt end);
      mret OK
  end.

(** ** The poll thread *)

Definition kPollMaxBufferSize : Z := 128.

(** From the top of the loop to the call of poll. *)
Definition poll_begin (failures : Z) : M unit :=
  epoch ← gets mEpoch;
  _ ← emit PollStarted;
  set_thread (Polling failures epoch).

(** poll has returned. *)
Definition poll_end (failures epoch count : Z) (data : list sensors_event_t) : M unit :=
  _ ← emit (Polled count data);
  if count =? - EINTR then set_thread (Top failures) else
  if (count <=? 0) || (kPollMaxBufferSize <? count) then
    let failures := if failures <? 31 then failures + 1 else failures in
    _ ← emit (Slept (retryDelayMs failures));
    set_thread (Top failures)
  else set_thread (Got epoch count data).

(** One iteration over the batch: the events kept and whether one wakes up. *)
Definition keep_event (s : subhal) (epoch : Z) (data : list sensors_event_t) (i : nat)
    (acc : list Event * bool) : option (list Event * bool) :=
  x ← data !! i;
  let ev := convertFromSensorEvent x in
  match map_find (ev_handle ev) (mActiveSince s) with
  | None => Some acc
  | Some since =>
      if negb (map_mem (ev_handle ev) (mSensors (mConfig s))) then Some acc else
      if negb (ev_type ev =? META_DATA) &&
         negb (belongsToSession epoch (mEpoch s) (ev_timestamp ev) since) then Some acc else
      Some (acc.1 ++ [ev], acc.2 || isWakeUpSensor (ev_handle ev) (mConfig s))
  end.

(** The section under the mutex at the end of the loop. *)
Definition poll_deliver (epoch count : Z) (data : list sensors_event_t) : M unit :=
  _ ← set_thread (Top 0);
  s ← gets (fun s => s);
  match mCallback s with
  | None => mret tt
  | Some cb =>
      if negb (epoch =? mEpoch s) then mret tt else
      '(events, wakeup) ← lift (for_c (seq 0 (Z.to_nat count)) ([], false) (keep_event s epoch data));
      match events with [] => mret tt | _ => emit (Posted cb wakeup events) end
  end.

(** ** Runs *)

Inductive request :=
  | RSetOperationMode (mode : Z)
  | RActivate (handle : Z) (enabled : bool)
  | RBatch (handle period latency : Z)
  | RFlush (handle : Z)
  | RInject (ev : Event)
  | RRegister (mem : SharedMemInfo)
  | RUnregister (channel : Z)
  | RConfig (handle channel : Z) (rate : RateLevel)
  | RInitialize (callback : option Z).

(** The result, with the channel or token the callback gets. *)
Definition perform (r : request) : M (Result * Z) :=
  match r with
  | RSetOperationMode mode => x ← setOperationModeLocked mode; mret (x, 0)
  | RActivate h en => x ← activate h en; mret (x, 0)
  | RBatch h p l => x ← batch h p l; mret (x, 0)
  | RFlush h => x ← flush h; mret (x, 0)
  | RInject ev => x ← injectSensorData ev; mret (x, 0)
  | RRegister mem => registerDirectChannel mem
  | RUnregister ch => x ← unregisterDirectChannel ch; mret (x, 0)
  | RConfig h ch rate => configDirectReport h ch rate
  | RInitialize cb => x ← initialize cb; mret (x, 0)
  end.

(** poll fills at most the 128 entries of its buffer. *)
Inductive step : subhal -> subhal -> Prop :=
  | step_request r a s s' : perform r s = Some (a, s') -> step s s'
  | step_begin f s s' : mPollThread s = Top f -> poll_begin f s = Some (tt, s') -> step s s'
  | step_end f e count data s s' :
      mPollThread s = Polling f e -> length data = Z.to_nat kPollMaxBufferSize ->
      poll_end f e count data s = Some (tt, s') -> step s s'
  | step_deliver e count data s s' :
      mPollThread s = Got e count data -> poll_deliver e count data s = Some (tt, s') -> step s s'.

Definition reachable (hw : Z * option module_desc) (s : subhal) : Prop :=
  exists s0, SensorsSubHal hw = Some s0 /\ rtc step s0 s.

(** ** Replaying the log

    What the answers of the device and the session writes amount to, as finite
    maps and sets: the sessions so far, the callback, the sensors that are switched
    on with the time they were, the open channels and the mode.  [vw_switched] is a
    sensor that was switched on and whose time is read next. *)
Record view := mk_view {
  vw_sessions : nat;
  vw_callback : option Z;
  vw_active : gmap Z Z;
  vw_switched : option Z;
  vw_channels : gset Z;
  vw_mode : Z;
}.

Definition view0 : view := mk_view 0 None ∅ None ∅ MODE_NORMAL.

Definition observe (v : view) (e : event) : view :=
  let '(mk_view n cb act sw chs mode) := v in
  match e with
  | Called (DActivate h false) r => mk_view n cb (if r =? 0 then delete h act else act) sw chs mode
  | Called (DActivate h true) r => mk_view n cb act (if r =? 0 then Some h else sw) chs mode
  | Called DClock t =>
      match sw with
      | Some h => mk_view n cb (if decide (is_Some (act !! h)) then act else <[h := t]> act) None chs mode
      | None => v
      end
  | Called (DRegister (Some _) _) ch => mk_view n cb act sw (if 0 <? ch then {[ ch ]} ∪ chs else chs) mode
  | Called (DRegister None ch) r => mk_view n cb act sw (if r =? 0 then chs ∖ {[ ch ]} else chs) mode
  | Called (DMode m) r => mk_view n cb act sw chs (if r =? 0 then m else mode)
  | NewSession => mk_view (S n) None act sw chs mode
  | Published c => mk_view n (Some c) act sw chs mode
  | _ => v
  end.

Definition replay (h : list event) : view := fold_left observe h view0.

Lemma replay_app h h' : replay (h ++ h') = fold_left observe h' (replay h).
Proof. apply fold_left_app. Qed.

(** The object agrees with a view. *)
Definition agrees (s : subhal) (v : view) : Prop :=
  mEpoch s = u64 (Z.of_nat (vw_sessions v)) /\ mCallback s = vw_callback v /\
  to_gmap (mActiveSince s) = vw_active v /\ vw_switched v = None /\
  dom (to_gmap (mDirectChannels s)) = vw_channels v /\ u32 (mCurrentOperationMode s) = vw_mode v.

(** ** The invariant *)

(** A sensor is kept under its handle. *)
Definition sensors_ok (m : omap SensorInfo) : Prop :=
  map_ok m /\ forall k x, map_find k m = Some x -> si_handle x = k.

Definition config_ok (c : config) : Prop :=
  sensors_ok (mSensors c) /\
  (isReady c = true -> is_Some (mSensorModule c) /\
     exists d, mSensorDevice c = Some d /\ device_incomplete d = false).

Definition object_ok (s : subhal) : Prop :=
  map_ok (mActiveSince s) /\ map_ok (mDirectChannels s) /\
  (forall h, map_mem h (mActiveSince s) = true -> map_mem h (mSensors (mConfig s)) = true) /\
  (mDirectChannels s <> [] -> supportsDirectChannels (mConfig s) = Some true) /\
  (forall ch, map_mem ch (mDirectChannels s) = true -> 0 < ch) /\
  (mPollThread s = NoThread -> mCallback s = None).

(** Events no poll thread makes. *)
Definition quiet (e : event) : bool :=
  match e with PollStarted | Polled _ _ | Posted _ _ _ => false | _ => true end.

Definition inv (s : subhal) : Prop := config_ok (mConfig s) /\ object_ok s /\ agrees s (replay (log s)).

(** A request changes the configuration never, the log by quiet events, and the
    poll thread only by starting it. *)
Definition extends (s s' : subhal) : Prop :=
  mConfig s' = mConfig s /\
  (exists evs, log s' = log s ++ evs /\ Forall (fun e => quiet e = true) evs) /\
  (mPollThread s' = mPollThread s \/ mPollThread s = NoThread /\ mPollThread s' = Top 0).

(** ** Running a method *)

(** The state after an event. *)
Definition logged (e : event) (s : subhal) : subhal :=
  mk_subhal (mConfig s) (mCallback s) (mCurrentOperationMode s) (mActiveSince s)
    (mDirectChannels s) (mEpoch s) (mPollThread s) (log s ++ [e]).

Lemma ok_ask s c Q : Q (dev (log s) c) (logged (Called c (dev (log s) c)) s) -> ok s (ask c) Q.
Proof. done. Qed.

Lemma ok_via s f c d Q :
  mSensorDevice (mConfig s) = Some d -> f d = true ->
  (forall r, Q r (logged (Called c r) s)) -> ok s (via_device f c) Q.
Proof.
  intros Hd Hf HQ. unfold via_device. apply ok_bind, ok_gets, ok_bind. eapply ok_lift; [exact Hd|].
  rewrite Hf. apply ok_ask, HQ.
Qed.

(** ** Extension and the invariant under events *)

Lemma extends_refl s : extends s s.
Proof. split_and!; [done|exists []; by rewrite app_nil_r|by left]. Qed.

Lemma extends_trans s1 s2 s3 : extends s1 s2 -> extends s2 s3 -> extends s1 s3.
Proof.
  intros (Hc1 & (e1 & Hl1 & Hq1) & Ht1) (Hc2 & (e2 & Hl2 & Hq2) & Ht2). split_and!.
  - congruence.
  - exists (e1 ++ e2). rewrite Hl2, Hl1, <- app_assoc. split; [done|]. by apply Forall_app_2.
  - destruct Ht1 as [Ht1|[Ht1 Ht1']], Ht2 as [Ht2|[Ht2 Ht2']]; rewrite ?Ht1, ?Ht1' in *; auto.
Qed.

Lemma extends_logged s e : quiet e = true -> extends s (logged e s).
Proof. intros Hq. split_and!; [done|exists [e]; split; [done|by repeat constructor]|by left]. Qed.

(** A call that no part of the view depends on. *)
Definition neutral (c : dev_call) : Prop := forall v r, observe v (Called c r) = v.

Lemma neutral_batch h f p l : neutral (DBatch h f p l).
Proof. by intros [] r. Qed.
Lemma neutral_flush h : neutral (DFlush h).
Proof. by intros [] r. Qed.
Lemma neutral_inject ev : neutral (DInject ev).
Proof. by intros [] r. Qed.
Lemma neutral_config h ch r : neutral (DConfig h ch r).
Proof. by intros [] r'. Qed.

Lemma inv_neutral s c r : neutral c -> inv s -> inv (logged (Called c r) s).
Proof.
  intros Hn (Hc & Ho & Ha). split_and!; [done|done|]. cbn [log logged].
  rewrite replay_app. cbn [fold_left]. rewrite Hn. exact Ha.
Qed.

Definition kept (s : subhal) (s' : subhal) : Prop := inv s' /\ extends s s'.

Lemma kept_refl s : inv s -> kept s s.
Proof. split; [done|apply extends_refl]. Qed.

Lemma kept_trans s1 s2 s3 : kept s1 s2 -> kept s2 s3 -> kept s1 s3.
Proof. intros [_ H1] [H2 H3]. split; [done|by eapply extends_trans]. Qed.

Lemma kept_neutral s c r : neutral c -> inv s -> kept s (logged (Called c r) s).
Proof. intros Hn Hi. split; [by apply inv_neutral|by apply extends_logged]. Qed.

Lemma ready_device s :
  inv s -> isReady (mConfig s) = true ->
  exists d, mSensorDevice (mConfig s) = Some d /\ dd_poll d = true /\ dd_activate d = true /\
            dd_batch d = true /\ dd_flush d = true.
Proof.
  intros ((_ & Hr) & _ & _) HR. destruct (Hr HR) as (_ & d & Hd & Hi). exists d. split; [done|].
  unfold device_incomplete in Hi. rewrite !orb_false_iff, !negb_false_iff in Hi. tauto.
Qed.

Lemma supports_device s :
  supportsDirectChannels (mConfig s) = Some true ->
  exists d, mSensorDevice (mConfig s) = Some d /\ dd_register_direct_channel d = true /\
            dd_config_direct_report d = true.
Proof.
  unfold supportsDirectChannels. intros Hs. repeat case_match; try discriminate.
  destruct (mSensorDevice (mConfig s)) as [d|]; [|discriminate]. exists d. split; [done|].
  cbn in Hs. injection Hs as Hs. by apply andb_true_iff in Hs.
Qed.

Lemma supports_total s : inv s -> is_Some (supportsDirectChannels (mConfig s)).
Proof.
  intros Hi. unfold supportsDirectChannels. destruct (isReady (mConfig s)) eqn:HR; cbn [negb]; [|done].
  destruct (_ <? _); [done|]. destruct (ready_device s Hi HR) as (d & -> & _). done.
Qed.

(** ** The calls that change the bookkeeping *)

Definition with_active (m : omap Z) (s : subhal) : subhal :=
  mk_subhal (mConfig s) (mCallback s) (mCurrentOperationMode s) m
    (mDirectChannels s) (mEpoch s) (mPollThread s) (log s).
Definition with_channels (m : omap unit) (s : subhal) : subhal :=
  mk_subhal (mConfig s) (mCallback s) (mCurrentOperationMode s) (mActiveSince s)
    m (mEpoch s) (mPollThread s) (log s).
Definition with_mode (mode : Z) (s : subhal) : subhal :=
  mk_subhal (mConfig s) (mCallback s) mode (mActiveSince s)
    (mDirectChannels s) (mEpoch s) (mPollThread s) (log s).

Lemma map_mem_emplace {A} k k' (x : A) m :
  map_ok m -> map_mem k' (map_emplace k x m) = (k' =? k) || map_mem k' m.
Proof.
  intros Hm. rewrite !map_mem_spec, to_gmap_emplace by done. apply eq_true_iff_eq.
  rewrite orb_true_iff, !bool_decide_eq_true, Z.eqb_eq.
  destruct (to_gmap m !! k) as [y|] eqn:E.
  - split; [by right|]. intros [->|?]; [by rewrite E|done].
  - destruct (decide (k' = k)) as [->|Hne]; [rewrite lookup_insert_eq; split; auto|].
    rewrite lookup_insert_ne by done. tauto.
Qed.

Lemma map_mem_erase {A} k k' (m : omap A) :
  map_ok m -> map_mem k' (map_erase k m) = true -> map_mem k' m = true.
Proof.
  intros Hm. rewrite !map_mem_spec, to_gmap_erase by done. rewrite !bool_decide_eq_true.
  intros [x Hx]. apply lookup_delete_Some in Hx as [_ Hx]. by rewrite Hx.
Qed.

Lemma inv_switched_off s h :
  inv s -> kept s (with_active (map_erase h (mActiveSince s)) (logged (Called (DActivate h false) 0) s)).
Proof.
  intros (Hc & (Ho1 & Ho2 & Ho3 & Ho4) & Ha). split; [|by apply extends_logged].
  split_and!; [done| |].
  - split_and!; cbn; auto with kmap; try apply Ho4. intros k Hk. apply Ho3. by eapply map_mem_erase.
  - cbn [log with_active logged]. rewrite replay_app. cbn [fold_left].
    destruct (replay (log s)) as [n cb act sw chs mode]. unfold agrees in *. cbn in *.
    rewrite to_gmap_erase by done. by destruct Ha as (? & ? & -> & ?).
Qed.

Lemma inv_switched_on s h now :
  inv s -> map_mem h (mSensors (mConfig s)) = true ->
  kept s (with_active (map_emplace h now (mActiveSince s))
            (logged (Called DClock now) (logged (Called (DActivate h true) 0) s))).
Proof.
  intros (Hc & (Ho1 & Ho2 & Ho3 & Ho4) & Ha) Hh.
  split; [|by eapply extends_trans; apply extends_logged].
  split_and!; [done| |].
  - split_and!; cbn; auto with kmap; try apply Ho4. intros k. rewrite map_mem_emplace by done.
    intros [->%Z.eqb_eq|Hk]%orb_true_iff; [done|by apply Ho3].
  - cbn [log with_active logged]. rewrite <- app_assoc, replay_app. cbn [fold_left app].
    destruct (replay (log s)) as [n cb act sw chs mode]. unfold agrees in *. cbn in *.
    destruct Ha as (? & ? & Hact & ? & ?). rewrite to_gmap_emplace, Hact by done.
    destruct (act !! h) eqn:E; [rewrite decide_True by done|rewrite decide_False by (by intros [? ?])]; done.
Qed.

Lemma dom_emplace (m : omap unit) k :
  map_ok m -> dom (to_gmap (map_emplace k tt m)) = {[ k ]} ∪ dom (to_gmap m).
Proof.
  intros Hm. rewrite to_gmap_emplace by done. destruct (to_gmap m !! k) as [[]|] eqn:E.
  - apply elem_of_dom_2 in E. apply set_eq. intros x. rewrite elem_of_union, elem_of_singleton.
    split; [by right|]. by intros [->|?].
  - by rewrite dom_insert_L.
Qed.

Lemma inv_registered s mem ch :
  inv s -> supportsDirectChannels (mConfig s) = Some true -> 0 < ch ->
  kept s (with_channels (map_emplace ch tt (mDirectChannels s)) (logged (Called (DRegister (Some mem) (- 1)) ch) s)).
Proof.
  intros (Hc & (Ho1 & Ho2 & Ho3 & Ho4 & Ho5 & Ho6) & Ha) Hs Hpos. split; [|by apply extends_logged].
  split_and!; [done| |].
  - split_and!; cbn; auto with kmap. intros k. rewrite map_mem_emplace by done.
    intros [->%Z.eqb_eq|Hk]%orb_true_iff; auto.
  - cbn [log with_channels logged]. rewrite replay_app. cbn [fold_left].
    destruct (replay (log s)) as [n cb act sw chs mode]. unfold agrees in *. cbn in *.
    rewrite dom_emplace by done. destruct Ha as (? & ? & ? & ? & -> & ?).
    by rewrite (proj2 (Z.ltb_lt 0 ch) Hpos).
Qed.

Lemma inv_not_registered s mem ch :
  inv s -> ch <= 0 -> kept s (logged (Called (DRegister (Some mem) (- 1)) ch) s).
Proof.
  intros (Hc & Ho & Ha) Hneg. split; [|by apply extends_logged]. split_and!; [done|done|].
  cbn [log logged]. rewrite replay_app. cbn [fold_left].
  destruct (replay (log s)) as [n cb act sw chs mode]. unfold agrees in *. cbn in *.
  by rewrite (proj2 (Z.ltb_ge 0 ch) Hneg).
Qed.

Lemma inv_unregistered s ch :
  inv s -> kept s (with_channels (map_erase ch (mDirectChannels s)) (logged (Called (DRegister None ch) 0) s)).
Proof.
  intros (Hc & (Ho1 & Ho2 & Ho3 & Ho4 & Ho5 & Ho6) & Ha). split; [|by apply extends_logged].
  split_and!; [done| |].
  - split_and!; cbn; auto with kmap.
    + intros Hne. apply Ho4. intros E. by rewrite E in Hne.
    + intros k Hk. apply Ho5. by eapply map_mem_erase.
  - cbn [log with_channels logged]. rewrite replay_app. cbn [fold_left].
    destruct (replay (log s)) as [n cb act sw chs mode]. unfold agrees in *. cbn in *.
    rewrite to_gmap_erase, dom_delete_L by done. by destruct Ha as (? & ? & ? & ? & -> & ?).
Qed.

(** An answer that is an error changes nothing. *)
Lemma inv_failed s c r :
  inv s -> r <> 0 -> match c with DClock | DRegister (Some _) _ => False | _ => True end ->
  kept s (logged (Called c r) s).
Proof.
  intros (Hc & Ho & Ha) Hr Hm. split; [|by apply extends_logged]. split_and!; [done|done|].
  cbn [log logged]. rewrite replay_app. cbn [fold_left].
  destruct (replay (log s)) as [n cb act sw chs mode]. unfold agrees in *.
  assert ((r =? 0) = false) as Hr0 by lia.
  by destruct c as [h []| | | |[m|] ch| | |]; cbn in *; rewrite ?Hr0.
Qed.

Lemma inv_mode s mode :
  inv s -> kept s (with_mode mode (logged (Called (DMode (u32 mode)) 0) s)).
Proof.
  intros (Hc & Ho & Ha). split; [|by apply extends_logged]. split_and!; [done|done|].
  cbn [log with_mode logged]. rewrite replay_app. cbn [fold_left].
  destruct (replay (log s)) as [n cb act sw chs m]. unfold agrees in *. cbn in *. tauto.
Qed.

(** ** Every method keeps the invariant *)

Ltac walk :=
  repeat lazymatch goal with
  | |- ok _ (_ ≫= _) _ => apply ok_bind
  | |- ok _ (gets _) _ => apply ok_gets
  | |- ok _ (lift (Some _)) _ => eapply ok_lift; [reflexivity|]
  | |- ok _ (mret _) _ => apply ok_ret; try (apply kept_refl; assumption)
  | |- ok _ (set_active _) _ => red; cbn
  | |- ok _ (set_channels _) _ => red; cbn
  | |- ok _ (set_mode _) _ => red; cbn
  | |- ok _ (ask DClock) _ => apply ok_ask
  end.

Lemma activate_kept h en s : inv s -> ok s (activate h en) (fun _ s' => kept s s').
Proof.
  intros Hi. unfold activate. walk. destruct (isReady (mConfig s)) eqn:HR; cbn [negb]; walk.
  destruct (map_mem h (mSensors (mConfig s))) eqn:Hm; cbn [negb]; walk.
  destruct (en && _); walk. destruct (ready_device s Hi HR) as (d & Hd & _ & Hact & _).
  eapply ok_via; [exact Hd|exact Hact|]. intros r. walk. destruct (r =? st_OK) eqn:E; unfold st_OK in E; zb.
  - subst r. destruct en; walk; [by apply inv_switched_on|by apply inv_switched_off].
  - walk. by apply inv_failed.
Qed.

Lemma mode_kept mode s : inv s -> ok s (setOperationModeLocked mode) (fun _ s' => kept s s').
Proof.
  intros Hi. unfold setOperationModeLocked. walk. destruct (isReady (mConfig s)) eqn:HR; cbn [negb]; walk.
  destruct (mode =? mCurrentOperationMode s); walk. destruct (_ <? _); walk.
  destruct Hi as ((Hs & Hr) & Hrest). destruct (Hr HR) as ([m Hm] & _). rewrite Hm. walk.
  destruct (md_set_operation_mode m); cbn [negb]; walk.
  2: { by apply kept_refl. }
  apply ok_ask. walk. set (r := dev _ _). destruct (r =? st_OK) eqn:E; unfold st_OK in E; zb; walk.
  - rewrite E. by apply inv_mode.
  - by apply inv_failed.
Qed.

Lemma batch_kept h p l s : inv s -> ok s (batch h p l) (fun _ s' => kept s s').
Proof.
  intros Hi. unfold batch. walk. destruct (isReady (mConfig s)) eqn:HR; cbn [negb]; walk.
  destruct (_ || _); walk. destruct (ready_device s Hi HR) as (d & Hd & _ & _ & Hb & _).
  eapply ok_via; [exact Hd|exact Hb|]. intros r. walk. apply kept_neutral; [apply neutral_batch|done].
Qed.

Lemma flush_kept h s : inv s -> ok s (flush h) (fun _ s' => kept s s').
Proof.
  intros Hi. unfold flush. walk. destruct (isReady (mConfig s)) eqn:HR; cbn [negb]; walk.
  destruct (map_mem _ _); cbn [negb]; walk. destruct (ready_device s Hi HR) as (d & Hd & _ & _ & _ & Hf).
  eapply ok_via; [exact Hd|exact Hf|]. intros r. walk. apply kept_neutral; [apply neutral_flush|done].
Qed.

Lemma inject_kept ev s : inv s -> ok s (injectSensorData ev) (fun _ s' => kept s s').
Proof.
  intros Hi. unfold injectSensorData. walk. destruct (isReady (mConfig s)) eqn:HR; cbn [negb]; walk.
  destruct (_ <? _); walk. destruct (ready_device s Hi HR) as (d & Hd & _). rewrite Hd. walk.
  destruct (dd_inject_sensor_data d) eqn:Hj; cbn [negb]; walk. destruct (map_mem _ _); cbn [negb]; walk.
  eapply ok_via; [exact Hd|exact Hj|]. intros r. walk. apply kept_neutral; [apply neutral_inject|done].
Qed.

Lemma register_kept mem s : inv s -> ok s (registerDirectChannel mem) (fun _ s' => kept s s').
Proof.
  intros Hi. unfold registerDirectChannel. walk. destruct (supports_total s Hi) as [b Hb]. rewrite Hb. walk.
  destruct b; cbn [negb]; walk. destruct (convertFromSharedMemInfo mem); walk.
  destruct (supports_device s Hb) as (d & Hd & Hr & _). eapply ok_via; [exact Hd|exact Hr|]. intros ch. walk.
  destruct (0 <? ch) eqn:E; zb; walk; [by apply inv_registered|by apply inv_not_registered].
Qed.

Lemma unregister_kept ch s : inv s -> ok s (unregisterDirectChannel ch) (fun _ s' => kept s s').
Proof.
  intros Hi. unfold unregisterDirectChannel. walk. destruct (supports_total s Hi) as [b Hb]. rewrite Hb. walk.
  destruct b; cbn [negb]; walk. destruct (map_mem _ _); cbn [negb]; walk.
  destruct (supports_device s Hb) as (d & Hd & Hr & _). eapply ok_via; [exact Hd|exact Hr|]. intros r. walk.
  destruct (r =? st_OK) eqn:E; unfold st_OK in E; zb; walk.
  - subst r. by apply inv_unregistered.
  - by apply inv_failed.
Qed.

Lemma config_kept h ch rate s : inv s -> ok s (configDirectReport h ch rate) (fun _ s' => kept s s').
Proof.
  intros Hi. unfold configDirectReport. walk. destruct (supports_total s Hi) as [b Hb]. rewrite Hb. walk.
  destruct b; cbn [negb]; walk. destruct (_ || _); walk.
  destruct (supports_device s Hb) as (d & Hd & _ & Hc). eapply ok_via; [exact Hd|exact Hc|]. intros r.
  assert (kept s (logged (Called (DConfig h ch (convertFromRateLevel rate)) r) s))
    by (apply kept_neutral; [apply neutral_config|done]).
  destruct (bool_decide _); by walk.
Qed.

(** ** Starting a session *)

Definition calls_of (h : list event) : list dev_call :=
  flat_map (fun e => match e with Called c _ => [c] | _ => [] end) h.

Lemma calls_of_app h h' : calls_of (h ++ h') = calls_of h ++ calls_of h'.
Proof. apply flat_map_app. Qed.

(** What a part of initialize leaves alone. *)
Definition same_session (s s' : subhal) : Prop :=
  mConfig s' = mConfig s /\ mCallback s' = mCallback s /\ mEpoch s' = mEpoch s /\ mPollThread s' = mPollThread s.

Lemma resultFromStatus_OK r : resultFromStatus r = OK <-> r = 0.
Proof. unfold resultFromStatus, st_OK. split; [|by intros ->]. repeat case_match; zb; done. Qed.

Definition deactivations (l : omap Z) : list dev_call := map (fun x => DActivate x.1 false) l.
Definition unregistrations (l : omap unit) : list dev_call := map (fun x => DRegister None x.1) l.

Lemma deactivate_all_spec l result s :
  inv s -> isReady (mConfig s) = true ->
  ok s (deactivate_all l result) (fun r s' =>
    kept s s' /\ same_session s s' /\ mDirectChannels s' = mDirectChannels s /\
    mCurrentOperationMode s' = mCurrentOperationMode s /\
    calls_of (log s') = calls_of (log s) ++ deactivations l /\
    (r = OK -> result = OK /\ (mActiveSince s = l -> mActiveSince s' = []))).
Proof.
  revert result s. induction l as [|[h since] l IH]; intros result s Hi HR; cbn [deactivate_all]; walk.
  { split_and!; try done; [by apply kept_refl|by rewrite app_nil_r]. }
  destruct (ready_device s Hi HR) as (d & Hd & _ & Hact & _).
  eapply ok_via; [exact Hd|exact Hact|]. intros r. destruct (r =? st_OK) eqn:E; unfold st_OK in E; zb; cbn [negb].
  - subst r. walk. pose proof (inv_switched_off s h Hi) as Hk. cbn in *.
    eapply ok_mono; [apply IH; [apply Hk|done]|]. cbn. intros r s' (Hk' & Hss & Hdc & Hm & Hcl & Hr).
    split_and!; try done; [by eapply kept_trans| |].
    + rewrite Hcl. rewrite calls_of_app, <- app_assoc. done.
    + intros Hok. destruct (Hr Hok) as [? Hemp]. split; [done|]. intros Hl. apply Hemp. rewrite Hl. cbn. by rewrite Z.eqb_refl.
  - pose proof (inv_failed s (DActivate h false) r Hi E I) as Hk.
    eapply ok_mono; [apply IH; [apply Hk|done]|]. cbn. intros r' s' (Hk' & Hss & Hdc & Hm & Hcl & Hr).
    split_and!; try done; [by eapply kept_trans| |].
    + rewrite Hcl. rewrite calls_of_app, <- app_assoc. done.
    + intros Hok. destruct (Hr Hok) as [Hf _]. by apply resultFromStatus_OK in Hf.
Qed.

Lemma unregister_all_spec l result s :
  inv s -> (l <> [] -> supportsDirectChannels (mConfig s) = Some true) ->
  ok s (unregister_all l result) (fun r s' =>
    kept s s' /\ same_session s s' /\ mActiveSince s' = mActiveSince s /\
    mCurrentOperationMode s' = mCurrentOperationMode s /\
    calls_of (log s') = calls_of (log s) ++ unregistrations l /\
    (r = OK -> result = OK /\ (mDirectChannels s = l -> mDirectChannels s' = []))).
Proof.
  revert result s. induction l as [|[ch u] l IH]; intros result s Hi HR; cbn [unregister_all]; walk.
  { split_and!; try done; [by apply kept_refl|by rewrite app_nil_r]. }
  destruct (supports_device s (HR ltac:(done))) as (d & Hd & Hreg & _).
  eapply ok_via; [exact Hd|exact Hreg|]. intros r. destruct (r =? st_OK) eqn:E; unfold st_OK in E; zb; cbn [negb].
  - subst r. walk. pose proof (inv_unregistered s ch Hi) as Hk. cbn in *.
    eapply ok_mono; [apply IH; [apply Hk|intros _; by apply HR]|]. cbn. intros r s' (Hk' & Hss & Hdc & Hm & Hcl & Hr).
    split_and!; try done; [by eapply kept_trans| |].
    + rewrite Hcl. rewrite calls_of_app, <- app_assoc. done.
    + intros Hok. destruct (Hr Hok) as [? Hemp]. split; [done|]. intros Hl. apply Hemp. rewrite Hl. cbn. by rewrite Z.eqb_refl.
  - pose proof (inv_failed s (DRegister None ch) r Hi E I) as Hk.
    eapply ok_mono; [apply IH; [apply Hk|intros _; by apply HR]|]. cbn. intros r' s' (Hk' & Hss & Hdc & Hm & Hcl & Hr).
    split_and!; try done; [by eapply kept_trans| |].
    + rewrite Hcl. rewrite calls_of_app, <- app_assoc. done.
    + intros Hok. destruct (Hr Hok) as [Hf _]. by apply resultFromStatus_OK in Hf.
Qed.

(** The call, if any, with which a mode is set. *)
Definition mode_calls (c : config) (cur mode : Z) : list dev_call :=
  if mode =? cur then [] else
  if getHalDeviceVersion c <? SENSORS_DEVICE_API_VERSION_1_4 then [] else
  match mSensorModule c with
  | Some m => if md_set_operation_mode m then [DMode (u32 mode)] else []
  | None => []
  end.

Lemma mode_spec mode s :
  inv s -> isReady (mConfig s) = true ->
  ok s (setOperationModeLocked mode) (fun r s' =>
    same_session s s' /\ mActiveSince s' = mActiveSince s /\ mDirectChannels s' = mDirectChannels s /\
    calls_of (log s') = calls_of (log s) ++ mode_calls (mConfig s) (mCurrentOperationMode s) mode /\
    (r = OK <-> mCurrentOperationMode s' = mode)).
Proof.
  intros Hi HR. unfold setOperationModeLocked, mode_calls. walk. rewrite HR. cbn [negb]. walk.
  destruct (mode =? mCurrentOperationMode s) eqn:E; zb; walk.
  { by rewrite app_nil_r. }
  destruct (_ <? _); walk.
  { rewrite app_nil_r. split_and!; try done; congruence. }
  destruct Hi as ((Hs & Hr) & Hrest). destruct (Hr HR) as ([m Hm] & _). rewrite Hm. walk.
  destruct (md_set_operation_mode m); cbn [negb]; walk.
  2: { rewrite app_nil_r. split_and!; try done; congruence. }
  apply ok_ask. walk. set (r := dev _ _). destruct (r =? st_OK) eqn:E2; unfold st_OK in E2; zb; walk; cbn.
  - rewrite calls_of_app. rewrite resultFromStatus_OK. by split_and!.
  - rewrite calls_of_app. rewrite resultFromStatus_OK. split_and!; try done; congruence.
Qed.

Lemma inv_new_session s :
  inv s -> ok s new_session (fun _ s' => kept s s' /\ mConfig s' = mConfig s /\ mCallback s' = None /\
    mEpoch s' = u64 (mEpoch s + 1) /\ mPollThread s' = mPollThread s /\ mActiveSince s' = mActiveSince s /\
    mDirectChannels s' = mDirectChannels s /\ mCurrentOperationMode s' = mCurrentOperationMode s /\
    calls_of (log s') = calls_of (log s)).
Proof.
  intros (Hc & (Ho1 & Ho2 & Ho3 & Ho4 & Ho5 & Ho6) & Ha). red. cbn. split_and!; try done.
  2: { by rewrite calls_of_app, app_nil_r. }
  split.
  - split_and!; [done|by split_and!|]. cbn [log]. rewrite replay_app. cbn [fold_left].
    destruct (replay (log s)) as [n cb act sw chs m]. unfold agrees in *. cbn in *.
    destruct Ha as (He & _ & ?). split_and!; try tauto. rewrite He. unfold u64, wrap.
    rewrite Zplus_mod_idemp_l. f_equal. lia.
  - split_and!; [done|exists [NewSession]; split; [done|by repeat constructor]|by left].
Qed.

(** The end of a successful initialize: the callback, and the thread if there is
    none. *)
Definition go_live (cb : Z) : M Result :=
  _ ← publish cb;
  pc ← gets mPollThread;
  _ ← (match pc with NoThread => set_thread (Top 0) | _ => mret tt end);
  mret OK.

Lemma go_live_spec cb s :
  inv s ->
  ok s (go_live cb) (fun r s' => r = OK /\ kept s s' /\ mEpoch s' = mEpoch s /\ mCallback s' = Some cb /\
    mActiveSince s' = mActiveSince s /\ mDirectChannels s' = mDirectChannels s /\
    mCurrentOperationMode s' = mCurrentOperationMode s /\ mPollThread s' <> NoThread /\
    calls_of (log s') = calls_of (log s)).
Proof.
  intros (Hc & (Ho1 & Ho2 & Ho3 & Ho4 & Ho5 & Ho6) & Ha).
  assert (forall p, p <> NoThread -> (p = mPollThread s \/ mPollThread s = NoThread /\ p = Top 0) ->
    kept s (mk_subhal (mConfig s) (Some cb) (mCurrentOperationMode s) (mActiveSince s)
              (mDirectChannels s) (mEpoch s) p (log s ++ [Published cb]))) as Hk.
  { intros p Hp Hext. split.
    - split_and!; [done|by split_and!|]. cbn [log]. rewrite replay_app. cbn [fold_left].
      destruct (replay (log s)) as [n cb' act sw chs m]. unfold agrees in *. cbn in *. tauto.
    - split_and!; [done|exists [Published cb]; split; [done|by repeat constructor]|done]. }
  assert (calls_of (log s ++ [Published cb]) = calls_of (log s)) as Hcl by (by rewrite calls_of_app, app_nil_r).
  unfold ok, go_live, publish, gets, set_thread, mbind, M_bind, mret, M_ret. cbn.
  destruct (mPollThread s) eqn:Et; cbn; rewrite ?Et; split_and!; try done; apply Hk; auto.
Qed.

Lemma initialize_live_spec cb s :
  inv s -> isReady (mConfig s) = true ->
  ok s (initialize (Some cb)) (fun r s' => kept s s' /\ mEpoch s' = u64 (mEpoch s + 1) /\
    calls_of (log s') = calls_of (log s) ++ deactivations (mActiveSince s) ++
      unregistrations (mDirectChannels s) ++ mode_calls (mConfig s) (mCurrentOperationMode s) MODE_NORMAL /\
    (r = OK /\ mCallback s' = Some cb /\ mActiveSince s' = [] /\ mDirectChannels s' = [] /\
       mCurrentOperationMode s' = MODE_NORMAL /\ mPollThread s' <> NoThread \/
     r <> OK /\ mCallback s' = None /\ mPollThread s' = mPollThread s)).
Proof.
  intros Hi HR. unfold initialize. walk. rewrite HR. cbn [negb]. walk.
  eapply ok_mono; [by apply inv_new_session|]. intros [] s1 ([Hi1 Hx1] & Hc1 & Hb1 & He1 & Ht1 & Ha1 & Hd1 & Hm1 & Hl1).
  walk. eapply ok_mono; [apply deactivate_all_spec; [done|by rewrite Hc1]|].
  intros r2 s2 ([Hi2 Hx2] & (Hc2 & Hb2 & He2 & Ht2) & Hd2 & Hm2 & Hl2 & Hr2). walk.
  assert (mDirectChannels s2 <> [] -> supportsDirectChannels (mConfig s2) = Some true) as Hsup by apply Hi2.
  eapply ok_mono; [apply unregister_all_spec; [done|exact Hsup]|].
  intros r3 s3 ([Hi3 Hx3] & (Hc3 & Hb3 & He3 & Ht3) & Ha3 & Hm3 & Hl3 & Hr3). walk.
  assert (isReady (mConfig s3) = true) as HR3 by congruence.
  eapply ok_mono; [apply ok_and; [by apply mode_kept|by apply mode_spec]|].
  intros r4 s4 ([Hi4 Hx4] & (Hc4 & Hb4 & He4 & Ht4) & Ha4 & Hd4 & Hl4 & Hr4). cbv zeta.
  assert (calls_of (log s4) = calls_of (log s) ++ deactivations (mActiveSince s) ++
      unregistrations (mDirectChannels s) ++ mode_calls (mConfig s) (mCurrentOperationMode s) MODE_NORMAL) as Hcl.
  { rewrite Hl4, Hl3, Hl2, Hl1, Ha1, Hd2, Hd1, Hm3, Hm2, Hm1, Hc3, Hc2, Hc1. by rewrite <- !app_assoc. }
  assert (kept s s4) as Hk.
  { split; [done|]. eauto using extends_trans. }
  set (result := if negb (bool_decide (r4 = OK)) then r4 else r3).
  destruct (decide (result = OK)) as [Hres|Hres].
  2: { rewrite bool_decide_false by done. cbn [negb]. walk. split_and!; [done|congruence|done|].
       right. split_and!; [done|congruence|congruence]. }
  rewrite bool_decide_true by done. cbn [negb].
  assert (r4 = OK /\ r3 = OK) as [E4 E3].
  { unfold result in Hres. case_bool_decide as Hd; [done|]. cbn in Hres. done. }
  eapply ok_mono; [by apply (go_live_spec cb s4)|].
  intros r5 s5 (-> & Hk5 & He5 & Hb5 & Ha5 & Hd5 & Hm5 & Ht5 & Hl5).
  split_and!; [by eapply kept_trans|congruence|by rewrite Hl5|].
  left. destruct (Hr3 E3) as [E2 Hch]. destruct (Hr2 E2) as [_ Hact].
  split_and!; [done|done|rewrite Ha5, Ha4, Ha3; auto|rewrite Hd5, Hd4; by apply Hch| |done].
  rewrite Hm5. by apply Hr4.
Qed.

Lemma initialize_kept cb s : inv s -> ok s (initialize cb) (fun _ s' => kept s s').
Proof.
  intros Hi. destruct (isReady (mConfig s)) eqn:HR.
  2: { unfold initialize. walk. rewrite HR. cbn [negb]. by walk. }
  destruct cb as [cb|].
  - eapply ok_mono; [by apply initialize_live_spec|]. by intros r s' [Hk _].
  - unfold initialize. walk. rewrite HR. cbn [negb]. by walk.
Qed.

Lemma perform_kept r s : inv s -> ok s (perform r) (fun _ s' => kept s s').
Proof.
  intros Hi. destruct r; cbn [perform]; repeat lazymatch goal with |- ok _ (_ ≫= _) _ => apply ok_bind end;
    first [by apply register_kept | by apply config_kept | eapply ok_mono].
  all: first [by apply mode_kept | by apply activate_kept | by apply batch_kept | by apply flush_kept |
              by apply inject_kept | by apply unregister_kept | by apply initialize_kept | idtac].
  all: intros; by apply ok_ret.
Qed.

(** ** What is posted *)

Definition sessions (h : list event) : nat :=
  length (List.filter (fun e => match e with NewSession => true | _ => false end) h).

Lemma sessions_app h h' : sessions (h ++ h') = (sessions h + sessions h')%nat.
Proof. unfold sessions. by rewrite List.filter_app, length_app. Qed.

Lemma observe_sessions v e :
  vw_sessions (observe v e) = (vw_sessions v + sessions [e])%nat.
Proof.
  destruct v as [n cb act sw chs mode], e as [[h []| | | |[]| | |]| | | | | |]; cbn; try lia.
  destruct sw; cbn; lia.
Qed.

Lemma replay_sessions h : vw_sessions (replay h) = sessions h.
Proof.
  induction h as [|e h IH] using rev_ind; [done|].
  rewrite replay_app, sessions_app. cbn [fold_left]. by rewrite observe_sessions, IH.
Qed.

(** An event the framework should get: its sensor is known and active, and a sample
    is not older than the activation. *)
Definition current (c : config) (act : gmap Z Z) (ev : Event) : bool :=
  map_mem (ev_handle ev) (mSensors c) &&
  match act !! ev_handle ev with
  | Some since => (ev_type ev =? META_DATA) || (since <=? ev_timestamp ev)
  | None => false
  end.

(** [evs] may be posted to [cb] after the history [h]: [cb] is the callback in
    force; one poll, begun and ended in [h] and not used since, delivered the batch
    from which exactly the current events are taken, in order; and no session began
    after that poll did, unless 2^64 did. *)
Definition delivered (c : config) (h : list event) (cb : Z) (wakeup : bool) (evs : list Event) : Prop :=
  vw_callback (replay h) = Some cb /\ evs <> [] /\
  wakeup = existsb (fun ev => isWakeUpSensor (ev_handle ev) c) evs /\
  exists h1 h2 h3 count data,
    h = h1 ++ PollStarted :: h2 ++ Polled count data :: h3 /\
    Forall (fun e => quiet e = true) (h2 ++ h3) /\
    (sessions (h2 ++ h3) = 0%nat \/ 2 ^ 64 <= Z.of_nat (sessions (h2 ++ h3))) /\
    evs = List.filter (current c (vw_active (replay h)))
            (map convertFromSensorEvent (take (Z.to_nat count) data)).

Inductive log_ok (c : config) : list event -> Prop :=
  | log_nil : log_ok c []
  | log_snoc h e :
      log_ok c h ->
      match e with Posted cb w evs => delivered c h cb w evs | _ => True end ->
      log_ok c (h ++ [e]).

Lemma log_ok_quiet c h evs : log_ok c h -> Forall (fun e => quiet e = true) evs -> log_ok c (h ++ evs).
Proof.
  intros Hh. induction evs as [|e evs IH] using rev_ind; [by rewrite app_nil_r|].
  intros [Hq He]%Forall_app. rewrite app_assoc. constructor; [by apply IH|].
  inversion He. by destruct e.
Qed.

Definition thread_ok (s : subhal) : Prop :=
  match mPollThread s with
  | NoThread => True
  | Top f => 0 <= f <= 31
  | Polling f e => 0 <= f <= 31 /\ exists h1 h2,
      log s = h1 ++ PollStarted :: h2 /\ Forall (fun e => quiet e = true) h2 /\
      e = u64 (Z.of_nat (sessions h1))
  | Got e count data => 1 <= count <= kPollMaxBufferSize /\ length data = Z.to_nat kPollMaxBufferSize /\
      exists h1 h2 h3, log s = h1 ++ PollStarted :: h2 ++ Polled count data :: h3 /\
      Forall (fun e => quiet e = true) (h2 ++ h3) /\ e = u64 (Z.of_nat (sessions h1))
  end.

Definition good (s : subhal) : Prop := inv s /\ thread_ok s /\ log_ok (mConfig s) (log s).

Lemma good_kept s s' : good s -> kept s s' -> good s'.
Proof.
  intros (_ & Ht & Hl) [Hi (Hc & (evs & Hev & Hq) & Hth)]. split_and!; [done| |].
  - unfold thread_ok in *. destruct Hth as [Hth|[Hn Hth]]; rewrite Hth; [|lia].
    destruct (mPollThread s); try done.
    + destruct Ht as (Hf & h1 & h2 & Hlog & Hq2 & He). split; [done|]. exists h1, (h2 ++ evs).
      rewrite Hev, Hlog, <- app_assoc. split_and!; [done|by apply Forall_app_2|done].
    + destruct Ht as (Hf & Hd & h1 & h2 & h3 & Hlog & Hq2 & He). split; [done|]. split; [done|]. exists h1, h2, (h3 ++ evs).
      rewrite Hev, Hlog. split_and!; [|rewrite app_assoc; by apply Forall_app_2|done].
      rewrite <- app_assoc. cbn. by rewrite <- app_assoc.
  - rewrite Hc, Hev. by apply log_ok_quiet.
Qed.

(** The loop over a batch keeps the current events. *)
Lemma keep_events_spec s epoch data n act :
  epoch = mEpoch s -> to_gmap (mActiveSince s) = act -> (n <= length data)%nat ->
  let evs := List.filter (current (mConfig s) act) (map convertFromSensorEvent (take n data)) in
  for_c (seq 0 n) ([], false) (keep_event s epoch data) =
    Some (evs, existsb (fun ev => isWakeUpSensor (ev_handle ev) (mConfig s)) evs).
Proof.
  intros -> Hact. cbv zeta. induction n as [|n IH]; intros Hn; [done|].
  rewrite seq_S, for_c_app, IH by lia. destruct (lookup_lt_is_Some_2 data n) as [x Hx]; [lia|].
  rewrite (take_S_r _ _ _ Hx), map_app, List.filter_app, existsb_app.
  cbn [for_c mbind option_bind map List.filter Nat.add]. unfold keep_event. rewrite Hx. cbn [mbind option_bind].
  set (evs0 := List.filter _ (map _ (take n data))). unfold current. rewrite map_find_lookup, Hact.
  destruct (act !! _) as [since|]; [|by rewrite andb_false_r, app_nil_r, orb_false_r].
  destruct (map_mem _ _); cbn [negb andb]; [|by rewrite app_nil_r, orb_false_r].
  unfold belongsToSession. rewrite Z.eqb_refl. cbn [andb].
  destruct (_ =? META_DATA), (since <=? _); cbn [negb andb orb existsb fst snd mbind option_bind];
    by rewrite ?app_nil_r, ?orb_false_r.
Qed.

(** ** The poll thread keeps the invariant *)

(** An event that the view ignores. *)
Lemma inv_poll_event s e p :
  inv s -> (forall v, observe v e = v) -> (p = NoThread -> mPollThread s = NoThread) ->
  inv (mk_subhal (mConfig s) (mCallback s) (mCurrentOperationMode s) (mActiveSince s)
         (mDirectChannels s) (mEpoch s) p (log s ++ [e])).
Proof.
  intros (Hc & (Ho1 & Ho2 & Ho3 & Ho4 & Ho5 & Ho6) & Ha) He Hp. split_and!; [done| |].
  - split_and!; try done. intros Hn. apply Ho6. by apply Hp.
  - cbn [log]. rewrite replay_app. cbn [fold_left]. by rewrite He.
Qed.

Lemma inv_thread s p :
  inv s -> p <> NoThread ->
  inv (mk_subhal (mConfig s) (mCallback s) (mCurrentOperationMode s) (mActiveSince s)
         (mDirectChannels s) (mEpoch s) p (log s)).
Proof. intros (Hc & (Ho1 & Ho2 & Ho3 & Ho4 & Ho5 & Ho6) & Ha) Hp. by split_and!. Qed.

Lemma begin_good f s : good s -> mPollThread s = Top f -> ok s (poll_begin f) (fun _ s' => good s').
Proof.
  intros (Hi & Ht & Hl) Hpc. red. cbn. unfold thread_ok in Ht. rewrite Hpc in Ht. split; [|split].
  - apply (inv_poll_event s); [done|by intros []|done].
  - cbn. split; [done|]. exists (log s), []. split_and!; [done|constructor|].
    destruct Hi as (_ & _ & He & _). by rewrite He, replay_sessions.
  - by constructor.
Qed.

Lemma end_good f e count data s :
  good s -> mPollThread s = Polling f e -> length data = Z.to_nat kPollMaxBufferSize ->
  ok s (poll_end f e count data) (fun _ s' => good s').
Proof.
  intros (Hi & Ht & Hl) Hpc Hd. unfold thread_ok in Ht. rewrite Hpc in Ht.
  destruct Ht as (Hf & h1 & h2 & Hlog & Hq & He).
  assert (forall p, p <> NoThread -> inv (mk_subhal (mConfig s) (mCallback s) (mCurrentOperationMode s)
    (mActiveSince s) (mDirectChannels s) (mEpoch s) p (log s ++ [Polled count data]))) as Hi'.
  { intros p Hp. apply (inv_poll_event s); [done|by intros []|done]. }
  assert (log_ok (mConfig s) (log s ++ [Polled count data])) as Hl' by (by constructor).
  unfold ok, poll_end. cbn. destruct (count =? - EINTR); [by split; [apply Hi'|]|].
  destruct ((count <=? 0) || (kPollMaxBufferSize <? count)) eqn:Hc; cbn.
  - split; [|split].
    + apply (inv_poll_event (mk_subhal (mConfig s) (mCallback s) (mCurrentOperationMode s)
        (mActiveSince s) (mDirectChannels s) (mEpoch s) (Top f) (log s ++ [Polled count data])));
        [by apply Hi'|by intros []|done].
    + cbn. destruct (f <? 31) eqn:E; zb; lia.
    + by constructor.
  - rewrite orb_false_iff in Hc. destruct Hc as [Hc1 Hc2]. zb. split; [by apply Hi'|]. split; [|done].
    cbn. split; [lia|]. split; [done|]. exists h1, h2, []. rewrite app_nil_r, Hlog.
    split_and!; [|done|done]. by rewrite <- app_assoc.
Qed.

(** The sessions between two readings of equal epochs. *)
Lemma epochs_equal (n k : nat) :
  u64 (Z.of_nat n) = u64 (Z.of_nat (n + k)) -> k = 0%nat \/ 2 ^ 64 <= Z.of_nat k.
Proof.
  unfold u64, wrap. intros He. destruct (decide (k = 0%nat)); [by left|right].
  apply Z.nlt_ge. intros Hlt. rewrite Nat2Z.inj_add in He.
  assert ((Z.of_nat n + Z.of_nat k - Z.of_nat n) mod 2 ^ 64 = 0) as Hz.
  { rewrite Zminus_mod, <- He, Z.sub_diag. done. }
  replace (Z.of_nat n + Z.of_nat k - Z.of_nat n) with (Z.of_nat k) in Hz by lia.
  rewrite Z.mod_small in Hz by lia. lia.
Qed.

Lemma deliver_good e count data s :
  good s -> mPollThread s = Got e count data -> ok s (poll_deliver e count data) (fun _ s' => good s').
Proof.
  intros (Hi & Ht & Hl) Hpc. unfold thread_ok in Ht. rewrite Hpc in Ht.
  destruct Ht as (Hcount & Hd & h1 & h2 & h3 & Hlog & Hq & He).
  set (s0 := mk_subhal (mConfig s) (mCallback s) (mCurrentOperationMode s) (mActiveSince s)
         (mDirectChannels s) (mEpoch s) (Top 0) (log s)).
  assert (good s0) as Hg0 by (split; [by apply inv_thread|by split]).
  unfold poll_deliver. apply ok_bind. red. cbn -[s0]. fold s0. apply ok_bind, ok_gets.
  destruct (mCallback s0) as [cb|] eqn:Hcb; [|by apply ok_ret].
  destruct (e =? mEpoch s0) eqn:Eq; zb; cbn [negb]; [|by apply ok_ret].
  pose proof Hi as (_ & _ & Hep & Hcbv & Hact & _). unfold kPollMaxBufferSize in *.
  rewrite (keep_events_spec s0 e data (Z.to_nat count) (vw_active (replay (log s)))); [|done|done|lia].
  apply ok_bind. eapply ok_lift; [reflexivity|]. cbv beta iota.
  set (evs := List.filter _ _). destruct evs as [|ev evs'] eqn:Hevs; [by apply ok_ret|].
  rewrite <- Hevs. red. cbn -[s0 evs]. split; [|split].
  - apply (inv_poll_event s0); [by apply Hg0|by intros []|done].
  - done.
  - constructor; [done|]. cbn in Hcb. split_and!; [etrans; [symmetry; exact Hcbv|exact Hcb]|by rewrite Hevs|done|].
    exists h1, h2, h3, count, data. split_and!; [done|done| |done].
    apply (epochs_equal (sessions h1)). rewrite <- He, Eq. cbn. rewrite Hep, replay_sessions, Hlog.
    f_equal. rewrite !sessions_app. unfold sessions. cbn.
    rewrite List.filter_app, length_app. cbn. lia.
Qed.

Lemma step_good s s' : good s -> step s s' -> good s'.
Proof.
  intros Hg Hs. destruct Hs as [r a s s' Hr|f s s' Hpc Hr|f e count data s s' Hpc Hd Hr|e count data s s' Hpc Hr].
  - eapply good_kept; [exact Hg|]. exact (ok_result _ _ _ _ _ (perform_kept r s (proj1 Hg)) Hr).
  - exact (ok_result _ _ _ _ _ (begin_good f s Hg Hpc) Hr).
  - exact (ok_result _ _ _ _ _ (end_good f e count data s Hg Hpc Hd) Hr).
  - exact (ok_result _ _ _ _ _ (deliver_good e count data s Hg Hpc) Hr).
Qed.

Lemma sensors_ok_nil : sensors_ok [].
Proof. by split; [apply map_ok_nil|]. Qed.

Lemma sensors_ok_emplace x m : sensors_ok m -> sensors_ok (map_emplace (si_handle x) x m).
Proof.
  intros [Hm Hk]. split; [auto with kmap|]. intros k y. rewrite map_find_lookup, to_gmap_emplace by done.
  destruct (to_gmap m !! si_handle x) eqn:Hx.
  - rewrite <- map_find_lookup. apply Hk.
  - destruct (decide (k = si_handle x)) as [->|Hne]; [rewrite lookup_insert_eq; by intros [= <-]|].
    rewrite lookup_insert_ne, <- map_find_lookup by done. apply Hk.
Qed.

Lemma enumerate_sorted answer status m : enumerateSensors answer = Some (status, m) -> sensors_ok m.
Proof.
  unfold enumerateSensors. destruct answer as [count [l|]]; [|intros [= <- <-]; apply sensors_ok_nil].
  destruct (count <=? 0); [intros [= <- <-]; apply sensors_ok_nil|].
  assert (forall ks acc m, sensors_ok acc -> for_c ks acc (fun i m =>
        x ← l !! i; let sensor := convertFromSensor x in
        Some (map_emplace (si_handle sensor) sensor m)) = Some m -> sensors_ok m) as Hl.
  { intros ks. induction ks as [|k ks IH]; intros acc m' Hacc; [by intros [= <-]|]. cbn [for_c].
    destruct (l !! k); [|done]. cbn [mbind option_bind]. apply IH. by apply sensors_ok_emplace. }
  destruct (for_c _ _ _) as [m'|] eqn:E; [|done]. intros [= <- <-]. exact (Hl _ _ _ sensors_ok_nil E).
Qed.

Lemma not_ready_ok c : mSensors c = [] -> mInitStatus c = st_NO_INIT -> config_ok c.
Proof. unfold config_ok, isReady. intros -> ->. split; [apply sensors_ok_nil|done]. Qed.

Lemma construct_ok hw c : construct hw = Some c -> config_ok c.
Proof.
  unfold construct. destruct hw as [status [m|]]; [|intros [= <-]; by apply not_ready_ok].
  destruct (md_get_sensors_list m) as [answer|]; [|intros [= <-]; by apply not_ready_ok].
  destruct (negb _); [intros [= <-]; by apply not_ready_ok|].
  destruct (md_open m) as [st [d|]]; [|intros [= <-]; by apply not_ready_ok].
  destruct (negb _); [intros [= <-]; by apply not_ready_ok|].
  destruct (device_incomplete d) eqn:Hd; [intros [= <-]; by apply not_ready_ok|].
  destruct (enumerateSensors answer) as [[st' sensors]|] eqn:He; [|done]. intros [= <-].
  split; [by eapply enumerate_sorted|]. intros _. cbn. split; [done|by exists d].
Qed.

Lemma initial_good hw s : SensorsSubHal hw = Some s -> good s.
Proof.
  unfold SensorsSubHal. destruct (construct hw) as [c|] eqn:Hc; [|done]. intros [= <-].
  split; [|split; [done|constructor]]. split; [by eapply construct_ok|].
  split; split_and!; try done; apply map_ok_nil.
Qed.

Lemma reachable_good hw s : reachable hw s -> good s.
Proof.
  intros (s0 & H0 & Hr). apply initial_good in H0. induction Hr; [done|]. eauto using step_good.
Qed.

Lemma step_config s s' : good s -> step s s' -> mConfig s' = mConfig s.
Proof.
  intros Hg Hs. destruct Hs as [r a s s' Hr|f s s' Hpc Hr|f e count data s s' Hpc Hd Hr|e count data s s' Hpc Hr].
  - apply (ok_result _ _ _ _ _ (perform_kept r s (proj1 Hg)) Hr).
  - by injection Hr as <-.
  - unfold poll_end, mbind, M_bind, emit, set_thread, modify in Hr. by repeat case_match; simplify_eq.
  - unfold poll_deliver, mbind, M_bind, emit, set_thread, modify, gets, lift, mret, M_ret in Hr.
    by repeat case_match; simplify_eq.
Qed.

Lemma run_good hw s0 s c :
  rtc step s0 s -> SensorsSubHal hw = Some (mk_subhal c None MODE_NORMAL [] [] 0 NoThread []) ->
  s0 = mk_subhal c None MODE_NORMAL [] [] 0 NoThread [] -> good s /\ mConfig s = c.
Proof.
  intros Hr H0 ->. apply initial_good in H0.
  assert (forall a b, rtc step a b -> good a -> good b /\ mConfig b = mConfig a) as Hrun.
  { intros a b Hab. induction Hab as [|a b c' Hab _ IH]; [done|]. intros Hg.
    destruct IH as [Hgc Hcc]; [by eapply step_good|]. split; [done|]. rewrite Hcc. by apply step_config. }
  by destruct (Hrun _ _ Hr H0).
Qed.

Lemma log_ok_posted c l h cb w evs h' :
  log_ok c l -> l = h ++ Posted cb w evs :: h' -> delivered c h cb w evs.
Proof.
  intros Hl. revert h h'. induction Hl as [|l e Hl IH He]; intros h h' Heq.
  - by destruct h.
  - destruct h' as [|x h' _] using rev_ind.
    + apply app_inj_tail in Heq as [-> ->]. done.
    + rewrite app_comm_cons, app_assoc in Heq. apply app_inj_tail in Heq as [-> _]. by eapply IH.
Qed.

(** ** The theorems *)

(** C31: The bookkeeping mirrors the device.  In every reachable state of the sub-HAL,
    under any interleaving of framework calls with the poll thread and for any device,
    the activations (with their times), direct channels, mode, callback and epoch are
    those that a replay of the device's answers and the session writes gives; every
    active sensor is a listed one and every channel is a positive handle; and no
    request and no part of the poll thread faults, whatever comes next: no null
    function pointer is called and no entry past the poll buffer is read. *)
Theorem subhal_mirrors_device hw s :
  reachable hw s ->
  agrees s (replay (log s)) /\
  (forall h, map_mem h (mActiveSince s) = true -> map_mem h (mSensors (mConfig s)) = true) /\
  (forall ch, map_mem ch (mDirectChannels s) = true -> 0 < ch) /\
  (forall r, is_Some (perform r s)) /\
  (forall e count data, mPollThread s = Got e count data -> is_Some (poll_deliver e count data s)).
Proof.
  intros Hr. pose proof (reachable_good hw s Hr) as Hg. pose proof Hg as ((Hc & Ho & Ha) & _ & _).
  split_and!; [apply Ha..|apply Ho|apply Ho| |].
  - intros r. pose proof (perform_kept r s (proj1 Hg)) as Hk. unfold ok in Hk. by destruct (perform r s).
  - intros e count data Hpc. pose proof (deliver_good e count data s Hg Hpc) as Hk. unfold ok in Hk.
    by destruct (poll_deliver e count data s).
Qed.

(** C30: What is posted belongs to the session.  Whenever events were posted in a run,
    then at that moment: the receiver was the callback in force; the events are
    exactly those of one batch, in order, whose sensor is listed and switched on and
    whose time stamp, unless they are flush metadata, is not before the activation;
    that batch was polled once, posted once, and no session started after its poll
    began (short of 2^64 sessions during one poll); and a wake lock was asked for
    exactly when one of the events is of a wake-up sensor. *)
Theorem posted_events_current hw s h cb wakeup evs h' :
  reachable hw s -> log s = h ++ Posted cb wakeup evs :: h' ->
  delivered (mConfig s) h cb wakeup evs.
Proof. intros Hr Hlog. eapply log_ok_posted; [by apply (reachable_good hw s Hr)|exact Hlog]. Qed.

(** Starting a session.  In every reachable state of a usable sub-HAL, initialize
    with a callback invalidates the batches being polled, asks the device to switch
    off every active sensor, then to close every direct channel, both in handle
    order, then for the normal mode when that is not the current one; and either all
    of it succeeded, nothing is active or open, the mode is normal, the callback is
    published and a poll thread runs, or an error is returned and no callback is
    left to post to. *)
Theorem initialize_spec hw s cb :
  reachable hw s -> isReady (mConfig s) = true ->
  exists r s', initialize (Some cb) s = Some (r, s') /\ mEpoch s' = u64 (mEpoch s + 1) /\
    calls_of (log s') = calls_of (log s) ++ deactivations (mActiveSince s) ++
      unregistrations (mDirectChannels s) ++ mode_calls (mConfig s) (mCurrentOperationMode s) MODE_NORMAL /\
    (r = OK /\ mCallback s' = Some cb /\ mActiveSince s' = [] /\ mDirectChannels s' = [] /\
       mCurrentOperationMode s' = MODE_NORMAL /\ mPollThread s' <> NoThread \/
     r <> OK /\ mCallback s' = None /\ mPollThread s' = mPollThread s).
Proof.
  intros Hr HR. pose proof (initialize_live_spec cb s (proj1 (reachable_good hw s Hr)) HR) as Hs.
  unfold ok in Hs. destruct (initialize (Some cb) s) as [[r s']|]; [|done]. exists r, s'.
  split; [done|]. apply Hs.
Qed.

(** ** The sub-HAL over the accelerometer filter

    The board's sensors module is sensors.c; what the constructor gets from it, in
    the order it asks: the opened device, then the list.  [desc] tells which functions
    an opened device has. *)
Definition SENSORS_HARDWARE_POLL : list Z := lit "poll" ++ [NUL].

Definition board_module (v : vendor) (desc : hw_device -> device_desc) : option module_desc :=
  '(rc, device, st) ← open_sensors v (Some SENSORS_HARDWARE_POLL) (Some None) statics0;
  '(count, x, _) ← get_sensors_list v true st;
  Some (mk_mod (Some (count, (fun y => [y]) <$> x)) true (rc, desc <$> mjoin device)).

Lemma board_module_spec v desc :
  Sensors.vendor_ok v ->
  exists d x, board_module v desc = Some (mk_mod (Some (shown_count x, (fun y => [y]) <$> x)) true d) /\
    (forall y, x = Some y -> exists cs, exposes v cs = Some y).
Proof.
  intros Hv. unfold board_module.
  destruct (perform_ok v (OOpen (Some SENSORS_HARDWARE_POLL) (Some None)) statics0 Hv (inv_statics0 v))
    as (a & st & Hop & Hi & _).
  cbn [Sensors.perform] in Hop. destruct (open_sensors v _ _ _) as [[[rc d] st']|]; [|done].
  injection Hop as <- <-. cbn [mbind option_bind].
  destruct (list_ok v st' Hv Hi) as (s2 & -> & Hi2 & Ho & _). cbn [mbind option_bind].
  exists (rc, desc <$> mjoin d), (visible_sensor s2). split; [by rewrite (i_count _ _ Hi2)|].
  intros y Hy. destruct (i_after _ _ Hi2 Ho) as [[_ Hn]|(cs & _ & _ & Hx)]; [by rewrite Hn in Hy|].
  exists cs. by rewrite <- Hx.
Qed.

(** The board's sensors end to end.  Over sensors.c and any stock library that
    keeps the HAL contract, the sub-HAL is constructed without a fault, and when it is
    usable there is one accelerometer, the preferred one of the stock list, that it
    lists alone; every event posted in any later run is of that sensor. *)
Lemma board_posts_one_accelerometer v desc :
  Sensors.vendor_ok v ->
  exists m s0, board_module v desc = Some m /\ SensorsSubHal (st_OK, Some m) = Some s0 /\
    (isReady (mConfig s0) = true -> exists x cs, exposes v cs = Some x /\
       getSensorsList (mConfig s0) = [convertFromSensor x] /\
       forall s h cb w evs h', rtc step s0 s -> log s = h ++ Posted cb w evs :: h' ->
         Forall (fun ev => ev_handle ev = si_handle (convertFromSensor x)) evs).
Proof.
  intros Hv. destruct (board_module_spec v desc Hv) as (d & x & Hm & Hx).
  eexists. unfold SensorsSubHal, construct. destruct d as [st [dv|]].
  2: { eexists. split; [exact Hm|]. split; [reflexivity|done]. }
  destruct (negb (st =? st_OK)) eqn:Hst.
  { eexists. split; [exact Hm|]. split; [cbn; rewrite Hst; reflexivity|done]. }
  destruct (device_incomplete dv) eqn:Hdv.
  { eexists. split; [exact Hm|]. split; [cbn; rewrite Hst, Hdv; reflexivity|done]. }
  destruct x as [y|].
  2: { eexists. split; [exact Hm|]. split; [cbn; rewrite Hst, Hdv; reflexivity|done]. }
  eexists. split; [exact Hm|]. split; [cbn; rewrite Hst, Hdv; reflexivity|]. intros _.
  destruct (Hx y eq_refl) as [cs Hcs]. exists y, cs. split_and!; [done|done|].
  intros s h cb w evs h' Hr Hlog.
  assert (good s /\ mConfig s = mk_config [(si_handle (convertFromSensor y), convertFromSensor y)] st_OK (Some dv)
    (Some (mk_mod (Some (1, Some [y])) true (st, Some dv)))) as [Hg Hc].
  { eapply (run_good (st_OK, Some (mk_mod (Some (1, Some [y])) true (st, Some dv))) _ _ _ Hr); [|reflexivity].
    unfold SensorsSubHal, construct. cbn. rewrite Hst, Hdv. reflexivity. }
  pose proof (log_ok_posted _ _ _ _ _ _ _ (proj2 (proj2 Hg)) Hlog) as (_ & _ & _ & h1 & h2 & h3 & count & data & _ & _ & _ & ->).
  apply List.Forall_forall. intros ev [_ Hcur]%List.filter_In. apply andb_true_iff in Hcur as [Hmem _].
  rewrite Hc in Hmem. unfold map_mem in Hmem. cbn in Hmem. destruct (_ =? ev_handle ev) eqn:E; [by zb|done].
Qed.

End SubHal.

(** The back-off doubles from 20 ms up to a second. *)
Lemma retryDelayMs_spec f : 1 <= f -> retryDelayMs f = Z.min 1000 (20 * 2 ^ (f - 1)).
Proof.
  intros Hf. unfold retryDelayMs. destruct (7 <=? f) eqn:E; zb.
  - assert (2 ^ 6 <= 2 ^ (f - 1)) by (apply Z.pow_le_mono_r; lia). lia.
  - assert (f = 1 \/ f = 2 \/ f = 3 \/ f = 4 \/ f = 5 \/ f = 6) as Hc by lia.
    repeat (destruct Hc as [->|Hc]; [reflexivity|]). by subst.
Qed.

(** ** A concrete device *)

#[global] Instance sample_convert : Convert := {|
  sensors_event_t := Event; sensors_direct_mem_t := unit; SharedMemInfo := unit;
  convertFromSensor := fun x => mk_info (s_handle x) (s_flags x) (s_other x);
  convertFromSensorEvent := fun e => e; convertToSensorEvent := fun e => e;
  convertFromSharedMemInfo := Some;
  convertFromRateLevel := fun r => match r with STOP => 0 | NORMAL_RATE => 1 | FAST => 2 | VERY_FAST => 3 end |}.

Definition sample_desc : device_desc := mk_dev SENSORS_DEVICE_API_VERSION_1_4 true true true true true true true.

Definition sample_hw : Z * option module_desc :=
  (st_OK, Some (mk_mod (Some (1, Some [mk_sensor 7 1 1 []])) true (st_OK, Some sample_desc))).

Definition sample_device : device := fun _ c =>
  match c with DClock => 100 | DRegister (Some _) _ => 5 | _ => 0 end.

Definition sample_batch : list Event :=
  [mk_event 7 1 99 []; mk_event 7 1 150 [1]; mk_event 8 1 150 []; mk_event 7 0 0 []] ++
  replicate 124 (mk_event 0 0 0 []).

(** A session in which a batch with one stale and one foreign event is posted. *)
Definition sample_run : option subhal :=
  s ← SensorsSubHal sample_hw;
  '(_, s) ← perform sample_device (RInitialize (Some 1)) s;
  '(_, s) ← perform sample_device (RActivate 7 true) s;
  '(_, s) ← poll_begin 0 s;
  '(_, s) ← poll_end 0 1 4 sample_batch s;
  '(_, s) ← poll_deliver 1 4 sample_batch s;
  Some s.

Lemma sample_reachable s : sample_run = Some s -> reachable sample_device sample_hw s.
Proof.
  intros Hs. eexists. split; [vm_compute; reflexivity|].
  eapply rtc_l; [eapply (step_request sample_device (RInitialize (Some 1))); vm_compute; reflexivity|].
  eapply rtc_l; [eapply (step_request sample_device (RActivate 7 true)); vm_compute; reflexivity|].
  eapply rtc_l; [eapply (step_begin sample_device); vm_compute; reflexivity|].
  eapply rtc_l; [apply (step_end sample_device 0 1 4 sample_batch); vm_compute; reflexivity|].
  eapply rtc_l; [apply (step_deliver sample_device 1 4 sample_batch); vm_compute; reflexivity|].
  vm_compute in Hs. injection Hs as <-. apply rtc_refl.
Qed.

Lemma subhal_mirrors_device_witness :
  exists s, sample_run = Some s /\ agrees s (replay (log s)) /\ map_mem 7 (mActiveSince s) = true /\
    forall r, is_Some (perform sample_device r s).
Proof.
  eexists. split; [vm_compute; reflexivity|].
  match goal with |- agrees ?s _ /\ _ =>
    destruct (subhal_mirrors_device sample_device sample_hw s) as (Ha & _ & _ & Hp & _);
      [apply sample_reachable; vm_compute; reflexivity|]
  end.
  split; [exact Ha|]. split; [vm_compute; reflexivity|exact Hp].
Defined.

Lemma posted_events_current_witness :
  exists s h, sample_run = Some s /\
    log s = h ++ [Posted 1 true [mk_event 7 1 150 [1]; mk_event 7 0 0 []]] /\
    delivered (mConfig s) h 1 true [mk_event 7 1 150 [1]; mk_event 7 0 0 []].
Proof.
  eexists. exists (match sample_run with Some s => take (length (log s) - 1) (log s) | None => [] end).
  split; [vm_compute; reflexivity|]. split; [vm_compute; reflexivity|].
  eapply (posted_events_current sample_device sample_hw).
  - apply sample_reachable. vm_compute. reflexivity.
  - vm_compute. reflexivity.
Defined.

Lemma initialize_spec_witness :
  exists s r s', sample_run = Some s /\ initialize sample_device (Some 2) s = Some (r, s') /\ mEpoch s' = 2 /\ r = OK.
Proof.
  eexists. match eval vm_compute in sample_run with Some ?s =>
    destruct (initialize_spec sample_device sample_hw s 2) as (r & s' & Hr & He & _);
      [apply sample_reachable; vm_compute; reflexivity|reflexivity|];
    exists r, s'; split; [vm_compute; reflexivity|]; split; [exact Hr|]; split; [exact He|];
    vm_compute in Hr; injection Hr as <- _; reflexivity
  end.
Defined.
