(* ===== verification/HalProxy.v ===== *)
(** * The sensors HAL proxy (sensors-hal/multihal: HalProxy, ScopedWakelock)

    The object between the sensors framework and the sub-HALs: it routes calls by the
    top byte of a sensor handle, writes events to a message queue with a background
    writer for what does not fit, and holds one system wake lock while a wake-up event
    is on its way.  A function here is what runs under the object's mutexes without a
    break; the two worker threads and initialize are split where they release them.  A
    thread that finds nothing to do waits on its condition variable, and goes on only
    when it is notified or wakes up by itself; a blocking write or read of a queue has
    a timeout and may return at any time.  postEvents is one step although it takes
    the wake-lock mutex twice when events are refused: it holds the event-queue mutex
    throughout, so only steps on the wake lock could come in between, and giving back
    the count of the refused events earlier than those changes no more than whether
    the lock is released and acquired again in between.  The clock, the wake lock, the
    message queue and the sub-HALs answer from the log. *)

From S2P Require Import Prelude StateM StdMap SensorTypes.

(** ** Handles

    An int32_t is its value; bit operations on it are those on two's complement. *)
Definition kBitsAfterSubHalIndex : Z := 24.
Definition kSensorHandleSubHalIndexMask : Z := s32 0xFF000000.

Definition setSubHalIndex (sensorHandle : Z) (subHalIndex : nat) : Z :=
  Z.lor sensorHandle (s32 (Z.shiftl (s32 (u32 (Z.of_nat subHalIndex))) kBitsAfterSubHalIndex)).
Definition extractSubHalIndex (sensorHandle : Z) : Z :=
  u64 (Z.shiftr sensorHandle kBitsAfterSubHalIndex).
Definition clearSubHalIndex (sensorHandle : Z) : Z :=
  Z.land sensorHandle (Z.lnot kSensorHandleSubHalIndexMask).
Definition subHalIndexIsClear (sensorHandle : Z) : bool :=
  Z.land sensorHandle kSensorHandleSubHalIndexMask =? 0.

(** ** The object *)

Inductive query := QNow | QAcquire | QAvailable | QWrite (n : nat) | QQuantum.

Inductive sub_call :=
  | SSetOperationMode (mode : Z)
  | SActivate (handle : Z) (enabled : bool)
  | SBatch (handle period latency : Z)
  | SFlush (handle : Z)
  | SInject (ev : Event)
  | SRegister (mem : Z)
  | SUnregister (channel : Z)
  | SConfig (handle channel : Z) (rate : RateLevel)
  | SInitialize (callback : nat).

Inductive event :=
  | Asked (q : query) (answer : Z)
  | SubCalled (index : nat) (c : sub_call) (r : Result * Z)
  | Took (n : Z)                      (* mWakelockRefCount += n *)
  | Released                          (* release_wake_lock *)
  | Written (evs : list Event)        (* into the event queue, by a post *)
  | Flushed (evs : list Event)        (* into the event queue, by the writer *)
  | Queued (evs : list Event)         (* behind the pending ones *)
  | Refused (evs : list Event)        (* the pending queue is full *)
  | Dropped (evs : list Event)        (* the blocking write failed *)
  | Acked (n : Z)                     (* read from the wake-lock queue *)
  | TimedOut                          (* the wake lock was held too long *)
  | Stopping | Cleared | Started
  | Connected (sensors : list SensorInfo)
  | Disconnected (handles : list Z)
  | Woke (wakelock : bool).           (* the event flag of this queue, by stopThreads *)

Record config := mk_config {
  subHals : nat;                      (* mSubHalList.size() *)
  mSensors : omap SensorInfo;
  mDirectChannelSubHal : option nat;
}.

Record connection := mk_conn {
  mThreadsRun : bool;
  mEventQueue : bool;                 (* a valid queue *)
  mWakeLockQueue : bool;
  mEventQueueFlag : bool;             (* not null *)
  mWakelockQueueFlag : bool;
  mDynamicSensors : omap SensorInfo;
  mDynamicSensorsCallback : option Z;
  mCurrentOperationMode : Z;
}.

Record queue := mk_queue {
  mPendingWriteEventsQueue : list (list Event * Z);
  mSizePendingWriteEventsQueue : Z;
  mMostEventsObserved : Z;
}.

Record wake := mk_wake {
  mWakelockRefCount : Z;
  mWakelockTimeoutStartTime : Z;
  mWakelockTimeoutResetTime : Z;
}.

(** Where the threads are.  [WTop], [KTop]: about to take the mutex and look;
    [WWaiting], [KWaiting]: blocked on the condition variable; [WWriting n k]: in
    writeBlocking with the first [n] pending events, [k] of them wake-up events;
    [WWrote]: after it, waiting for the mutex. *)
Inductive writer_pc := WStopped | WTop | WWaiting | WWriting (n : nat) (k : Z) | WWrote (n : nat) (k : Z).
Inductive waker_pc := KStopped | KTop | KWaiting | KReading.

(** What the framework passed to initialize and how the queue library answers. *)
Record init_request := mk_request {
  rq_callback : option Z;
  rq_event_queue_valid : bool; rq_wakelock_queue_valid : bool;
  rq_event_flag_created : bool; rq_wakelock_flag_created : bool;
}.
Inductive init_pc :=
  | IIdle
  | INotify (rq : init_request)
  | IJoining (rq : init_request)
  | IReset (rq : init_request)
  | IDisable (rq : init_request)
  | IClear (rq : init_request)
  | IDynamic (rq : init_request)
  | IQueues (rq : init_request)
  | ISubHals
  | IStart.

Record threads := mk_threads { writer : writer_pc; waker : waker_pc; initializer : init_pc }.

(** [scoped]: the creation times of the locked ScopedWakelock objects alive. *)
Record proxy := mk_proxy {
  cfg : config; conn : connection; que : queue; wk : wake; thr : threads;
  scoped : list Z; log : list event;
}.

Section Proxy.
Context (answer : list event -> query -> Z).
Context (sub : list event -> nat -> sub_call -> Result * Z).   (* with the callback's second argument *)

Notation M := (StateM.M proxy).

Definition emit (e : event) : M unit :=
  modify (fun p => mk_proxy (cfg p) (conn p) (que p) (wk p) (thr p) (scoped p) (log p ++ [e])).
Definition set_conn (c : connection) : M unit :=
  modify (fun p => mk_proxy (cfg p) c (que p) (wk p) (thr p) (scoped p) (log p)).
Definition set_que (q : queue) : M unit :=
  modify (fun p => mk_proxy (cfg p) (conn p) q (wk p) (thr p) (scoped p) (log p)).
Definition set_wk (w : wake) : M unit :=
  modify (fun p => mk_proxy (cfg p) (conn p) (que p) w (thr p) (scoped p) (log p)).
Definition set_thr (t : threads) : M unit :=
  modify (fun p => mk_proxy (cfg p) (conn p) (que p) (wk p) t (scoped p) (log p)).
Definition set_scoped (l : list Z) : M unit :=
  modify (fun p => mk_proxy (cfg p) (conn p) (que p) (wk p) (thr p) l (log p)).
Definition set_writer (pc : writer_pc) : M unit :=
  t ← gets thr; set_thr (mk_threads pc (waker t) (initializer t)).
Definition set_waker (pc : waker_pc) : M unit :=
  t ← gets thr; set_thr (mk_threads (writer t) pc (initializer t)).
Definition set_init (pc : init_pc) : M unit :=
  t ← gets thr; set_thr (mk_threads (writer t) (waker t) pc).

Definition ask (q : query) : M Z :=
  h ← gets log;
  let a := answer h q in
  _ ← emit (Asked q a);
  mret a.
(** [mSubHalList[i]], which the source does not check. *)
Definition call_sub (i : nat) (c : sub_call) : M (Result * Z) :=
  n ← gets (fun p => subHals (cfg p));
  _ ← lift (if (i <? n)%nat then Some tt else None);
  h ← gets log;
  let r := sub h i c in
  _ ← emit (SubCalled i c r);
  mret r.

(** ** Condition variables

    Each has one thread that waits on it.  A notified thread takes the mutex again and
    looks at its condition, as it does at the top of its loop. *)

Definition woken_writer (t : threads) : threads :=
  mk_threads (match writer t with WWaiting => WTop | pc => pc end) (waker t) (initializer t).
Definition woken_waker (t : threads) : threads :=
  mk_threads (writer t) (match waker t with KWaiting => KTop | pc => pc end) (initializer t).

(** [mEventQueueWriteCV.notify_one()] and [mWakelockCV.notify_one()]. *)
Definition notify_writer : M unit := t ← gets thr; set_thr (woken_writer t).
Definition notify_waker : M unit := t ← gets thr; set_thr (woken_waker t).

(** ** The wake lock *)

(** SensorTimeout::WAKE_LOCK_SECONDS is one. *)
Definition kWakelockTimeoutNs : Z := 1000000000.

(** The time it sets on success. *)
Definition incrementRefCountAndMaybeAcquireWakelock (delta : Z) : M (option Z) :=
  c ← gets conn;
  if negb (mThreadsRun c) || (delta =? 0) then mret None else
  w ← gets wk;
  r ← (if mWakelockRefCount w =? 0 then ask QAcquire else mret 0);
  if negb (r =? 0) then mret None else
  _ ← (if mWakelockRefCount w =? 0 then notify_waker else mret tt);
  now ← ask QNow;
  _ ← set_wk (mk_wake (u64 (mWakelockRefCount w + delta)) now (mWakelockTimeoutResetTime w));
  _ ← emit (Took delta);
  mret (Some now).

Definition decrementRefCountAndMaybeReleaseWakelock (delta timeoutStart : Z) : M unit :=
  w ← gets wk;
  let timeoutStart := if timeoutStart =? - 1 then mWakelockTimeoutResetTime w else timeoutStart in
  if (mWakelockRefCount w =? 0) || (timeoutStart <? mWakelockTimeoutResetTime w) then mret tt else
  let count := mWakelockRefCount w - Z.min (mWakelockRefCount w) delta in
  _ ← set_wk (mk_wake count (mWakelockTimeoutStartTime w) (mWakelockTimeoutResetTime w));
  if count =? 0 then emit Released else mret tt.

Definition resetSharedWakelock : M unit :=
  w ← gets wk;
  _ ← decrementRefCountAndMaybeReleaseWakelock (mWakelockRefCount w) (- 1);
  now ← ask QNow;
  w ← gets wk;
  set_wk (mk_wake (mWakelockRefCount w) (mWakelockTimeoutStartTime w) now).

Definition sharedWakelockDidTimeout : M bool :=
  now ← ask QNow;
  w ← gets wk;
  mret (kWakelockTimeoutNs <? now - mWakelockTimeoutStartTime w).

(** ScopedWakelock's constructor with [locked]; whether the object is locked. *)
Definition createScopedWakelock (locked : bool) : M bool :=
  if negb locked then mret false else
  t ← incrementRefCountAndMaybeAcquireWakelock 1;
  match t with
  | None => mret false
  | Some t => l ← gets scoped; _ ← set_scoped (t :: l); mret true
  end.

(** The destructor of the [i]-th locked one. *)
Definition destroyScopedWakelock (i : nat) : M unit :=
  l ← gets scoped;
  t ← lift (l !! i);
  _ ← set_scoped (delete i l);
  decrementRefCountAndMaybeReleaseWakelock 1 t.

(** ** Posting events *)

(** [mSensors.at]; [None] is std::out_of_range. *)
Definition is_wakeup (c : config) (ev : Event) : option bool :=
  sensor ← map_find (ev_handle ev) (mSensors c);
  Some (negb (Z.land (si_flags sensor) WAKE_UP =? 0)).

Definition countNumWakeupEvents (c : config) (evs : list Event) (n : nat) : option Z :=
  for_c (seq 0 n) 0 (fun i k =>
    ev ← evs !! i;
    wakes ← is_wakeup c ev;
    Some (if (wakes : bool) then k + 1 else k)).

Definition processEvents (c : config) (index : nat) (evs : list Event) : option (list Event * Z) :=
  for_c evs ([], 0) (fun ev acc =>
    let ev := mk_event (setSubHalIndex (ev_handle ev) index) (ev_type ev) (ev_timestamp ev) (ev_payload ev) in
    wakes ← is_wakeup c ev;
    Some (acc.1 ++ [ev], if (wakes : bool) then acc.2 + 1 else acc.2)).

Definition kMaxSizePendingWriteEventsQueue : Z := 100000.

(** The write of what fits while nothing is pending; how many events it was. *)
Definition write_direct (evs : list Event) : M nat :=
  cn ← gets conn;
  q ← gets que;
  match mPendingWriteEventsQueue q with
  | [] =>
      _ ← lift (if mEventQueue cn then Some tt else None);
      avail ← ask QAvailable;
      let numToWrite := Z.to_nat (Z.min (Z.of_nat (length evs)) avail) in
      if (0 <? numToWrite)%nat then
        ok ← ask (QWrite numToWrite);
        if negb (ok =? 0) then
          _ ← lift (if mEventQueueFlag cn then Some tt else None);
          _ ← emit (Written (take numToWrite evs));
          mret numToWrite
        else mret 0%nat
      else mret 0%nat
  | _ => mret 0%nat
  end.

Definition postEventsToMessageQueue (evs : list Event) (numWakeupEvents : Z) (locked : bool) : M unit :=
  cn ← gets conn;
  if negb (mThreadsRun cn) then mret tt else
  inc ← (if (locked : bool) then
           t ← incrementRefCountAndMaybeAcquireWakelock numWakeupEvents; mret (bool_decide (is_Some t))
         else mret true);
  if negb inc then mret tt else
  numToWrite ← write_direct evs;
  c ← gets cfg;
  written ← lift (countNumWakeupEvents c evs numToWrite);
  let numLeft := Z.of_nat (length evs) - Z.of_nat numToWrite in
  let wakeupsLeft := u64 (numWakeupEvents - written) in
  if numLeft =? 0 then mret tt else
  q ← gets que;
  if mSizePendingWriteEventsQueue q + numLeft <=? kMaxSizePendingWriteEventsQueue then
    let size := mSizePendingWriteEventsQueue q + numLeft in
    _ ← set_que (mk_queue (mPendingWriteEventsQueue q ++ [(drop numToWrite evs, wakeupsLeft)]) size
                   (Z.max (mMostEventsObserved q) size));
    _ ← notify_writer;
    emit (Queued (drop numToWrite evs))
  else
    _ ← emit (Refused (drop numToWrite evs));
    decrementRefCountAndMaybeReleaseWakelock wakeupsLeft (- 1).

(** HalProxyCallback of the sub-HAL [index]; [locked] is [wakelock.isLocked()]. *)
Definition postEvents (index : nat) (evs : list Event) (locked : bool) : M unit :=
  match evs with
  | [] => mret tt
  | _ =>
      cn ← gets conn;
      if negb (mThreadsRun cn) then mret tt else
      c ← gets cfg;
      '(processed, numWakeupEvents) ← lift (processEvents c index evs);
      if (0 <? numWakeupEvents) && negb locked then mret tt else
      postEventsToMessageQueue processed numWakeupEvents locked
  end.

(** ** The writer thread *)

(** From taking the mutex (at the top of the loop or woken up) to releasing it: the
    thread ends, waits, or goes on to write. *)
Definition writer_section : M unit :=
  cn ← gets conn;
  if negb (mThreadsRun cn) then set_writer WStopped else
  q ← gets que;
  match mPendingWriteEventsQueue q with
  | [] => set_writer WWaiting
  | (evs, _) :: _ =>
      _ ← lift (if mEventQueue cn && mEventQueueFlag cn then Some tt else None);
      eventQueueSize ← ask QQuantum;
      let numToWrite := Z.to_nat (Z.min (Z.of_nat (length evs)) eventQueueSize) in
      c ← gets cfg;
      k ← lift (countNumWakeupEvents c evs numToWrite);
      set_writer (WWriting numToWrite k)
  end.

(** writeBlocking has returned [success]; a failure is accounted for at once. *)
Definition writer_wrote (n : nat) (k : Z) (success : bool) : M unit :=
  q ← gets que;
  front ← lift (head (mPendingWriteEventsQueue q));
  _ ← set_writer (WWrote n k);
  if (success : bool) then emit (Flushed (take n front.1))
  else
    _ ← emit (Dropped (take n front.1));
    decrementRefCountAndMaybeReleaseWakelock k (- 1).

(** The mutex is taken again.  [n] is the smaller of the front's size and the queue's,
    so the front is longer than the queue exactly when it is longer than [n]. *)
Definition writer_after (n : nat) (k : Z) : M unit :=
  q ← gets que;
  match mPendingWriteEventsQueue q with
  | [] => lift None
  | (evs, wakeups) :: rest =>
      _ ← set_que (mk_queue (if (n <? length evs)%nat then (drop n evs, u64 (wakeups - k)) :: rest else rest)
                     (mSizePendingWriteEventsQueue q - Z.of_nat n) (mMostEventsObserved q));
      set_writer WTop
  end.

(** ** The wake-lock thread *)

Definition waker_section : M unit :=
  cn ← gets conn;
  if negb (mThreadsRun cn) then _ ← resetSharedWakelock; set_waker KStopped else
  w ← gets wk;
  if mWakelockRefCount w =? 0 then set_waker KWaiting else
  timeout ← sharedWakelockDidTimeout;
  if (timeout : bool) then _ ← emit TimedOut; _ ← resetSharedWakelock; set_waker KTop
  else
    _ ← lift (if mWakeLockQueue cn && mWakelockQueueFlag cn then Some tt else None);
    set_waker KReading.

(** readBlocking has returned: the number the framework wrote, if any. *)
Definition waker_read (processed : option Z) : M unit :=
  _ ← (match processed with
       | Some n => _ ← emit (Acked n); decrementRefCountAndMaybeReleaseWakelock n (- 1)
       | None => mret tt
       end);
  set_waker KTop.

(** ** Routing *)

Definition isSubHalIndexValid (c : config) (sensorHandle : Z) : bool :=
  extractSubHalIndex sensorHandle <? Z.of_nat (subHals c).

(** A call on the sub-HAL of a handle. *)
Definition route (sensorHandle : Z) (c : sub_call) : M Result :=
  r ← call_sub (Z.to_nat (extractSubHalIndex sensorHandle)) c;
  mret r.1.

Definition activate (sensorHandle : Z) (enabled : bool) : M Result :=
  c ← gets cfg;
  if negb (isSubHalIndexValid c sensorHandle) then mret BAD_VALUE else
  route sensorHandle (SActivate (clearSubHalIndex sensorHandle) enabled).

Definition batch (sensorHandle samplingPeriodNs maxReportLatencyNs : Z) : M Result :=
  c ← gets cfg;
  if negb (isSubHalIndexValid c sensorHandle) then mret BAD_VALUE else
  route sensorHandle (SBatch (clearSubHalIndex sensorHandle) samplingPeriodNs maxReportLatencyNs).

Definition flush (sensorHandle : Z) : M Result :=
  c ← gets cfg;
  if negb (isSubHalIndexValid c sensorHandle) then mret BAD_VALUE else
  route sensorHandle (SFlush (clearSubHalIndex sensorHandle)).

Definition ADDITIONAL_INFO : Z := 33.

Definition injectSensorData (ev : Event) : M Result :=
  cn ← gets conn;
  if (mCurrentOperationMode cn =? MODE_NORMAL) && negb (ev_type ev =? ADDITIONAL_INFO) then mret BAD_VALUE else
  c ← gets cfg;
  if negb (isSubHalIndexValid c (ev_handle ev)) then mret BAD_VALUE else
  route (ev_handle ev) (SInject (mk_event (clearSubHalIndex (ev_handle ev)) (ev_type ev) (ev_timestamp ev) (ev_payload ev))).

Definition on_direct (c : sub_call) : M (Result * Z) :=
  d ← gets (fun p => mDirectChannelSubHal (cfg p));
  match d with
  | None => mret (INVALID_OPERATION, - 1)
  | Some i => call_sub i c
  end.

Definition registerDirectChannel (mem : Z) : M (Result * Z) := on_direct (SRegister mem).
Definition unregisterDirectChannel (channelHandle : Z) : M Result :=
  r ← on_direct (SUnregister channelHandle); mret r.1.
Definition configDirectReport (sensorHandle channelHandle : Z) (rate : RateLevel) : M (Result * Z) :=
  on_direct (SConfig (clearSubHalIndex sensorHandle) channelHandle rate).

(** The loops of setOperationMode: where the first stopped, and the result. *)
Fixpoint mode_loop (n : nat) (subHalIndex : nat) (mode : Z) (result : Result) : M (nat * Result) :=
  match n with
  | O => mret (subHalIndex, result)
  | S n =>
      r ← call_sub subHalIndex (SSetOperationMode mode);
      if negb (bool_decide (r.1 = OK)) then mret (subHalIndex, r.1) else mode_loop n (S subHalIndex) mode r.1
  end.

Fixpoint mode_reset (n : nat) (i : nat) (mode : Z) : M unit :=
  match n with
  | O => mret tt
  | S n => _ ← call_sub i (SSetOperationMode mode); mode_reset n (S i) mode
  end.

Definition set_operation (mode : Z) (c : connection) : connection :=
  mk_conn (mThreadsRun c) (mEventQueue c) (mWakeLockQueue c) (mEventQueueFlag c) (mWakelockQueueFlag c)
    (mDynamicSensors c) (mDynamicSensorsCallback c) mode.

Definition setOperationMode (mode : Z) : M Result :=
  n ← gets (fun p => subHals (cfg p));
  '(subHalIndex, result) ← mode_loop n 0 mode OK;
  cn ← gets conn;
  _ ← (if negb (bool_decide (result = OK)) then mode_reset subHalIndex 0 (mCurrentOperationMode cn)
       else set_conn (set_operation mode cn));
  mret result.

(** ** Sensor lists *)

Definition getSensorsList (c : config) : list SensorInfo := (mSensors c).*2.

Definition MASK_DIRECT : Z := Z.lor 0x380 0xC00.

Definition setDirectChannelFlags (flags : Z) (index : nat) (direct : option nat) : Z * option nat :=
  match direct with
  | None => (flags, if negb (Z.land flags MASK_DIRECT =? 0) then Some index else None)
  | Some d => (if negb (index =? d)%nat then Z.land flags (Z.lnot MASK_DIRECT) else flags, direct)
  end.

Definition add_sensor (index : nat) (sensor : SensorInfo) (c : config) : config :=
  if negb (subHalIndexIsClear (si_handle sensor)) then c else
  let handle := setSubHalIndex (si_handle sensor) index in
  let '(flags, direct) := setDirectChannelFlags (si_flags sensor) index (mDirectChannelSubHal c) in
  mk_config (subHals c) (map_assign handle (mk_info handle flags (si_other sensor)) (mSensors c)) direct.

(** [lists] is what the sub-HALs list, in order. *)
Fixpoint initializeSensorList (index : nat) (lists : list (list SensorInfo)) (c : config) : config :=
  match lists with
  | [] => c
  | l :: lists => initializeSensorList (S index) lists (fold_left (fun c x => add_sensor index x c) l c)
  end.

Definition HalProxy (lists : list (list SensorInfo)) (start reset : Z) : proxy :=
  mk_proxy (initializeSensorList 0 lists (mk_config (length lists) [] None))
    (mk_conn false false false false false [] None MODE_NORMAL) (mk_queue [] 0 0) (mk_wake 0 start reset)
    (mk_threads WStopped KStopped IIdle) [] [].

Definition set_dynamic (m : omap SensorInfo) (c : connection) : connection :=
  mk_conn (mThreadsRun c) (mEventQueue c) (mWakeLockQueue c) (mEventQueueFlag c) (mWakelockQueueFlag c)
    m (mDynamicSensorsCallback c) (mCurrentOperationMode c).

Definition onDynamicSensorsConnected (added : list SensorInfo) (index : nat) : M unit :=
  cn ← gets conn;
  let '(sensors, m) := fold_left (fun acc x =>
    if negb (subHalIndexIsClear (si_handle x)) then acc else
    let x := mk_info (setSubHalIndex (si_handle x) index) (si_flags x) (si_other x) in
    (acc.1 ++ [x], map_assign (si_handle x) x acc.2)) added ([], mDynamicSensors cn) in
  _ ← set_conn (set_dynamic m cn);
  _ ← lift (mDynamicSensorsCallback cn);
  emit (Connected sensors).

Definition onDynamicSensorsDisconnected (removed : list Z) (index : nat) : M unit :=
  cn ← gets conn;
  let '(handles, m) := fold_left (fun acc h =>
    if negb (subHalIndexIsClear h) then acc else
    let h := setSubHalIndex h index in
    if map_mem h acc.2 then (acc.1 ++ [h], map_erase h acc.2) else acc) removed ([], mDynamicSensors cn) in
  _ ← set_conn (set_dynamic m cn);
  _ ← lift (mDynamicSensorsCallback cn);
  emit (Disconnected handles).

(** ** initialize *)

Definition set_run (b : bool) (c : connection) : connection :=
  mk_conn b (mEventQueue c) (mWakeLockQueue c) (mEventQueueFlag c) (mWakelockQueueFlag c)
    (mDynamicSensors c) (mDynamicSensorsCallback c) (mCurrentOperationMode c).

(** stopThreads: the flag, under both mutexes; then, without them, what wakes the
    threads up; then the joins. *)
Definition stop_begin (rq : init_request) : M unit :=
  cn ← gets conn;
  _ ← set_conn (set_run false cn);
  _ ← emit Stopping;
  set_init (INotify rq).

Definition stop_notify (rq : init_request) : M unit :=
  cn ← gets conn;
  _ ← (if mEventQueueFlag cn && mEventQueue cn then emit (Woke false) else mret tt);
  _ ← (if mWakelockQueueFlag cn && mWakeLockQueue cn then emit (Woke true) else mret tt);
  _ ← notify_waker;
  _ ← notify_writer;
  set_init (IJoining rq).

Fixpoint disable_each (l : omap SensorInfo) : M unit :=
  match l with
  | [] => mret tt
  | (h, _) :: l => _ ← activate h false; disable_each l
  end.

Definition disableAllSensors : M unit :=
  c ← gets cfg;
  _ ← disable_each (mSensors c);
  cn ← gets conn;
  disable_each (mDynamicSensors cn).

Definition init_clear (rq : init_request) : M unit :=
  q ← gets que;
  _ ← set_que (mk_queue [] 0 (mMostEventsObserved q));
  _ ← emit Cleared;
  set_init (IDynamic rq).

Definition init_dynamic (rq : init_request) : M unit :=
  cn ← gets conn;
  _ ← set_conn (mk_conn (mThreadsRun cn) (mEventQueue cn) (mWakeLockQueue cn) (mEventQueueFlag cn)
                  (mWakelockQueueFlag cn) [] (rq_callback rq) (mCurrentOperationMode cn));
  set_init (IQueues rq).

(** The new queues and flags; [BAD_VALUE] when one of them is not usable, and then no
    flag is kept. *)
Definition init_queues (rq : init_request) : M unit :=
  cn ← gets conn;
  let usable := bool_decide (is_Some (rq_callback rq)) && rq_event_queue_valid rq && rq_wakelock_queue_valid rq &&
                rq_event_flag_created rq && rq_wakelock_flag_created rq in
  _ ← set_conn (mk_conn (mThreadsRun cn) (rq_event_queue_valid rq) (rq_wakelock_queue_valid rq)
                  (usable && rq_event_flag_created rq) (usable && rq_wakelock_flag_created rq)
                  (mDynamicSensors cn) (mDynamicSensorsCallback cn) (mCurrentOperationMode cn));
  set_init (if usable then ISubHals else IIdle).

Fixpoint init_subhal_loop (n i : nat) : M Result :=
  match n with
  | O => mret OK
  | S n =>
      r ← call_sub i (SInitialize i);
      if negb (bool_decide (r.1 = OK)) then mret r.1 else init_subhal_loop n (S i)
  end.

Definition init_subhals : M unit :=
  n ← gets (fun p => subHals (cfg p));
  r ← init_subhal_loop n 0;
  set_init (if bool_decide (r = OK) then IStart else IIdle).

Definition init_start : M unit :=
  cn ← gets conn;
  _ ← set_conn (set_run true (set_operation MODE_NORMAL cn));
  _ ← emit Started;
  set_thr (mk_threads WTop KTop IIdle).

(** ** Runs *)

(** Calls of the framework outside initialize. *)
Inductive request :=
  | RSetOperationMode (mode : Z) | RActivate (h : Z) (en : bool) | RBatch (h p l : Z) | RFlush (h : Z)
  | RInject (ev : Event) | RRegister (mem : Z) | RUnregister (ch : Z) | RConfig (h ch : Z) (rate : RateLevel).

Definition serve (r : request) : M (Result * Z) :=
  match r with
  | RSetOperationMode mode => x ← setOperationMode mode; mret (x, 0)
  | RActivate h en => x ← activate h en; mret (x, 0)
  | RBatch h p l => x ← batch h p l; mret (x, 0)
  | RFlush h => x ← flush h; mret (x, 0)
  | RInject ev => x ← injectSensorData ev; mret (x, 0)
  | RRegister mem => registerDirectChannel mem
  | RUnregister ch => x ← unregisterDirectChannel ch; mret (x, 0)
  | RConfig h ch rate => configDirectReport h ch rate
  end.

(** What initialize does next; [None] while it waits or when it is not running. *)
Definition init_next (p : proxy) : option (M unit) :=
  match initializer (thr p) with
  | IIdle => None
  | INotify rq => Some (stop_notify rq)
  | IJoining rq =>
      match writer (thr p), waker (thr p) with
      | WStopped, KStopped => Some (set_init (IReset rq))
      | _, _ => None
      end
  | IReset rq => Some (_ ← resetSharedWakelock; set_init (IDisable rq))
  | IDisable rq => Some (_ ← disableAllSensors; set_init (IClear rq))
  | IClear rq => Some (init_clear rq)
  | IDynamic rq => Some (init_dynamic rq)
  | IQueues rq => Some (init_queues rq)
  | ISubHals => Some init_subhals
  | IStart => Some init_start
  end.

(** The next step of each thread; the number read from the wake-lock queue is a
    uint32_t.  initialize runs under its own mutex.  A thread may leave its condition
    variable without being notified. *)
Inductive step (p : proxy) : proxy -> Prop :=
  | step_serve r a p' : serve r p = Some (a, p') -> step p p'
  | step_create locked b p' : createScopedWakelock locked p = Some (b, p') -> step p p'
  | step_destroy i p' : destroyScopedWakelock i p = Some (tt, p') -> step p p'
  | step_post index evs locked p' : postEvents index evs locked p = Some (tt, p') -> step p p'
  | step_connected l index p' : onDynamicSensorsConnected l index p = Some (tt, p') -> step p p'
  | step_disconnected l index p' : onDynamicSensorsDisconnected l index p = Some (tt, p') -> step p p'
  | step_writer p' : writer (thr p) = WTop -> writer_section p = Some (tt, p') -> step p p'
  | step_wrote n k b p' : writer (thr p) = WWriting n k -> writer_wrote n k b p = Some (tt, p') -> step p p'
  | step_after n k p' : writer (thr p) = WWrote n k -> writer_after n k p = Some (tt, p') -> step p p'
  | step_waker p' : waker (thr p) = KTop -> waker_section p = Some (tt, p') -> step p p'
  | step_read o p' : waker (thr p) = KReading -> (forall n, o = Some n -> is_u32 n) ->
      waker_read o p = Some (tt, p') -> step p p'
  | step_init rq p' : initializer (thr p) = IIdle -> stop_begin rq p = Some (tt, p') -> step p p'
  | step_init_next m p' : init_next p = Some m -> m p = Some (tt, p') -> step p p'
  | step_spurious (b : bool) p' : (if b then notify_writer else notify_waker) p = Some (tt, p') -> step p p'.
End Proxy.
