(* ===== verification/HalProxyRoute.v ===== *)
(** * Routing in the sensors HAL proxy

    A proxy handle names one sensor of one sub-HAL: the sub-HAL's index in the top
    byte, its own handle below.  Every listed handle is answered by the sub-HAL that
    listed it, under the handle it listed; direct channels go to the only sub-HAL
    whose sensors keep direct flags; and the operation mode changes everywhere or
    nowhere. *)

From S2P Require Import Prelude CMem StateM StdMap SensorTypes HalProxy.

(** ** Handles *)

(** A handle a sub-HAL may list. *)
Definition own_handle (h : Z) : Prop := 0 <= h < 2 ^ 24.

Lemma mask_ones : kSensorHandleSubHalIndexMask = Z.lnot (Z.ones 24).
Proof. done. Qed.

Lemma subHalIndexIsClear_spec h : subHalIndexIsClear h = true <-> own_handle h.
Proof.
  unfold subHalIndexIsClear, own_handle. rewrite Z.eqb_eq, mask_ones, <- Z.ldiff_land, Z.ldiff_ones_r by lia.
  rewrite Z.shiftl_mul_pow2, Z.shiftr_div_pow2 by lia. split.
  - intros Hz. pose proof (Z.mod_pos_bound h (2 ^ 24)). pose proof (Z.div_mod h (2 ^ 24)). lia.
  - intros Hh. by rewrite Z.div_small.
Qed.

Lemma setSubHalIndex_eq h i : own_handle h -> (i < 128)%nat -> setSubHalIndex h i = h + 2 ^ 24 * Z.of_nat i.
Proof.
  intros Hh Hi. unfold setSubHalIndex, kBitsAfterSubHalIndex.
  assert (s32 (u32 (Z.of_nat i)) = Z.of_nat i) as -> by (apply s32_u32; unfold is_s32; lia).
  assert (s32 (Z.shiftl (Z.of_nat i) 24) = Z.shiftl (Z.of_nat i) 24) as ->.
  { rewrite Z.shiftl_mul_pow2 by lia. unfold s32. rewrite wrap_small; [lia|unfold in_w; lia]. }
  by rewrite lor_disjoint_add.
Qed.

Lemma handle_round_trip h i :
  own_handle h -> (i < 128)%nat ->
  extractSubHalIndex (setSubHalIndex h i) = Z.of_nat i /\ clearSubHalIndex (setSubHalIndex h i) = h.
Proof.
  intros Hh Hi. rewrite setSubHalIndex_eq by done. unfold own_handle in Hh. split.
  - unfold extractSubHalIndex, kBitsAfterSubHalIndex. rewrite Z.shiftr_div_pow2 by lia.
    rewrite (Z.mul_comm (2 ^ 24)), Z.div_add, Z.div_small by lia. apply wrap_small. unfold in_w. lia.
  - unfold clearSubHalIndex. rewrite mask_ones, Z.lnot_involutive, Z.land_ones by lia.
    rewrite (Z.mul_comm (2 ^ 24)), Z.mod_add by lia. by apply Z.mod_small.
Qed.

(** ** The sensor list *)

(** Where an entry comes from: sensor [x] of the sub-HAL [i]. *)
Definition entry_of (lists : list (list SensorInfo)) (direct : option nat) (k : Z) (info : SensorInfo)
    (i : nat) (x : SensorInfo) : Prop :=
  (exists l, lists !! i = Some l /\ x ∈ l) /\ own_handle (si_handle x) /\ k = setSubHalIndex (si_handle x) i /\
  si_handle info = k /\ si_other info = si_other x /\
  (si_flags info = si_flags x \/ si_flags info = Z.land (si_flags x) (Z.lnot MASK_DIRECT)) /\
  (Z.land (si_flags info) MASK_DIRECT <> 0 -> direct = Some i).

(** The sub-HAL that direct channel calls go to is one of the list. *)
Definition direct_ok (c : config) : Prop := forall i, mDirectChannelSubHal c = Some i -> (i < subHals c)%nat.

(** Every entry comes from a list. *)
Definition sourced (lists : list (list SensorInfo)) (c : config) : Prop :=
  map_ok (mSensors c) /\ subHals c = length lists /\
  forall k info, map_find k (mSensors c) = Some info ->
    exists i x, entry_of lists (mDirectChannelSubHal c) k info i x.

Lemma land_direct_cleared f : Z.land (Z.land f (Z.lnot MASK_DIRECT)) MASK_DIRECT = 0.
Proof. by rewrite <- Z.land_assoc, (Z.land_comm (Z.lnot _)), Z.land_lnot_diag, Z.land_0_r. Qed.

Lemma setDirectChannelFlags_spec flags i direct flags' direct' :
  setDirectChannelFlags flags i direct = (flags', direct') ->
  (flags' = flags \/ flags' = Z.land flags (Z.lnot MASK_DIRECT)) /\
  (Z.land flags' MASK_DIRECT <> 0 -> direct' = Some i) /\ (forall d, direct = Some d -> direct' = Some d).
Proof.
  unfold setDirectChannelFlags. destruct direct as [d|].
  - destruct (i =? d)%nat eqn:Hd; cbn [negb]; intros [= <- <-].
    + apply Nat.eqb_eq in Hd as ->. auto.
    + split; [auto|]. split; [|auto]. by rewrite land_direct_cleared.
  - intros [= <- <-]. split; [auto|]. split; [|done]. intros Hnz. by rewrite (proj2 (Z.eqb_neq _ 0) Hnz).
Qed.

Lemma map_find_assign {A} k k' (v : A) m :
  map_ok m -> map_find k' (map_assign k v m) = if k' =? k then Some v else map_find k' m.
Proof.
  intros Hm. rewrite !map_find_lookup, to_gmap_assign by done. destruct (k' =? k) eqn:E; zb.
  - subst. by rewrite lookup_insert_eq.
  - by rewrite lookup_insert_ne.
Qed.

Lemma add_sensor_spec lists i l x c :
  sourced lists c -> lists !! i = Some l -> x ∈ l ->
  sourced lists (add_sensor i x c) /\
  (forall k, is_Some (map_find k (mSensors c)) -> is_Some (map_find k (mSensors (add_sensor i x c)))) /\
  (own_handle (si_handle x) -> is_Some (map_find (setSubHalIndex (si_handle x) i) (mSensors (add_sensor i x c)))).
Proof.
  intros (Hok & Hn & Hs) Hl Hx. unfold add_sensor. destruct (subHalIndexIsClear (si_handle x)) eqn:Hc; cbn [negb].
  2: { split; [done|]. split; [done|]. intros Ho. apply subHalIndexIsClear_spec in Ho. congruence. }
  apply subHalIndexIsClear_spec in Hc. destruct (setDirectChannelFlags _ _ _) as [flags direct] eqn:Hd.
  apply setDirectChannelFlags_spec in Hd as (Hf & Hfd & Hkeep). split; [|split]; cbn.
  - split; [by apply map_assign_ok|]. split; [done|]. cbn. intros k info. rewrite map_find_assign by done.
    destruct (k =? _) eqn:E; zb.
    + intros [= <-]. exists i, x. split; [by exists l|]. by split_and!.
    + intros Hk. destruct (Hs k info Hk) as (j & y & Hy & Hoy & Hky & Hh & Ho & Hfl & Hdir). exists j, y.
      split_and!; try done. intros Hnz. by apply Hkeep, Hdir.
  - intros k Hk. rewrite map_find_assign by done. by destruct (k =? _).
  - intros _. rewrite map_find_assign, Z.eqb_refl by done. done.
Qed.

Lemma add_sensors_spec lists i l0 : lists !! i = Some l0 -> forall l c, (forall x, x ∈ l -> x ∈ l0) -> sourced lists c ->
  let c' := fold_left (fun c x => add_sensor i x c) l c in
  sourced lists c' /\
  (forall k, is_Some (map_find k (mSensors c)) -> is_Some (map_find k (mSensors c'))) /\
  (forall x, x ∈ l -> own_handle (si_handle x) -> is_Some (map_find (setSubHalIndex (si_handle x) i) (mSensors c'))).
Proof.
  intros Hl l. induction l as [|x l IH]; intros c Hin Hs; cbn [fold_left].
  { split; [done|]. split; [done|]. intros x Hx. by apply elem_of_nil in Hx. }
  destruct (add_sensor_spec lists i l0 x c Hs Hl) as (Hs1 & Hk1 & Hx1); [apply Hin; by left|].
  destruct (IH (add_sensor i x c)) as (Hs2 & Hk2 & Hx2); [intros y Hy; apply Hin; by right|done|].
  split; [done|]. split; [auto|]. intros y [->|Hy]%elem_of_cons Ho; auto.
Qed.

Lemma initializeSensorList_spec all : forall lists n c, (forall i l, lists !! i = Some l -> all !! (n + i)%nat = Some l) -> sourced all c ->
  let c' := initializeSensorList n lists c in
  sourced all c' /\
  (forall k, is_Some (map_find k (mSensors c)) -> is_Some (map_find k (mSensors c'))) /\
  (forall i l x, lists !! i = Some l -> x ∈ l -> own_handle (si_handle x) ->
     is_Some (map_find (setSubHalIndex (si_handle x) (n + i)) (mSensors c'))).
Proof.
  induction lists as [|l lists IH]; intros n c Hall Hs; cbn [initializeSensorList]; [done|].
  assert (all !! n = Some l) as Hl by (rewrite <- (Nat.add_0_r n); by apply (Hall 0%nat)).
  destruct (add_sensors_spec all n l Hl l c (fun _ Hx => Hx) Hs) as (Hs1 & Hk1 & Hx1). set (c1 := fold_left _ _ _) in *.
  destruct (IH (S n) c1) as (Hs2 & Hk2 & Hx2).
  { intros i l' Hi. rewrite Nat.add_succ_comm. by apply (Hall (S i)). }
  { done. }
  split; [done|]. split; [auto|]. intros [|i] l' x Hi Hx Ho.
  - injection Hi as <-. rewrite Nat.add_0_r. auto.
  - rewrite <- Nat.add_succ_comm. eauto.
Qed.

(** The configuration of a new object. *)
Definition listed (lists : list (list SensorInfo)) : config :=
  initializeSensorList 0 lists (mk_config (length lists) [] None).

Lemma listed_spec lists :
  sourced lists (listed lists) /\
  forall i l x, lists !! i = Some l -> x ∈ l -> own_handle (si_handle x) ->
    is_Some (map_find (setSubHalIndex (si_handle x) i) (mSensors (listed lists))).
Proof.
  destruct (initializeSensorList_spec lists lists 0 (mk_config (length lists) [] None)) as (Hs & _ & Hx); [done| |done].
  split; [apply map_ok_nil|]. split; [done|]. by intros.
Qed.

Lemma setDirectChannelFlags_index flags i direct d :
  (setDirectChannelFlags flags i direct).2 = Some d -> d = i \/ direct = Some d.
Proof. unfold setDirectChannelFlags. destruct direct; [auto|]. destruct (negb _); [|done]. intros [= <-]. auto. Qed.

Lemma add_sensors_direct i l c :
  (i < subHals c)%nat -> direct_ok c ->
  let c' := fold_left (fun c x => add_sensor i x c) l c in direct_ok c' /\ subHals c' = subHals c.
Proof.
  revert c. induction l as [|x l IH]; intros c Hi Hd; [done|]. cbn [fold_left].
  assert (direct_ok (add_sensor i x c) /\ subHals (add_sensor i x c) = subHals c) as [Hd' Hs].
  { unfold add_sensor. destruct (negb _); [done|]. pose proof (setDirectChannelFlags_index (si_flags x) i (mDirectChannelSubHal c)) as Hf.
    destruct (setDirectChannelFlags _ _ _) as [flags direct]. split; [|done]. intros d Hdd. cbn in *.
    destruct (Hf d Hdd) as [->|?]; auto. }
  destruct (IH (add_sensor i x c)) as [? Hs']; [by rewrite Hs|done|]. split; [done|]. cbn in Hs'. congruence.
Qed.

Lemma initializeSensorList_direct lists : forall n c,
  (n + length lists <= subHals c)%nat -> direct_ok c -> direct_ok (initializeSensorList n lists c).
Proof.
  induction lists as [|l lists IH]; intros n c Hn Hd; [done|]. cbn [initializeSensorList length] in *.
  destruct (add_sensors_direct n l c ltac:(lia) Hd) as [Hd' Hs]. cbv zeta in Hs. apply IH; [rewrite Hs; lia|done].
Qed.

Lemma listed_direct lists : direct_ok (listed lists).
Proof. by apply initializeSensorList_direct. Qed.

Lemma map_find_elem {A} k (v : A) m : map_ok m -> (k, v) ∈ m -> map_find k m = Some v.
Proof.
  intros Hm Hin. rewrite map_find_lookup. apply elem_of_list_to_map_1; [by apply map_ok_NoDup|done].
Qed.

Lemma map_find_in {A} k (v : A) m : map_find k m = Some v -> (k, v) ∈ m.
Proof. rewrite map_find_lookup. apply elem_of_list_to_map_2. Qed.

(** ** Calls on a sub-HAL *)

Definition logged (e : event) (p : proxy) : proxy :=
  mk_proxy (cfg p) (conn p) (que p) (wk p) (thr p) (scoped p) (log p ++ [e]).

Section Routing.
Context (sub : list event -> nat -> sub_call -> Result * Z).

(** What a call that reaches the sub-HAL [i] as [c] does: its answer, and nothing else. *)
Definition answered (i : nat) (c : sub_call) (p : proxy) : option (Result * proxy) :=
  let r := sub (log p) i c in Some (r.1, logged (SubCalled i c r) p).

(** The calls on a handle [k] go to the sub-HAL [i], for its handle [h]. *)
Definition routed (k : Z) (i : nat) (h : Z) (p : proxy) : Prop :=
  (forall en, activate sub k en p = answered i (SActivate h en) p) /\
  (forall period latency, batch sub k period latency p = answered i (SBatch h period latency) p) /\
  flush sub k p = answered i (SFlush h) p /\
  (forall ty t payload, mCurrentOperationMode (conn p) <> MODE_NORMAL \/ ty = ADDITIONAL_INFO ->
     injectSensorData sub (mk_event k ty t payload) p = answered i (SInject (mk_event h ty t payload)) p).

(** The index is in range. *)
Lemma call_sub_run i c p :
  (i < subHals (cfg p))%nat ->
  call_sub sub i c p = Some (sub (log p) i c, logged (SubCalled i c (sub (log p) i c)) p).
Proof.
  intros Hi. unfold call_sub, mbind at 1 2, M_bind at 1 2, gets at 1, lift. by rewrite (proj2 (Nat.ltb_lt i _) Hi).
Qed.

Lemma routed_spec h i p :
  own_handle h -> (i < 128)%nat -> (i < subHals (cfg p))%nat -> routed (setSubHalIndex h i) i h p.
Proof.
  intros Hh Hi Hn. destruct (handle_round_trip h i Hh Hi) as [He Hc].
  assert (isSubHalIndexValid (cfg p) (setSubHalIndex h i) = true) as Hv by (unfold isSubHalIndexValid; rewrite He; lia).
  assert (forall c, route sub (setSubHalIndex h i) c p = answered i c p) as Hr.
  { intros c. unfold route. rewrite He, Nat2Z.id. unfold mbind at 1, M_bind at 1. by rewrite call_sub_run. }
  split_and!.
  - intros en. unfold activate, mbind at 1, M_bind at 1, gets. rewrite Hv, Hc. apply Hr.
  - intros period latency. unfold batch, mbind at 1, M_bind at 1, gets. rewrite Hv, Hc. apply Hr.
  - unfold flush, mbind at 1, M_bind at 1, gets. rewrite Hv, Hc. apply Hr.
  - intros ty t payload Hm. unfold injectSensorData, mbind at 1 2, M_bind at 1 2, gets. cbn [ev_handle ev_type ev_timestamp ev_payload].
    assert ((mCurrentOperationMode (conn p) =? MODE_NORMAL) && negb (ty =? ADDITIONAL_INFO) = false) as ->.
    { destruct Hm as [Hm| ->]; [by rewrite (proj2 (Z.eqb_neq _ _) Hm)|by rewrite andb_false_r]. }
    rewrite Hv, Hc. apply Hr.
Qed.

(** C19: Routing.  With at most 128 sub-HALs, every sensor of the proxy's list is one
    that a sub-HAL lists, under a handle that names both: activate, batch, flush and
    an injection that the mode allows make one call, on that sub-HAL and for its own
    handle, and return its answer.  Every sensor a sub-HAL lists with the top byte
    clear is in the list, no two entries share a handle, and an entry that keeps a
    direct-report or direct-channel flag belongs to the sub-HAL that direct channel
    calls go to.  A handle with any other top byte is answered BAD_VALUE without a
    call. *)
Theorem sensors_routed_home lists p :
  (length lists <= 128)%nat -> cfg p = listed lists ->
  (forall info, info ∈ getSensorsList (cfg p) ->
     exists i x, entry_of lists (mDirectChannelSubHal (cfg p)) (si_handle info) info i x /\
       routed (si_handle info) i (si_handle x) p) /\
  (forall i l x, lists !! i = Some l -> x ∈ l -> own_handle (si_handle x) ->
     exists info, info ∈ getSensorsList (cfg p) /\ si_handle info = setSubHalIndex (si_handle x) i) /\
  NoDup (si_handle <$> getSensorsList (cfg p)) /\
  (forall k, Z.of_nat (length lists) <= extractSubHalIndex k ->
     (forall en, activate sub k en p = Some (BAD_VALUE, p)) /\ flush sub k p = Some (BAD_VALUE, p) /\
     (forall period latency, batch sub k period latency p = Some (BAD_VALUE, p))).
Proof.
  intros Hlen Hcfg. destruct (listed_spec lists) as ((Hok & Hn & Hs) & Hx). rewrite Hcfg.
  assert (forall k info, (k, info) ∈ mSensors (listed lists) -> si_handle info = k) as Hkey.
  { intros k info Hin. destruct (Hs k info (map_find_elem k info _ Hok Hin)) as (i & x & _ & _ & _ & Hh & _). done. }
  split; [|split; [|split]].
  - intros info ([k ?] & -> & Hin)%list_elem_of_fmap. cbn [snd]. rewrite (Hkey _ _ Hin).
    destruct (Hs k _ (map_find_elem _ _ _ Hok Hin)) as (i & x & He). exists i, x. split; [done|].
    destruct He as ((l & Hl & _) & Ho & -> & _). apply lookup_lt_Some in Hl.
    apply routed_spec; [done|lia|rewrite Hcfg, Hn; done].
  - intros i l x Hl Hin Ho. destruct (Hx i l x Hl Hin Ho) as [info Hf]. apply map_find_in in Hf.
    exists info. split; [by apply (list_elem_of_fmap_2 snd) in Hf|by apply Hkey].
  - unfold getSensorsList. rewrite <- list_fmap_compose.
    assert ((si_handle ∘ snd) <$> mSensors (listed lists) = (mSensors (listed lists)).*1) as ->.
    { apply list_fmap_ext. intros i [k info] Hi. apply Hkey. by eapply list_elem_of_lookup_2. }
    by apply map_ok_NoDup.
  - intros k Hk. assert (isSubHalIndexValid (cfg p) k = false) as Hv by (unfold isSubHalIndexValid; rewrite Hcfg, Hn; lia).
    split_and!; intros; unfold activate, flush, batch, mbind at 1, M_bind at 1, gets; by rewrite Hv.
Qed.

(** ** The operation mode *)

(** The mode the sub-HAL [i] accepted last. *)
Definition mode_of (i : nat) (h : list event) : Z :=
  fold_left (fun m e => match e with
    | SubCalled j (SSetOperationMode mode) r => if (j =? i)%nat && bool_decide (r.1 = OK) then mode else m
    | _ => m
    end) h MODE_NORMAL.

Lemma mode_of_called i j mode r h :
  mode_of i (h ++ [SubCalled j (SSetOperationMode mode) r]) =
  if (j =? i)%nat && bool_decide (r.1 = OK) then mode else mode_of i h.
Proof. unfold mode_of. by rewrite fold_left_app. Qed.

Definition same_but_log (p p' : proxy) : Prop := exists h, p' = mk_proxy (cfg p) (conn p) (que p) (wk p) (thr p) (scoped p) h.

Lemma ok_call_sub i c p Q :
  (i < subHals (cfg p))%nat ->
  Q (sub (log p) i c) (logged (SubCalled i c (sub (log p) i c)) p) -> ok p (call_sub sub i c) Q.
Proof. intros Hi HQ. unfold ok. by rewrite call_sub_run. Qed.

Lemma mode_loop_spec mode n : forall i p, (i + n <= subHals (cfg p))%nat ->
  ok p (mode_loop sub n i mode OK) (fun x p' => let '(j, r) := x in same_but_log p p' /\
    (i <= j <= i + n)%nat /\ (r = OK -> j = (i + n)%nat) /\ (r <> OK -> (j < i + n)%nat) /\
    forall x, mode_of x (log p') = if (i <=? x)%nat && (x <? j)%nat then mode else mode_of x (log p)).
Proof.
  induction n as [|n IH]; intros i p Hn; cbn [mode_loop].
  { apply ok_ret. split; [by exists (log p); destruct p|]. split_and!; [lia|lia|lia|done|].
    intros x. destruct (Nat.leb_spec i x), (Nat.ltb_spec x i); cbn; try done; lia. }
  apply ok_bind, ok_call_sub; [lia|]. set (r := sub _ _ _). set (p1 := logged _ p).
  assert (forall x, mode_of x (log p1) = if (i =? x)%nat && bool_decide (r.1 = OK) then mode else mode_of x (log p)) as Hm
    by (intros x; apply mode_of_called).
  case_bool_decide as Hr; cbn [negb].
  - rewrite Hr. eapply ok_mono; [apply IH; cbn; lia|]. intros [j r'] p2 ((h & ->) & Hj & H1 & H2 & H3).
    split; [by exists h|]. split_and!; [lia|lia|intros Ho; specialize (H1 Ho); lia|intros Ho; specialize (H2 Ho); lia|].
    intros x. rewrite H3, Hm, andb_true_r.
    destruct (Nat.leb_spec (S i) x), (Nat.ltb_spec x j), (Nat.leb_spec i x), (Nat.eqb_spec i x); cbn; try done; lia.
  - apply ok_ret. split; [by exists (log p1)|]. split_and!; [lia|lia|done|lia|].
    intros x. rewrite Hm, andb_false_r. destruct (Nat.leb_spec i x), (Nat.ltb_spec x i); cbn; try done; lia.
Qed.

Lemma mode_reset_spec mode n : (forall h i, (sub h i (SSetOperationMode mode)).1 = OK) -> forall i p,
  (i + n <= subHals (cfg p))%nat -> ok p (mode_reset sub n i mode) (fun _ p' => same_but_log p p' /\
    forall x, mode_of x (log p') = if (i <=? x)%nat && (x <? i + n)%nat then mode else mode_of x (log p)).
Proof.
  intros Hsub. induction n as [|n IH]; intros i p Hn; cbn [mode_reset].
  { apply ok_ret. split; [by exists (log p); destruct p|]. intros x.
    destruct (Nat.leb_spec i x), (Nat.ltb_spec x (i + 0)); cbn; try done; lia. }
  apply ok_bind, ok_call_sub; [lia|]. set (r := sub _ _ _). set (p1 := logged _ p).
  eapply ok_mono; [apply IH; cbn; lia|]. intros _ p2 ((h & ->) & H3). split; [by exists h|]. intros x. rewrite H3.
  change (log p1) with (log p ++ [SubCalled i (SSetOperationMode mode) r]). rewrite mode_of_called, bool_decide_true by apply Hsub.
  rewrite andb_true_r. destruct (Nat.leb_spec (S i) x), (Nat.ltb_spec x (S i + n)), (Nat.leb_spec i x), (Nat.ltb_spec x (i + S n)), (Nat.eqb_spec i x);
    cbn; try done; lia.
Qed.

Lemma mode_reset_conn mode n : forall i p, (i + n <= subHals (cfg p))%nat -> ok p (mode_reset sub n i mode) (fun _ p' => conn p' = conn p).
Proof.
  induction n as [|n IH]; intros i p Hn; cbn [mode_reset]; [done|].
  apply ok_bind, ok_call_sub; [lia|]. eapply ok_mono; [apply IH; cbn; lia|]. by intros _ p' ->.
Qed.

(** The operation mode is one for all.  When every sub-HAL is in the proxy's mode,
    setOperationMode returns; with OK the proxy is in the new mode, with any other
    result its mode is what it was; and as long as the sub-HALs accept the old mode
    again, every one of them is in the proxy's mode afterwards. *)
Theorem operation_mode_all_or_nothing mode p :
  (forall i, (i < subHals (cfg p))%nat -> mode_of i (log p) = mCurrentOperationMode (conn p)) ->
  exists r p', setOperationMode sub mode p = Some (r, p') /\
    conn p' = (if bool_decide (r = OK) then set_operation mode (conn p) else conn p) /\
    ((forall h i, (sub h i (SSetOperationMode (mCurrentOperationMode (conn p)))).1 = OK) ->
     forall i, (i < subHals (cfg p))%nat -> mode_of i (log p') = mCurrentOperationMode (conn p')).
Proof.
  intros Hsame.
  destruct (ok_total _ _ _ (mode_loop_spec mode (subHals (cfg p)) 0 p ltac:(lia))) as ([j r] & p1 & Hl & (h & Hp1) & Hj & H1 & H2 & Hm).
  assert (conn p1 = conn p) as Hc1 by (by rewrite Hp1).
  assert (0 + j <= subHals (cfg p1))%nat as Hjn by (rewrite Hp1; cbn; lia). set (cur := mCurrentOperationMode (conn p)) in *.
  unfold setOperationMode, mbind at 1, M_bind at 1, gets at 1. unfold mbind at 1, M_bind at 1. rewrite Hl.
  unfold mbind at 1, M_bind at 1, gets at 1. unfold mbind at 1, M_bind at 1.
  case_bool_decide as Hr; cbn [negb].
  - eexists r, _. split; [reflexivity|]. rewrite bool_decide_true by done. split; [by rewrite <- Hc1|].
    intros _ i Hi. change (mode_of i (log p1) = mode). rewrite Hm, (H1 Hr).
    destruct (Nat.ltb_spec i (0 + subHals (cfg p))); [done|lia].
  - destruct (ok_total _ _ _ (mode_reset_conn (mCurrentOperationMode (conn p1)) j 0 p1 Hjn)) as ([] & p2 & Hrs & Hc2).
    rewrite Hrs. exists r, p2. split; [done|]. rewrite bool_decide_false by done. split; [congruence|].
    rewrite Hc2, Hc1. intros Hsub i Hi. rewrite Hc1 in Hrs. fold cur in Hrs |- *.
    pose proof (ok_result _ _ _ _ _ (mode_reset_spec cur j Hsub 0 p1 Hjn) Hrs) as (_ & Hm2). rewrite Hm2, Hm, Nat.add_0_l.
    destruct (Nat.leb_spec 0 i), (Nat.ltb_spec i j); cbn [andb]; try done; by apply Hsame.
Qed.
End Routing.

(** ** Two sub-HALs: an accelerometer, and a wake-up sensor with the same handle *)

Definition sample_lists : list (list SensorInfo) :=
  [[mk_info 3 0x400 [1]]; [mk_info 3 0x401 [2]; mk_info 0x1000004 0 [3]]].

(** The second one does not know the mode 1. *)
Definition sample_sub (h : list event) (i : nat) (c : sub_call) : Result * Z :=
  match i, c with 1%nat, SSetOperationMode 1 => (BAD_VALUE, 0) | _, _ => (OK, 0) end.

Definition sample_proxy : proxy := HalProxy sample_lists 0 0.

Lemma sensors_routed_home_witness :
  getSensorsList (cfg sample_proxy) = [mk_info 3 0x400 [1]; mk_info 0x1000003 1 [2]] /\
  exists i x, entry_of sample_lists (mDirectChannelSubHal (cfg sample_proxy)) 0x1000003 (mk_info 0x1000003 1 [2]) i x /\
    routed sample_sub 0x1000003 i (si_handle x) sample_proxy.
Proof.
  split; [reflexivity|].
  apply (proj1 (sensors_routed_home sample_sub sample_lists sample_proxy ltac:(cbn; lia) eq_refl) (mk_info 0x1000003 1 [2])).
  right. left.
Defined.

Lemma operation_mode_all_or_nothing_witness :
  exists r p', setOperationMode sample_sub 1 sample_proxy = Some (r, p') /\
    conn p' = (if bool_decide (r = OK) then set_operation 1 (conn sample_proxy) else conn sample_proxy) /\
    ((forall h i, (sample_sub h i (SSetOperationMode MODE_NORMAL)).1 = OK) ->
     forall i, (i < 2)%nat -> mode_of i (log p') = mCurrentOperationMode (conn p')).
Proof. exact (operation_mode_all_or_nothing sample_sub 1 sample_proxy (fun i _ => eq_refl)). Defined.

(** The rejected mode is taken back from the first sub-HAL. *)
Example sample_mode_rolled_back :
  (fun x => (x.1, log x.2)) <$> setOperationMode sample_sub 1 sample_proxy =
  Some (BAD_VALUE, [SubCalled 0 (SSetOperationMode 1) (OK, 0); SubCalled 1 (SSetOperationMode 1) (BAD_VALUE, 0);
                    SubCalled 0 (SSetOperationMode MODE_NORMAL) (OK, 0)]).
Proof. reflexivity. Qed.
