(* ===== verification/HalProxyInv.v ===== *)
(** * Wake lock and event stream of the sensors HAL proxy

    The invariants of [HalProxy] under every interleaving of its threads.  [replay]
    reads off the log whether the system wake lock is held, how many wake-up events
    the framework has been given and not acknowledged, and which events were accepted
    and delivered.  [wf] and [account] relate that view to the state; every step keeps
    them and none faults ([step_leads]), so every reached state has them
    ([reached_inv]).  [HalProxySpec] reads the theorems off them. *)

From S2P Require Import Prelude StateM StdMap SensorTypes HalProxy HalProxyRoute.

(** ** Reading the log *)

Definition wakes_up (c : config) (ev : Event) : bool := default false (is_wakeup c ev).
Definition wakes (c : config) (evs : list Event) : Z := Z.of_nat (countb (wakes_up c) evs).
Definition known (c : config) (ev : Event) : Prop := is_Some (is_wakeup c ev).

Lemma wakes_app c l k : wakes c (l ++ k) = wakes c l + wakes c k.
Proof. unfold wakes. rewrite countb_app. lia. Qed.

Lemma wakes_nonneg c l : 0 <= wakes c l.
Proof. unfold wakes. lia. Qed.

Lemma wakes_split c n l : wakes c l = wakes c (take n l) + wakes c (drop n l).
Proof. by rewrite <- wakes_app, take_drop. Qed.

Record view := mk_view {
  v_held : bool;                    (* the system wake lock *)
  v_taken : Z;                      (* all that was ever counted *)
  v_unacked : Z;                    (* wake-up events given to the framework, not acknowledged *)
  v_honest : bool;                  (* it never acknowledged more than it was given *)
  v_timeout : bool;                 (* a timeout since the session started *)
  v_now : Z;                        (* the last time read *)
  v_accepted : list Event;
  v_delivered : list Event;
}.

Section View.
Context (c : config).

Definition observe (v : view) (e : event) : view :=
  let '(mk_view held taken unacked honest timeout now acc del) := v in
  match e with
  | Asked QAcquire r => mk_view (if r =? 0 then true else held) taken unacked honest timeout now acc del
  | Asked QNow t => mk_view held taken unacked honest timeout t acc del
  | Took n => mk_view held (taken + n) unacked honest timeout now acc del
  | Released => mk_view false taken unacked honest timeout now acc del
  | Written evs => mk_view held taken (unacked + wakes c evs) honest timeout now (acc ++ evs) (del ++ evs)
  | Flushed evs => mk_view held taken (unacked + wakes c evs) honest timeout now acc (del ++ evs)
  | Queued evs => mk_view held taken unacked honest timeout now (acc ++ evs) del
  | Dropped evs => mk_view held taken unacked honest timeout now acc (del ++ evs)
  | Acked n => mk_view held taken (unacked - n) (honest && (n <=? unacked)) timeout now acc del
  | TimedOut => mk_view held taken unacked honest true now acc del
  | Started => mk_view held taken 0 true false now acc del
  | Cleared => mk_view held taken unacked honest timeout now [] []
  | _ => v
  end.

(** [t0]: when the object was made. *)
Definition replay (t0 : Z) (h : list event) : view :=
  fold_left observe h (mk_view false 0 0 true false t0 [] []).

Lemma replay_more t0 h h' : replay t0 (h ++ h') = fold_left observe h' (replay t0 h).
Proof. apply fold_left_app. Qed.
End View.

(** Pending events that were not written yet. *)
Definition in_flight (pc : writer_pc) : nat := match pc with WWrote n _ => n | _ => 0%nat end.
Definition all_pending (q : queue) : list Event := concat (mPendingWriteEventsQueue q).*1.
Definition pend (p : proxy) : list Event := drop (in_flight (writer (thr p))) (all_pending (que p)).

(** Scoped wake locks made since the last reset. *)
Definition fresh (p : proxy) : Z :=
  Z.of_nat (countb (fun t => mWakelockTimeoutResetTime (wk p) <=? t) (scoped p)).

(** ** The invariant *)

Definition entry_ok (c : config) (e : list Event * Z) : Prop :=
  e.1 <> [] /\ Forall (known c) e.1 /\ e.2 = wakes c e.1.

Definition writing (c : config) (q : queue) (n : nat) (k : Z) : Prop :=
  exists evs w rest, mPendingWriteEventsQueue q = (evs, w) :: rest /\ (n <= length evs)%nat /\ k = wakes c (take n evs).

Definition queue_ok (c : config) (q : queue) (pc : writer_pc) : Prop :=
  Forall (entry_ok c) (mPendingWriteEventsQueue q) /\
  mSizePendingWriteEventsQueue q = Z.of_nat (length (all_pending q)) /\
  mSizePendingWriteEventsQueue q <= kMaxSizePendingWriteEventsQueue /\
  match pc with
  | WWriting n k | WWrote n k => writing c q n k
  | WWaiting => mPendingWriteEventsQueue q = []    (* no wake-up is lost *)
  | _ => True
  end.

(** Both sides of the connection can be used. *)
Definition event_side (c : connection) : bool := mEventQueue c && mEventQueueFlag c.
Definition wake_side (c : connection) : bool := mWakeLockQueue c && mWakelockQueueFlag c.

Definition stopped (t : threads) : Prop := writer t = WStopped /\ waker t = KStopped.

(** Neither thread is blocked on its condition variable. *)
Definition awake (t : threads) : Prop := writer t <> WWaiting /\ waker t <> KWaiting.

(** While initialize runs, the threads are stopped step by step and everything is
    reset before they start again; they never start when it fails.  Once it joins
    them, none waits for a notification any more. *)
Definition phase_ok (p : proxy) : Prop :=
  let run := mThreadsRun (conn p) in
  let idle := run = false /\ stopped (thr p) in
  let quiet := idle /\ mWakelockRefCount (wk p) = 0 /\ fresh p = 0 in
  match initializer (thr p) with
  | IIdle => run = true /\ event_side (conn p) = true /\ wake_side (conn p) = true \/ quiet
  | INotify _ => run = false /\ (stopped (thr p) \/ event_side (conn p) = true /\ wake_side (conn p) = true)
  | IJoining _ => run = false /\ awake (thr p)
  | IReset _ => idle
  | IDisable _ | IClear _ => quiet
  | IDynamic _ | IQueues _ => quiet /\ mPendingWriteEventsQueue (que p) = []
  | ISubHals | IStart => quiet /\ mPendingWriteEventsQueue (que p) = [] /\
      event_side (conn p) = true /\ wake_side (conn p) = true
  end.

(** The count is what is outstanding and [x] more: scoped wake locks, pending wake-up
    events, and those the framework has not acknowledged. *)
Definition owes (p : proxy) (v : view) (x : Z) : Prop :=
  mThreadsRun (conn p) = true -> v_timeout v = false -> v_honest v = true ->
  0 <= v_unacked v /\ mWakelockRefCount (wk p) = fresh p + wakes (cfg p) (pend p) + v_unacked v + x.

Definition account (p : proxy) (v : view) : Prop := owes p v 0.

(** All but the account. *)
Record wf (p : proxy) (v : view) : Prop := {
  w_queue : queue_ok (cfg p) (que p) (writer (thr p));
  w_held : v_held v = (0 <? mWakelockRefCount (wk p));
  w_count : 0 <= mWakelockRefCount (wk p) <= v_taken v;
  w_reset : 0 <= mWakelockTimeoutResetTime (wk p) <= v_now v;
  w_scoped : Forall (fun t => 0 <= t <= v_now v) (scoped p);
  w_phase : phase_ok p;
  w_stream : v_accepted v = v_delivered v ++ pend p;
  w_idle : waker (thr p) = KWaiting -> mWakelockRefCount (wk p) = 0;
  w_direct : direct_ok (cfg p);
}.

Definition with_thr (t : threads) (p : proxy) : proxy :=
  mk_proxy (cfg p) (conn p) (que p) (wk p) t (scoped p) (log p).

Lemma with_thr_id p : with_thr (thr p) p = p.
Proof. by destruct p. Qed.

(** The threads are where they were, but for a waker that was notified. *)
Definition same_threads (t t' : threads) : Prop :=
  writer t' = writer t /\ initializer t' = initializer t /\
  (waker t' = waker t \/ waker t = KWaiting /\ waker t' = KTop).

Lemma same_threads_refl t : same_threads t t.
Proof. split_and!; auto. Qed.
#[local] Hint Resolve same_threads_refl : core.

Lemma woken_waker_same t : same_threads t (woken_waker t).
Proof. split_and!; try done. cbn. destruct (waker t); auto. Qed.

Lemma same_threads_eq t t' : same_threads t t' -> waker t <> KWaiting -> t' = t.
Proof. intros (? & ? & Hk) Hn. destruct t, t'. cbn in *. destruct Hk as [->|[? _]]; [by subst|done]. Qed.

(** A part that changes the wake lock and the log only. *)
Definition touch (p : proxy) (w : wake) (evs : list event) : proxy :=
  mk_proxy (cfg p) (conn p) (que p) w (thr p) (scoped p) (log p ++ evs).

Lemma touch_nil p : touch p (wk p) [] = p.
Proof. unfold touch. rewrite app_nil_r. by destruct p. Qed.

Section Invariant.
Context (answer : list event -> query -> Z).
Context (sub : list event -> nat -> sub_call -> Result * Z).
Context (t0 : Z).

Definition view_of (p : proxy) : view := replay (cfg p) t0 (log p).

(** The clock moves on with every reading. *)
Definition clock_ok : Prop := 0 <= t0 /\ forall c h, v_now (replay c t0 h) < answer h QNow.

Definition bounded (p : proxy) : Prop := v_taken (view_of p) < 2 ^ 64.
Definition inv (p : proxy) : Prop := wf p (view_of p) /\ account p (view_of p).

(** ** The wake-lock functions, run *)

Lemma dec_run d ts p :
  exists w evs, decrementRefCountAndMaybeReleaseWakelock d ts p = Some (tt, touch p w evs) /\
    let count := mWakelockRefCount (wk p) in
    let reset := mWakelockTimeoutResetTime (wk p) in
    ((count = 0 \/ ts <> - 1 /\ ts < reset) /\ w = wk p /\ evs = [] \/
     count <> 0 /\ (ts = - 1 \/ reset <= ts) /\
       w = mk_wake (count - Z.min count d) (mWakelockTimeoutStartTime (wk p)) reset /\
       evs = if count - Z.min count d =? 0 then [Released] else []).
Proof.
  unfold decrementRefCountAndMaybeReleaseWakelock, mbind, M_bind, gets, set_wk, emit, modify, mret, M_ret. cbv beta iota zeta.
  destruct (mWakelockRefCount (wk p) =? 0) eqn:Hc; zb; cbn [orb].
  { exists (wk p), []. rewrite touch_nil. split; [done|]. left. auto. }
  destruct (ts =? - 1) eqn:Hts; zb.
  - rewrite Z.ltb_irrefl. eexists _, _. split; [|right; split_and!; [done|by left|reflexivity|reflexivity]].
    destruct (_ =? 0); unfold touch; cbn; [done|by rewrite app_nil_r].
  - destruct (ts <? _) eqn:Hlt; zb.
    + exists (wk p), []. rewrite touch_nil. split; [done|]. left. auto.
    + eexists _, _. split; [|right; split_and!; [done|by right|reflexivity|reflexivity]].
      destruct (_ =? 0); unfold touch; cbn; [done|by rewrite app_nil_r].
Qed.

Lemma inc_run d p :
  exists r t w evs, incrementRefCountAndMaybeAcquireWakelock answer d p = Some (r, touch (with_thr t p) w evs) /\
    let count := mWakelockRefCount (wk p) in
    (r = None /\ t = thr p /\ w = wk p /\ (evs = [] \/ exists a, a <> 0 /\ evs = [Asked QAcquire a]) \/
     exists pre, mThreadsRun (conn p) = true /\ d <> 0 /\ pre = (if count =? 0 then [Asked QAcquire 0] else []) /\
       let now := answer (log p ++ pre) QNow in
       t = (if count =? 0 then woken_waker (thr p) else thr p) /\
       r = Some now /\ w = mk_wake (u64 (count + d)) now (mWakelockTimeoutResetTime (wk p)) /\
       evs = pre ++ [Asked QNow now; Took d]).
Proof.
  unfold incrementRefCountAndMaybeAcquireWakelock, notify_waker, ask, mbind, M_bind, gets, set_wk, set_thr, emit, modify, mret, M_ret.
  cbv beta iota zeta.
  destruct (mThreadsRun (conn p)) eqn:Hrun; cbn [negb orb].
  2: { exists None, (thr p), (wk p), []. rewrite with_thr_id, touch_nil. split; [done|]. left. auto. }
  destruct (d =? 0) eqn:Hd; zb.
  { exists None, (thr p), (wk p), []. rewrite with_thr_id, touch_nil. split; [done|]. left. auto. }
  destruct (mWakelockRefCount (wk p) =? 0) eqn:Hc; zb; cbn.
  - destruct (answer (log p) QAcquire =? 0) eqn:Ha; zb; cbn.
    + rewrite Ha. eexists _, _, _, _. split; [|right; exists [Asked QAcquire 0]; split_and!; reflexivity || done].
      unfold touch. cbn. by rewrite <- !app_assoc.
    + eexists None, (thr p), (wk p), [Asked QAcquire _]. rewrite with_thr_id. split; [reflexivity|]. left. split_and!; [done|done|done|]. right. by eexists.
  - eexists _, _, _, _. split; [|right; exists []; split_and!; reflexivity || done].
    unfold touch. cbn. by rewrite app_nil_r, <- !app_assoc.
Qed.

Lemma reset_run p :
  0 <= mWakelockRefCount (wk p) ->
  exists pre, pre = (if mWakelockRefCount (wk p) =? 0 then [] else [Released]) /\
    let now := answer (log p ++ pre) QNow in
    resetSharedWakelock answer p =
      Some (tt, touch p (mk_wake 0 (mWakelockTimeoutStartTime (wk p)) now) (pre ++ [Asked QNow now])).
Proof.
  intros Hpos. unfold resetSharedWakelock, mbind at 1, M_bind at 1, gets at 1.
  destruct (dec_run (mWakelockRefCount (wk p)) (- 1) p) as (w & evs & Hd & Hcase). unfold mbind at 1, M_bind at 1. rewrite Hd.
  destruct Hcase as [([Hc|Hc] & -> & ->)|(Hc & _ & -> & ->)]; [|lia|].
  - exists []. rewrite Hc. split; [done|]. rewrite app_nil_r.
    unfold ask, mbind, M_bind, gets, set_wk, emit, modify, mret, M_ret, touch. cbn. by rewrite Hc, !app_nil_r.
  - exists [Released]. rewrite (proj2 (Z.eqb_neq _ 0) Hc). split; [done|].
    rewrite Z.min_id, Z.sub_diag.
    unfold ask, mbind, M_bind, gets, set_wk, emit, modify, mret, M_ret, touch. cbn. by rewrite <- app_assoc.
Qed.

(** ** What they keep *)

(** Only the wake lock changed, and nothing that was outstanding. *)
Definition steady (p p' : proxy) : Prop :=
  cfg p' = cfg p /\ conn p' = conn p /\ que p' = que p /\ same_threads (thr p) (thr p') /\ scoped p' = scoped p /\
  v_unacked (view_of p') = v_unacked (view_of p) /\ v_timeout (view_of p') = v_timeout (view_of p) /\
  v_honest (view_of p') = v_honest (view_of p) /\ v_taken (view_of p) <= v_taken (view_of p').

Lemma steady_refl p : steady p p.
Proof. by split_and!. Qed.

Lemma steady_pend p p' : steady p p' -> pend p' = pend p.
Proof. intros (_ & _ & Hq & (Ht & _ & _) & _). unfold pend. by rewrite Hq, Ht. Qed.

Lemma fresh_eq p p' :
  scoped p' = scoped p -> mWakelockTimeoutResetTime (wk p') = mWakelockTimeoutResetTime (wk p) -> fresh p' = fresh p.
Proof. unfold fresh. by intros -> ->. Qed.

Lemma phase_keep p p' :
  phase_ok p -> conn p' = conn p -> que p' = que p -> same_threads (thr p) (thr p') ->
  (mThreadsRun (conn p) = true \/
   (mWakelockRefCount (wk p) = 0 -> mWakelockRefCount (wk p') = 0) /\ (fresh p = 0 -> fresh p' = 0)) ->
  phase_ok p'.
Proof.
  unfold phase_ok, stopped, awake. intros Hp -> -> (Hw & -> & Hk) Hz. rewrite Hw.
  assert (waker (thr p) = KStopped -> waker (thr p') = KStopped) by (destruct Hk as [->|[-> ->]]; done).
  assert (waker (thr p) <> KWaiting -> waker (thr p') <> KWaiting) by (destruct Hk as [->|[-> ->]]; done).
  destruct (initializer (thr p)); cbn in *; try done; try tauto;
    (destruct Hz as [Hr|[Hz1 Hz2]]; [assert (mThreadsRun (conn p) <> false) by congruence; tauto|tauto]).
Qed.

Lemma dec_keeps d ts p :
  wf p (view_of p) -> 0 <= d ->
  ok p (decrementRefCountAndMaybeReleaseWakelock d ts) (fun _ p' =>
    wf p' (view_of p') /\ steady p p' /\ mWakelockTimeoutResetTime (wk p') = mWakelockTimeoutResetTime (wk p) /\
    mWakelockRefCount (wk p') =
      if (ts =? - 1) || (mWakelockTimeoutResetTime (wk p) <=? ts)
      then mWakelockRefCount (wk p) - Z.min (mWakelockRefCount (wk p)) d else mWakelockRefCount (wk p)).
Proof.
  intros [H1 H2 H3 H4 H5 H6 H7 H8 H9] Hd. unfold ok. destruct (dec_run d ts p) as (w & evs & -> & Hcase). cbv zeta in Hcase.
  destruct Hcase as [(Hno & -> & ->)|(Hc & Hts & -> & ->)].
  { rewrite touch_nil. split; [by split|]. split; [apply steady_refl|]. split; [done|].
    destruct Hno as [Hz|[? ?]]; [rewrite Hz; case_match; lia|].
    rewrite (proj2 (Z.eqb_neq ts _)), (proj2 (Z.leb_gt _ ts)) by done. done. }
  assert ((ts =? - 1) || (mWakelockTimeoutResetTime (wk p) <=? ts) = true) as -> by (destruct Hts as [->|?]; [done|zb; apply orb_true_iff; right; by apply Z.leb_le]).
  set (count := mWakelockRefCount (wk p)) in *. set (left_ := count - Z.min count d).
  assert (0 <= left_ <= count) as Hleft by (unfold left_; lia).
  set (p' := touch p _ _).
  assert (exists held, view_of p' = mk_view held (v_taken (view_of p)) (v_unacked (view_of p)) (v_honest (view_of p))
    (v_timeout (view_of p)) (v_now (view_of p)) (v_accepted (view_of p)) (v_delivered (view_of p)) /\ held = (0 <? left_)) as (held & Hv & Hheld).
  { unfold view_of, p', touch. cbn [cfg log]. rewrite replay_more. destruct (replay (cfg p) t0 (log p)) eqn:Hr. cbn.
    destruct (left_ =? 0) eqn:E; zb; cbn; eexists; (split; [reflexivity|]).
    - rewrite E. done.
    - unfold view_of in H2. rewrite Hr in H2. cbn in H2. rewrite H2. rewrite !(proj2 (Z.ltb_lt 0 _)) by lia. done. }
  split; [|split; [|done]].
  - split; rewrite ?Hv; cbn; try done; [lia| |].
    + apply (phase_keep p); try done. right. split; [|done]. cbn. fold count. lia.
    + intros Hk. specialize (H8 Hk). fold count in H8. lia.
  - split_and!; rewrite ?Hv; done.
Qed.

Lemma reset_keeps p :
  clock_ok -> wf p (view_of p) ->
  ok p (resetSharedWakelock answer) (fun _ p' =>
    wf p' (view_of p') /\ steady p p' /\ mWakelockRefCount (wk p') = 0 /\ fresh p' = 0).
Proof.
  intros [Ht0 Hclock] [H1 H2 H3 H4 H5 H6 H7 H8 H9]. unfold ok. destruct (reset_run p (proj1 H3)) as (pre & Hpre & ->). cbv zeta.
  set (now := answer (log p ++ pre) QNow). set (p' := touch p _ _).
  assert (v_now (view_of p) < now) as Hnow.
  { pose proof (Hclock (cfg p) (log p ++ pre)) as Hn. fold now in Hn. unfold view_of.
    rewrite replay_more in Hn. destruct (replay (cfg p) t0 (log p)). rewrite Hpre in Hn. destruct (_ =? 0); exact Hn. }
  assert (view_of p' = mk_view false (v_taken (view_of p)) (v_unacked (view_of p)) (v_honest (view_of p))
    (v_timeout (view_of p)) now (v_accepted (view_of p)) (v_delivered (view_of p))) as Hv.
  { unfold view_of, p', touch. cbn [cfg log]. rewrite app_assoc, !replay_more. unfold view_of in H2.
    destruct (replay (cfg p) t0 (log p)) as [held ? ? ? ? ? ? ?]. rewrite Hpre. cbn in H2.
    destruct (mWakelockRefCount (wk p) =? 0) eqn:Hz; zb; cbn; [|done]. rewrite H2, Hz. done. }
  assert (fresh p' = 0) as Hfresh.
  { unfold fresh, p', touch. cbn [wk scoped mWakelockTimeoutResetTime]. rewrite (proj2 (countb_zero _ _)); [done|]. eapply Forall_impl; [exact H5|]. cbn. intros t Ht. lia. }
  split; [|split; [split_and!; rewrite ?Hv; done|done]].
  split; rewrite ?Hv; cbn; try done; [lia|lia|eapply Forall_impl; [exact H5|cbn; lia]|].
  apply (phase_keep p); try done. by right.
Qed.

Lemma inc_keeps d p :
  clock_ok -> wf p (view_of p) -> 0 <= d ->
  ok p (incrementRefCountAndMaybeAcquireWakelock answer d) (fun r p' => steady p p' /\
    mWakelockTimeoutResetTime (wk p') = mWakelockTimeoutResetTime (wk p) /\
    (bounded p' -> wf p' (view_of p')) /\
    match r with
    | None => mWakelockRefCount (wk p') = mWakelockRefCount (wk p)
    | Some now => mThreadsRun (conn p) = true /\ mWakelockTimeoutResetTime (wk p) < now /\ v_now (view_of p') = now /\
        v_taken (view_of p') = v_taken (view_of p) + d /\
        (bounded p' -> mWakelockRefCount (wk p') = mWakelockRefCount (wk p) + d)
    end).
Proof.
  intros [Ht0 Hclock] [H1 H2 H3 H4 H5 H6 H7 H8 H9] Hd. unfold ok. destruct (inc_run d p) as (r & t & w & evs & -> & Hcase). cbv zeta in Hcase.
  destruct Hcase as [(-> & -> & -> & Hevs)|(pre & Hrun & Hd0 & Hpre & Ht & -> & -> & ->)].
  - rewrite with_thr_id. assert (view_of (touch p (wk p) evs) = view_of p) as Hv.
    { unfold view_of, touch. cbn [cfg log]. rewrite replay_more. destruct (replay _ _ _).
      destruct Hevs as [->|(a & Ha & ->)]; [done|]. cbn. by rewrite (proj2 (Z.eqb_neq a 0) Ha). }
    split; [split_and!; rewrite ?Hv; done|]. split; [done|]. split; [|done]. intros _. split; rewrite ?Hv; done.
  - set (now := answer (log p ++ pre) QNow). set (p' := touch _ _ _).
    assert (same_threads (thr p) t) as Hsame by (rewrite Ht; destruct (_ =? 0); [apply woken_waker_same|done]).
    assert (v_now (view_of p) < now) as Hnow.
    { pose proof (Hclock (cfg p) (log p ++ pre)) as Hn. fold now in Hn. unfold view_of.
      rewrite replay_more in Hn. destruct (replay (cfg p) t0 (log p)). rewrite Hpre in Hn. destruct (_ =? 0); exact Hn. }
    assert (view_of p' = mk_view true (v_taken (view_of p) + d) (v_unacked (view_of p)) (v_honest (view_of p))
      (v_timeout (view_of p)) now (v_accepted (view_of p)) (v_delivered (view_of p))) as Hv.
    { unfold view_of, p', touch. cbn [cfg log with_thr]. rewrite app_assoc, !replay_more. unfold view_of in H2.
      destruct (replay (cfg p) t0 (log p)) as [held ? ? ? ? ? ? ?]. rewrite Hpre. cbn in H2.
      destruct (mWakelockRefCount (wk p) =? 0) eqn:Hz; zb; cbn; [done|]. rewrite H2, (proj2 (Z.ltb_lt 0 _)) by lia. done. }
    assert (bounded p' -> u64 (mWakelockRefCount (wk p) + d) = mWakelockRefCount (wk p) + d) as Hwrap.
    { unfold bounded. rewrite Hv. cbn. intros Hb. apply wrap_small. unfold in_w. lia. }
    split; [split_and!; rewrite ?Hv; try done; cbn; lia|]. split; [done|]. split.
    + intros Hb. specialize (Hwrap Hb). split; rewrite ?Hv; cbn; try done.
      * by rewrite (proj1 Hsame).
      * rewrite Hwrap, (proj2 (Z.ltb_lt 0 _)) by lia. done.
      * rewrite Hwrap. lia.
      * lia.
      * eapply Forall_impl; [exact H5|cbn; lia].
      * apply (phase_keep p); try done. by left.
      * unfold pend. cbn. by rewrite (proj1 Hsame).
      * rewrite Ht. destruct (mWakelockRefCount (wk p) =? 0) eqn:Hz; zb; [cbn; by destruct (waker (thr p))|].
        intros Hk. by apply H8 in Hk.
    + split_and!; [done|lia|by rewrite Hv|by rewrite Hv|]. intros Hb. cbn. by apply Hwrap.
Qed.

(** ** Calls that neither count nor queue *)

Definition neutral (p p' : proxy) : Prop :=
  cfg p' = cfg p /\ que p' = que p /\ wk p' = wk p /\ thr p' = thr p /\ scoped p' = scoped p /\
  mThreadsRun (conn p') = mThreadsRun (conn p) /\ event_side (conn p') = event_side (conn p) /\
  wake_side (conn p') = wake_side (conn p) /\ view_of p' = view_of p.

Lemma neutral_refl p : neutral p p.
Proof. by split_and!. Qed.

Lemma neutral_trans p1 p2 p3 : neutral p1 p2 -> neutral p2 p3 -> neutral p1 p3.
Proof.
  intros (? & ? & ? & ? & ? & ? & ? & ? & ?) (? & ? & ? & ? & ? & ? & ? & ? & ?). split_and!; congruence.
Qed.

Lemma neutral_inv p p' : neutral p p' -> inv p -> inv p'.
Proof.
  intros (Hc & Hq & Hw & Ht & Hs & Hr & He & Hf & Hv) [[H1 H2 H3 H4 H5 H6 H7 H8 H9] Ha].
  assert (pend p' = pend p) as Hpend by (unfold pend; by rewrite Hq, Ht).
  assert (fresh p' = fresh p) as Hfr by (unfold fresh; by rewrite Hw, Hs).
  split.
  - split; rewrite ?Hv, ?Hc, ?Hq, ?Ht, ?Hw, ?Hs, ?Hpend; try done.
    unfold phase_ok in *. by rewrite Hr, He, Hf, Ht, Hw, Hq, Hfr.
  - unfold account, owes in *. by rewrite Hr, Hv, Hw, Hfr, Hc, Hpend.
Qed.

Lemma call_sub_neutral i c p : (i < subHals (cfg p))%nat -> ok p (call_sub sub i c) (fun _ p' => neutral p p').
Proof.
  intros Hi. apply ok_call_sub; [done|]. split_and!; try done. unfold view_of, logged. cbn [cfg log]. rewrite replay_more. by destruct (replay _ _ _).
Qed.

Lemma set_conn_neutral cn p :
  mThreadsRun cn = mThreadsRun (conn p) -> event_side cn = event_side (conn p) ->
  wake_side cn = wake_side (conn p) -> ok p (set_conn cn) (fun _ p' => neutral p p').
Proof. intros. red. cbn. by split_and!. Qed.

(** The rest of a method after a neutral part. *)
Lemma neutral_bind {A B} (m : M proxy A) (k : A -> M proxy B) p :
  ok p m (fun _ p' => neutral p p') ->
  (forall a p', neutral p p' -> ok p' (k a) (fun b p'' => neutral p' p'')) ->
  ok p (m ≫= k) (fun _ p'' => neutral p p'').
Proof.
  intros Hm Hk. apply ok_bind. eapply ok_mono; [exact Hm|]. cbn. intros a p' Hn.
  eapply ok_mono; [by apply Hk|]. cbn. intros b p'' Hn'. by eapply neutral_trans.
Qed.

Lemma route_neutral h c p :
  isSubHalIndexValid (cfg p) h = true -> ok p (route sub h c) (fun _ p' => neutral p p').
Proof.
  unfold isSubHalIndexValid. intros Hv. zb. apply ok_bind. eapply ok_mono; [apply call_sub_neutral|auto].
  pose proof (u64_range (Z.shiftr h kBitsAfterSubHalIndex)) as [H0 _]. unfold extractSubHalIndex in *. lia.
Qed.

Lemma activate_neutral h en p : ok p (activate sub h en) (fun _ p' => neutral p p').
Proof.
  unfold activate. apply ok_bind, ok_gets. destruct (isSubHalIndexValid _ _) eqn:Hv; [by apply route_neutral|apply ok_ret, neutral_refl].
Qed.

Lemma on_direct_neutral c p : direct_ok (cfg p) -> ok p (on_direct sub c) (fun _ p' => neutral p p').
Proof.
  intros Hd. unfold on_direct. apply ok_bind, ok_gets.
  destruct (mDirectChannelSubHal _) eqn:Hi; [by apply call_sub_neutral, Hd|apply ok_ret, neutral_refl].
Qed.

Lemma mode_loop_neutral n : forall i mode r p, (i + n <= subHals (cfg p))%nat -> ok p (mode_loop sub n i mode r) (fun _ p' => neutral p p').
Proof.
  induction n as [|n IH]; intros i mode r p Hn; cbn [mode_loop]; [apply ok_ret, neutral_refl|].
  apply neutral_bind; [apply call_sub_neutral; lia|]. intros a p' (Hc & _).
  destruct (negb _); [apply ok_ret, neutral_refl|apply IH; rewrite Hc; lia].
Qed.

Lemma mode_reset_neutral n : forall i mode p, (i + n <= subHals (cfg p))%nat -> ok p (mode_reset sub n i mode) (fun _ p' => neutral p p').
Proof.
  induction n as [|n IH]; intros i mode p Hn; cbn [mode_reset]; [apply ok_ret, neutral_refl|].
  apply neutral_bind; [apply call_sub_neutral; lia|]. intros a p' (Hc & _). apply IH. rewrite Hc. lia.
Qed.

Lemma setOperationMode_neutral mode p : ok p (setOperationMode sub mode) (fun _ p' => neutral p p').
Proof.
  unfold setOperationMode. apply ok_bind, ok_gets.
  destruct (ok_total _ _ _ (mode_loop_spec sub mode (subHals (cfg p)) 0 p ltac:(lia))) as ([j r'] & q & Hq & _ & Hj & _).
  apply ok_bind. unfold ok at 1. pose proof (mode_loop_neutral (subHals (cfg p)) 0 mode OK p ltac:(lia)) as Hn.
  unfold ok in Hn. rewrite Hq in Hn |- *. apply ok_bind, ok_gets. apply ok_bind. eapply ok_mono.
  - destruct (negb _); [apply (mode_reset_neutral j); destruct Hn as (-> & _); lia|by apply set_conn_neutral].
  - cbv beta. intros _ p'' Hn'. apply ok_ret. by eapply neutral_trans.
Qed.

Lemma serve_neutral r p : direct_ok (cfg p) -> ok p (serve sub r) (fun _ p' => neutral p p').
Proof.
  intros Hd.
  assert (forall (m : M proxy Result), ok p m (fun _ p' => neutral p p') ->
    ok p (x ← m; mret (x, 0)) (fun _ p' => neutral p p')) as Hw.
  { intros m Hm. apply ok_bind. eapply ok_mono; [exact Hm|]. auto. }
  destruct r; cbn [serve]; first [by apply on_direct_neutral | apply Hw].
  - apply setOperationMode_neutral.
  - apply activate_neutral.
  - unfold batch. apply ok_bind, ok_gets. destruct (isSubHalIndexValid _ _) eqn:Hv; [by apply route_neutral|apply ok_ret, neutral_refl].
  - unfold flush. apply ok_bind, ok_gets. destruct (isSubHalIndexValid _ _) eqn:Hv; [by apply route_neutral|apply ok_ret, neutral_refl].
  - unfold injectSensorData. apply ok_bind, ok_gets. destruct (_ && _); [apply ok_ret, neutral_refl|].
    apply ok_bind, ok_gets. destruct (isSubHalIndexValid _ _) eqn:Hv; [by apply route_neutral|apply ok_ret, neutral_refl].
  - unfold unregisterDirectChannel. apply ok_bind. eapply ok_mono; [by apply on_direct_neutral|]. auto.
Qed.

Lemma disable_each_neutral l : forall p, ok p (disable_each sub l) (fun _ p' => neutral p p').
Proof.
  induction l as [|[h x] l IH]; intros p; cbn [disable_each]; [apply ok_ret, neutral_refl|].
  apply neutral_bind; [apply activate_neutral|]. intros _ p' _. apply IH.
Qed.

Lemma disableAllSensors_neutral p : ok p (disableAllSensors sub) (fun _ p' => neutral p p').
Proof.
  unfold disableAllSensors. apply ok_bind, ok_gets.
  apply neutral_bind; [apply disable_each_neutral|]. intros _ p' _.
  apply ok_bind, ok_gets, disable_each_neutral.
Qed.

Lemma init_subhal_loop_neutral n : forall i p, (i + n <= subHals (cfg p))%nat -> ok p (init_subhal_loop sub n i) (fun _ p' => neutral p p').
Proof.
  induction n as [|n IH]; intros i p Hn; cbn [init_subhal_loop]; [apply ok_ret, neutral_refl|].
  apply neutral_bind; [apply call_sub_neutral; lia|]. intros a p' (Hc & _).
  destruct (negb _); [apply ok_ret, neutral_refl|apply IH; rewrite Hc; lia].
Qed.

Lemma connected_neutral l index p p' : onDynamicSensorsConnected l index p = Some (tt, p') -> neutral p p'.
Proof.
  unfold onDynamicSensorsConnected, mbind, M_bind, gets, set_conn, modify, lift, emit. cbn. intros Hr.
  destruct (fold_left _ l _) as [sensors m]. destruct (mDynamicSensorsCallback (conn p)); [|done]. injection Hr as <-.
  split_and!; try done. unfold view_of. cbn [cfg log]. rewrite replay_more. by destruct (replay _ _ _).
Qed.

Lemma disconnected_neutral l index p p' : onDynamicSensorsDisconnected l index p = Some (tt, p') -> neutral p p'.
Proof.
  unfold onDynamicSensorsDisconnected, mbind, M_bind, gets, set_conn, modify, lift, emit. cbn. intros Hr.
  destruct (fold_left _ l _) as [sensors m]. destruct (mDynamicSensorsCallback (conn p)); [|done]. injection Hr as <-.
  split_and!; try done. unfold view_of. cbn [cfg log]. rewrite replay_more. by destruct (replay _ _ _).
Qed.

(** ** The account *)

(** What a step leads to, as long as the count has not overflowed. *)
Definition leads (p p' : proxy) : Prop :=
  cfg p' = cfg p /\ v_taken (view_of p) <= v_taken (view_of p') /\ (bounded p' -> inv p').

Lemma leads_refl p : inv p -> leads p p.
Proof. intros Hi. split; [done|]. split; [lia|done]. Qed.

Lemma leads_neutral p p' : neutral p p' -> inv p -> leads p p'.
Proof.
  intros Hn Hi. split; [apply Hn|]. split; [|intros _; by eapply neutral_inv].
  destruct Hn as (_ & _ & _ & _ & _ & _ & _ & _ & ->). lia.
Qed.

Lemma bounded_before p p' : v_taken (view_of p) <= v_taken (view_of p') -> bounded p' -> bounded p.
Proof. unfold bounded. lia. Qed.

Lemma fresh_nonneg p : 0 <= fresh p.
Proof. unfold fresh. lia. Qed.

Lemma steady_owes p p' x d :
  steady p p' -> mWakelockTimeoutResetTime (wk p') = mWakelockTimeoutResetTime (wk p) ->
  mWakelockRefCount (wk p') = mWakelockRefCount (wk p) + d ->
  owes p (view_of p) x -> owes p' (view_of p') (x + d).
Proof.
  intros Hs Hr Hc Ho. pose proof (steady_pend _ _ Hs) as Hpd.
  destruct Hs as (Hcf & Hcn & Hq & Ht & Hsc & Hu & Hto & Hh & _). unfold owes in *.
  rewrite Hcn, Hto, Hh, Hu, Hc, Hcf, Hpd, (fresh_eq p p' Hsc Hr). intros Hrun Htm Hho. destruct (Ho Hrun Htm Hho). lia.
Qed.

(** Giving back [d] of what is owed. *)
Lemma dec_owes d x p :
  wf p (view_of p) -> 0 <= d -> 0 <= x -> owes p (view_of p) (x + d) ->
  ok p (decrementRefCountAndMaybeReleaseWakelock d (- 1)) (fun _ p' =>
    wf p' (view_of p') /\ steady p p' /\ owes p' (view_of p') x).
Proof.
  intros Hw Hd Hx Ho. eapply ok_mono; [by apply dec_keeps|]. intros [] p' (Hw' & Hs & Hr & Hc).
  split; [done|]. split; [done|]. intros Hrun Hto Hh. pose proof Hs as (Hcf & Hcn & _ & _ & Hsc & Hu & Hto' & Hh' & _).
  rewrite Hcn in Hrun. rewrite Hto' in Hto. rewrite Hh' in Hh. destruct (Ho Hrun Hto Hh) as [Hu0 Hcount].
  rewrite Hu. split; [done|]. rewrite Hcf, (steady_pend _ _ Hs), (fresh_eq p p' Hsc Hr).
  rewrite Z.eqb_refl in Hc. cbn [orb] in Hc. rewrite Hc, Z.min_r; [lia|].
  pose proof (fresh_nonneg p). pose proof (wakes_nonneg (cfg p) (pend p)). lia.
Qed.

Definition with_scoped (l : list Z) (p : proxy) : proxy :=
  mk_proxy (cfg p) (conn p) (que p) (wk p) (thr p) l (log p).

Lemma create_leads locked p :
  clock_ok -> inv p -> ok p (createScopedWakelock answer locked) (fun _ p' => leads p p').
Proof.
  intros Hck [Hw Ha]. unfold createScopedWakelock. destruct locked; cbn [negb]; [|by apply ok_ret, leads_refl].
  apply ok_bind. eapply ok_mono; [apply inc_keeps; [done|done|lia]|]. cbv beta.
  intros r p1 (Hs & Hr & Hw1 & Hcase). pose proof Hs as (Hcf & _ & _ & _ & _ & _ & _ & _ & Htk).
  destruct r as [now|].
  - destruct Hcase as (Hrun & Hlt & Hnow & _ & Hcount). apply ok_bind, ok_gets, ok_bind, ok_modify, ok_ret.
    fold (with_scoped (now :: scoped p1) p1). set (p2 := with_scoped _ _).
    assert (fresh p2 = fresh p1 + 1) as Hfr.
    { unfold fresh, p2, with_scoped. cbn [wk scoped]. rewrite countb_cons, Hr, (proj2 (Z.leb_le _ now)) by lia.
      cbn [Nat.b2n]. lia. }
    split; [done|]. split; [done|]. intros Hb. specialize (Hw1 Hb). specialize (Hcount Hb). split.
    + destruct Hw1 as [H1 H2 H3 H4 H5 H6 H7 H8 H9]. split; try done.
      * change (Forall (fun t => 0 <= t <= v_now (view_of p1)) (now :: scoped p1)). constructor; [|done].
        rewrite Hnow. destruct Hw as [_ _ _ Hre _ _ _ _ _]. lia.
      * apply (phase_keep p1); try done. left. destruct Hs as (_ & -> & _). done.
    + pose proof (steady_owes p p1 0 1 Hs Hr Hcount Ha) as Ho. intros R1 R2 R3. destruct (Ho R1 R2 R3) as [? Hc].
      split; [done|]. change (mWakelockRefCount (wk p1) = fresh p2 + wakes (cfg p1) (pend p1) + v_unacked (view_of p1) + 0). lia.
  - apply ok_ret. split; [done|]. split; [done|]. intros Hb. split; [by apply Hw1|].
    apply (steady_owes p p1 0 0); [done|done|lia|done].
Qed.

Lemma destroy_leads i p p' :
  inv p -> destroyScopedWakelock i p = Some (tt, p') -> leads p p'.
Proof.
  intros [Hw Ha]. unfold destroyScopedWakelock, mbind, M_bind, gets, lift, set_scoped, modify. cbn.
  destruct (scoped p !! i) as [t|] eqn:Ht; [|done]. fold (with_scoped (delete i (scoped p)) p).
  set (p1 := with_scoped _ p). intros Hrun.
  pose proof (countb_delete (fun t => mWakelockTimeoutResetTime (wk p) <=? t) _ _ _ Ht) as Hcb.
  assert (fresh p = fresh p1 + (if mWakelockTimeoutResetTime (wk p) <=? t then 1 else 0)) as Hfr.
  { unfold fresh, p1, with_scoped. cbn [wk scoped]. rewrite Hcb. destruct (_ <=? t); cbn [Nat.b2n]; lia. }
  destruct Hw as [H1 H2 H3 H4 H5 H6 H7 H8 H9].
  assert (0 <= t) as Htpos by (rewrite Forall_lookup in H5; by apply (H5 i)).
  assert (wf p1 (view_of p)) as Hw1.
  { split; try done.
    - by apply Forall_delete.
    - apply (phase_keep p); try done. right. split; [done|]. intros Hz. pose proof (fresh_nonneg p1).
      destruct (_ <=? t); lia. }
  pose proof (ok_result _ _ _ _ _ (dec_keeps 1 t p1 Hw1 ltac:(lia)) Hrun) as (Hw2 & Hs & Hr & Hc).
  split; [apply Hs|]. split; [apply Hs|]. intros _. split; [done|].
  intros R1 R2 R3. pose proof Hs as (Hcf & Hcn & _ & _ & Hsc & Hu & Hto & Hh & _).
  rewrite Hcn in R1. rewrite Hto in R2. rewrite Hh in R3. destruct (Ha R1 R2 R3) as [Hu0 Hcount].
  rewrite Hu. split; [done|]. rewrite Hcf, (steady_pend _ _ Hs), (fresh_eq p1 p' Hsc Hr).
  change (pend p1) with (pend p). change (view_of p1) with (view_of p). change (cfg p1) with (cfg p).
  change (mWakelockTimeoutResetTime (wk p1)) with (mWakelockTimeoutResetTime (wk p)) in Hc.
  change (mWakelockRefCount (wk p1)) with (mWakelockRefCount (wk p)) in Hc.
  rewrite (proj2 (Z.eqb_neq t (-1))) in Hc by lia. cbn [orb] in Hc.
  pose proof (fresh_nonneg p1). pose proof (wakes_nonneg (cfg p) (pend p)). destruct (_ <=? t); lia.
Qed.

(** ** Posting *)

Lemma wakes_up_known c ev b : is_wakeup c ev = Some b -> wakes_up c ev = b.
Proof. unfold wakes_up. by intros ->. Qed.

Lemma wakes_snoc c l ev : wakes c (l ++ [ev]) = wakes c l + (if wakes_up c ev then 1 else 0).
Proof. rewrite wakes_app. unfold wakes at 2. rewrite countb_cons. by destruct (wakes_up c ev). Qed.

Lemma count_spec c evs n :
  Forall (known c) evs -> (n <= length evs)%nat -> countNumWakeupEvents c evs n = Some (wakes c (take n evs)).
Proof.
  intros Hk. unfold countNumWakeupEvents. induction n as [|n IH]; intros Hn; [done|].
  rewrite seq_S, for_c_app, IH by lia. destruct (lookup_lt_is_Some_2 evs n) as [ev Hev]; [lia|].
  rewrite Forall_lookup in Hk. destruct (Hk n ev Hev) as [b Hb].
  cbn [for_c mbind option_bind Nat.add]. rewrite Hev. cbn [mbind option_bind]. rewrite Hb. cbn [mbind option_bind].
  rewrite (take_S_r _ _ _ Hev), wakes_snoc, (wakes_up_known c ev b Hb). destruct b; f_equal; lia.
Qed.

(** The event as the framework sees it. *)
Definition tagged (index : nat) (ev : Event) : Event :=
  mk_event (setSubHalIndex (ev_handle ev) index) (ev_type ev) (ev_timestamp ev) (ev_payload ev).

Lemma process_spec c index evs :
  Forall (fun ev => known c (tagged index ev)) evs ->
  processEvents c index evs = Some (map (tagged index) evs, wakes c (map (tagged index) evs)).
Proof.
  intros Hk. unfold processEvents.
  assert (forall acc k, k = wakes c acc -> for_c evs (acc, k) (fun ev acc =>
    let ev := mk_event (setSubHalIndex (ev_handle ev) index) (ev_type ev) (ev_timestamp ev) (ev_payload ev) in
    w ← is_wakeup c ev; Some (acc.1 ++ [ev], if (w : bool) then acc.2 + 1 else acc.2)) =
    Some (acc ++ map (tagged index) evs, wakes c (acc ++ map (tagged index) evs))) as Hgen; [|by apply (Hgen [])].
  induction Hk as [|ev evs [b Hb] Hk IH]; intros acc k ->; cbn [for_c map]; [by rewrite app_nil_r|].
  fold (tagged index ev). rewrite Hb. cbn [mbind option_bind fst snd].
  rewrite (IH (acc ++ [tagged index ev])).
  - by rewrite <- app_assoc.
  - rewrite wakes_snoc, (wakes_up_known _ _ _ Hb). destruct b; lia.
Qed.

Lemma process_known c index evs r :
  processEvents c index evs = Some r -> Forall (fun ev => known c (tagged index ev)) evs.
Proof.
  unfold processEvents. generalize (@nil Event, 0). induction evs as [|ev evs IH]; intros acc Hr; [constructor|].
  cbn [for_c] in Hr. fold (tagged index ev) in Hr. destruct (is_wakeup c (tagged index ev)) as [b|] eqn:Hb; [|done].
  constructor; [by exists b|]. cbn [mbind option_bind] in Hr. by eapply IH.
Qed.

Lemma run_sides p v : wf p v -> mThreadsRun (conn p) = true ->
  initializer (thr p) = IIdle /\ event_side (conn p) = true /\ wake_side (conn p) = true.
Proof.
  intros [_ _ _ _ _ Hp _ _ _] Hr. unfold phase_ok in Hp. destruct (initializer (thr p)); cbn in Hp; rewrite Hr in Hp;
    try (by destruct_and? Hp). split; [done|]. destruct Hp as [[_ Hp]|[[? _] _]]; done.
Qed.

Lemma run_conn p v : wf p v -> mThreadsRun (conn p) = true ->
  initializer (thr p) = IIdle /\ mEventQueue (conn p) = true /\ mEventQueueFlag (conn p) = true.
Proof.
  intros Hw Hr. destruct (run_sides p v Hw Hr) as (? & He & _). split; [done|]. by apply andb_true_iff in He.
Qed.

Lemma view_logged e p : view_of (logged e p) = observe (cfg p) (view_of p) e.
Proof. unfold view_of, logged. cbn [cfg log]. by rewrite replay_more. Qed.

(** Giving the framework events while nothing is pending. *)
Lemma written_keeps evs x p :
  wf p (view_of p) -> owes p (view_of p) (wakes (cfg p) evs + x) -> mPendingWriteEventsQueue (que p) = [] ->
  0 <= x -> wf (logged (Written evs) p) (view_of (logged (Written evs) p)) /\
  owes (logged (Written evs) p) (view_of (logged (Written evs) p)) x.
Proof.
  intros [H1 H2 H3 H4 H5 H6 H7 H8 H9] Ho Hq Hx. rewrite view_logged. destruct (view_of p) as [held taken un hon tm now acc del]. cbn in *.
  assert (pend p = []) as Hp by (unfold pend, all_pending; rewrite Hq; cbn; by rewrite drop_nil).
  split.
  - split; try done. cbn. change (pend (logged _ p)) with (pend p). rewrite Hp, app_nil_r in *. by rewrite H7.
  - intros R1 R2 R3. cbn in R2, R3. destruct (Ho R1 R2 R3) as [Hu Hc]. cbn in Hu, Hc.
    change (0 <= un + wakes (cfg p) evs /\ mWakelockRefCount (wk p) = fresh p + wakes (cfg p) (pend p) + (un + wakes (cfg p) evs) + x).
    pose proof (wakes_nonneg (cfg p) evs). lia.
Qed.

Lemma neutral_logged e p : (forall v, observe (cfg p) v e = v) -> neutral p (logged e p).
Proof. intros He. split_and!; try done. by rewrite view_logged, He. Qed.

(** Putting events behind the pending ones. *)
Definition enqueued (evs : list Event) (k m : Z) (p : proxy) : proxy :=
  mk_proxy (cfg p) (conn p)
    (mk_queue (mPendingWriteEventsQueue (que p) ++ [(evs, k)])
       (mSizePendingWriteEventsQueue (que p) + Z.of_nat (length evs)) m)
    (wk p) (woken_writer (thr p)) (scoped p) (log p ++ [Queued evs]).

Lemma in_flight_le p v : wf p v -> (in_flight (writer (thr p)) <= length (all_pending (que p)))%nat.
Proof.
  intros [(_ & _ & _ & Hpc) _ _ _ _ _ _ _ _]. unfold in_flight. destruct (writer (thr p)); try lia.
  destruct Hpc as (evs & w & rest & Hq & Hn & _). unfold all_pending. rewrite Hq. cbn. rewrite length_app. lia.
Qed.

Lemma enqueued_keeps evs m p :
  wf p (view_of p) -> owes p (view_of p) (wakes (cfg p) evs) -> evs <> [] -> Forall (known (cfg p)) evs ->
  mThreadsRun (conn p) = true ->
  mSizePendingWriteEventsQueue (que p) + Z.of_nat (length evs) <= kMaxSizePendingWriteEventsQueue ->
  let p' := enqueued evs (wakes (cfg p) evs) m p in wf p' (view_of p') /\ account p' (view_of p').
Proof.
  intros Hw Ho Hne Hk Hrun Hsize. cbv zeta. set (p' := enqueued _ _ _ _).
  pose proof (in_flight_le p _ Hw) as Hfl. pose proof (run_sides p _ Hw Hrun) as (Hidle & Hq & Hf).
  assert (all_pending (que p') = all_pending (que p) ++ evs) as Hall.
  { unfold all_pending, p', enqueued. cbn. rewrite fmap_app, concat_app. cbn. by rewrite app_nil_r. }
  assert (pend p' = pend p ++ evs) as Hpend.
  { unfold pend. rewrite Hall.
    assert (in_flight (writer (thr p')) = in_flight (writer (thr p))) as -> by (cbn; by destruct (writer (thr p))).
    by rewrite drop_app_le by lia. }
  assert (view_of p' = observe (cfg p) (view_of p) (Queued evs)) as Hv.
  { unfold view_of, p', enqueued. cbn [cfg log]. by rewrite replay_more. }
  rewrite Hv. destruct Hw as [(Hq1 & Hq2 & Hq3 & Hq4) H2 H3 H4 H5 H6 H7 H8 H9].
  destruct (view_of p) as [held taken un hon tm now acc del]. cbn in H2, H3, H4, H5, H7. split.
  - split; try done; cbn.
    + split; [|split; [|split]]; cbn.
      * apply Forall_app_2; [done|]. by repeat constructor.
      * change (mSizePendingWriteEventsQueue (que p) + Z.of_nat (length evs) = Z.of_nat (length (all_pending (que p')))).
        rewrite Hall, length_app, Hq2. lia.
      * done.
      * cbn in Hq4. destruct (writer (thr p)); try done; destruct Hq4 as (l & w & rest & Hl & Hn & Hkk);
          unfold writing; cbn; rewrite Hl; by exists l, w, (rest ++ [(evs, wakes (cfg p) evs)]).
    + unfold phase_ok. change (initializer (thr p')) with (initializer (thr p)). rewrite Hidle. by left.
    + rewrite Hpend, app_assoc. by rewrite H7.
  - intros R1 R2 R3. cbn in R2, R3. destruct (Ho R1 R2 R3) as [Hu Hc]. cbn in Hu, Hc. cbn. split; [done|].
    rewrite Hpend, wakes_app. change (fresh p') with (fresh p). lia.
Qed.

(** A post in progress: [x] is owed for the events it still holds. *)
Definition midway (p p1 : proxy) (x : Z) : Prop :=
  cfg p1 = cfg p /\ conn p1 = conn p /\ que p1 = que p /\ v_taken (view_of p) <= v_taken (view_of p1) /\
  (bounded p1 -> wf p1 (view_of p1) /\ owes p1 (view_of p1) x).

Lemma midway_neutral p p1 p2 x : midway p p1 x -> neutral p1 p2 -> conn p2 = conn p1 -> midway p p2 x.
Proof.
  intros (Hc & Hcn & Hq & Ht & Hb) Hn Hcn2. pose proof Hn as (Hc2 & Hq2 & Hw2 & Ht2 & Hs2 & _ & _ & _ & Hv2).
  split_and!; try congruence. unfold bounded. rewrite Hv2. intros Hbd. destruct (Hb Hbd) as [Hw Ho].
  assert (pend p2 = pend p1) as Hpend by (unfold pend; by rewrite Hq2, Ht2).
  assert (fresh p2 = fresh p1) as Hfr by (unfold fresh; by rewrite Hw2, Hs2).
  destruct Hw as [H1 H2 H3 H4 H5 H6 H7 H8 H9]. split.
  - split; rewrite ?Hc2, ?Hq2, ?Ht2, ?Hw2, ?Hs2, ?Hpend; try done.
    unfold phase_ok in *. by rewrite Hcn2, Ht2, Hw2, Hq2, Hfr.
  - unfold owes in *. by rewrite Hcn2, Hw2, Hfr, Hc2, Hpend.
Qed.

Lemma ok_asked q p Q : Q (answer (log p) q) (logged (Asked q (answer (log p) q)) p) -> ok p (ask answer q) Q.
Proof. done. Qed.

Lemma ok_emit e p Q : Q tt (logged e p) -> ok p (emit e) Q.
Proof. done. Qed.

Lemma take_count_spec (num : Z) (locked : bool) p :
  clock_ok -> inv p -> 0 <= num -> (locked = true \/ num = 0) ->
  ok p (if locked then t ← incrementRefCountAndMaybeAcquireWakelock answer num; mret (bool_decide (is_Some t)) else mret true)
    (fun b p1 => midway p p1 (if (b : bool) then num else 0) /\ ((b : bool) = true -> bounded p1 -> num < 2 ^ 64)).
Proof.
  intros Hck [Hw Ha] Hnum Hl. destruct locked.
  - apply ok_bind. eapply ok_mono; [by apply inc_keeps|]. cbv beta. intros r p1 (Hs & Hr & Hw1 & Hcase).
    apply ok_ret. pose proof Hs as (Hcf & Hcn & Hq & _ & _ & _ & _ & _ & Htk). destruct r as [now|].
    + destruct Hcase as (_ & _ & _ & Htaken & Hcount). rewrite bool_decide_true by done. split.
      * split_and!; try done. intros Hb. split; [by apply Hw1|].
        apply (steady_owes p p1 0 num); [done|done|by apply Hcount|done].
      * intros _. unfold bounded. rewrite Htaken. pose proof (w_count _ _ Hw). lia.
    + rewrite bool_decide_false by (by intros [? ?]). split; [|done]. split_and!; try done.
      intros Hb. split; [by apply Hw1|]. apply (steady_owes p p1 0 0); [done|done|lia|done].
  - destruct Hl as [?| ->]; [done|]. apply ok_ret. split; [|done]. split_and!; try done.
Qed.

(** The direct write: how many events went, and what is still owed. *)
Lemma write_some_spec evs p p1 :
  wf p (view_of p) -> mThreadsRun (conn p) = true -> midway p p1 (wakes (cfg p) evs) ->
  ok p1 (write_direct answer evs)
    (fun n p2 => (n <= length evs)%nat /\ v_taken (view_of p1) <= v_taken (view_of p2) /\
                 midway p p2 (wakes (cfg p) (drop n evs))).
Proof.
  intros Hw Hrun Hm. pose proof (run_conn p _ Hw Hrun) as (_ & Heq & Hflag).
  unfold write_direct. apply ok_bind, ok_gets, ok_bind, ok_gets. pose proof Hm as (_ & Hcn1 & _). rewrite Hcn1, Heq, Hflag.
  destruct (mPendingWriteEventsQueue (que p1)) as [|e l] eqn:Hq; [|apply ok_ret; split_and!; [lia|lia|apply Hm..]].
  apply ok_bind. eapply ok_lift; [done|]. apply ok_bind, ok_asked. cbv zeta.
  set (avail := answer (log p1) QAvailable). set (p2 := logged (Asked QAvailable avail) p1).
  assert (midway p p2 (wakes (cfg p) evs)) as Hm2 by (apply (midway_neutral p p1); [done|apply neutral_logged; by intros []|done]).
  set (n := Z.to_nat (Z.min (Z.of_nat (length evs)) avail)).
  assert (v_taken (view_of p2) = v_taken (view_of p1)) as Hk2 by (unfold p2; rewrite view_logged; by destruct (view_of p1)).
  destruct (0 <? n)%nat eqn:Hn; [|apply ok_ret; split; [lia|]; split; [lia|done]].
  assert (n <= length evs)%nat as Hle by (unfold n; lia).
  apply ok_bind, ok_asked. set (p3 := logged _ p2).
  assert (midway p p3 (wakes (cfg p) evs)) as Hm3 by (apply (midway_neutral p p2); [done|apply neutral_logged; by intros []|done]).
  assert (v_taken (view_of p3) = v_taken (view_of p2)) as Hk3 by (unfold p3; rewrite view_logged; by destruct (view_of p2)).
  destruct (negb _); [|apply ok_ret; split; [lia|]; split; [lia|done]].
  apply ok_bind. eapply ok_lift; [done|]. apply ok_bind, ok_emit, ok_ret. split; [done|].
  destruct Hm3 as (Hc & Hcn & Hqu & Ht & Hb).
  assert (v_taken (view_of (logged (Written (take n evs)) p3)) = v_taken (view_of p3)) as Htk.
  { rewrite view_logged. by destruct (view_of p3). }
  split; [lia|]. split_and!; try done; [by rewrite Htk|]. unfold bounded at 1. rewrite Htk. intros Hbd. destruct (Hb Hbd) as [Hw3 Ho3].
  rewrite <- Hc. rewrite <- Hc in Ho3. apply written_keeps; [done| |done|apply wakes_nonneg].
  by rewrite (wakes_split (cfg p3) n evs) in Ho3.
Qed.

(** Giving back what a post still owes, when it cannot keep its events. *)
Lemma give_back_leads p p1 d x :
  midway p p1 x -> 0 <= d -> (bounded p1 -> d = x) ->
  ok p1 (decrementRefCountAndMaybeReleaseWakelock d (- 1)) (fun _ p' => leads p p').
Proof.
  intros (Hc & _ & _ & Ht & Hb) Hd Hdx. destruct (dec_run d (- 1) p1) as (w & evs & Hrun & Hcase).
  assert (v_taken (view_of (touch p1 w evs)) = v_taken (view_of p1)) as Htk.
  { unfold view_of, touch. cbn [cfg log]. rewrite replay_more. cbv zeta in Hcase.
    destruct Hcase as [(_ & _ & ->)|(_ & _ & _ & ->)]; [done|]. destruct (_ =? 0), (replay _ _ _); done. }
  unfold ok. rewrite Hrun. split; [done|]. split; [lia|]. unfold bounded. rewrite Htk. intros Hbd.
  destruct (Hb Hbd) as [Hw Ho]. rewrite <- (Hdx Hbd) in Ho.
  destruct (ok_result _ _ _ _ _ (dec_owes d 0 p1 Hw Hd ltac:(lia) Ho) Hrun) as (Hw' & _ & Ho'). by split.
Qed.

Lemma post_queue_leads evs num locked p :
  clock_ok -> inv p -> Forall (known (cfg p)) evs -> num = wakes (cfg p) evs -> (locked = true \/ num = 0) ->
  ok p (postEventsToMessageQueue answer evs num locked) (fun _ p' => leads p p').
Proof.
  intros Hck Hi Hk -> Hl. unfold postEventsToMessageQueue. apply ok_bind, ok_gets.
  destruct (mThreadsRun (conn p)) eqn:Hrun; cbn [negb]; [|by apply ok_ret, leads_refl].
  apply ok_bind. eapply ok_mono; [apply take_count_spec; [done|done|apply wakes_nonneg|done]|]. cbv beta.
  intros b p1 [Hm1 Hsmall]. destruct b; cbn [negb].
  2: { apply ok_ret. destruct Hm1 as (Hc & _ & _ & Ht & Hb). by split_and!. }
  apply ok_bind. eapply ok_mono; [by apply (write_some_spec _ p); [apply Hi|..]|]. cbv beta.
  intros n p2 (Hn & Htk & Hm2). apply ok_bind, ok_gets. pose proof Hm2 as (Hc2 & Hcn2 & Hq2 & Ht2 & Hb2). rewrite Hc2.
  apply ok_bind. eapply ok_lift; [by apply count_spec|]. cbv zeta.
  destruct (_ =? 0) eqn:Hz; zb.
  { apply ok_ret. split_and!; try done. intros Hb. destruct (Hb2 Hb) as [Hw Ho].
    rewrite drop_ge in Ho by lia. by split. }
  set (left_ := wakes (cfg p) evs - wakes (cfg p) (take n evs)).
  assert (left_ = wakes (cfg p) (drop n evs)) as Hleft by (unfold left_; rewrite (wakes_split _ n evs); lia).
  assert (bounded p2 -> u64 left_ = wakes (cfg p) (drop n evs)) as Hwrap.
  { intros Hb. rewrite Hleft. apply wrap_small. split; [apply wakes_nonneg|].
    specialize (Hsmall eq_refl (bounded_before _ _ Htk Hb)). rewrite (wakes_split _ n evs) in Hsmall.
    pose proof (wakes_nonneg (cfg p) (take n evs)). lia. }
  apply ok_bind, ok_gets. rewrite Hq2. destruct (_ <=? _) eqn:Hsz; zb.
  - apply ok_bind, ok_modify, ok_bind, ok_bind, ok_gets, ok_modify, ok_emit. unfold logged. cbn [cfg conn que wk thr scoped log].
    replace (Z.of_nat (length evs) - Z.of_nat n) with (Z.of_nat (length (drop n evs))) in * by (rewrite length_drop; lia).
    rewrite <- Hq2. set (m := Z.max _ _). fold (enqueued (drop n evs) (u64 left_) m p2).
    assert (v_taken (view_of (enqueued (drop n evs) (u64 left_) m p2)) = v_taken (view_of p2)) as Hk2.
    { unfold view_of, enqueued. cbn [cfg log]. rewrite replay_more. by destruct (replay _ _ _). }
    split; [done|]. split; [lia|]. unfold bounded. rewrite Hk2. intros Hb. destruct (Hb2 Hb) as [Hw Ho].
    rewrite (Hwrap Hb), <- Hc2 in *. apply enqueued_keeps; try done; [|by apply Forall_drop|by rewrite Hcn2|by rewrite Hq2].
    intros Hnil. by rewrite Hnil in Hz.
  - apply ok_bind, ok_emit. set (p3 := logged _ p2).
    assert (midway p p3 (wakes (cfg p) (drop n evs))) as Hm3 by (apply (midway_neutral p p2); [done|apply neutral_logged; by intros []|done]).
    apply (give_back_leads p p3 (u64 left_) (wakes (cfg p) (drop n evs)) Hm3); [apply u64_range|].
    unfold bounded, p3. rewrite view_logged. intros Hb. apply Hwrap. unfold bounded. by destruct (view_of p2).
Qed.

Lemma postEvents_leads index evs locked p :
  clock_ok -> inv p -> Forall (fun ev => known (cfg p) (tagged index ev)) evs ->
  ok p (postEvents answer index evs locked) (fun _ p' => leads p p').
Proof.
  intros Hck Hi Hk. unfold postEvents. destruct evs as [|ev evs]; [by apply ok_ret, leads_refl|].
  apply ok_bind, ok_gets. destruct (mThreadsRun (conn p)); cbn [negb]; [|by apply ok_ret, leads_refl].
  apply ok_bind, ok_gets, ok_bind. eapply ok_lift; [by apply process_spec|]. cbv beta iota.
  destruct (_ && _) eqn:Hg; [by apply ok_ret, leads_refl|].
  apply post_queue_leads; [done|done|by apply Forall_map|done|].
  pose proof (wakes_nonneg (cfg p) (map (tagged index) (ev :: evs))). destruct locked; [by left|right].
  cbn [negb] in Hg. rewrite andb_true_r in Hg. zb. lia.
Qed.

(** A post of an event of a sensor that is not listed does not return. *)
Lemma postEvents_known index evs locked p p' :
  mThreadsRun (conn p) = true -> postEvents answer index evs locked p = Some (tt, p') ->
  Forall (fun ev => known (cfg p) (tagged index ev)) evs.
Proof.
  unfold postEvents. destruct evs as [|ev evs]; [constructor|]. unfold mbind at 1 2, M_bind at 1 2, gets.
  intros -> Hr. cbn [negb] in Hr. unfold mbind at 1, M_bind at 1, lift in Hr.
  destruct (processEvents (cfg p) index (ev :: evs)) eqn:Hp; [|done]. by eapply process_known.
Qed.

Lemma postEvents_stopped index evs locked p :
  mThreadsRun (conn p) = false -> postEvents answer index evs locked p = Some (tt, p).
Proof.
  intros Hrun. unfold postEvents. destruct evs; [done|]. unfold mbind at 1, M_bind at 1, gets. by rewrite Hrun.
Qed.

(** ** The threads *)

Lemma thr_keeps t p :
  inv p -> in_flight (writer t) = in_flight (writer (thr p)) -> queue_ok (cfg p) (que p) (writer t) ->
  phase_ok (with_thr t p) -> (waker t = KWaiting -> mWakelockRefCount (wk p) = 0) -> inv (with_thr t p).
Proof.
  intros [[H1 H2 H3 H4 H5 H6 H7 H8 H9] Ha] Hf Hq Hp Hk.
  assert (pend (with_thr t p) = pend p) as Hpend by (unfold pend; cbn [thr que with_thr]; by rewrite Hf).
  split; [split; try done; by rewrite Hpend|]. intros R1 R2 R3. destruct (Ha R1 R2 R3). by rewrite Hpend.
Qed.

(** While a thread runs, initialize is idle or waits for it; and a thread starts to
    wait only while the proxy runs. *)
Lemma phase_active p p' :
  phase_ok p -> ~ stopped (thr p) -> conn p' = conn p -> initializer (thr p') = initializer (thr p) ->
  (writer (thr p') = WWaiting -> writer (thr p) = WWaiting \/ mThreadsRun (conn p) = true) ->
  (waker (thr p') = KWaiting -> waker (thr p) = KWaiting \/ mThreadsRun (conn p) = true) -> phase_ok p'.
Proof.
  unfold phase_ok, awake. intros Hp Hs -> -> Hw Hk. destruct (initializer (thr p)); try tauto.
  destruct Hp as [Hr [? ?]]. rewrite Hr in Hw, Hk. split; [done|]. split; intros E; naive_solver.
Qed.

Lemma leads_thr t p p1 :
  leads p p1 -> (inv p1 -> inv (with_thr t p1)) -> leads p (with_thr t p1).
Proof. intros (Hc & Ht & Hb) Hk. split; [done|]. split; [done|]. intros Hbd. by apply Hk, Hb. Qed.

Lemma writer_section_leads p :
  inv p -> writer (thr p) = WTop -> ok p (writer_section answer) (fun _ p' => leads p p').
Proof.
  intros Hi Hpc. pose proof Hi as [Hw _]. pose proof Hw as [(Hq1 & Hq2 & Hq3 & _) _ _ _ _ Hph _ _ _].
  assert (~ stopped (thr p)) as Hs by (intros [? _]; congruence).
  unfold writer_section. apply ok_bind, ok_gets. destruct (mThreadsRun (conn p)) eqn:Hrun; cbn [negb].
  2: { apply ok_bind, ok_gets, ok_modify, leads_thr; [by apply leads_refl|]. intros _.
       apply thr_keeps; [done|by rewrite Hpc|done| |apply Hw]. apply (phase_active p); try done. by left. }
  apply ok_bind, ok_gets. destruct (mPendingWriteEventsQueue (que p)) as [|[evs w] rest] eqn:Hq.
  { apply ok_bind, ok_gets, ok_modify, leads_thr; [by apply leads_refl|]. intros _.
    apply thr_keeps; [done|by rewrite Hpc| | |apply Hw]; [by split_and!; try apply Hw|].
    apply (phase_active p); try done; by right. }
  destruct (run_sides p _ Hw Hrun) as (_ & Hev & _). unfold event_side in Hev. rewrite Hev. apply ok_bind. eapply ok_lift; [done|].
  apply ok_bind, ok_asked. set (p1 := logged _ p). set (n := Z.to_nat _).
  assert (neutral p p1) as Hn by (apply neutral_logged; by intros []).
  assert (n <= length evs)%nat as Hle by (unfold n; lia).
  apply ok_bind, ok_gets, ok_bind. apply Forall_cons_1 in Hq1 as [(_ & Hk & _) _].
  eapply ok_lift; [by apply count_spec|]. apply ok_bind, ok_gets, ok_modify, leads_thr; [by apply leads_neutral|].
  intros Hi1. apply thr_keeps; [done|cbn; by rewrite Hpc| |apply (phase_active p); try done; by left|apply Hw].
  destruct Hw as [(? & ? & ? & _) _ _ _ _ _ _ _ _]. split; [done|]. split; [done|]. split; [done|]. by exists evs, w, rest.
Qed.

(** The front of the pending events while the writer is at work on it. *)
Lemma writing_front p n k :
  wf p (view_of p) -> (writer (thr p) = WWriting n k \/ writer (thr p) = WWrote n k) ->
  exists evs rest, mPendingWriteEventsQueue (que p) = (evs, wakes (cfg p) evs) :: rest /\ evs <> [] /\
    Forall (known (cfg p)) evs /\ (n <= length evs)%nat /\ k = wakes (cfg p) (take n evs) /\
    all_pending (que p) = evs ++ concat rest.*1.
Proof.
  intros [(Hq1 & _ & _ & Hpc) _ _ _ _ _ _ _ _] Hw.
  assert (writing (cfg p) (que p) n k) as (evs & w & rest & Hq & Hn & Hk) by (by destruct Hw as [Hw|Hw]; rewrite Hw in Hpc).
  rewrite Hq in Hq1. apply Forall_cons_1 in Hq1 as [(Hne & Hkn & Hwk) _]. cbn in Hne, Hkn, Hwk. subst w.
  exists evs, rest. split_and!; try done. unfold all_pending. by rewrite Hq.
Qed.

(** The first [n] pending events are gone, to the framework or for good. *)
Definition moved (n : nat) (k : Z) (e : event) (p : proxy) : proxy :=
  logged e (with_thr (mk_threads (WWrote n k) (waker (thr p)) (initializer (thr p))) p).

Lemma moved_taken n k (given : bool) evs p :
  v_taken (view_of p) <= v_taken (view_of (moved n k (if given then Flushed evs else Dropped evs) p)).
Proof.
  unfold moved. rewrite view_logged. change (view_of (with_thr _ p)) with (view_of p).
  destruct given, (view_of p); cbn; lia.
Qed.

Lemma moved_keeps n k (given : bool) evs rest w p :
  inv p -> writer (thr p) = WWriting n k -> mPendingWriteEventsQueue (que p) = (evs, w) :: rest ->
  let p' := moved n k (if given then Flushed (take n evs) else Dropped (take n evs)) p in
  wf p' (view_of p') /\ owes p' (view_of p') (if given then 0 else k).
Proof.
  intros [Hw Ha] Hpc Hq p'. destruct (writing_front p n k Hw (or_introl Hpc)) as (evs' & rest' & Hq' & _ & _ & Hn & Hk & Hall).
  rewrite Hq in Hq'. injection Hq' as <- -> <-.
  pose proof Hw as [H1 H2 H3 H4 H5 H6 H7 H8 H9].
  assert (pend p = take n evs ++ pend p') as Hpend.
  { unfold pend, p', moved. cbn [thr que logged with_thr writer]. rewrite Hpc, Hall. cbn [in_flight]. rewrite drop_0, drop_app_le by done.
    by rewrite app_assoc, take_drop. }
  assert (~ stopped (thr p)) as Hs by (intros [? _]; congruence).
  unfold p' at 2 4, moved. rewrite view_logged. change (view_of (with_thr _ p)) with (view_of p). change (cfg (with_thr _ p)) with (cfg p).
  destruct (view_of p) as [held taken un hon tm now acc del]. cbn in H2, H3, H4, H5, H7. split.
  - rewrite Hpc in H1. destruct given; split; cbn; try done; [apply (phase_active p); auto; done| |apply (phase_active p); auto; done|];
      by rewrite H7, Hpend, app_assoc.
  - unfold account, owes in Ha. rewrite Hpend, wakes_app in Ha. cbn in Ha. pose proof (wakes_nonneg (cfg p) (take n evs)).
    intros R1 R2 R3. change (mThreadsRun (conn p) = true) in R1. destruct given; cbn in R2, R3; destruct (Ha R1 R2 R3) as [Hu Hc];
      cbn; change (fresh p') with (fresh p); lia.
Qed.

Lemma writer_wrote_leads n k success p :
  inv p -> writer (thr p) = WWriting n k -> ok p (writer_wrote n k success) (fun _ p' => leads p p').
Proof.
  intros Hi Hpc. destruct (writing_front p n k (proj1 Hi) (or_introl Hpc)) as (evs & rest & Hq & _ & _ & Hn & Hk & _).
  pose proof (moved_keeps n k success evs rest _ p Hi Hpc Hq) as [Hw Ho].
  unfold writer_wrote. apply ok_bind, ok_gets, ok_bind. eapply ok_lift; [by rewrite Hq|].
  apply ok_bind, ok_bind, ok_gets, ok_modify. destruct success.
  - apply ok_emit. match goal with |- leads p ?q => change q with (moved n k (Flushed (take n evs)) p) end.
    split; [done|]. split; [|done]. apply (moved_taken n k true).
  - apply ok_bind, ok_emit. match goal with |- ok ?q _ _ => change q with (moved n k (Dropped (take n evs)) p) end.
    eapply ok_mono; [apply (dec_owes k 0); [done|rewrite Hk; apply wakes_nonneg|lia|done]|]. cbv beta.
    intros _ p' (Hw' & Hs & Ho'). split; [apply Hs|]. split; [|done].
    etransitivity; [|apply Hs]. apply (moved_taken n k false).
Qed.

Lemma writer_after_leads n k p :
  inv p -> writer (thr p) = WWrote n k -> ok p (writer_after n k) (fun _ p' => leads p p').
Proof.
  intros [Hw Ha] Hpc. destruct (writing_front p n k Hw (or_intror Hpc)) as (evs & rest & Hq & Hne & Hkn & Hn & Hk & Hall).
  pose proof Hw as [(Hq1 & Hq2 & Hq3 & _) H2 H3 H4 H5 H6 H7 H8 H9].
  unfold writer_after. apply ok_bind, ok_gets. rewrite Hq. apply ok_bind, ok_modify, ok_bind, ok_gets, ok_modify.
  set (p' := mk_proxy _ _ _ _ _ _ _). split; [done|]. split; [apply Z.le_refl|]. intros _.
  rewrite Hq in Hq1. apply Forall_cons_1 in Hq1 as [_ Hq1].
  assert (all_pending (que p') = drop n (all_pending (que p))) as Hall'.
  { rewrite Hall, drop_app_le by done. unfold all_pending, p'. cbn [que mPendingWriteEventsQueue]. destruct (n <? length evs)%nat eqn:Hlt; [reflexivity|].
    apply Nat.ltb_ge in Hlt. by rewrite (drop_ge evs n Hlt). }
  assert (pend p' = pend p) as Hpend by (unfold pend; rewrite Hall', Hpc; apply drop_0).
  assert (Forall (entry_ok (cfg p)) (mPendingWriteEventsQueue (que p'))) as He.
  { cbn [p' que mPendingWriteEventsQueue]. destruct (n <? length evs)%nat eqn:Hlt; [|exact Hq1]. apply Nat.ltb_lt in Hlt. constructor; [|exact Hq1].
    split; cbn; [|split; [by apply Forall_drop|]].
    - intros Hd. apply (f_equal length) in Hd. rewrite length_drop in Hd. cbn in Hd. lia.
    - rewrite Hk, (wakes_split (cfg p) n evs), Z.add_simpl_l. apply wrap_small. split; [apply wakes_nonneg|].
      pose proof (countb_le (wakes_up (cfg p)) (drop n evs)) as Hle. unfold wakes. rewrite length_drop in Hle.
      rewrite Hq2, Hall, length_app in Hq3. unfold kMaxSizePendingWriteEventsQueue in Hq3. lia. }
  split; [|intros R1 R2 R3; destruct (Ha R1 R2 R3); by rewrite Hpend].
  split; try done.
  - split; [done|]. split; [|split; [|done]]; [|cbn; lia]. rewrite Hall', length_drop. cbn.
    rewrite Hq2, Hall, length_app. lia.
  - apply (phase_active p); auto; [intros [? _]; congruence|done].
  - by rewrite Hpend.
Qed.

(** Reading the clock. *)
Lemma now_keeps p x :
  clock_ok -> wf p (view_of p) -> owes p (view_of p) x ->
  let p' := logged (Asked QNow (answer (log p) QNow)) p in
  wf p' (view_of p') /\ owes p' (view_of p') x /\ v_taken (view_of p') = v_taken (view_of p).
Proof.
  intros [_ Hclock] [H1 H2 H3 H4 H5 H6 H7 H8 H9] Ho. cbv zeta. specialize (Hclock (cfg p) (log p)). fold (view_of p) in Hclock.
  rewrite view_logged. destruct (view_of p) as [held taken un hon tm now acc del]. cbn in *.
  split; [split; cbn; try done; [lia|eapply Forall_impl; [exact H5|cbn; lia]]|done].
Qed.

Lemma waker_moves p pc :
  ~ stopped (thr p) -> inv p -> (pc = KWaiting -> mThreadsRun (conn p) = true /\ mWakelockRefCount (wk p) = 0) ->
  inv (with_thr (mk_threads (writer (thr p)) pc (initializer (thr p))) p).
Proof.
  intros Hs Hi Hk. apply thr_keeps; [done|done|apply Hi| |naive_solver].
  apply (phase_active p); auto; [apply Hi|naive_solver].
Qed.

Lemma waker_section_leads p :
  clock_ok -> inv p -> waker (thr p) = KTop -> ok p (waker_section answer) (fun _ p' => leads p p').
Proof.
  intros Hck Hi Hpc. pose proof Hi as [Hw Ha]. assert (~ stopped (thr p)) as Hs by (intros [_ ?]; congruence).
  unfold waker_section. apply ok_bind, ok_gets. destruct (mThreadsRun (conn p)) eqn:Hrun; cbn [negb].
  2: { apply ok_bind. eapply ok_mono; [by apply reset_keeps|]. cbv beta. intros _ p1 (Hw1 & Hst & _ & _).
       pose proof Hst as (Hc & Hcn & _ & Ht & _ & _ & _ & _ & Htk). apply same_threads_eq in Ht; [|by rewrite Hpc].
       apply ok_bind, ok_gets, ok_modify.
       split; [done|]. split; [done|]. intros _. apply waker_moves; [by rewrite Ht| |done]. split; [done|].
       intros R. by rewrite Hcn, Hrun in R. }
  apply ok_bind, ok_gets. destruct (_ =? 0) eqn:Hz; zb.
  { apply ok_bind, ok_gets, ok_modify, leads_thr; [by apply leads_refl|]. intros _. by apply waker_moves. }
  apply ok_bind. unfold sharedWakelockDidTimeout. apply ok_bind, ok_asked, ok_bind, ok_gets, ok_ret.
  destruct (now_keeps p 0 Hck Hw Ha) as (Hw1 & Ho1 & Htk1). set (p1 := logged _ p) in *.
  destruct (_ <? _).
  - apply ok_bind, ok_emit, ok_bind. set (p2 := logged TimedOut p1).
    assert (wf p2 (view_of p2) /\ v_timeout (view_of p2) = true /\ v_taken (view_of p2) = v_taken (view_of p1)) as (Hw2 & Hto & Htk2).
    { unfold p2. rewrite view_logged. destruct Hw1 as [H1 H2 H3 H4 H5 H6 H7 H8 H9].
      destruct (view_of p1). split; [by split|done]. }
    eapply ok_mono; [by apply (reset_keeps p2)|]. cbv beta. intros _ p3 (Hw3 & Hst & _ & _).
    pose proof Hst as (Hc & _ & _ & Ht & _ & _ & Hto3 & _ & Htk3). apply same_threads_eq in Ht; [|cbn; by rewrite Hpc].
    apply ok_bind, ok_gets, ok_modify.
    split; [done|]. split; [change (v_taken (view_of p) <= v_taken (view_of p3)); lia|].
    intros _. apply waker_moves; [by rewrite Ht| |done]. split; [done|]. intros _ R. congruence.
  - destruct (run_sides p _ Hw Hrun) as (_ & _ & Hws). unfold wake_side in Hws. rewrite Hws. apply ok_bind.
    eapply ok_lift; [done|].
    apply ok_bind, ok_gets, ok_modify. split; [done|]. split; [change (v_taken (view_of p) <= v_taken (view_of p1)); lia|].
    intros _. by apply waker_moves.
Qed.

Lemma waker_read_leads o p :
  inv p -> waker (thr p) = KReading -> (forall n, o = Some n -> is_u32 n) ->
  ok p (waker_read o) (fun _ p' => leads p p').
Proof.
  intros Hi Hpc Ho. pose proof Hi as [Hw Ha]. assert (~ stopped (thr p)) as Hs by (intros [_ ?]; congruence).
  unfold waker_read. destruct o as [n|].
  2: { apply ok_bind, ok_ret, ok_bind, ok_gets, ok_modify, leads_thr; [by apply leads_refl|]. intros _. by apply waker_moves. }
  specialize (Ho n eq_refl). apply ok_bind, ok_bind, ok_emit. set (p1 := logged (Acked n) p).
  assert (wf p1 (view_of p1) /\ owes p1 (view_of p1) (0 + n) /\ v_taken (view_of p1) = v_taken (view_of p)) as (Hw1 & Ho1 & Htk1).
  { unfold p1. rewrite view_logged. destruct Hw as [H1 H2 H3 H4 H5 H6 H7 H8 H9]. unfold account, owes in Ha.
    destruct (view_of p) as [held taken un hon tm now acc del]. split; [by split|]. split; [|done].
    intros R1 R2 R3. cbn in R1, R2, R3, Ha. apply andb_true_iff in R3 as [R3 Hle]. apply Z.leb_le in Hle.
    destruct (Ha R1 R2 R3) as [Hu Hc]. cbn. change (pend (logged _ p)) with (pend p). change (fresh (logged _ p)) with (fresh p). lia. }
  eapply ok_mono; [apply (dec_owes n 0); [done|apply Ho|lia|done]|]. cbv beta. intros _ p2 (Hw2 & Hst & Ho2).
  pose proof Hst as (Hc & _ & _ & Ht & _ & _ & _ & _ & Htk2). apply same_threads_eq in Ht; [|cbn; by rewrite Hpc].
  apply ok_bind, ok_gets, ok_modify.
  split; [done|]. split; [change (v_taken (view_of p) <= v_taken (view_of p2)); lia|].
  intros _. apply waker_moves; [by rewrite Ht|done|done].
Qed.

(** ** initialize *)

(** Between two phases only the threads, the connection and what is pending change. *)
Definition rephased (cn : connection) (pc : init_pc) (p : proxy) : proxy :=
  mk_proxy (cfg p) cn (que p) (wk p) (mk_threads (writer (thr p)) (waker (thr p)) pc) (scoped p) (log p).

Lemma rephased_leads cn pc p :
  inv p -> (mThreadsRun cn = mThreadsRun (conn p) \/ mThreadsRun cn = false) ->
  phase_ok (rephased cn pc p) -> leads p (rephased cn pc p).
Proof.
  intros [[H1 H2 H3 H4 H5 H6 H7 H8 H9] Ha] Hrun Hp. split; [done|]. split; [apply Z.le_refl|]. intros _.
  split; [by split|]. intros R1 R2 R3. cbn in R1. destruct Hrun as [Hrun|Hrun]; [|congruence].
  rewrite Hrun in R1. apply (Ha R1 R2 R3).
Qed.

Lemma stop_begin_leads rq p :
  inv p -> initializer (thr p) = IIdle -> ok p (stop_begin rq) (fun _ p' => leads p p').
Proof.
  intros Hi Hpc. unfold stop_begin. apply ok_bind, ok_gets, ok_bind, ok_modify, ok_bind, ok_emit, ok_bind, ok_gets, ok_modify.
  set (p' := mk_proxy _ _ _ _ _ _ _).
  change p' with (rephased (set_run false (conn p)) (INotify rq) (logged Stopping p)).
  assert (neutral p (logged Stopping p)) as Hn by (apply neutral_logged; by intros []).
  pose proof (neutral_inv _ _ Hn Hi) as Hi'.
  assert (phase_ok p') as Hp.
  { split; [done|]. pose proof (w_phase _ _ (proj1 Hi)) as Hp. unfold phase_ok in Hp. rewrite Hpc in Hp.
    destruct Hp as [(_ & He)|((_ & Hs) & _)]; [by right|by left]. }
  destruct (rephased_leads (set_run false (conn p)) (INotify rq) _ Hi' (or_intror eq_refl) Hp) as (Hc & Ht & Hb).
  destruct Hn as (_ & _ & _ & _ & _ & _ & _ & _ & Hv). rewrite Hv in Ht. by split_and!.
Qed.

(** Both threads are notified: from here on neither waits. *)
Definition both_woken (t : threads) : threads := woken_writer (woken_waker t).

Lemma both_woken_awake t : awake (both_woken t).
Proof. unfold awake, both_woken. cbn. by destruct (writer t), (waker t). Qed.

Lemma stop_notify_leads rq p :
  inv p -> initializer (thr p) = INotify rq -> ok p (stop_notify rq) (fun _ p' => leads p p').
Proof.
  intros Hi Hpc. unfold stop_notify. apply ok_bind, ok_gets.
  assert (forall b w q, neutral p q -> ok q (if (b : bool) then emit (Woke w) else mret tt) (fun _ q' => neutral p q')) as Hwoke.
  { intros b w q Hn. destruct b; [apply ok_emit|by apply ok_ret].
    eapply neutral_trans; [exact Hn|]. apply neutral_logged. by intros []. }
  apply ok_bind. eapply ok_mono; [apply Hwoke, neutral_refl|]. cbv beta. intros _ p1 Hn1.
  apply ok_bind. eapply ok_mono; [by apply Hwoke|]. cbv beta. intros _ p2 Hn2.
  apply ok_bind, ok_bind, ok_gets, ok_modify, ok_bind, ok_bind, ok_gets, ok_modify, ok_bind, ok_gets, ok_modify.
  set (t := mk_threads _ _ _).
  apply (leads_thr t p p2); [by apply leads_neutral|]. intros Hi2.
  assert (awake t) as Haw by (apply (both_woken_awake (thr p2))).
  destruct Hn2 as (_ & _ & _ & Ht2 & _ & Hr2 & _). pose proof (w_phase _ _ (proj1 Hi)) as Hp.
  unfold phase_ok in Hp. rewrite Hpc in Hp.
  apply thr_keeps; [done|cbn; by destruct (writer (thr p2))| | |intros Hk; by destruct Haw].
  - destruct Hi2 as [[(? & ? & ? & Hq) _ _ _ _ _ _ _ _] _]. split_and!; try done. cbn. by destruct (writer (thr p2)).
  - unfold phase_ok. cbn. rewrite Hr2. split; [apply Hp|done].
Qed.

(** A thread leaves its condition variable. *)
Lemma spurious_leads (b : bool) p :
  inv p -> ok p (if b then notify_writer else notify_waker) (fun _ p' => leads p p').
Proof.
  intros Hi. pose proof Hi as [Hw _]. destruct b; apply ok_bind, ok_gets, ok_modify;
    (apply leads_thr; [by apply leads_refl|]; intros _).
  - assert (writer (thr p) = WWaiting \/ woken_writer (thr p) = thr p) as [Hpc| ->]
      by (destruct (thr p) as [[] ? ?]; auto); [|by rewrite with_thr_id].
    apply thr_keeps; [done|cbn; by rewrite Hpc| | |apply Hw].
    + pose proof (w_queue _ _ Hw) as (? & ? & ? & _). split_and!; try done. cbn. by rewrite Hpc.
    + apply (phase_active p); auto; [apply Hw|intros [? _]; congruence].
  - assert (waker (thr p) = KWaiting \/ woken_waker (thr p) = thr p) as [Hpc| ->]
      by (destruct (thr p) as [? [] ?]; auto); [|by rewrite with_thr_id].
    apply thr_keeps; [done|done|apply Hw| |cbn; by rewrite Hpc].
    apply (phase_active p); auto; [apply Hw|intros [_ ?]; congruence].
Qed.

(** From one phase of initialize to the next. *)
Lemma set_init_leads pc p p1 :
  neutral p p1 -> inv p -> phase_ok (rephased (conn p1) pc p1) ->
  ok p1 (set_init pc) (fun _ p' => leads p p').
Proof.
  intros Hn Hi Hp. apply ok_bind, ok_gets, ok_modify. pose proof (neutral_inv _ _ Hn Hi) as Hi1.
  destruct (rephased_leads (conn p1) pc p1 Hi1 (or_introl eq_refl) Hp) as (Hc & Ht & Hb).
  destruct Hn as (Hc1 & _ & _ & _ & _ & _ & _ & _ & Hv). rewrite Hv in Ht. split; [by rewrite <- Hc1|]. by split.
Qed.

Lemma reset_phase_leads rq p :
  clock_ok -> inv p -> initializer (thr p) = IReset rq ->
  ok p (_ ← resetSharedWakelock answer; set_init (IDisable rq)) (fun _ p' => leads p p').
Proof.
  intros Hck [Hw Ha] Hpc. pose proof (w_phase _ _ Hw) as Hp. unfold phase_ok in Hp. rewrite Hpc in Hp. destruct Hp as [Hr Hst].
  apply ok_bind. eapply ok_mono; [by apply reset_keeps|]. cbv beta. intros _ p1 (Hw1 & Hs & Hz & Hf).
  pose proof Hs as (Hc & Hcn & _ & Ht & _ & _ & _ & _ & Htk). apply same_threads_eq in Ht; [|destruct Hst as [_ ->]; done].
  assert (inv p1) as Hi1 by (split; [done|]; intros R; congruence).
  eapply ok_mono; [apply (set_init_leads _ p1 p1); [apply neutral_refl|done|]|].
  - unfold phase_ok. cbn. rewrite Hcn, Ht. by split_and!.
  - cbv beta. intros _ p2 (Hc2 & Ht2 & Hb2). split; [congruence|]. split; [lia|done].
Qed.

(** The phases that only talk to the sub-HALs. *)
Lemma disable_phase_leads rq p :
  inv p -> initializer (thr p) = IDisable rq ->
  ok p (_ ← disableAllSensors sub; set_init (IClear rq)) (fun _ p' => leads p p').
Proof.
  intros Hi Hpc. apply ok_bind. eapply ok_mono; [apply disableAllSensors_neutral|]. cbv beta. intros _ p1 Hn.
  apply set_init_leads; [done..|]. pose proof (neutral_inv _ _ Hn Hi) as [[_ _ _ _ _ Hp _ _ _] _].
  destruct Hn as (_ & _ & _ & Ht & _). unfold phase_ok in Hp. rewrite Ht, Hpc in Hp.
  unfold phase_ok. cbn. by rewrite Ht.
Qed.

Lemma subhals_phase_leads p :
  inv p -> initializer (thr p) = ISubHals -> ok p (init_subhals sub) (fun _ p' => leads p p').
Proof.
  intros Hi Hpc. unfold init_subhals. apply ok_bind, ok_gets, ok_bind. eapply ok_mono; [by apply init_subhal_loop_neutral|].
  cbv beta. intros r p1 Hn. apply set_init_leads; [done..|].
  pose proof (neutral_inv _ _ Hn Hi) as [[_ _ _ _ _ Hp _ _ _] _].
  destruct Hn as (_ & _ & _ & Ht & _). unfold phase_ok in Hp. rewrite Ht, Hpc in Hp.
  unfold phase_ok. cbn. rewrite Ht. case_bool_decide; [done|]. right. apply Hp.
Qed.

Lemma clear_phase_leads rq p :
  inv p -> initializer (thr p) = IClear rq -> ok p (init_clear rq) (fun _ p' => leads p p').
Proof.
  intros [[H1 H2 H3 H4 H5 H6 H7 H8 H9] Ha] Hpc. unfold init_clear.
  apply ok_bind, ok_gets, ok_bind, ok_modify, ok_bind, ok_emit, ok_bind, ok_gets, ok_modify. set (p' := mk_proxy _ _ _ _ _ _ _).
  unfold phase_ok in H6. rewrite Hpc in H6. destruct H6 as ((Hr & Hst) & Hz & Hf).
  assert (view_of p' = observe (cfg p) (view_of p) Cleared) as Hv.
  { unfold view_of, p'. cbn [cfg log logged]. by rewrite replay_more. }
  split; [done|]. rewrite Hv. unfold leads, bounded, inv. rewrite Hv.
  destruct (view_of p) as [held taken un hon tm now acc del]. cbn in H2, H3, H4, H5. split; [cbn; lia|]. intros _.
  split; [|intros R; cbn in R; congruence]. split; try done.
  - split; [constructor|]. split; [done|]. split; [done|]. cbn. by rewrite (proj1 Hst).
  - unfold pend, all_pending. cbn. by rewrite drop_nil.
Qed.

Lemma dynamic_phase_leads rq p :
  inv p -> initializer (thr p) = IDynamic rq -> ok p (init_dynamic rq) (fun _ p' => leads p p').
Proof.
  intros Hi Hpc. unfold init_dynamic. apply ok_bind, ok_gets, ok_bind, ok_modify, ok_bind, ok_gets, ok_modify.
  pose proof Hi as [[_ _ _ _ _ Hp _ _ _] _]. unfold phase_ok in Hp. rewrite Hpc in Hp.
  apply (rephased_leads _ (IQueues rq) p Hi); [by left|done].
Qed.

Lemma queues_phase_leads rq p :
  inv p -> initializer (thr p) = IQueues rq -> ok p (init_queues rq) (fun _ p' => leads p p').
Proof.
  intros Hi Hpc. unfold init_queues. apply ok_bind, ok_gets, ok_bind, ok_modify, ok_bind, ok_gets, ok_modify.
  pose proof Hi as [[_ _ _ _ _ Hp _ _ _] _]. unfold phase_ok in Hp. rewrite Hpc in Hp. set (usable := bool_decide _ && _ && _ && _ && _).
  apply (rephased_leads _ (if usable then ISubHals else IIdle) p Hi); [by left|].
  assert (usable = true -> rq_event_queue_valid rq = true /\ rq_wakelock_queue_valid rq = true /\
    rq_event_flag_created rq = true /\ rq_wakelock_flag_created rq = true) as Hq.
  { unfold usable. rewrite !andb_true_iff. naive_solver. }
  destruct usable; unfold phase_ok, event_side, wake_side; cbn; [|right; apply Hp].
  destruct (Hq eq_refl) as (-> & -> & -> & ->). destruct Hp as ((? & ? & ?) & ?). split; [done|]. split; [done|]. done.
Qed.

Lemma start_phase_leads p :
  inv p -> initializer (thr p) = IStart -> ok p init_start (fun _ p' => leads p p').
Proof.
  intros [[H1 H2 H3 H4 H5 H6 H7 H8 H9] Ha] Hpc. unfold init_start.
  apply ok_bind, ok_gets, ok_bind, ok_modify, ok_bind, ok_emit, ok_modify. set (p' := mk_proxy _ _ _ _ _ _ _).
  unfold phase_ok in H6. rewrite Hpc in H6. destruct H6 as (((Hr & Hst & _) & Hz & Hf) & Hq & He & Hfl).
  assert (view_of p' = observe (cfg p) (view_of p) Started) as Hv.
  { unfold view_of, p'. cbn [cfg log logged]. by rewrite replay_more. }
  assert (pend p = []) as Hpd by (unfold pend, all_pending; rewrite Hq; apply drop_nil).
  assert (pend p' = []) as Hpd' by (unfold pend, all_pending, p'; cbn; by rewrite Hq).
  split; [done|]. rewrite Hv. unfold bounded, inv. rewrite Hv.
  destruct (view_of p) as [held taken un hon tm now acc del]. cbn in H2, H3, H4, H5, H7. split; [cbn; lia|]. intros _. split.
  - split; try done.
    + destruct H1 as (? & ? & ? & _). by split_and!.
    + left. split; [done|]. by split.
    + rewrite Hpd'. by rewrite H7, Hpd.
  - intros _ _ _. rewrite Hpd'. change (fresh p') with (fresh p). change (wk p') with (wk p). by rewrite Hz, Hf.
Qed.

Lemma init_next_leads m p :
  clock_ok -> inv p -> init_next answer sub p = Some m -> ok p m (fun _ p' => leads p p').
Proof.
  intros Hck Hi. unfold init_next. destruct (initializer (thr p)) eqn:Hpc; intros Hm.
  - done.
  - injection Hm as <-. by apply stop_notify_leads.
  - destruct (writer (thr p)) eqn:Hw, (waker (thr p)) eqn:Hk; try done. injection Hm as <-.
    apply set_init_leads; [apply neutral_refl|done|]. pose proof (w_phase _ _ (proj1 Hi)) as Hp.
    unfold phase_ok in Hp. rewrite Hpc in Hp. unfold phase_ok. cbn. split; [apply Hp|by split].
  - injection Hm as <-. by apply reset_phase_leads.
  - injection Hm as <-. by apply disable_phase_leads.
  - injection Hm as <-. by apply clear_phase_leads.
  - injection Hm as <-. by apply dynamic_phase_leads.
  - injection Hm as <-. by apply queues_phase_leads.
  - injection Hm as <-. by apply subhals_phase_leads.
  - injection Hm as <-. by apply start_phase_leads.
Qed.

(** ** Runs *)

Lemma step_leads p p' : clock_ok -> inv p -> step answer sub p p' -> leads p p'.
Proof.
  intros Hck Hi Hstep. destruct Hstep as [r a p' Hr|b r p' Hr|i p' Hr|index evs locked p' Hr|l i p' Hr|l i p' Hr|p' Hpc Hr|
    n k b p' Hpc Hr|n k p' Hpc Hr|p' Hpc Hr|o p' Hpc Ho Hr|rq p' Hpc Hr|m p' Hm Hr|b p' Hr].
  - apply leads_neutral; [|done]. exact (ok_result _ _ _ _ _ (serve_neutral _ _ (w_direct _ _ (proj1 Hi))) Hr).
  - exact (ok_result _ _ _ _ _ (create_leads _ _ Hck Hi) Hr).
  - by eapply destroy_leads.
  - destruct (mThreadsRun (conn p)) eqn:Hrun.
    + pose proof (postEvents_known _ _ _ _ _ Hrun Hr) as Hk.
      exact (ok_result _ _ _ _ _ (postEvents_leads _ _ _ _ Hck Hi Hk) Hr).
    + rewrite (postEvents_stopped _ _ _ _ Hrun) in Hr. injection Hr as <-. by apply leads_refl.
  - by eapply leads_neutral; [eapply connected_neutral|].
  - by eapply leads_neutral; [eapply disconnected_neutral|].
  - exact (ok_result _ _ _ _ _ (writer_section_leads _ Hi Hpc) Hr).
  - exact (ok_result _ _ _ _ _ (writer_wrote_leads _ _ _ _ Hi Hpc) Hr).
  - exact (ok_result _ _ _ _ _ (writer_after_leads _ _ _ Hi Hpc) Hr).
  - exact (ok_result _ _ _ _ _ (waker_section_leads _ Hck Hi Hpc) Hr).
  - exact (ok_result _ _ _ _ _ (waker_read_leads _ _ Hi Hpc Ho) Hr).
  - exact (ok_result _ _ _ _ _ (stop_begin_leads _ _ Hi Hpc) Hr).
  - exact (ok_result _ _ _ _ _ (init_next_leads _ _ Hck Hi Hm) Hr).
  - exact (ok_result _ _ _ _ _ (spurious_leads _ _ Hi) Hr).
Qed.

(** Runs in which the count never took 2^64. *)
Definition run_step (p p' : proxy) : Prop := step answer sub p p' /\ bounded p'.

Lemma run_inv p p' : clock_ok -> inv p -> rtc run_step p p' -> inv p' /\ cfg p' = cfg p.
Proof.
  intros Hck Hi Hr. induction Hr as [p|p p1 p2 [Hstep Hb] Hr IH]; [done|].
  destruct (step_leads p p1 Hck Hi Hstep) as (Hc & _ & Hi1). destruct (IH (Hi1 Hb)) as [? ?]. split; [done|congruence].
Qed.

Lemma HalProxy_inv lists : 0 <= t0 -> inv (HalProxy lists t0 t0).
Proof.
  intros Ht. split; [|intros R; by cbn in R]. split; cbn; try done; [by right|]. apply (listed_direct lists).
Qed.

Lemma reached_inv lists p : clock_ok -> rtc run_step (HalProxy lists t0 t0) p -> inv p.
Proof. intros Hck Hr. apply (run_inv _ _ Hck) in Hr as [Hi _]; [done|]. by apply HalProxy_inv, Hck. Qed.
End Invariant.
