(* ===== verification/HalProxySpec.v ===== *)
(** * What the sensors HAL proxy promises

    Theorems over every interleaving of the framework's calls, the sub-HALs' posts and
    the two worker threads: the wake lock, the event stream, the end of initialize, and
    the accelerometer's sub-HAL behind the proxy. *)

From S2P Require Import Prelude StateM StdMap SensorTypes SensorsSubHal HalProxy HalProxyRoute HalProxyInv.

Section Promises.
Context (answer : list event -> query -> Z).
Context (sub : list event -> nat -> sub_call -> Result * Z).
Context (t0 : Z).

Notation view_of := (HalProxyInv.view_of t0).
Notation run_step := (HalProxyInv.run_step answer sub t0).
Notation clock_ok := (HalProxyInv.clock_ok answer t0).

(** The states that runs from a new object lead to, while the count has not taken 2^64. *)
Definition reached (lists : list (list SensorInfo)) (p : proxy) : Prop := rtc run_step (HalProxy lists t0 t0) p.

(** ** The wake lock *)

(** C17: The wake lock.  Whatever the interleaving, the system wake lock is held exactly
    while the count is positive.  While the proxy runs, and as long as no timeout
    struck and the framework acknowledged no more than it was given, the count is the
    number of live scoped locks since the last reset, of pending wake-up events, and of
    delivered wake-up events that are not acknowledged; so the lock is held while any
    of them is outstanding and released when the last one is gone.  While the proxy
    is stopped and initialize is not at work, no lock is held. *)
Theorem wake_lock_accounting lists p :
  clock_ok -> reached lists p ->
  v_held (view_of p) = (0 <? mWakelockRefCount (wk p)) /\
  (mThreadsRun (conn p) = true -> v_timeout (view_of p) = false -> v_honest (view_of p) = true ->
     0 <= v_unacked (view_of p) /\
     mWakelockRefCount (wk p) = fresh p + wakes (cfg p) (pend p) + v_unacked (view_of p)) /\
  (mThreadsRun (conn p) = false -> initializer (thr p) = IIdle ->
     v_held (view_of p) = false /\ stopped (thr p)).
Proof.
  intros Hck Hr. apply (reached_inv _ _ _ _ _ Hck) in Hr as [[_ Hheld _ _ _ Hph _ _ _] Ha].
  split; [done|]. split.
  - intros R1 R2 R3. destruct (Ha R1 R2 R3). lia.
  - intros R Hi. unfold phase_ok in Hph. rewrite Hi, R in Hph. destruct Hph as [[? _]|[[_ Hs] [Hz _]]]; [done|].
    by rewrite Hheld, Hz.
Qed.

(** ** The event stream *)

(** C18: The event stream.  Since the pending events were last cleared, the events taken
    from the sub-HALs are, in order, those handed to the event queue (or given up by a
    failed blocking write) followed by the pending ones: nothing is lost, doubled or
    reordered.  The pending events are at most 100000, their number is the recorded
    size, and every one is of a listed sensor. *)
Theorem event_stream_fifo lists p :
  clock_ok -> reached lists p ->
  v_accepted (view_of p) = v_delivered (view_of p) ++ pend p /\
  mSizePendingWriteEventsQueue (que p) = Z.of_nat (length (all_pending (que p))) /\
  mSizePendingWriteEventsQueue (que p) <= kMaxSizePendingWriteEventsQueue /\
  Forall (known (listed lists)) (all_pending (que p)).
Proof.
  intros Hck Hr. pose proof (run_inv _ _ _ _ _ Hck (HalProxy_inv t0 lists (proj1 Hck)) Hr) as [[Hw _] Hc].
  destruct Hw as [(Hq & Hsz & Hmax & _) _ _ _ _ _ Hs _ _]. split_and!; try done.
  change (listed lists) with (cfg (HalProxy lists t0 t0)). rewrite <- Hc. clear -Hq. unfold all_pending.
  induction Hq as [|e q (_ & Hk & _) Hq IH]; [constructor|]. cbn. by apply Forall_app.
Qed.

(** The events [evs] were offered in [p]: how it ended in [p']. *)
Definition offered (evs : list Event) (p p' : proxy) : Prop :=
  exists a b, evs = a ++ b /\ v_accepted (view_of p') = v_accepted (view_of p) ++ a /\
    (b = [] \/ kMaxSizePendingWriteEventsQueue < mSizePendingWriteEventsQueue (que p) + Z.of_nat (length b) /\ Refused b ∈ log p').

Lemma accepted_touch p w evs :
  Forall (fun e => forall v, v_accepted (observe (cfg p) v e) = v_accepted v) evs ->
  v_accepted (view_of (touch p w evs)) = v_accepted (view_of p).
Proof.
  unfold HalProxyInv.view_of, touch. cbn [cfg log]. rewrite replay_more. generalize (replay (cfg p) t0 (log p)).
  induction evs as [|e evs IH]; intros v He; [done|]. apply Forall_cons_1 in He as [He Hes]. cbn [fold_left].
  by rewrite IH, He.
Qed.

Lemma accepted_logged p e :
  v_accepted (view_of (logged e p)) =
  match e with Written evs | Queued evs => v_accepted (view_of p) ++ evs | Cleared => [] | _ => v_accepted (view_of p) end.
Proof. rewrite view_logged. destruct (view_of p), e as [[] ?| | | | | | | | | | | | | | | |]; done. Qed.

Lemma write_direct_accepts evs p :
  mEventQueue (conn p) = true -> mEventQueueFlag (conn p) = true ->
  ok p (write_direct answer evs) (fun n p' => (n <= length evs)%nat /\ cfg p' = cfg p /\ que p' = que p /\
    v_accepted (view_of p') = v_accepted (view_of p) ++ take n evs).
Proof.
  intros He Hf. unfold write_direct. apply ok_bind, ok_gets, ok_bind, ok_gets.
  assert ((0 <= length evs)%nat /\ cfg p = cfg p /\ que p = que p /\ v_accepted (view_of p) = v_accepted (view_of p) ++ take 0 evs) as Hnone.
  { split_and!; try done; [lia|]. by rewrite take_0, app_nil_r. }
  destruct (mPendingWriteEventsQueue (que p)); [|by apply ok_ret].
  rewrite He, Hf. apply ok_bind. eapply ok_lift; [done|]. apply ok_bind, ok_asked. cbv zeta.
  set (n := Z.to_nat _). assert (n <= length evs)%nat as Hn by (unfold n; lia).
  destruct (0 <? n)%nat; [|apply ok_ret; rewrite accepted_logged; exact Hnone].
  apply ok_bind, ok_asked. destruct (negb _); [|apply ok_ret; rewrite !accepted_logged; exact Hnone].
  apply ok_bind. eapply ok_lift; [done|]. apply ok_bind, ok_emit, ok_ret. rewrite !accepted_logged. by split_and!.
Qed.

(** The count of a post that asks for one. *)
Lemma take_count_accepts num locked p :
  mThreadsRun (conn p) = true -> (locked = true -> num <> 0) ->
  ok p (if (locked : bool) then t ← incrementRefCountAndMaybeAcquireWakelock answer num; mret (bool_decide (is_Some t)) else mret true)
    (fun b p' => cfg p' = cfg p /\ conn p' = conn p /\ que p' = que p /\ v_accepted (view_of p') = v_accepted (view_of p) /\
       (b = false -> locked = true /\ mWakelockRefCount (wk p) = 0 /\ answer (log p) QAcquire <> 0)).
Proof.
  intros Hrun Hnum. destruct locked; [|by apply ok_ret].
  apply ok_bind. unfold ok. destruct (inc_run answer num p) as (r & t & w & evs & Hinc & Hcase). rewrite Hinc. cbv zeta in Hcase.
  assert (v_accepted (view_of (touch (with_thr t p) w evs)) = v_accepted (view_of p)) as Hacc.
  { rewrite accepted_touch; [done|]. destruct Hcase as [(_ & _ & _ & [->|(a & _ & ->)])|(pre & _ & _ & -> & _ & _ & _ & ->)]; [constructor|..];
      [|destruct (_ =? 0)]; repeat constructor; by intros []. }
  cbn. split_and!; try done. intros Hb. split; [done|]. destruct r as [now|]; [by rewrite bool_decide_true in Hb|].
  revert Hinc. unfold incrementRefCountAndMaybeAcquireWakelock, ask, mbind, M_bind, gets, emit, modify, mret, M_ret. cbn. rewrite Hrun. cbn [negb orb].
  rewrite (proj2 (Z.eqb_neq num 0)) by auto. destruct (mWakelockRefCount (wk p) =? 0) eqn:Hz; zb; cbn; [|done].
  destruct (answer (log p) QAcquire =? 0) eqn:Ha; zb; cbn; [done|]. by intros _.
Qed.

Lemma inc_none p : incrementRefCountAndMaybeAcquireWakelock answer 0 p = Some (None, p).
Proof.
  unfold incrementRefCountAndMaybeAcquireWakelock, mbind at 1, M_bind at 1, gets at 1.
  by rewrite orb_true_r.
Qed.

Lemma post_queue_offers evs locked p :
  mThreadsRun (conn p) = true -> mEventQueue (conn p) = true -> mEventQueueFlag (conn p) = true ->
  Forall (known (cfg p)) evs -> (locked = true -> wakes (cfg p) evs <> 0) ->
  ok p (postEventsToMessageQueue answer evs (wakes (cfg p) evs) locked) (fun _ p' =>
    offered evs p p' \/
    v_accepted (view_of p') = v_accepted (view_of p) /\ locked = true /\
      mWakelockRefCount (wk p) = 0 /\ answer (log p) QAcquire <> 0).
Proof.
  intros Hrun He Hf Hk Hl. unfold postEventsToMessageQueue. apply ok_bind, ok_gets. rewrite Hrun. cbn [negb].
  apply ok_bind. eapply ok_mono; [by apply take_count_accepts|]. cbv beta. intros b p1 (Hc1 & Hcn1 & Hq1 & Ha1 & Hb).
  destruct b; cbn [negb]; [|apply ok_ret; right; split; [done|by apply Hb]].
  apply ok_bind. eapply ok_mono; [apply write_direct_accepts; by rewrite Hcn1|]. cbv beta.
  intros n p2 (Hn & Hc2 & Hq2 & Ha2). rewrite Ha1 in Ha2. apply ok_bind, ok_gets. rewrite Hc2, Hc1.
  apply ok_bind. eapply ok_lift; [by apply count_spec|]. cbv zeta.
  destruct (_ =? 0) eqn:Hz; zb.
  { apply ok_ret. left. exists evs, []. rewrite app_nil_r, Ha2, take_ge by lia. auto. }
  apply ok_bind, ok_gets. rewrite Hq2, Hq1. destruct (_ <=? _) eqn:Hsz; zb.
  - apply ok_bind, ok_modify, ok_bind, ok_bind, ok_gets, ok_modify, ok_emit. left. exists evs, []. rewrite app_nil_r, accepted_logged. split; [done|].
    split; [|by left]. change (v_accepted (view_of p2) ++ drop n evs = v_accepted (view_of p) ++ evs).
    by rewrite Ha2, <- app_assoc, take_drop.
  - apply ok_bind, ok_emit. set (p3 := logged _ p2). unfold ok. set (d := u64 _).
    destruct (dec_run d (- 1) p3) as (w & es & -> & Hcase). cbv zeta in Hcase. left.
    exists (take n evs), (drop n evs). split; [by rewrite take_drop|]. split.
    + rewrite accepted_touch; [unfold p3; by rewrite accepted_logged|].
      destruct Hcase as [(_ & _ & ->)|(_ & _ & _ & ->)]; [constructor|]. destruct (_ =? 0); repeat constructor; by intros [].
    + right. rewrite length_drop. split; [lia|]. unfold touch, p3. cbn. set_solver.
Qed.

Lemma postEvents_offers p index evs locked :
  inv t0 p -> mThreadsRun (conn p) = true -> evs <> [] -> Forall (fun ev => known (cfg p) (tagged index ev)) evs ->
  let out := map (tagged index) evs in
  exists p', postEvents answer index evs locked p = Some (tt, p') /\
    if (0 <? wakes (cfg p) out) && negb locked then p' = p
    else if (wakes (cfg p) out =? 0) && locked then p' = p
    else offered out p p' \/
      v_accepted (view_of p') = v_accepted (view_of p) /\ locked = true /\
        mWakelockRefCount (wk p) = 0 /\ answer (log p) QAcquire <> 0.
Proof.
  intros [Hw _] Hrun Hne Hk out.
  destruct (run_conn p _ Hw Hrun) as (_ & He & Hf).
  assert (postEvents answer index evs locked p =
    if (0 <? wakes (cfg p) out) && negb locked then Some (tt, p)
    else postEventsToMessageQueue answer out (wakes (cfg p) out) locked p) as ->.
  { unfold postEvents. destruct evs as [|ev evs]; [done|]. unfold mbind at 1, M_bind at 1, gets at 1. rewrite Hrun. cbn [negb].
    unfold mbind at 1, M_bind at 1, gets at 1. unfold mbind at 1, M_bind at 1, lift. rewrite (process_spec _ _ _ Hk).
    fold out. by destruct (_ && _). }
  destruct ((0 <? _) && _) eqn:Hg; [by exists p|].
  destruct (_ =? 0) eqn:Hz; [destruct locked|]; cbn [andb]; zb.
  - exists p. split; [|done]. rewrite Hz. unfold postEventsToMessageQueue, mbind at 1, M_bind at 1, gets at 1. rewrite Hrun.
    cbn [negb]. unfold mbind at 1, M_bind at 1. unfold mbind at 1, M_bind at 1. by rewrite inc_none.
  - destruct (ok_total _ _ _ (post_queue_offers out false p Hrun He Hf ltac:(by apply Forall_map) ltac:(done))) as ([] & p' & Hp & Ho). eauto.
  - destruct (ok_total _ _ _ (post_queue_offers out locked p Hrun He Hf ltac:(by apply Forall_map) ltac:(done))) as ([] & p' & Hp & Ho). eauto.
Qed.


(** ** The end of initialize *)

(** A step of a worker thread, or of initialize itself. *)
Inductive works (p : proxy) : proxy -> Prop :=
  | works_section p' : writer (thr p) = WTop -> writer_section answer p = Some (tt, p') -> works p p'
  | works_wrote n k b p' : writer (thr p) = WWriting n k -> writer_wrote n k b p = Some (tt, p') -> works p p'
  | works_after n k p' : writer (thr p) = WWrote n k -> writer_after n k p = Some (tt, p') -> works p p'
  | works_waker p' : waker (thr p) = KTop -> waker_section answer p = Some (tt, p') -> works p p'
  | works_read o p' : waker (thr p) = KReading -> (forall n, o = Some n -> is_u32 n) ->
      waker_read o p = Some (tt, p') -> works p p'
  | works_init m p' : init_next answer sub p = Some m -> m p = Some (tt, p') -> works p p'.

Lemma works_step p p' : works p p' -> step answer sub p p'.
Proof.
  intros [p1 H1 H2|n k b p1 H1 H2|n k p1 H1 H2|p1 H1 H2|o p1 H1 H2 H3|m p1 H1 H2].
  - exact (step_writer _ _ _ _ H1 H2).
  - exact (step_wrote _ _ _ _ _ _ _ H1 H2).
  - exact (step_after _ _ _ _ _ _ H1 H2).
  - exact (step_waker _ _ _ _ H1 H2).
  - exact (step_read _ _ _ _ _ H1 H2 H3).
  - exact (step_init_next _ _ _ _ _ H1 H2).
Qed.

(** How much of it is left to do: the phases of initialize, and what each thread
    still does before it ends. *)
Definition writer_left (pc : writer_pc) : nat :=
  match pc with WStopped => 0 | WTop => 1 | WWaiting | WWrote _ _ => 2 | WWriting _ _ => 3 end.
Definition waker_left (pc : waker_pc) : nat :=
  match pc with KStopped => 0 | KTop => 1 | KWaiting | KReading => 2 end.

Definition remaining (t : threads) : nat :=
  match initializer t with
  | IIdle => 0
  | pc =>
      match pc with
      | INotify _ => 9 | IJoining _ => 8 | IReset _ => 7 | IDisable _ => 6 | IClear _ => 5 | IDynamic _ => 4
      | IQueues _ => 3 | ISubHals => 2 | _ => 1
      end + writer_left (writer t) + waker_left (waker t)
  end%nat.

Lemma remaining_writer t pc pc' :
  initializer t <> IIdle -> writer t = pc' -> (writer_left pc < writer_left pc')%nat ->
  (remaining (mk_threads pc (waker t) (initializer t)) < remaining t)%nat.
Proof. unfold remaining. cbn. intros Hi ->. destruct (initializer t); [done|lia..]. Qed.

Lemma remaining_waker t pc pc' :
  initializer t <> IIdle -> waker t = pc' -> (waker_left pc < waker_left pc')%nat ->
  (remaining (mk_threads (writer t) pc (initializer t)) < remaining t)%nat.
Proof. unfold remaining. cbn. intros Hi ->. destruct (initializer t); [done|lia..]. Qed.

Lemma woken_left t :
  (writer_left (writer (woken_writer t)) <= writer_left (writer t))%nat /\
  (waker_left (waker (woken_waker t)) <= waker_left (waker t))%nat.
Proof. cbn. split; [destruct (writer t)|destruct (waker t)]; cbn; lia. Qed.

Lemma dec_thr d ts p : ok p (decrementRefCountAndMaybeReleaseWakelock d ts) (fun _ p' => thr p' = thr p).
Proof. unfold ok. by destruct (dec_run d ts p) as (w & evs & -> & _). Qed.

Lemma reset_thr p : ok p (resetSharedWakelock answer) (fun _ p' => thr p' = thr p).
Proof.
  unfold resetSharedWakelock. apply ok_bind, ok_gets, ok_bind. eapply ok_mono; [apply dec_thr|]. cbv beta. by intros _ p1 Ht.
Qed.

Lemma inc_stopped d p :
  mThreadsRun (conn p) = false -> incrementRefCountAndMaybeAcquireWakelock answer d p = Some (None, p).
Proof.
  intros Hrun. unfold incrementRefCountAndMaybeAcquireWakelock, mbind at 1, M_bind at 1, gets at 1. by rewrite Hrun.
Qed.

Lemma stopping p v : wf p v -> initializer (thr p) <> IIdle -> mThreadsRun (conn p) = false.
Proof.
  intros [_ _ _ _ _ Hp _ _ _] Hi. unfold phase_ok in Hp. destruct (initializer (thr p)); try done; tauto.
Qed.

Lemma set_init_thr pc p p1 :
  thr p1 = thr p -> ok p1 (set_init pc) (fun _ p' => thr p' = mk_threads (writer (thr p)) (waker (thr p)) pc).
Proof. intros <-. done. Qed.

Lemma init_next_thr m p :
  init_next answer sub p = Some m ->
  ok p m (fun _ p' => (remaining (thr p') < remaining (thr p))%nat).
Proof.
  assert (forall pc p1, thr p1 = thr p ->
    (remaining (mk_threads (writer (thr p)) (waker (thr p)) pc) < remaining (thr p))%nat ->
    ok p1 (set_init pc) (fun _ p' => (remaining (thr p') < remaining (thr p))%nat)) as Hset.
  { intros pc p1 Ht Hlt. eapply ok_mono; [by apply (set_init_thr pc p)|]. cbv beta. by intros _ p' ->. }
  unfold init_next. destruct (initializer (thr p)) eqn:Hpc; intros Hm.
  - done.
  - injection Hm as <-. unfold stop_notify. apply ok_bind, ok_gets.
    assert (forall (b : bool) w q, thr q = thr p -> ok q (if b then emit (Woke w) else mret tt) (fun _ q' => thr q' = thr p)) as Hwoke
      by (by intros [] w q Hq).
    apply ok_bind. eapply ok_mono; [by apply Hwoke|]. cbv beta. intros _ p1 Ht1.
    apply ok_bind. eapply ok_mono; [by apply Hwoke|]. cbv beta. intros _ p2 Ht2.
    apply ok_bind, ok_bind, ok_gets, ok_modify, ok_bind, ok_bind, ok_gets, ok_modify, ok_bind, ok_gets, ok_modify.
    cbn [thr]. rewrite Ht2. pose proof (woken_left (thr p)) as [Hl1 Hl2].
    unfold remaining. cbn in *. rewrite Hpc. lia.
  - destruct (writer (thr p)) eqn:Hw, (waker (thr p)) eqn:Hk; try done. injection Hm as <-.
    apply Hset; [done|]. unfold remaining. cbn. rewrite Hpc, Hw, Hk. lia.
  - injection Hm as <-. apply ok_bind. eapply ok_mono; [apply reset_thr|]. cbv beta. intros _ p1 Ht. apply Hset; [done|].
    unfold remaining. cbn. rewrite Hpc. lia.
  - injection Hm as <-. apply ok_bind. eapply ok_mono; [apply (disableAllSensors_neutral _ t0)|]. cbv beta. intros _ p1 (_ & _ & _ & Ht & _).
    apply Hset; [done|]. unfold remaining. cbn. rewrite Hpc. lia.
  - injection Hm as <-. unfold init_clear. apply ok_bind, ok_gets, ok_bind, ok_modify, ok_bind, ok_emit. apply Hset; [done|].
    unfold remaining. cbn. rewrite Hpc. lia.
  - injection Hm as <-. unfold init_dynamic. apply ok_bind, ok_gets, ok_bind, ok_modify. apply Hset; [done|].
    unfold remaining. cbn. rewrite Hpc. lia.
  - injection Hm as <-. unfold init_queues. apply ok_bind, ok_gets, ok_bind, ok_modify. apply Hset; [done|].
    unfold remaining. cbn. rewrite Hpc. destruct (_ && _); lia.
  - injection Hm as <-. unfold init_subhals. apply ok_bind, ok_gets, ok_bind. eapply ok_mono; [by apply (init_subhal_loop_neutral _ t0)|]. cbv beta.
    intros r p1 (_ & _ & _ & Ht & _). apply Hset; [done|]. unfold remaining. cbn. rewrite Hpc. case_bool_decide; lia.
  - injection Hm as <-. unfold init_start. apply ok_bind, ok_gets, ok_bind, ok_modify, ok_bind, ok_emit, ok_modify.
    unfold remaining. cbn. rewrite Hpc. lia.
Qed.

Lemma writer_wrote_thr n k b p p' :
  writer_wrote n k b p = Some (tt, p') -> thr p' = mk_threads (WWrote n k) (waker (thr p)) (initializer (thr p)).
Proof.
  unfold writer_wrote, mbind at 1, M_bind at 1, gets at 1. unfold mbind at 1, M_bind at 1, lift.
  destruct (head _) as [front|]; [|done]. intros Hr. revert Hr. destruct b; [by intros [= <-]|]. intros Hr.
  refine (ok_result _ _ (fun _ q => thr q = _) tt p' _ Hr). apply ok_bind, ok_bind, ok_gets, ok_modify, ok_bind, ok_emit.
  eapply ok_mono; [apply dec_thr|]. cbv beta. by intros _ p1 ->.
Qed.

Lemma waker_section_thr p :
  mThreadsRun (conn p) = false ->
  ok p (waker_section answer) (fun _ p' => thr p' = mk_threads (writer (thr p)) KStopped (initializer (thr p))).
Proof.
  intros Hrun. unfold waker_section. apply ok_bind, ok_gets. rewrite Hrun. cbn [negb]. apply ok_bind.
  eapply ok_mono; [apply reset_thr|]. cbv beta. intros _ p1 <-. done.
Qed.

Lemma waker_read_thr o p :
  ok p (waker_read o) (fun _ p' => thr p' = mk_threads (writer (thr p)) KTop (initializer (thr p))).
Proof.
  unfold waker_read. apply ok_bind. eapply (ok_mono _ _ (fun _ p1 => thr p1 = thr p)); [|intros _ p1 <-; done].
  destruct o as [n|]; [|by apply ok_ret]. apply ok_bind, ok_emit. eapply ok_mono; [apply dec_thr|]. cbv beta. by intros _ p1 ->.
Qed.

(** A step of the threads while they are asked to stop. *)
Lemma works_less p p' :
  mThreadsRun (conn p) = false -> initializer (thr p) <> IIdle -> works p p' -> (remaining (thr p') < remaining (thr p))%nat.
Proof.
  intros Hrun Hi Hw. destruct Hw as [p' Hpc Hr|n k b p' Hpc Hr|n k p' Hpc Hr|p' Hpc Hr|o p' Hpc _ Hr|m p' Hm Hr].
  - revert Hr. unfold writer_section, mbind at 1, M_bind at 1, gets at 1. rewrite Hrun. intros [= <-].
    eapply remaining_writer; [done|exact Hpc|cbn; lia].
  - rewrite (writer_wrote_thr n k b p p' Hr). eapply remaining_writer; [done|exact Hpc|cbn; lia].
  - revert Hr. unfold writer_after, mbind at 1, M_bind at 1, gets at 1. destruct (mPendingWriteEventsQueue _) as [|[evs w] rest]; [done|].
    intros [= <-]. eapply remaining_writer; [done|exact Hpc|cbn; lia].
  - rewrite (ok_result _ _ _ _ _ (waker_section_thr p Hrun) Hr). eapply remaining_waker; [done|exact Hpc|cbn; lia].
  - rewrite (ok_result _ _ _ _ _ (waker_read_thr o p) Hr). eapply remaining_waker; [done|exact Hpc|cbn; lia].
  - exact (ok_result _ _ _ _ _ (init_next_thr m p Hm) Hr).
Qed.

(** A step of anyone else leaves them where they are. *)
Lemma step_not_more p p' :
  direct_ok (cfg p) -> mThreadsRun (conn p) = false -> initializer (thr p) <> IIdle -> step answer sub p p' ->
  (remaining (thr p') <= remaining (thr p))%nat.
Proof.
  intros Hd Hrun Hi Hs. assert (works p p' -> (remaining (thr p') <= remaining (thr p))%nat) as Hw.
  { intros Hw. pose proof (works_less p p' Hrun Hi Hw). lia. }
  assert (forall q, thr q = thr p -> (remaining (thr q) <= remaining (thr p))%nat) as Hsame by (intros q ->; lia).
  destruct Hs as [r a p' Hr|b r p' Hr|i p' Hr|index evs locked p' Hr|l i p' Hr|l i p' Hr|p' H1 H2|n k b p' H1 H2|n k p' H1 H2|
    p' H1 H2|o p' H1 H2 H3|rq p' Hpc Hr|m p' H1 H2|b p' Hr].
  - apply Hsame. by destruct (ok_result _ _ _ _ _ (serve_neutral sub t0 r p Hd) Hr) as (_ & _ & _ & ? & _).
  - apply Hsame. refine (ok_result _ _ (fun _ q => thr q = thr p) _ _ _ Hr). unfold createScopedWakelock.
    destruct b; [|by apply ok_ret]. apply ok_bind. unfold ok. by rewrite inc_stopped.
  - apply Hsame. revert Hr. unfold destroyScopedWakelock, mbind at 1, M_bind at 1, gets at 1. unfold mbind at 1, M_bind at 1, lift.
    destruct (scoped p !! i) as [t|]; [|done]. intros Hr.
    refine (ok_result _ _ (fun _ q => thr q = thr p) _ _ _ Hr). apply ok_bind, ok_modify.
    eapply ok_mono; [apply dec_thr|]. cbv beta. by intros _ q ->.
  - apply Hsame. rewrite (postEvents_stopped _ _ _ _ _ Hrun) in Hr. by injection Hr as <-.
  - apply Hsame. by destruct (connected_neutral t0 _ _ _ _ Hr) as (_ & _ & _ & ? & _).
  - apply Hsame. by destruct (disconnected_neutral t0 _ _ _ _ Hr) as (_ & _ & _ & ? & _).
  - apply Hw, (works_section _ _ H1 H2).
  - apply Hw, (works_wrote _ _ _ _ _ H1 H2).
  - apply Hw, (works_after _ _ _ _ H1 H2).
  - apply Hw, (works_waker _ _ H1 H2).
  - apply Hw, (works_read _ _ _ H1 H2 H3).
  - done.
  - apply Hw, (works_init _ _ _ H1 H2).
  - pose proof (woken_left (thr p)) as [Hl1 Hl2]. destruct b; injection Hr as <-; unfold remaining; cbn in *;
      destruct (initializer (thr p)); lia.
Qed.

(** A thread that does not wait has a next step, and it does not fault. *)
Lemma writer_step p :
  inv t0 p -> writer (thr p) <> WStopped -> writer (thr p) <> WWaiting -> exists p', works p p'.
Proof.
  intros Hi Hs Hn. destruct (writer (thr p)) as [| | |n k|n k] eqn:Hw; try done.
  - destruct (ok_total _ _ _ (writer_section_leads answer t0 p Hi Hw)) as ([] & p' & Hr & _). exists p'. by apply works_section.
  - destruct (ok_total _ _ _ (writer_wrote_leads t0 n k true p Hi Hw)) as ([] & p' & Hr & _). exists p'. by apply (works_wrote p n k true).
  - destruct (ok_total _ _ _ (writer_after_leads t0 n k p Hi Hw)) as ([] & p' & Hr & _). exists p'. by apply (works_after p n k).
Qed.

Lemma waker_step p :
  clock_ok -> inv t0 p -> waker (thr p) <> KStopped -> waker (thr p) <> KWaiting -> exists p', works p p'.
Proof.
  intros Hck Hi Hs Hn. destruct (waker (thr p)) eqn:Hk; try done.
  - destruct (ok_total _ _ _ (waker_section_leads _ _ _ Hck Hi Hk)) as ([] & p' & Hr & _). exists p'. by apply works_waker.
  - destruct (ok_total _ _ _ (waker_read_leads t0 None p Hi Hk ltac:(done))) as ([] & p' & Hr & _). exists p'. by apply (works_read p None).
Qed.

(** While initialize is under way there is always a next step: when it joins, no
    thread waits for a notification any more. *)
Lemma next_step p : clock_ok -> inv t0 p -> initializer (thr p) <> IIdle -> exists p', works p p'.
Proof.
  intros Hck Hi Hb.
  assert (forall m, init_next answer sub p = Some m -> exists p', works p p') as Hnext.
  { intros m Hm. destruct (ok_total _ _ _ (init_next_leads _ _ _ _ _ Hck Hi Hm)) as ([] & p' & Hr & _).
    exists p'. by apply (works_init p m). }
  pose proof (w_phase _ _ (proj1 Hi)) as Hp. unfold phase_ok in Hp. unfold init_next in Hnext.
  destruct (initializer (thr p)) eqn:Hpc; try done; try (eapply Hnext; reflexivity).
  destruct Hp as (_ & Hw & Hk). destruct (writer (thr p)) eqn:Ew; try (apply writer_step; [done|by rewrite Ew..]).
  destruct (waker (thr p)) eqn:Ek; [by eapply Hnext|apply waker_step; try done; by rewrite Ek..].
Qed.

(** stopThreads wakes the flag of each queue a thread may block in, and both threads. *)
Lemma stop_notify_wakes rq p p' :
  wf p (view_of p) -> initializer (thr p) = INotify rq -> stop_notify rq p = Some (tt, p') ->
  (~ stopped (thr p) -> log p' = log p ++ [Woke false; Woke true]) /\ awake (thr p').
Proof.
  intros Hw Hpc Hr. pose proof (w_phase _ _ Hw) as Hp. unfold phase_ok in Hp. rewrite Hpc in Hp.
  destruct Hp as (_ & Hside). split.
  - intros Hs. destruct Hside as [?|[He Hk]]; [done|]. unfold event_side, wake_side in He, Hk.
    apply andb_true_iff in He as [He1 He2], Hk as [Hk1 Hk2].
    unfold stop_notify in Hr. rewrite (mbind_run _ _ _ (conn p) p eq_refl), He1, He2, Hk1, Hk2 in Hr. injection Hr as <-. cbn. by rewrite <-app_assoc.
  - unfold stop_notify in Hr. rewrite (mbind_run _ _ _ (conn p) p eq_refl) in Hr.
    destruct (_ && mEventQueue _), (_ && mWakeLockQueue _); injection Hr as <-; apply (both_woken_awake (thr p)).
Qed.

(** C21: initialize ends, and no wake-up is lost.  A thread blocks on its condition
    variable only while there is nothing for it to do: no pending event, or no
    reference to the wake lock.  While initialize is under way, a worker thread that
    is not blocked or initialize itself has a next step that does not fault, so the
    joins never wait for a thread that nobody notifies; each such step brings
    initialize closer to its end, by a count that starts at 14 at most, and no step
    of anyone else, no call of the framework, no post, no scoped wake lock and no
    spurious wake-up, sets it back.  Before the joins, unless both threads have ended,
    the flags of both queues are woken and neither thread is left waiting. *)
Theorem initialize_ends lists p :
  clock_ok -> reached lists p ->
  (writer (thr p) = WWaiting -> mPendingWriteEventsQueue (que p) = []) /\
  (waker (thr p) = KWaiting -> mWakelockRefCount (wk p) = 0) /\
  (initializer (thr p) <> IIdle ->
     (remaining (thr p) <= 14)%nat /\
     (exists p', works p p') /\
     (forall p', works p p' -> (remaining (thr p') < remaining (thr p))%nat) /\
     (forall p', step answer sub p p' -> (remaining (thr p') <= remaining (thr p))%nat)) /\
  (forall rq p', initializer (thr p) = INotify rq -> stop_notify rq p = Some (tt, p') ->
     (~ stopped (thr p) -> log p' = log p ++ [Woke false; Woke true]) /\ awake (thr p')).
Proof.
  intros Hck Hr. apply (reached_inv _ _ _ _ _ Hck) in Hr as Hinv. pose proof Hinv as [Hw _].
  split; [|split; [apply Hw|split; [|intros rq p' Hpc; by apply stop_notify_wakes]]].
  { intros Hpc. pose proof (w_queue _ _ Hw) as (_ & _ & _ & Hq). by rewrite Hpc in Hq. }
  intros Hi. pose proof (stopping p _ Hw Hi) as Hrun.
  split; [unfold remaining; destruct (initializer (thr p)), (writer (thr p)), (waker (thr p)); cbn; lia|].
  split; [by apply next_step|]. split; intros p' Hs; [by apply works_less|].
  apply step_not_more; try done. apply Hw.
Qed.

End Promises.

(** ** The accelerometer's sub-HAL behind the proxy *)

Lemma land_wake_up f : Z.land (Z.land f (Z.lnot MASK_DIRECT)) WAKE_UP = Z.land f WAKE_UP.
Proof. by rewrite <- Z.land_assoc. Qed.

(** A sensor that the sub-HAL [i] keeps is known to the proxy, and wakes up for both. *)
Lemma proxy_knows lists i c ev :
  (length lists <= 128)%nat -> lists !! i = Some (SensorsSubHal.getSensorsList c) -> SensorsSubHal.sensors_ok (SensorsSubHal.mSensors c) ->
  Forall (fun x => own_handle (si_handle x)) (SensorsSubHal.getSensorsList c) ->
  map_mem (ev_handle ev) (SensorsSubHal.mSensors c) = true ->
  is_wakeup (listed lists) (tagged i ev) = Some (SensorsSubHal.isWakeUpSensor (ev_handle ev) c).
Proof.
  intros Hlen Hl [Hok Hkey] Hown Hmem. unfold map_mem in Hmem. unfold SensorsSubHal.isWakeUpSensor.
  destruct (map_find (ev_handle ev) (SensorsSubHal.mSensors c)) as [x|] eqn:Hx; [|done]. pose proof (Hkey _ _ Hx) as Hh.
  assert (x ∈ SensorsSubHal.getSensorsList c) as Hin by (apply map_find_in, (list_elem_of_fmap_2 snd) in Hx; done).
  rewrite Forall_forall in Hown. pose proof (Hown x Hin) as Ho. destruct (listed_spec lists) as ((_ & _ & Hs) & Hc).
  destruct (Hc i _ x Hl Hin Ho) as [info Hinfo]. rewrite Hh in Hinfo, Ho. unfold is_wakeup, tagged. cbn [ev_handle].
  rewrite Hinfo. cbn. f_equal. destruct (Hs _ _ Hinfo) as (j & y & (l & Hj & Hy) & Hoy & Hset & _ & _ & Hfl & _).
  assert (i < 128)%nat as Hi by (apply lookup_lt_Some in Hl; lia). assert (j < 128)%nat as Hj' by (apply lookup_lt_Some in Hj; lia).
  destruct (handle_round_trip _ _ Ho Hi) as [E1 C1], (handle_round_trip _ _ Hoy Hj') as [E2 C2].
  rewrite Hset, E2 in E1. rewrite Hset, C2 in C1. assert (j = i) as -> by lia. rewrite Hl in Hj. injection Hj as <-.
  apply list_elem_of_fmap in Hy as ([k y'] & -> & Hy). apply map_find_elem in Hy; [|done]. cbn [snd] in *.
  rewrite (Hkey _ _ Hy) in C1. subst k. rewrite Hx in Hy. injection Hy as <-.
  destruct Hfl as [->| ->]; [done|by rewrite land_wake_up].
Qed.

(** A batch of its events: all known, and a wake-up batch for both or for none. *)
Lemma proxy_knows_all lists i c evs :
  (length lists <= 128)%nat -> lists !! i = Some (SensorsSubHal.getSensorsList c) -> SensorsSubHal.sensors_ok (SensorsSubHal.mSensors c) ->
  Forall (fun x => own_handle (si_handle x)) (SensorsSubHal.getSensorsList c) ->
  Forall (fun ev => map_mem (ev_handle ev) (SensorsSubHal.mSensors c) = true) evs ->
  Forall (fun ev => known (listed lists) (tagged i ev)) evs /\
  existsb (fun ev => SensorsSubHal.isWakeUpSensor (ev_handle ev) c) evs = (0 <? wakes (listed lists) (map (tagged i) evs)).
Proof.
  intros Hlen Hl Hs Hown Hmem.
  assert (Forall (fun ev => is_wakeup (listed lists) (tagged i ev) = Some (SensorsSubHal.isWakeUpSensor (ev_handle ev) c)) evs) as Hw.
  { eapply Forall_impl; [exact Hmem|]. intros ev Hev. by apply proxy_knows. }
  split; [eapply Forall_impl; [exact Hw|]; intros ev Hev; eexists; exact Hev|].
  clear -Hw. induction Hw as [|ev evs Hev Hw IH]; [done|]. cbn [existsb map].
  rewrite IH. unfold wakes. rewrite countb_cons. unfold wakes_up at 2. rewrite Hev. cbn.
  destruct (SensorsSubHal.isWakeUpSensor _ c); cbn [orb Nat.b2n]; [|done]. symmetry. apply Z.ltb_lt. lia.
Qed.

Section Behind.
Context `{Hconv : SensorsSubHal.Convert} (dev : SensorsSubHal.device).
Context (answer : list event -> query -> Z).
Context (sub : list event -> nat -> sub_call -> Result * Z).
Context (t0 : Z).

(** The sub-HAL behind the proxy.  Whenever the sub-HAL posts events, the proxy
    that lists its sensors knows each of them, counts as wake-up events exactly those
    for which the sub-HAL asks for a wake lock, and, while it runs and the wake lock
    asked for is locked, none of its guards drops the post: the events are taken in
    order, up to a tail for which the pending queue is full, unless the system wake
    lock is not held and cannot be acquired. *)
Theorem subhal_posts_reach_framework hw s h cb wakeup evs h' lists i p :
  SensorsSubHal.reachable dev hw s -> SensorsSubHal.log s = h ++ SensorsSubHal.Posted cb wakeup evs :: h' ->
  (length lists <= 128)%nat -> lists !! i = Some (SensorsSubHal.getSensorsList (SensorsSubHal.mConfig s)) ->
  Forall (fun x => own_handle (si_handle x)) (SensorsSubHal.getSensorsList (SensorsSubHal.mConfig s)) ->
  clock_ok answer t0 -> reached answer sub t0 lists p -> mThreadsRun (conn p) = true ->
  let out := map (tagged i) evs in
  Forall (known (cfg p)) out /\ wakeup = (0 <? wakes (cfg p) out) /\
  exists p', postEvents answer i evs wakeup p = Some (tt, p') /\
    (offered t0 out p p' \/
     v_accepted (view_of t0 p') = v_accepted (view_of t0 p) /\ wakeup = true /\
       mWakelockRefCount (wk p) = 0 /\ answer (log p) QAcquire <> 0).
Proof.
  intros Hreach Hlog Hlen Hl Hown Hck Hr Hrun out. pose proof (SensorsSubHal.reachable_good dev hw s Hreach) as (Hi & _ & Hlo).
  set (c := SensorsSubHal.mConfig s) in *. pose proof (proj1 (proj1 Hi)) as Hsens. fold c in Hsens.
  destruct (SensorsSubHal.log_ok_posted _ _ _ _ _ _ _ Hlo Hlog) as (_ & Hne & Hwake & h1 & h2 & h3 & count & data & _ & _ & _ & Hevs). fold c in Hwake, Hevs.
  pose proof (run_inv _ _ _ _ _ Hck (HalProxy_inv t0 lists (proj1 Hck)) Hr) as [Hinv Hcfg]. change (cfg p = listed lists) in Hcfg.
  destruct (proxy_knows_all lists i c evs) as [Hk Hwk]; try done.
  { rewrite Hevs. apply Forall_forall. intros ev [_ Hcur]%list_elem_of_In%filter_In.
    unfold SensorsSubHal.current in Hcur. by apply andb_true_iff in Hcur as [? _]. }
  rewrite <- Hcfg, <- Hwake in Hwk. rewrite <- Hcfg in Hk. fold out in Hwk.
  split; [by apply Forall_map|]. split; [done|].
  destruct (postEvents_offers answer sub t0 p i evs wakeup Hinv Hrun Hne Hk) as (p' & Hp & Hout). exists p'. split; [done|].
  fold out in Hout. rewrite Hwk in Hout |- *. pose proof (wakes_nonneg (cfg p) out).
  destruct (0 <? wakes (cfg p) out) eqn:Hz, (wakes (cfg p) out =? 0) eqn:Hz0; cbn in Hout; zb; try lia; done.
Qed.
End Behind.
