(* ===== verification/HalProxyRuns.v ===== *)
(** * Runs of the sensors HAL proxy on concrete inputs

    [play] runs a schedule: which thread goes next, and what the framework and the
    sub-HALs ask for.  Every schedule that plays is a run of [step].  The sample session
    initializes a proxy over two sub-HALs and posts two wake-up events into a queue with
    room for one; the theorems of [HalProxySpec] are applied to it. *)

From S2P Require Import Prelude StateM StdMap SensorTypes Sensors SensorsSubHal HalProxy HalProxyRoute HalProxyInv HalProxySpec.

(** ** Schedules *)

Inductive action :=
  | AServe (r : request) | ACreate (locked : bool) | ADestroy (i : nat)
  | APost (index : nat) (evs : list Event) (locked : bool)
  | AWriter (success : bool) | AWaker (read : option Z) | AInit (rq : init_request) | ANext
  | AWake (writer : bool).           (* a wake-up nobody asked for *)

Section Play.
Context (answer : list event -> query -> Z).
Context (sub : list event -> nat -> sub_call -> Result * Z).
Context (t0 : Z).

Definition is_u32b (o : option Z) : bool :=
  match o with Some n => (0 <=? n) && (n <? 2 ^ 32) | None => true end.

Definition act (a : action) (p : proxy) : option proxy :=
  match a with
  | AServe r => snd <$> serve sub r p
  | ACreate locked => snd <$> createScopedWakelock answer locked p
  | ADestroy i => snd <$> destroyScopedWakelock i p
  | APost index evs locked => snd <$> postEvents answer index evs locked p
  | AWriter success =>
      match writer (thr p) with
      | WStopped | WWaiting => None
      | WTop => snd <$> writer_section answer p
      | WWriting n k => snd <$> writer_wrote n k success p
      | WWrote n k => snd <$> writer_after n k p
      end
  | AWaker o =>
      match waker (thr p) with
      | KStopped | KWaiting => None
      | KTop => snd <$> waker_section answer p
      | KReading => if is_u32b o then snd <$> waker_read o p else None
      end
  | AInit rq => match initializer (thr p) with IIdle => snd <$> stop_begin rq p | _ => None end
  | ANext => m ← init_next answer sub p; snd <$> m p
  | AWake b => snd <$> (if b then notify_writer else notify_waker) p
  end.

Fixpoint play (l : list action) (p : proxy) : option proxy :=
  match l with
  | [] => Some p
  | a :: l => p' ← act a p; if v_taken (view_of t0 p') <? 2 ^ 64 then play l p' else None
  end.

Lemma ran {A} (x : option (A * proxy)) p' : snd <$> x = Some p' -> exists a, x = Some (a, p').
Proof. destruct x as [[a q]|]; [|done]. intros [= <-]. by exists a. Qed.

Lemma act_step a p p' : act a p = Some p' -> step answer sub p p'.
Proof.
  destruct a as [r|b|i|i evs b|b|o|rq| |b]; cbn [act].
  - intros [x Hr]%ran. exact (step_serve _ _ _ _ _ _ Hr).
  - intros [x Hr]%ran. exact (step_create _ _ _ _ _ _ Hr).
  - intros [[] Hr]%ran. exact (step_destroy _ _ _ _ _ Hr).
  - intros [[] Hr]%ran. exact (step_post _ _ _ _ _ _ _ Hr).
  - destruct (writer (thr p)) as [| | |n k|n k] eqn:Hw; try done; intros [[] Hr]%ran.
    + exact (step_writer _ _ _ _ Hw Hr).
    + exact (step_wrote _ _ _ _ _ _ _ Hw Hr).
    + exact (step_after _ _ _ _ _ _ Hw Hr).
  - destruct (waker (thr p)) eqn:Hk; [done|intros [[] Hr]%ran|done|].
    + exact (step_waker _ _ _ _ Hk Hr).
    + destruct (is_u32b o) eqn:Ho; [|done]. intros [[] Hr]%ran. refine (step_read _ _ _ _ _ Hk _ Hr).
      intros n ->. cbn in Ho. apply andb_true_iff in Ho as [H1 H2]. split; [by apply Z.leb_le|by apply Z.ltb_lt].
  - destruct (initializer (thr p)) eqn:Hi; try done. intros [[] Hr]%ran. exact (step_init _ _ _ _ _ Hi Hr).
  - destruct (init_next answer sub p) as [m|] eqn:Hm; [|done]. cbn. intros [[] Hr]%ran.
    exact (step_init_next _ _ _ _ _ Hm Hr).
  - intros [[] Hr]%ran. exact (step_spurious _ _ _ b _ Hr).
Qed.

Lemma play_runs l : forall p p', play l p = Some p' -> rtc (run_step answer sub t0) p p'.
Proof.
  induction l as [|a l IH]; intros p p'; cbn [play]; [by intros [= ->]; apply rtc_refl|].
  destruct (act a p) as [q|] eqn:Ha; [|done]. cbn [mbind option_bind]. destruct (_ <? _) eqn:Hb; [|done]. intros Hp.
  eapply rtc_l; [|by apply IH]. split; [by eapply act_step|]. by apply Z.ltb_lt.
Qed.
End Play.

(** ** The sample session *)

Lemma v_now_config c c' t0 h : v_now (replay c t0 h) = v_now (replay c' t0 h).
Proof.
  unfold replay. set (v := mk_view _ _ _ _ _ _ _ _) at 1. set (v' := mk_view _ _ _ _ _ _ _ _).
  assert (v_now v = v_now v') as Hv by done. clearbody v v'. revert v v' Hv.
  induction h as [|e h IH]; intros v v' Hv; [done|]. cbn [fold_left]. apply IH.
  destruct v, v', e as [[] ?| | | | | | | | | | | | | | | |]; cbn in *; congruence.
Qed.

(** A clock that ticks with every reading; room for one event at a time. *)
Definition sample_answer (h : list event) (q : query) : Z :=
  match q with
  | QNow => v_now (replay (mk_config 0 [] None) 0 h) + 1
  | QAcquire => 0 | QAvailable => 1 | QWrite _ => 1 | QQuantum => 4
  end.

Lemma sample_clock : clock_ok sample_answer 0.
Proof. split; [lia|]. intros c h. cbn. rewrite (v_now_config c (mk_config 0 [] None)). lia. Qed.

Definition sample_request : init_request := mk_request (Some 1) true true true true.
Definition sample_start : list action := AInit sample_request :: replicate 9 ANext.
Definition sample_events : list Event := [mk_event 3 1 10 [1]; mk_event 3 1 20 [2]].

Definition started : option proxy := play sample_answer sample_sub 0 sample_start (HalProxy sample_lists 0 0).
(** One event delivered, one pending; the scoped lock is gone. *)
Definition posted : option proxy :=
  play sample_answer sample_sub 0 (sample_start ++ [ACreate true; APost 1 sample_events true; ADestroy 0]) (HalProxy sample_lists 0 0).
(** Both delivered and acknowledged. *)
Definition finished : option proxy :=
  play sample_answer sample_sub 0 (sample_start ++ [ACreate true; APost 1 sample_events true; ADestroy 0;
    AWriter true; AWriter true; AWriter true; AWaker None; AWaker (Some 2)]) (HalProxy sample_lists 0 0).
(** A new session asked for while one runs: the writer has nothing to write and waits,
    the other thread reads from its queue. *)
Definition restarting : option proxy :=
  play sample_answer sample_sub 0 (sample_start ++ [AWriter true; AWaker None; ACreate true; AWaker None; AInit sample_request])
    (HalProxy sample_lists 0 0).
(** It waits for neither: all the steps to the next session. *)
Definition restarted : option proxy :=
  play sample_answer sample_sub 0 (sample_start ++ [AWriter true; AWaker None; ACreate true; AWaker None; AInit sample_request;
    ANext; AWriter true; AWaker None; AWaker None] ++ replicate 8 ANext) (HalProxy sample_lists 0 0).

Example sample_counts :
  (fun p => (mWakelockRefCount (wk p), v_held (view_of 0 p), pend p)) <$> posted =
    Some (2, true, [mk_event 0x1000003 1 20 [2]]) /\
  (fun p => (mWakelockRefCount (wk p), v_held (view_of 0 p), v_delivered (view_of 0 p))) <$> finished =
    Some (0, false, [mk_event 0x1000003 1 10 [1]; mk_event 0x1000003 1 20 [2]]).
Proof. split; vm_compute; reflexivity. Qed.

Example sample_restarts :
  thr <$> restarting = Some (mk_threads WWaiting KReading (INotify sample_request)) /\
  thr <$> restarted = Some (mk_threads WTop KTop IIdle).
Proof. split; vm_compute; reflexivity. Qed.

(** The accelerometer's session of [SensorsSubHal], behind a proxy of its own. *)
Definition behind_lists : list (list SensorInfo) := [[mk_info 7 1 []]].
Definition behind_started : option proxy :=
  play sample_answer sample_sub 0 sample_start (HalProxy behind_lists 0 0).

(** ** The theorems on it *)

Lemma sample_run_of (l : list action) lists p :
  play sample_answer sample_sub 0 l (HalProxy lists 0 0) = Some p ->
  reached sample_answer sample_sub 0 lists p.
Proof. apply play_runs. Qed.

(** A state computed by one of the schedules above is reachable. *)
Ltac sample_runs e :=
  let e' := eval unfold posted, started, restarting, behind_started in e in
  match e' with play _ _ _ ?l (HalProxy ?lists _ _) => apply (sample_run_of l lists); vm_compute; reflexivity end.

Lemma wake_lock_accounting_witness :
  exists p, posted = Some p /\ mWakelockRefCount (wk p) = 2 /\
    mWakelockRefCount (wk p) = fresh p + wakes (cfg p) (pend p) + v_unacked (view_of 0 p).
Proof.
  eexists. split; [vm_compute; reflexivity|]. split; [reflexivity|].
  refine (proj2 (proj1 (proj2 (wake_lock_accounting sample_answer sample_sub 0 sample_lists _ sample_clock _)) _ _ _));
    [sample_runs posted|vm_compute; reflexivity..].
Defined.

Lemma event_stream_fifo_witness :
  exists p, posted = Some p /\ length (pend p) = 1%nat /\
    v_accepted (view_of 0 p) = v_delivered (view_of 0 p) ++ pend p.
Proof.
  eexists. split; [vm_compute; reflexivity|]. split; [reflexivity|].
  refine (proj1 (event_stream_fifo sample_answer sample_sub 0 sample_lists _ sample_clock _)). sample_runs posted.
Defined.


Lemma initialize_ends_witness :
  exists p, restarting = Some p /\ writer (thr p) = WWaiting /\ waker (thr p) = KReading /\ remaining (thr p) = 13%nat /\
    (exists p', works sample_answer sample_sub p p') /\
    exists p', stop_notify sample_request p = Some (tt, p') /\ log p' = log p ++ [Woke false; Woke true] /\ awake (thr p').
Proof.
  eexists. split; [vm_compute; reflexivity|].
  match goal with |- writer (thr ?p) = _ /\ _ =>
    destruct (initialize_ends sample_answer sample_sub 0 sample_lists p sample_clock) as (_ & _ & Hends & Hwake);
      [sample_runs restarting|] end.
  do 3 (split; [reflexivity|]). split; [by apply Hends|].
  eexists. split; [vm_compute; reflexivity|].
  split; [eapply Hwake; [reflexivity|vm_compute; reflexivity|by intros [? _]]|].
  eapply Hwake; [reflexivity|vm_compute; reflexivity].
Defined.


Lemma subhal_posts_reach_framework_witness :
  exists p p', behind_started = Some p /\
    postEvents sample_answer 0 [mk_event 7 1 150 [1]; mk_event 7 0 0 []] true p = Some (tt, p') /\
    (offered 0 (map (tagged 0) [mk_event 7 1 150 [1]; mk_event 7 0 0 []]) p p' \/
     v_accepted (view_of 0 p') = v_accepted (view_of 0 p) /\ true = true /\
       mWakelockRefCount (wk p) = 0 /\ sample_answer (log p) QAcquire <> 0).
Proof.
  match eval vm_compute in behind_started with Some ?p => match eval vm_compute in SensorsSubHal.sample_run with Some ?s =>
    exists p;
    destruct (subhal_posts_reach_framework SensorsSubHal.sample_device sample_answer sample_sub 0 SensorsSubHal.sample_hw s
      (take (length (SensorsSubHal.log s) - 1) (SensorsSubHal.log s)) 1 true
      [mk_event 7 1 150 [1]; mk_event 7 0 0 []] [] behind_lists 0 p) as (_ & _ & p' & Hp & Ho);
      [apply SensorsSubHal.sample_reachable; vm_compute; reflexivity|vm_compute; reflexivity|cbn; lia|reflexivity|
       repeat constructor; cbn; lia|exact sample_clock|sample_runs behind_started|reflexivity|]
  end end.
  exists p'. split; [vm_compute; reflexivity|]. split; [exact Hp|exact Ho].
Defined.
