(* ===== verification/ScopedWakelock.v ===== *)
(** * Scoped wake locks as objects (sensors-hal/multihal/ScopedWakelock)

    [HalProxy] keeps the creation times of the locked ScopedWakelock objects that are
    alive.  Here the objects are in storage of their own: constructed, moved, assigned
    and destroyed one at a time, each at its address.  Every such operation is at most
    one step of the proxy on its list, so what holds of the list holds of the objects:
    no move loses a reference or gives it back twice.  Last, the sub-HAL's post with
    all its moves is the create, post and destroy of [HalProxy]. *)

From S2P Require Import Prelude StateM StdMap SensorTypes SensorsSubHal HalProxy HalProxyRoute HalProxyInv HalProxySpec HalProxyRuns.

(** ** The objects *)

(** mRefCounter is the one proxy. *)
Record ScopedWakelock := mk_lock { mCreatedAtTimeNs : Z; mLocked : bool }.

Record system := mk_system { prx : proxy; objs : gmap nat ScopedWakelock }.

Section Objects.
Context (answer : list event -> query -> Z).
Context (sub : list event -> nat -> sub_call -> Result * Z).

Notation M := (StateM.M system).

Definition on_proxy {A} (m : StateM.M proxy A) : M A := fun s =>
  match m (prx s) with Some (a, p) => Some (a, mk_system p (objs s)) | None => None end.
Definition set_objs (o : gmap nat ScopedWakelock) : M unit := modify (fun s => mk_system (prx s) o).

(** The object at [x]; [None] is a use of storage that holds none. *)
Definition object (x : nat) : M ScopedWakelock := o ← gets objs; lift (o !! x).
Definition store (x : nat) (l : ScopedWakelock) : M unit := o ← gets objs; set_objs (<[x := l]> o).
(** New storage at [x]; [None] when a live object is there. *)
Definition place (x : nat) (l : ScopedWakelock) : M unit :=
  o ← gets objs;
  match o !! x with None => set_objs (<[x := l]> o) | Some _ => lift None end.

Definition isLocked (x : nat) : M bool := l ← object x; mret (mLocked l).

(** The constructor of HalProxyCallback. *)
Definition construct (x : nat) (locked : bool) : M unit :=
  t ← (if (locked : bool) then on_proxy (incrementRefCountAndMaybeAcquireWakelock answer 1) else mret None);
  place x (mk_lock (default 0 t) (bool_decide (is_Some t))).

Definition move_construct (x other : nat) : M unit :=
  l ← object other;
  _ ← place x l;
  store other (mk_lock (mCreatedAtTimeNs l) false).

(** What a locked object does when it gives its reference back. *)
Definition give_back (l : ScopedWakelock) : M unit :=
  if mLocked l then on_proxy (decrementRefCountAndMaybeReleaseWakelock 1 (mCreatedAtTimeNs l)) else mret tt.

Definition move_assign (x other : nat) : M unit :=
  if decide (x = other) then mret tt else
  l ← object x;
  _ ← give_back l;
  r ← object other;
  _ ← store x r;
  store other (mk_lock (mCreatedAtTimeNs r) false).

Definition destruct_lock (x : nat) : M unit :=
  l ← object x;
  _ ← give_back l;
  o ← gets objs;
  set_objs (delete x o).

(** HalProxyCallback::createScopedWakelock into [x]; the compiler may elide the local
    variable [local]. *)
Definition create_into (elide : bool) (x local : nat) (lock : bool) : M unit :=
  if (elide : bool) then construct x lock else
  _ ← construct local lock;
  _ ← move_construct x local;
  destruct_lock local.

(** HalProxyCallback::postEvents with its parameter at [wakelock], and that of
    postEventsToMessageQueue at [inner]. *)
Definition post_object (index : nat) (evs : list Event) (wakelock inner : nat) : M unit :=
  run ← on_proxy (gets (fun p => mThreadsRun (conn p)));
  if bool_decide (evs = []) || negb run then mret tt else
  c ← on_proxy (gets cfg);
  '(processed, numWakeupEvents) ← lift (processEvents c index evs);
  held ← isLocked wakelock;
  if (0 <? numWakeupEvents) && negb held then mret tt else
  _ ← move_construct inner wakelock;
  held ← isLocked inner;
  _ ← on_proxy (postEventsToMessageQueue answer processed numWakeupEvents held);
  destruct_lock inner.

(** The end of pollForEvents: the variable wakelock is at [x], the parameters at
    [param] and [inner]. *)
Definition post_batch (elide : bool) (x local param inner : nat) (index : nat) (wakeup : bool) (evs : list Event) : M unit :=
  _ ← create_into elide x local wakeup;
  _ ← move_construct param x;
  _ ← post_object index evs param inner;
  _ ← destruct_lock param;
  destruct_lock x.

(** The same on the list of the proxy. *)
Definition post_listed (index : nat) (wakeup : bool) (evs : list Event) : StateM.M proxy unit :=
  b ← createScopedWakelock answer wakeup;
  _ ← postEvents answer index evs b;
  if (b : bool) then destroyScopedWakelock 0 else mret tt.

(** Operations on objects, and everything else the proxy does. *)
Inductive sys_step (s : system) : system -> Prop :=
  | sys_construct x locked s' : construct x locked s = Some (tt, s') -> sys_step s s'
  | sys_move_construct x other s' : move_construct x other s = Some (tt, s') -> sys_step s s'
  | sys_move_assign x other s' : move_assign x other s = Some (tt, s') -> sys_step s s'
  | sys_destruct x s' : destruct_lock x s = Some (tt, s') -> sys_step s s'
  | sys_proxy p' : step answer sub (prx s) p' -> scoped p' = scoped (prx s) -> sys_step s (mk_system p' (objs s)).
End Objects.

(** ** What does not look at the list *)

(** A method that neither reads nor changes the list of scoped locks. *)
Class Blind {A} (m : StateM.M proxy A) : Prop :=
  blind : forall l p, m (with_scoped l p) = (fun r => (r.1, with_scoped l r.2)) <$> m p.

Lemma blind_ret {A} (a : A) : Blind (mret a).
Proof. done. Qed.
Lemma blind_lift {A} (o : option A) : Blind (lift o).
Proof. intros l p. by destruct o. Qed.
Lemma blind_gets {A} (f : proxy -> A) : (forall l p, f (with_scoped l p) = f p) -> Blind (gets f).
Proof. intros Hf l p. unfold gets. by rewrite Hf. Qed.
Lemma blind_modify (f : proxy -> proxy) :
  (forall l p, f (with_scoped l p) = with_scoped l (f p)) -> Blind (modify f).
Proof. intros Hf l p. unfold modify. by rewrite Hf. Qed.
Lemma blind_bind {A B} (m : StateM.M proxy A) (f : A -> StateM.M proxy B) :
  Blind m -> (forall a, Blind (f a)) -> Blind (m ≫= f).
Proof.
  intros Hm Hf l p. unfold mbind, M_bind. rewrite Hm. destruct (m p) as [[a p']|]; [|done]. apply Hf.
Qed.

Create HintDb blind.
#[export] Hint Resolve blind_ret blind_lift : blind.

(** Goes through a method part by part. *)
Ltac blind_parts :=
  cbv zeta; intros;
  lazymatch goal with
  | |- Blind (mbind _ _) => apply blind_bind; blind_parts
  | |- Blind (gets _) => by apply blind_gets
  | |- Blind (modify _) => by apply blind_modify
  | |- Blind (match ?x with _ => _ end) => destruct x; blind_parts
  | |- Blind (let '(_, _) := ?x in _) => destruct x; blind_parts
  | |- Blind _ => solve [auto with blind nocore]
  end.
Ltac blind_method m := intros; unfold m; blind_parts.

Section Blindness.
Context (answer : list event -> query -> Z).
Context (sub : list event -> nat -> sub_call -> Result * Z).

Lemma blind_emit e : Blind (emit e).
Proof. blind_method emit. Qed.
Lemma blind_set_conn c : Blind (set_conn c).
Proof. blind_method set_conn. Qed.
Lemma blind_set_que q : Blind (set_que q).
Proof. blind_method set_que. Qed.
Lemma blind_set_wk w : Blind (set_wk w).
Proof. blind_method set_wk. Qed.
Lemma blind_set_thr t : Blind (set_thr t).
Proof. blind_method set_thr. Qed.
#[local] Hint Resolve blind_emit blind_set_conn blind_set_que blind_set_wk blind_set_thr : blind.
Lemma blind_set_writer w : Blind (set_writer w).
Proof. blind_method set_writer. Qed.
Lemma blind_set_waker w : Blind (set_waker w).
Proof. blind_method set_waker. Qed.
Lemma blind_set_init i : Blind (set_init i).
Proof. blind_method set_init. Qed.
Lemma blind_ask q : Blind (ask answer q).
Proof. blind_method ask. Qed.
Lemma blind_call i c : Blind (call_sub sub i c).
Proof. blind_method call_sub. Qed.
Lemma blind_notify_writer : Blind notify_writer.
Proof. blind_method notify_writer. Qed.
Lemma blind_notify_waker : Blind notify_waker.
Proof. blind_method notify_waker. Qed.
#[local] Hint Resolve blind_set_writer blind_set_waker blind_set_init blind_ask blind_call : blind.
#[local] Hint Resolve blind_notify_writer blind_notify_waker : blind.

Lemma blind_inc d : Blind (incrementRefCountAndMaybeAcquireWakelock answer d).
Proof. blind_method incrementRefCountAndMaybeAcquireWakelock. Qed.
Lemma blind_dec d t : Blind (decrementRefCountAndMaybeReleaseWakelock d t).
Proof. blind_method decrementRefCountAndMaybeReleaseWakelock. Qed.
#[local] Hint Resolve blind_inc blind_dec : blind.
Lemma blind_reset : Blind (resetSharedWakelock answer).
Proof. blind_method resetSharedWakelock. Qed.
Lemma blind_write evs : Blind (write_direct answer evs).
Proof. blind_method write_direct. Qed.
#[local] Hint Resolve blind_reset blind_write : blind.
Lemma blind_post_queue evs n b : Blind (postEventsToMessageQueue answer evs n b).
Proof. blind_method postEventsToMessageQueue. Qed.
#[local] Hint Resolve blind_post_queue : blind.
Lemma blind_post i evs b : Blind (postEvents answer i evs b).
Proof. blind_method postEvents. Qed.
Lemma blind_writer_section : Blind (writer_section answer).
Proof. blind_method @writer_section. Qed.
Lemma blind_writer_wrote n k b : Blind (writer_wrote n k b).
Proof. blind_method writer_wrote. Qed.
Lemma blind_writer_after n k : Blind (writer_after n k).
Proof. blind_method writer_after. Qed.
Lemma blind_timeout : Blind (sharedWakelockDidTimeout answer).
Proof. blind_method sharedWakelockDidTimeout. Qed.
#[local] Hint Resolve blind_timeout : blind.
Lemma blind_waker_section : Blind (waker_section answer).
Proof. blind_method waker_section. Qed.
Lemma blind_waker_read o : Blind (waker_read o).
Proof. blind_method waker_read. Qed.
Lemma blind_connected l i : Blind (onDynamicSensorsConnected l i).
Proof. blind_method onDynamicSensorsConnected. Qed.
Lemma blind_disconnected l i : Blind (onDynamicSensorsDisconnected l i).
Proof. blind_method onDynamicSensorsDisconnected. Qed.
Lemma blind_stop_begin rq : Blind (stop_begin rq).
Proof. blind_method stop_begin. Qed.

Lemma blind_route h c : Blind (route sub h c).
Proof. blind_method route. Qed.
#[local] Hint Resolve blind_route : blind.
Lemma blind_activate h b : Blind (activate sub h b).
Proof. blind_method activate. Qed.
#[local] Hint Resolve blind_activate : blind.
Lemma blind_mode_loop n : forall i mode r, Blind (mode_loop sub n i mode r).
Proof. induction n; intros; cbn [mode_loop]; blind_parts. Qed.
Lemma blind_mode_reset n : forall i mode, Blind (mode_reset sub n i mode).
Proof. induction n; intros; cbn [mode_reset]; blind_parts. Qed.
#[local] Hint Resolve blind_mode_loop blind_mode_reset : blind.
Lemma blind_direct c : Blind (on_direct sub c).
Proof. blind_method on_direct. Qed.
#[local] Hint Resolve blind_direct : blind.
Lemma blind_serve r : Blind (serve sub r).
Proof.
  destruct r; cbn [serve]; unfold setOperationMode, batch, flush, injectSensorData,
    registerDirectChannel, unregisterDirectChannel, configDirectReport; blind_parts.
Qed.

Lemma blind_disable_each l : Blind (disable_each sub l).
Proof. induction l as [|[h x] l IH]; cbn [disable_each]; blind_parts. Qed.
Lemma blind_init_subhal_loop n : forall i, Blind (init_subhal_loop sub n i).
Proof. induction n; intros; cbn [init_subhal_loop]; blind_parts. Qed.
#[local] Hint Resolve blind_disable_each blind_init_subhal_loop : blind.

Lemma init_next_scoped l p : init_next answer sub (with_scoped l p) = init_next answer sub p.
Proof. done. Qed.

Lemma blind_init_next p m : init_next answer sub p = Some m -> Blind m.
Proof.
  unfold init_next. destruct (initializer (thr p)); try done; try (destruct (writer (thr p)), (waker (thr p)); try done);
    intros [= <-]; unfold stop_notify, disableAllSensors, init_clear, init_dynamic, init_queues, init_subhals, init_start; blind_parts.
Qed.

Lemma blind_run {A} (m : StateM.M proxy A) l p a p' :
  Blind m -> m p = Some (a, p') -> m (with_scoped l p) = Some (a, with_scoped l p').
Proof. intros Hm Hr. by rewrite Hm, Hr. Qed.

Lemma with_own p : with_scoped (scoped p) p = p.
Proof. by destruct p. Qed.

Lemma blind_keeps {A} (m : StateM.M proxy A) p a p' : Blind m -> m p = Some (a, p') -> scoped p' = scoped p.
Proof. intros Hm Hr. pose proof (Hm (scoped p) p) as Hb. rewrite with_own, Hr in Hb. cbn in Hb. by injection Hb as ->. Qed.

(** The constructor and the destructor on the list. *)
Lemma create_run p : exists t p1,
  incrementRefCountAndMaybeAcquireWakelock answer 1 p = Some (t, p1) /\ scoped p1 = scoped p /\
  createScopedWakelock answer true p =
    Some (match t with Some now => (true, with_scoped (now :: scoped p) p1) | None => (false, p1) end).
Proof.
  destruct (inc_run answer 1 p) as (t & th & w & evs & Hr & _). exists t, (touch (with_thr th p) w evs). split_and!; [done..|].
  unfold createScopedWakelock. cbn [negb]. rewrite (mbind_run _ _ _ _ _ Hr). by destruct t.
Qed.

Lemma destroy_run p i t : scoped p !! i = Some t ->
  destroyScopedWakelock i p = decrementRefCountAndMaybeReleaseWakelock 1 t (with_scoped (delete i (scoped p)) p).
Proof.
  intros Ht. unfold destroyScopedWakelock. rewrite (mbind_run _ _ _ _ _ eq_refl). unfold lift, mbind, M_bind. by rewrite Ht.
Qed.

Lemma dec_total d t p : exists p', decrementRefCountAndMaybeReleaseWakelock d t p = Some (tt, p').
Proof. destruct (dec_run d t p) as (w & evs & Hr & _). by eexists. Qed.

(** What the proxy does without the list, it does with any. *)
Lemma step_any_list l p p' :
  step answer sub p p' -> scoped p' = scoped p -> step answer sub (with_scoped l p) (with_scoped l p').
Proof.
  intros Hs Heq. destruct Hs as [r a p' Hr|b a p' Hr|i p' Hr|i evs b p' Hr|x i p' Hr|x i p' Hr|p' Hw Hr|n k b p' Hw Hr|n k p' Hw Hr|
    p' Hw Hr|o p' Hw Ho Hr|rq p' Hi Hr|m p' Hm Hr|b p' Hr].
  - eapply step_serve, blind_run, Hr. apply blind_serve.
  - destruct b; [|by injection Hr as <- <-; eapply step_create with (locked := false)].
    destruct (create_run p) as ([now|] & p1 & Hi & Hk & Hc); rewrite Hc in Hr; injection Hr as <- <-.
    + exfalso. apply (f_equal length) in Heq. cbn in Heq. lia.
    + eapply (step_create _ _ _ true false). destruct (create_run (with_scoped l p)) as (t & q & Hi' & _ & ->).
      rewrite (blind_run _ l _ _ _ (blind_inc 1) Hi) in Hi'. by injection Hi' as <- <-.
  - exfalso. unfold destroyScopedWakelock in Hr. destruct (scoped p !! i) as [t|] eqn:Ht.
    + fold (destroyScopedWakelock i) in Hr. rewrite (destroy_run _ _ _ Ht) in Hr. apply (blind_keeps _ _ _ _ (blind_dec _ _)) in Hr.
      rewrite Heq in Hr. apply (f_equal length) in Hr. cbn [scoped with_scoped] in Hr. rewrite length_delete in Hr by by eexists.
      apply lookup_lt_Some in Ht. lia.
    + unfold mbind, M_bind, gets, lift in Hr. by rewrite Ht in Hr.
  - eapply step_post, blind_run, Hr. apply blind_post.
  - eapply step_connected, blind_run, Hr. apply blind_connected.
  - eapply step_disconnected, blind_run, Hr. apply blind_disconnected.
  - eapply step_writer, blind_run, Hr; [done|apply blind_writer_section].
  - eapply step_wrote, blind_run, Hr; [done|apply blind_writer_wrote].
  - eapply step_after, blind_run, Hr; [done|apply blind_writer_after].
  - eapply step_waker, blind_run, Hr; [done|apply blind_waker_section].
  - eapply step_read, blind_run, Hr; [done|done|apply blind_waker_read].
  - eapply step_init, blind_run, Hr; [done|apply blind_stop_begin].
  - eapply step_init_next, blind_run, Hr; [done|by eapply blind_init_next].
  - eapply step_spurious, blind_run, Hr. destruct b; auto with blind nocore.
Qed.
End Blindness.

(** ** The references the objects hold *)

Definition held_by (l : ScopedWakelock) : list Z := if mLocked l then [mCreatedAtTimeNs l] else [].
Definition times (o : gmap nat ScopedWakelock) : list Z := concat (held_by <$> (map_to_list o).*2).

Lemma times_insert o x l : o !! x = None -> times (<[x := l]> o) ≡ₚ held_by l ++ times o.
Proof. intros Hx. unfold times. by rewrite (map_to_list_insert _ _ _ Hx). Qed.

Lemma times_delete o x l : o !! x = Some l -> times o ≡ₚ held_by l ++ times (delete x o).
Proof. intros Hx. unfold times. by rewrite <- (map_to_list_delete _ _ _ Hx). Qed.

Lemma times_store o x l r : o !! x = Some l -> times (<[x := r]> o) ≡ₚ held_by r ++ times (delete x o).
Proof. intros Hx. rewrite <- insert_delete_eq. apply times_insert, lookup_delete_eq. Qed.

(** A move: the reference goes with the value. *)
Lemma times_moved o x y l : o !! y = Some l -> o !! x = None ->
  times (<[y := mk_lock (mCreatedAtTimeNs l) false]> (<[x := l]> o)) ≡ₚ times o.
Proof.
  intros Hy Hx. assert (x <> y) by congruence.
  rewrite (times_store _ y l) by by rewrite lookup_insert_ne. cbn [held_by mLocked app].
  rewrite delete_insert_ne by done. rewrite times_insert by by rewrite lookup_delete_ne. by rewrite <- times_delete.
Qed.

Section Refinement.
Context (answer : list event -> query -> Z).
Context (sub : list event -> nat -> sub_call -> Result * Z).
Context (t0 : Z).

Notation step := (HalProxy.step answer sub).
Notation sys_step := (sys_step answer sub).

(** At most one step of the proxy. *)
Definition follows (p p' : proxy) : Prop := p = p' \/ step p p'.

(** The list [l] of the proxy becomes a list of what the objects of [s'] hold. *)
Definition tracks (l : list Z) (p : proxy) (s' : system) : Prop :=
  exists l', follows (with_scoped l p) (with_scoped l' (prx s')) /\ l' ≡ₚ times (objs s').

Lemma perm_delete (t : Z) l rest : l ≡ₚ t :: rest -> exists i, l !! i = Some t /\ delete i l ≡ₚ rest.
Proof.
  intros Hp. assert (t ∈ l) as (i & Hi)%list_elem_of_lookup by (rewrite Hp; left).
  exists i. split; [done|]. apply (Permutation_cons_inv (a := t)). by rewrite <- Hp, <- delete_Permutation.
Qed.

Lemma give_back_follows k s s' l rest :
  give_back k s = Some (tt, s') -> l ≡ₚ held_by k ++ rest ->
  objs s' = objs s /\ exists l', follows (with_scoped l (prx s)) (with_scoped l' (prx s')) /\ l' ≡ₚ rest.
Proof.
  unfold give_back, held_by, on_proxy. destruct (mLocked k).
  - destruct (decrementRefCountAndMaybeReleaseWakelock _ _ _) as [[[] p']|] eqn:Hd; [|done]. intros [= <-] Hl. split; [done|].
    destruct (perm_delete _ _ _ Hl) as (i & Hi & Hrest). exists (delete i l). split; [|done]. right.
    eapply step_destroy. rewrite (destroy_run (with_scoped l (prx s)) i _ Hi).
    apply (blind_run _ (delete i l) _ _ _ (blind_dec 1 (mCreatedAtTimeNs k)) Hd).
  - intros [= <-] Hl. split; [done|]. exists l. split; [by left|done].
Qed.

Lemma object_inv x s k s' : object x s = Some (k, s') -> s' = s /\ objs s !! x = Some k.
Proof. unfold object, mbind, M_bind, gets, lift. destruct (objs s !! x) as [k'|]; [|done]. by intros [= -> ->]. Qed.

Lemma place_inv x k s s' : place x k s = Some (tt, s') -> objs s !! x = None /\ s' = mk_system (prx s) (<[x := k]> (objs s)).
Proof. unfold place, mbind, M_bind, gets. destruct (objs s !! x) as [k'|]; [done|]. by intros [= <-]. Qed.

Lemma store_inv x k s s' : store x k s = Some (tt, s') -> s' = mk_system (prx s) (<[x := k]> (objs s)).
Proof. by intros [= <-]. Qed.

Lemma construct_tracks x locked s s' l :
  construct answer x locked s = Some (tt, s') -> l ≡ₚ times (objs s) -> tracks l (prx s) s'.
Proof.
  intros (t & s1 & Ht & [Hx ->]%place_inv)%mbind_inv Hl. destruct locked.
  - unfold on_proxy in Ht. destruct (create_run answer (with_scoped l (prx s))) as (t' & q & Hq & _ & Hc).
    destruct (incrementRefCountAndMaybeAcquireWakelock _ _ (prx s)) as [[t1 p1]|] eqn:Hi; [|done]. injection Ht as <- <-.
    rewrite (blind_run _ l _ _ _ (blind_inc answer 1) Hi) in Hq. injection Hq as <- <-.
    destruct t1 as [now|].
    + exists (now :: l). split; [right; by eapply step_create|]. cbn [objs default]. by rewrite times_insert, Hl.
    + exists l. split; [right; by eapply step_create|]. cbn [objs]. by rewrite times_insert, Hl.
  - injection Ht as <- <-. exists l. split; [by left|]. cbn [objs]. by rewrite times_insert, Hl.
Qed.

Lemma move_construct_tracks x y s s' l :
  move_construct x y s = Some (tt, s') -> l ≡ₚ times (objs s) -> tracks l (prx s) s'.
Proof.
  intros (k & s1 & [-> Hy]%object_inv & ([] & s2 & [Hx ->]%place_inv & ->%store_inv)%mbind_inv)%mbind_inv Hl.
  exists l. split; [by left|]. cbn [objs]. by rewrite times_moved.
Qed.

Lemma move_assign_tracks x y s s' l :
  move_assign x y s = Some (tt, s') -> l ≡ₚ times (objs s) -> tracks l (prx s) s'.
Proof.
  unfold move_assign. destruct (decide (x = y)) as [_|Hne]; [intros [= <-] Hl; exists l; by split; [left|]|].
  intros (k & s1 & [-> Hx]%object_inv & ([] & s2 & Hg & (r & s3 & [-> Hy]%object_inv & ([] & s4 & ->%store_inv & ->%store_inv)%mbind_inv)%mbind_inv)%mbind_inv)%mbind_inv Hl.
  rewrite (times_delete _ _ _ Hx) in Hl. destruct (give_back_follows _ _ _ _ _ Hg Hl) as (Ho & l' & Hf & Hl').
  exists l'. split; [done|]. cbn [objs]. rewrite Ho in *. rewrite <- (insert_delete_eq (objs s) x r), times_moved; [done|by rewrite lookup_delete_ne|apply lookup_delete_eq].
Qed.

Lemma destruct_tracks x s s' l :
  destruct_lock x s = Some (tt, s') -> l ≡ₚ times (objs s) -> tracks l (prx s) s'.
Proof.
  intros (k & s1 & [-> Hx]%object_inv & ([] & s2 & Hg & Hd)%mbind_inv)%mbind_inv Hl. injection Hd as <-.
  rewrite (times_delete _ _ _ Hx) in Hl. destruct (give_back_follows _ _ _ _ _ Hg Hl) as (Ho & l' & Hf & Hl').
  exists l'. split; [done|]. cbn [objs]. by rewrite Ho.
Qed.

(** Every step of the system is at most one of the proxy on its list. *)
Lemma sys_step_tracks s s' l : sys_step s s' -> l ≡ₚ times (objs s) -> tracks l (prx s) s'.
Proof.
  intros [x b s1 Hr|x y s1 Hr|x y s1 Hr|x s1 Hr|p' Hs Hk] Hl.
  - by eapply construct_tracks.
  - by eapply move_construct_tracks.
  - by eapply move_assign_tracks.
  - by eapply destruct_tracks.
  - exists l. split; [right; by apply step_any_list|done].
Qed.

(** ** Runs *)

Definition sys_run (s s' : system) : Prop := sys_step s s' /\ bounded t0 (prx s').
Definition sys_reached (lists : list (list SensorInfo)) (s : system) : Prop :=
  rtc sys_run (mk_system (HalProxy lists t0 t0) ∅) s.

Lemma sys_run_refines s s' l :
  rtc sys_run s s' -> l ≡ₚ times (objs s) ->
  exists l', rtc (run_step answer sub t0) (with_scoped l (prx s)) (with_scoped l' (prx s')) /\ l' ≡ₚ times (objs s').
Proof.
  intros Hr. revert l. induction Hr as [s|s s1 s' [Hs Hb] Hr IH]; intros l Hl; [exists l; by split|].
  destruct (sys_step_tracks _ _ _ Hs Hl) as (l1 & Hf & Hl1). destruct (IH _ Hl1) as (l' & Hr' & Hl').
  exists l'. split; [|done]. destruct Hf as [->|Hst]; [done|]. by eapply rtc_l; [split; [exact Hst|]|].
Qed.

(** Locked objects made since the last reset. *)
Definition fresh_objects (s : system) : Z :=
  Z.of_nat (countb (fun t => mWakelockTimeoutResetTime (wk (prx s)) <=? t) (times (objs s))).

(** C23: Wake-lock objects.  However ScopedWakelock objects are constructed, moved,
    assigned and destroyed, by any threads, between anything else the proxy does, the
    system runs as [HalProxy] does on a list of the creation times of the locked ones.
    So the system wake lock is held exactly while the count is positive; and while the
    proxy runs, until a timeout, the count is the number of locked objects made since
    the last reset, of pending wake-up events and of delivered ones that are not
    acknowledged: no move loses a reference or gives one back twice. *)
Theorem scoped_objects_refine lists s :
  clock_ok answer t0 -> sys_reached lists s ->
  (exists l, reached answer sub t0 lists (with_scoped l (prx s)) /\ l ≡ₚ times (objs s)) /\
  v_held (view_of t0 (prx s)) = (0 <? mWakelockRefCount (wk (prx s))) /\
  (mThreadsRun (conn (prx s)) = true -> v_timeout (view_of t0 (prx s)) = false -> v_honest (view_of t0 (prx s)) = true ->
     mWakelockRefCount (wk (prx s)) =
       fresh_objects s + wakes (cfg (prx s)) (pend (prx s)) + v_unacked (view_of t0 (prx s))).
Proof.
  intros Hck Hr. destruct (sys_run_refines _ _ [] Hr) as (l & Hrun & Hl); [done|].
  split; [by exists l|]. destruct (reached_inv _ _ _ _ _ Hck Hrun) as [[_ Hheld _ _ _ _ _] Ha]. split; [done|].
  intros R1 R2 R3. destruct (Ha R1 R2 R3) as [_ Hc]. rewrite Z.add_0_r in Hc.
  assert (fresh_objects s = fresh (with_scoped l (prx s))) as -> by (unfold fresh, fresh_objects; cbn [scoped with_scoped wk]; by rewrite Hl).
  exact Hc.
Qed.
End Refinement.

(** ** The sub-HAL's post *)

Section Post.
Context (answer : list event -> query -> Z).

Lemma object_run x s k : objs s !! x = Some k -> object x s = Some (k, s).
Proof. intros Hx. unfold object, mbind, M_bind, gets, lift. by rewrite Hx. Qed.

Lemma place_run x k s : objs s !! x = None -> place x k s = Some (tt, mk_system (prx s) (<[x := k]> (objs s))).
Proof. intros Hx. unfold place, mbind, M_bind, gets. by rewrite Hx. Qed.

Lemma move_construct_run x y k s :
  objs s !! y = Some k -> objs s !! x = None ->
  move_construct x y s =
    Some (tt, mk_system (prx s) (<[y := mk_lock (mCreatedAtTimeNs k) false]> (<[x := k]> (objs s)))).
Proof.
  intros Hy Hx. unfold move_construct. rewrite (mbind_run _ _ _ _ _ (object_run _ _ _ Hy)).
  by rewrite (mbind_run _ _ _ _ _ (place_run _ _ _ Hx)).
Qed.

(** What becomes of the proxy when the object [k] goes, and what is left of it. *)
Definition release (k : ScopedWakelock) (p : proxy) : option proxy :=
  if mLocked k then snd <$> decrementRefCountAndMaybeReleaseWakelock 1 (mCreatedAtTimeNs k) p else Some p.
Definition moved (k : ScopedWakelock) : ScopedWakelock := mk_lock (mCreatedAtTimeNs k) false.

Lemma destruct_run x k s :
  objs s !! x = Some k ->
  destruct_lock x s = (p ← release k (prx s); Some (tt, mk_system p (delete x (objs s)))).
Proof.
  intros Hx. unfold destruct_lock, release. rewrite (mbind_run _ _ _ _ _ (object_run _ _ _ Hx)).
  unfold give_back, on_proxy, mbind, M_bind. destruct (mLocked k); [|done].
  by destruct (decrementRefCountAndMaybeReleaseWakelock _ _ _) as [[[] p]|].
Qed.

(** [wakelock] and [local] of createScopedWakelock: one object, at [x]. *)
Lemma create_into_run elide x local lock p o :
  o !! x = None -> o !! local = None -> x <> local ->
  exists t p1, scoped p1 = scoped p /\
    createScopedWakelock answer lock p =
      Some (match t with Some now => (true, with_scoped (now :: scoped p) p1) | None => (false, p1) end) /\
    create_into answer elide x local lock (mk_system p o) =
      Some (tt, mk_system p1 (<[x := mk_lock (default 0 t) (bool_decide (is_Some t))]> o)).
Proof.
  intros Hx Hl Hne.
  assert (exists t p1, scoped p1 = scoped p /\
    createScopedWakelock answer lock p =
      Some (match t with Some now => (true, with_scoped (now :: scoped p) p1) | None => (false, p1) end) /\
    forall y, o !! y = None -> construct answer y lock (mk_system p o) =
      Some (tt, mk_system p1 (<[y := mk_lock (default 0 t) (bool_decide (is_Some t))]> o))) as (t & p1 & Hk & Hc & Hy).
  { destruct lock.
    - destruct (create_run answer p) as (t & p1 & Hi & Hk & Hc). exists t, p1. split_and!; [done..|]. intros y Hy.
      unfold construct. erewrite mbind_run; [|unfold on_proxy; cbn [prx]; rewrite Hi; reflexivity]. by apply place_run.
    - exists None, p. split_and!; [done..|]. intros y Hy. by apply place_run. }
  exists t, p1. split_and!; [done..|]. unfold create_into. destruct elide; [by apply Hy|].
  rewrite (mbind_run _ _ _ _ _ (Hy _ Hl)). set (k := mk_lock _ _).
  rewrite (mbind_run _ _ _ _ _ (move_construct_run x local k (mk_system p1 (<[local := k]> o))
    (lookup_insert_eq _ _ _) (eq_trans (lookup_insert_ne _ _ _ _ (not_eq_sym Hne)) Hx))).
  rewrite (destruct_run _ (moved k)) by apply lookup_insert_eq. cbn. do 2 f_equal. f_equal.
  rewrite delete_insert_eq, delete_insert_ne, delete_insert_id by done. done.
Qed.

Lemma isLocked_run x k s : objs s !! x = Some k -> isLocked x s = Some (mLocked k, s).
Proof. intros Hx. unfold isLocked. by rewrite (mbind_run _ _ _ _ _ (object_run _ _ _ Hx)). Qed.

(** A post ends with the reference in the parameter, or given back by the inner one. *)
Lemma post_object_run index evs param inner k p o :
  o !! param = Some k -> o !! inner = None ->
  exists early : bool, post_object answer index evs param inner (mk_system p o) =
    (r ← postEvents answer index evs (mLocked k) p;
     if early then Some (tt, mk_system r.2 o)
     else p' ← release k r.2; Some (tt, mk_system p' (<[param := moved k]> o))).
Proof.
  intros Hp Hi. assert (param <> inner) by congruence. unfold post_object, postEvents.
  rewrite (mbind_run (mk_system p o) (on_proxy (gets (fun p => mThreadsRun (conn p)))) _ (mThreadsRun (conn p)) (mk_system p o) eq_refl).
  destruct evs as [|ev evs]; [exists true; done|]. rewrite bool_decide_false by done. cbn [orb].
  rewrite (mbind_run p (gets conn) _ _ _ eq_refl). destruct (negb (mThreadsRun (conn p))); [by exists true|].
  rewrite (mbind_run (mk_system p o) (on_proxy (gets cfg)) _ (cfg p) (mk_system p o) eq_refl), (mbind_run p (gets cfg) _ _ _ eq_refl).
  destruct (processEvents (cfg p) index (ev :: evs)) as [[processed num]|]; [|by exists true].
  rewrite (mbind_run (mk_system p o) (lift (Some (processed, num))) _ (processed, num) (mk_system p o) eq_refl),
    (mbind_run p (lift (Some (processed, num))) _ _ _ eq_refl).
  rewrite (mbind_run _ _ _ _ _ (isLocked_run param k (mk_system p o) Hp)). destruct ((0 <? num) && _); [by exists true|]. exists false.
  rewrite (mbind_run _ _ _ _ _ (move_construct_run inner param k (mk_system p o) Hp Hi)).
  assert (<[param := moved k]> (<[inner := k]> o) !! inner = Some k) as Hin by (rewrite lookup_insert_ne by done; apply lookup_insert_eq).
  rewrite (mbind_run _ _ _ _ _ (isLocked_run inner k (mk_system p _) Hin)).
  unfold mbind at 1, M_bind at 1, on_proxy. cbn [prx].
  destruct (postEventsToMessageQueue _ _ _ _ p) as [[[] p2]|]; [|done]. cbn [mbind option_bind snd].
  rewrite (destruct_run _ k) by exact Hin. cbn [prx objs]. destruct (release k p2) as [p3|]; [|done]. cbn.
  by rewrite delete_insert_ne, delete_insert_id by done.
Qed.

(** The post on the list, in terms of the object. *)
Lemma post_listed_run t p1 index wakeup evs p :
  let k := mk_lock (default 0 t) (bool_decide (is_Some t)) in
  scoped p1 = scoped p ->
  createScopedWakelock answer wakeup p =
    Some (match t with Some now => (true, with_scoped (now :: scoped p) p1) | None => (false, p1) end) ->
  post_listed answer index wakeup evs p =
    (r ← postEvents answer index evs (mLocked k) p1; p' ← release k r.2; Some (tt, p')).
Proof.
  intros k Hk Hc. unfold post_listed. destruct t as [now|]; rewrite (mbind_run _ _ _ _ _ Hc).
  - unfold mbind at 1, M_bind at 1. rewrite (blind_post answer index evs true).
    change (mLocked k) with true. destruct (postEvents answer index evs true p1) as [[[] p2]|] eqn:Hp; [|done].
    cbn [fmap option_fmap option_map mbind option_bind fst snd]. rewrite (destroy_run _ 0 now) by done. cbn [scoped with_scoped delete list_delete].
    assert (with_scoped (scoped p) (with_scoped (now :: scoped p) p2) = p2) as ->.
    { rewrite <- Hk, <- (blind_keeps _ _ _ _ (blind_post answer index evs true) Hp). by destruct p2. }
    unfold release. cbn [mLocked mCreatedAtTimeNs k default]. by destruct (decrementRefCountAndMaybeReleaseWakelock _ _ _) as [[[] p3]|].
  - unfold mbind at 1, M_bind at 1. change (mLocked k) with false. by destruct (postEvents _ _ _ _ _) as [[[] p2]|].
Qed.

(** C24: The sub-HAL's post.  The end of pollForEvents creates a wake-lock object, moves
    it into the parameter of postEvents and from there into that of
    postEventsToMessageQueue, and destroys all three, whether or not the compiler
    elides the local variable of createScopedWakelock and wherever postEvents returns.
    In fresh storage that is exactly: create a scoped lock, post with what it says it
    holds, give the reference back once after the post.  A fault of one is a fault of
    the other, and no object is left behind. *)
Theorem post_batch_refines elide x local param inner index wakeup evs p o :
  NoDup [x; local; param; inner] -> Forall (fun y => o !! y = None) [x; local; param; inner] ->
  post_batch answer elide x local param inner index wakeup evs (mk_system p o) =
    (fun r => (tt, mk_system r.2 o)) <$> post_listed answer index wakeup evs p.
Proof.
  rewrite !NoDup_cons, !Forall_cons, !not_elem_of_cons.
  intros ((Hxl & Hxp & Hxi & _) & _ & (Hpi & _) & _) (Hx & Hl & Hp & Hi & _).
  destruct (create_into_run elide x local wakeup p o Hx Hl Hxl) as (t & p1 & Hk & Hc & Hr).
  unfold post_batch. rewrite (mbind_run _ _ _ _ _ Hr). set (k := mk_lock _ _).
  rewrite (mbind_run _ _ _ _ _ (move_construct_run param x k (mk_system p1 (<[x := k]> o))
    (lookup_insert_eq _ _ _) (eq_trans (lookup_insert_ne _ _ _ _ Hxp) Hp))). cbn [prx objs].
  rewrite (post_listed_run t p1 index wakeup evs p Hk Hc). fold k.
  set (o1 := <[x := _]> _). assert (o1 !! param = Some k) as Hp1.
  { unfold o1. rewrite lookup_insert_ne by done. apply lookup_insert_eq. }
  assert (o1 !! inner = None) as Hi1 by (unfold o1; by rewrite !lookup_insert_ne by done).
  assert (delete x (delete param o1) = o) as Hend.
  { unfold o1. rewrite delete_insert_ne, delete_insert_eq, delete_insert_eq by done. rewrite delete_insert_ne by done.
    rewrite delete_insert_eq, (delete_id _ param) by done. by apply delete_id. }
  assert (delete param o1 !! x = Some (moved k)) as Hx1 by (unfold o1; rewrite lookup_delete_ne by done; apply lookup_insert_eq).
  destruct (post_object_run index evs param inner k p1 o1 Hp1 Hi1) as (early & Hpost).
  unfold mbind at 1, M_bind at 1. rewrite Hpost. clear Hpost. destruct (postEvents _ _ _ _ p1) as [[[] p2]|]; [|done].
  cbn [mbind option_bind snd]. destruct early.
  - unfold mbind at 1, M_bind at 1. rewrite (destruct_run _ k) by done. cbn [prx objs]. destruct (release k p2) as [p3|]; [|done].
    cbn [mbind option_bind]. rewrite (destruct_run _ (moved k)) by done. cbn. by rewrite Hend.
  - destruct (release k p2) as [p3|]; [|done]. cbn [mbind option_bind].
    unfold mbind at 1, M_bind at 1. rewrite (destruct_run _ (moved k)) by apply lookup_insert_eq. cbn [mbind option_bind release moved mLocked prx objs].
    rewrite delete_insert_eq. rewrite (destruct_run _ (moved k)) by done. cbn. by rewrite Hend.
Qed.
End Post.

(** ** On concrete inputs *)

Inductive sys_action :=
  | SProxy (a : action) | SConstruct (x : nat) (locked : bool) | SMove (x other : nat)
  | SAssign (x other : nat) | SDestruct (x : nat).

Section Play.
Context (answer : list event -> query -> Z).
Context (sub : list event -> nat -> sub_call -> Result * Z).
Context (t0 : Z).

Definition sys_act (a : sys_action) (s : system) : option system :=
  match a with
  | SProxy a => p' ← act answer sub a (prx s); if bool_decide (scoped p' = scoped (prx s)) then Some (mk_system p' (objs s)) else None
  | SConstruct x locked => snd <$> construct answer x locked s
  | SMove x other => snd <$> move_construct x other s
  | SAssign x other => snd <$> move_assign x other s
  | SDestruct x => snd <$> destruct_lock x s
  end.

Fixpoint sys_play (l : list sys_action) (s : system) : option system :=
  match l with
  | [] => Some s
  | a :: l => s' ← sys_act a s; if v_taken (view_of t0 (prx s')) <? 2 ^ 64 then sys_play l s' else None
  end.

Lemma sys_act_step a s s' : sys_act a s = Some s' -> sys_step answer sub s s'.
Proof.
  assert (forall x : option (unit * system), snd <$> x = Some s' -> x = Some (tt, s')) as Hx.
  { intros [[[] q]|]; [|done]. by intros [= <-]. }
  destruct a as [a|x b|x y|x y|x]; cbn [sys_act].
  - destruct (act answer sub a (prx s)) as [p'|] eqn:Ha; [|done]. cbn. case_bool_decide; [|done]. intros [= <-].
    apply sys_proxy; [|done]. by eapply act_step.
  - intros Hr%Hx. by eapply sys_construct.
  - intros Hr%Hx. by eapply sys_move_construct.
  - intros Hr%Hx. by eapply sys_move_assign.
  - intros Hr%Hx. by eapply sys_destruct.
Qed.

Lemma sys_play_runs l : forall s s', sys_play l s = Some s' -> rtc (sys_run answer sub t0) s s'.
Proof.
  induction l as [|a l IH]; intros s s'; cbn [sys_play]; [by intros [= ->]; apply rtc_refl|].
  destruct (sys_act a s) as [q|] eqn:Ha; [|done]. cbn [mbind option_bind]. destruct (_ <? _) eqn:Hb; [|done]. intros Hp.
  eapply rtc_l; [|by apply IH]. split; [by eapply sys_act_step|]. by apply Z.ltb_lt.
Qed.
End Play.

(** Two objects; one is moved, then the other is assigned to. *)
Definition handover : list sys_action :=
  (SProxy <$> sample_start) ++ [SConstruct 0 true; SMove 1 0; SConstruct 2 true; SAssign 2 1; SAssign 2 2; SDestruct 0].
Definition handed_over : option system :=
  sys_play sample_answer sample_sub 0 handover (mk_system (HalProxy sample_lists 0 0) ∅).

Lemma scoped_objects_refine_witness :
  exists s, handed_over = Some s /\ mWakelockRefCount (wk (prx s)) = 1 /\ times (objs s) = [2] /\
    v_held (view_of 0 (prx s)) = (0 <? mWakelockRefCount (wk (prx s))).
Proof.
  eexists. split; [vm_compute; reflexivity|]. split; [reflexivity|]. split; [vm_compute; reflexivity|].
  refine (proj1 (proj2 (scoped_objects_refine sample_answer sample_sub 0 sample_lists _ sample_clock _))).
  apply (sys_play_runs _ _ _ handover). vm_compute. reflexivity.
Defined.

(** Two wake-up events, one of them left pending: the count is the two of them. *)
Lemma post_batch_refines_witness :
  exists p, started = Some p /\
    (fun r => mWakelockRefCount (wk (prx r.2))) <$>
      post_batch sample_answer false 0 1 2 3 1 true sample_events (mk_system p ∅) = Some 2 /\
    post_batch sample_answer false 0 1 2 3 1 true sample_events (mk_system p ∅) =
      (fun r => (tt, mk_system r.2 ∅)) <$> post_listed sample_answer 1 true sample_events p.
Proof.
  eexists. split; [vm_compute; reflexivity|]. split; [vm_compute; reflexivity|].
  apply post_batch_refines; [|repeat constructor]. by apply (bool_decide_unpack _).
Defined.
