(* ===== verification/SensorsService.v ===== *)
(** * The sensors service (sensors-hal/multihal/service.cpp)

    main puts the parts together: the sub-HAL over the legacy sensors module, the proxy
    over that one sub-HAL, and the registration of the proxy.  Over the board's own
    module, sensors.c, the framework is shown the one accelerometer that [Sensors]
    picks, under its own handle. *)

From S2P Require Import Prelude StateM StdMap SensorTypes Sensors SensorsSubHal HalProxy HalProxyRoute HalProxyInv HalProxySpec.

Definition SUB_HAL_2_0_VERSION : Z := 0x02000000.
Definition EXIT_FAILURE : Z := 1.

Inductive service_event :=
  | Configured (maxThreads : Z) (callerWillJoin : bool)
  | Registered (service : proxy) (status : Z)
  | Joined.

(** How the process ends: returning from main or by _exit, and the code. *)
Inductive ending := Returned (code : Z) | Exited (code : Z).

Section Service.
Context `{Hconv : SensorsSubHal.Convert}.

(** With the version it writes. *)
Definition subHalAndVersion (hw : Z * option SensorsSubHal.module_desc) : option (option SensorsSubHal.subhal * Z) :=
  s ← SensorsSubHal.sensorsHalGetSubHal hw;
  Some (s, SUB_HAL_2_0_VERSION).

(** [hw]: what hw_get_module gives; [start], [reset]: the times the new proxy reads;
    [registerAsService]: the answer of the service manager. *)
Definition main (hw : Z * option SensorsSubHal.module_desc) (start reset : Z) (registerAsService : proxy -> Z)
    : option (ending * list service_event) :=
  let h := [Configured 1 true] in
  '(subHal, version) ← subHalAndVersion hw;
  match subHal with
  | None => Some (Returned EXIT_FAILURE, h)
  | Some s =>
      if negb (version =? SUB_HAL_2_0_VERSION) then Some (Returned EXIT_FAILURE, h) else
      let halProxy := HalProxy [SensorsSubHal.getSensorsList (SensorsSubHal.mConfig s)] start reset in
      let status := registerAsService halProxy in
      let h := h ++ [Registered halProxy status] in
      if negb (status =? st_OK) then Some (Returned (- 1), h) else
      Some (Exited EXIT_FAILURE, h ++ [Joined])
  end.

(** The only sub-HAL has index 0, which leaves handles as they are. *)
Lemma setSubHalIndex_0 h : setSubHalIndex h 0 = h.
Proof. unfold setSubHalIndex. cbn. apply Z.lor_0_r. Qed.

Lemma tagged_0 ev : tagged 0 ev = ev.
Proof. unfold tagged. rewrite setSubHalIndex_0. by destruct ev. Qed.

Lemma single_sensor x start reset :
  getSensorsList (cfg (HalProxy [[x]] start reset)) = if subHalIndexIsClear (si_handle x) then [x] else [].
Proof.
  unfold HalProxy. cbn [cfg initializeSensorList fold_left]. unfold add_sensor. destruct (subHalIndexIsClear (si_handle x)); [|done].
  rewrite setSubHalIndex_0. by destruct x.
Qed.

(** C25: The service.  Over sensors.c and any stock library that keeps the HAL contract,
    main runs without a fault and the process never ends in success.  It registers a
    service at most once, exactly when the sub-HAL is usable, and then what the
    framework is shown is one sensor: the preferred accelerometer of the stock list,
    with the handle and flags it has there (none when its handle uses the byte that
    the proxy claims for itself).  Whatever the sub-HAL posts in any later run
    leaves the proxy with the handle of that sensor.  The thread pool is joined
    exactly after a registration that worked. *)
Theorem service_shows_one_accelerometer dev v desc start reset register :
  Sensors.vendor_ok v ->
  exists m s0 e h, board_module v desc = Some m /\ SensorsSubHal.SensorsSubHal (st_OK, Some m) = Some s0 /\
    main (st_OK, Some m) start reset register = Some (e, h) /\ e <> Returned 0 /\ e <> Exited 0 /\
    (SensorsSubHal.isReady (SensorsSubHal.mConfig s0) = false /\ h = [Configured 1 true] \/
     exists x cs p, SensorsSubHal.isReady (SensorsSubHal.mConfig s0) = true /\ exposes v cs = Some x /\
       let info := SensorsSubHal.convertFromSensor x in
       h = Configured 1 true :: Registered p (register p) :: (if register p =? st_OK then [Joined] else []) /\
       getSensorsList (cfg p) = (if subHalIndexIsClear (si_handle info) then [info] else []) /\
       forall s h1 cb w evs h2, rtc (SensorsSubHal.step dev) s0 s ->
         SensorsSubHal.log s = h1 ++ SensorsSubHal.Posted cb w evs :: h2 ->
         Forall (fun ev => ev_handle ev = si_handle info) (map (tagged 0) evs)).
Proof.
  intros Hv. destruct (SensorsSubHal.board_posts_one_accelerometer dev v desc Hv) as (m & s0 & Hm & Hs & Hready).
  exists m, s0. unfold main, subHalAndVersion, SensorsSubHal.sensorsHalGetSubHal. rewrite Hs. cbn [mbind option_bind].
  destruct (SensorsSubHal.isReady (SensorsSubHal.mConfig s0)) eqn:HR.
  2: { do 2 eexists. do 3 (split; [done|]). split; [done|]. split; [done|]. by left. }
  destruct (Hready eq_refl) as (x & cs & Hx & Hl & Hposts). rewrite Hl. cbn [negb Z.eqb Pos.eqb SUB_HAL_2_0_VERSION].
  set (p := HalProxy _ start reset).
  assert (forall s h1 cb w evs h2, rtc (SensorsSubHal.step dev) s0 s ->
         SensorsSubHal.log s = h1 ++ SensorsSubHal.Posted cb w evs :: h2 ->
         Forall (fun ev => ev_handle ev = si_handle (SensorsSubHal.convertFromSensor x)) (map (tagged 0) evs)) as Hp.
  { intros s h1 cb w evs h2 Hr Hlog. rewrite (map_ext _ id) by apply tagged_0. rewrite map_id. by eapply Hposts. }
  destruct (register p =? st_OK) eqn:Hreg; cbn [negb]; do 2 eexists; (do 3 (split; [done|])); (split; [done|]); (split; [done|]);
    right; exists x, cs, p; rewrite Hreg; (split_and!; [done|done|done|apply single_sensor|exact Hp]).
Qed.
End Service.

Lemma service_shows_one_accelerometer_witness :
  exists m e h p, board_module sample_vendor (fun _ => sample_desc) = Some m /\
    main (st_OK, Some m) 0 0 (fun _ => 0) = Some (e, h) /\ e = Exited 1 /\
    h = [Configured 1 true; Registered p 0; Joined] /\ getSensorsList (cfg p) = [mk_info 7 0 []].
Proof.
  destruct (service_shows_one_accelerometer sample_device sample_vendor (fun _ => sample_desc) 0 0 (fun _ => 0))
    as (m & s0 & e & h & Hm & Hs & Hr & _).
  - exact sample_vendor_ok.
  - exists m, e, h. eexists. split; [exact Hm|]. split; [exact Hr|].
    vm_compute in Hm. injection Hm as <-. vm_compute in Hr. injection Hr as <- <-.
    split; [reflexivity|]. split; [reflexivity|]. vm_compute. reflexivity.
Defined.
