(* ===== verification/SensorsSystem.v ===== *)
(** * Sub-HAL and proxy as one process

    The service of [SensorsService] runs the sub-HAL of [SensorsSubHal] and the proxy
    of [HalProxy] in one process.  Here both run together: what the proxy calls on its
    sub-HAL is done by the object, in order, and what the poll thread posts goes through
    the callback of the proxy while the thread holds the mutex of the sub-HAL, so that
    no call of the proxy gets through in between.  The framework, the writer, the
    wake-lock thread, initialize and the poll thread interleave freely otherwise.

    The theorem follows the samples from the device to the framework: what the proxy
    has taken is, post by post and in order, what the poll thread posted; the poll
    thread never faults in the proxy; and while the proxy runs, the sub-HAL posts to
    it. *)

From S2P Require Import Prelude StateM StdMap SensorTypes SensorsSubHal HalProxy HalProxyRoute HalProxyInv HalProxySpec HalProxyRuns.
From S2P Require Import ScopedWakelock SensorsService.

(** ** What the moves of the proxy leave alone *)

(** No event is taken or cleared and no sub-HAL initialized. *)
Definition calm_event (e : event) : bool :=
  match e with Written _ | Queued _ | Cleared | SubCalled _ (SInitialize _) _ => false | _ => true end.

Definition logs (p p' : proxy) : Prop :=
  cfg p' = cfg p /\ exists l, log p' = log p ++ l /\ forallb calm_event l = true.

(** Whether the proxy runs and where initialize is. *)
Definition phase_same (p p' : proxy) : Prop :=
  mThreadsRun (conn p') = mThreadsRun (conn p) /\ initializer (thr p') = initializer (thr p).

#[global] Instance logs_preorder : PreOrder logs.
Proof.
  split; [intros p; split; [done|]; exists []; by rewrite app_nil_r|].
  intros p1 p2 p3 [Hc1 (l1 & Hl1 & Hq1)] [Hc2 (l2 & Hl2 & Hq2)]. split; [congruence|]. exists (l1 ++ l2).
  rewrite Hl2, Hl1, forallb_app, Hq1, Hq2. by rewrite <- app_assoc.
Qed.
#[global] Instance phase_same_preorder : PreOrder phase_same.
Proof. split; [done|]. intros p1 p2 p3 [? ?] [? ?]. split; congruence. Qed.

Section Calm.
Context (answer : list event -> query -> Z).
Context (sub : list event -> nat -> sub_call -> Result * Z).

Lemma logs_modify f : (forall p, cfg (f p) = cfg p /\ log (f p) = log p) -> runs_in logs (modify f).
Proof.
  intros Hf. apply runs_in_modify. intros p. destruct (Hf p) as [Hc Hl]. split; [done|]. exists [].
  by rewrite app_nil_r.
Qed.
Lemma logs_emit e : calm_event e = true -> runs_in logs (emit e).
Proof.
  intros He. apply runs_in_modify. intros p. split; [done|]. exists [e]. cbn [log]. by rewrite <- (andb_true_r (calm_event e)) in He.
Qed.
Lemma logs_set_conn c : runs_in logs (set_conn c).
Proof. by apply logs_modify. Qed.
Lemma logs_set_que q : runs_in logs (set_que q).
Proof. by apply logs_modify. Qed.
Lemma logs_set_wk w : runs_in logs (set_wk w).
Proof. by apply logs_modify. Qed.
Lemma logs_set_scoped l : runs_in logs (set_scoped l).
Proof. by apply logs_modify. Qed.
Lemma logs_set_thr t : runs_in logs (set_thr t).
Proof. by apply logs_modify. Qed.
#[local] Hint Resolve logs_set_conn logs_set_que logs_set_wk logs_set_scoped logs_set_thr : runs_in.
#[local] Hint Extern 2 (runs_in logs (emit _)) => apply logs_emit; reflexivity : runs_in.
Lemma logs_set_writer pc : runs_in logs (set_writer pc).
Proof. unfold set_writer. runs_in_parts. Qed.
Lemma logs_set_waker pc : runs_in logs (set_waker pc).
Proof. unfold set_waker. runs_in_parts. Qed.
Lemma logs_set_init pc : runs_in logs (set_init pc).
Proof. unfold set_init. runs_in_parts. Qed.
Lemma logs_notify_writer : runs_in logs notify_writer.
Proof. unfold notify_writer. runs_in_parts. Qed.
Lemma logs_notify_waker : runs_in logs notify_waker.
Proof. unfold notify_waker. runs_in_parts. Qed.
#[local] Hint Resolve logs_set_writer logs_set_waker logs_set_init logs_notify_writer logs_notify_waker : runs_in.
Lemma logs_ask q : runs_in logs (ask answer q).
Proof. unfold ask. runs_in_parts. Qed.
#[local] Hint Resolve logs_ask : runs_in.
Lemma logs_call i c : (forall n, c <> SInitialize n) -> runs_in logs (call_sub sub i c).
Proof.
  intros Hc. unfold call_sub. do 3 (apply runs_in_bind; [exact _|runs_in_parts|]; intros ?). cbv zeta.
  apply runs_in_bind; [exact _|apply logs_emit; destruct c; (done || by destruct (Hc callback))|runs_in_parts].
Qed.
#[local] Hint Extern 2 (runs_in logs (call_sub _ _ _)) => apply logs_call; discriminate : runs_in.

Lemma logs_inc d : runs_in logs (incrementRefCountAndMaybeAcquireWakelock answer d).
Proof. unfold incrementRefCountAndMaybeAcquireWakelock. runs_in_parts. Qed.
Lemma logs_dec d t : runs_in logs (decrementRefCountAndMaybeReleaseWakelock d t).
Proof. unfold decrementRefCountAndMaybeReleaseWakelock. runs_in_parts. Qed.
#[local] Hint Resolve logs_inc logs_dec : runs_in.
Lemma logs_reset : runs_in logs (resetSharedWakelock answer).
Proof. unfold resetSharedWakelock. runs_in_parts. Qed.
Lemma logs_timeout : runs_in logs (sharedWakelockDidTimeout answer).
Proof. unfold sharedWakelockDidTimeout. runs_in_parts. Qed.
#[local] Hint Resolve logs_reset logs_timeout : runs_in.
Lemma logs_create b : runs_in logs (createScopedWakelock answer b).
Proof. unfold createScopedWakelock. runs_in_parts. Qed.
Lemma logs_destroy i : runs_in logs (destroyScopedWakelock i).
Proof. unfold destroyScopedWakelock. runs_in_parts. Qed.
Lemma logs_writer_section : runs_in logs (writer_section answer).
Proof. unfold writer_section. runs_in_parts. Qed.
Lemma logs_writer_wrote n k b : runs_in logs (writer_wrote n k b).
Proof. unfold writer_wrote. runs_in_parts. Qed.
Lemma logs_writer_after n k : runs_in logs (writer_after n k).
Proof. unfold writer_after. runs_in_parts. Qed.
Lemma logs_waker_section : runs_in logs (waker_section answer).
Proof. unfold waker_section. runs_in_parts. Qed.
Lemma logs_waker_read o : runs_in logs (waker_read o).
Proof. unfold waker_read. runs_in_parts. Qed.
Lemma logs_stop_begin rq : runs_in logs (stop_begin rq).
Proof. unfold stop_begin. runs_in_parts. Qed.

Lemma logs_route h c : (forall n, c <> SInitialize n) -> runs_in logs (route sub h c).
Proof. intros Hc. unfold route. apply runs_in_bind; [exact _|by apply logs_call|runs_in_parts]. Qed.
#[local] Hint Extern 2 (runs_in logs (route _ _ _)) => apply logs_route; discriminate : runs_in.
Lemma logs_direct c : (forall n, c <> SInitialize n) -> runs_in logs (on_direct sub c).
Proof.
  intros Hc. unfold on_direct. apply runs_in_bind; [exact _|runs_in_parts|]. intros [i|]; [by apply logs_call|runs_in_parts].
Qed.
#[local] Hint Extern 2 (runs_in logs (on_direct _ _)) => apply logs_direct; discriminate : runs_in.
Lemma logs_activate h b : runs_in logs (activate sub h b).
Proof. unfold activate. runs_in_parts. Qed.
#[local] Hint Resolve logs_activate : runs_in.
Lemma logs_mode_loop n : forall i mode r, runs_in logs (mode_loop sub n i mode r).
Proof. induction n; intros; cbn [mode_loop]; runs_in_parts. Qed.
Lemma logs_mode_reset n : forall i mode, runs_in logs (mode_reset sub n i mode).
Proof. induction n; intros; cbn [mode_reset]; runs_in_parts. Qed.
#[local] Hint Resolve logs_mode_loop logs_mode_reset : runs_in.
Lemma logs_serve r : runs_in logs (serve sub r).
Proof.
  destruct r; cbn [serve]; unfold setOperationMode, batch, flush, injectSensorData,
    registerDirectChannel, unregisterDirectChannel, configDirectReport; runs_in_parts.
Qed.
Lemma logs_disable_each l : runs_in logs (disable_each sub l).
Proof. induction l as [|[h x] l IH]; cbn [disable_each]; runs_in_parts. Qed.
#[local] Hint Resolve logs_disable_each : runs_in.
Lemma logs_init_next p m : init_next answer sub p = Some m -> initializer (thr p) <> ISubHals ->
  (forall rq, initializer (thr p) <> IClear rq) -> runs_in logs m.
Proof.
  unfold init_next. intros Hm Hne Hnc. destruct (initializer (thr p)) eqn:Hi; try done; try (by destruct (Hnc rq));
    try (destruct (writer (thr p)), (waker (thr p)); try done);
    injection Hm as <-; unfold stop_notify, disableAllSensors, init_dynamic, init_queues, init_start; runs_in_parts.
Qed.

(** The log only grows. *)
Definition grows (p p' : proxy) : Prop := log p `prefix_of` log p'.
#[local] Instance grows_preorder : PreOrder grows.
Proof. split; [intros p|intros p1 p2 p3]; unfold grows; [done|apply transitivity]. Qed.
Lemma grows_emit e : runs_in grows (emit e).
Proof. apply runs_in_modify. intros p. by exists [e]. Qed.
Lemma grows_set_que q : runs_in grows (set_que q).
Proof. apply runs_in_modify. intros p. by unfold grows. Qed.
Lemma grows_set_wk w : runs_in grows (set_wk w).
Proof. apply runs_in_modify. intros p. by unfold grows. Qed.
#[local] Hint Resolve grows_emit grows_set_que grows_set_wk : runs_in.
Lemma grows_set_thr t : runs_in grows (set_thr t).
Proof. apply runs_in_modify. intros p. by unfold grows. Qed.
#[local] Hint Resolve grows_set_thr : runs_in.
Lemma grows_ask q : runs_in grows (ask answer q).
Proof. unfold ask. runs_in_parts. Qed.
#[local] Hint Resolve grows_ask : runs_in.
Lemma grows_post i evs b : runs_in grows (postEvents answer i evs b).
Proof.
  unfold postEvents, postEventsToMessageQueue, write_direct, incrementRefCountAndMaybeAcquireWakelock, notify_waker, notify_writer,
    decrementRefCountAndMaybeReleaseWakelock. runs_in_parts.
Qed.

Lemma grows_subhal_loop n : forall i, runs_in grows (init_subhal_loop sub n i).
Proof. induction n; intros i; cbn [init_subhal_loop]; unfold call_sub; runs_in_parts. Qed.
#[local] Hint Resolve grows_subhal_loop : runs_in.
Lemma grows_subhals : runs_in grows (init_subhals sub).
Proof. unfold init_subhals, set_init. runs_in_parts. Qed.

Lemma phase_modify f : (forall p, phase_same p (f p)) -> runs_in phase_same (modify f).
Proof. apply runs_in_modify. Qed.
Lemma phase_emit e : runs_in phase_same (emit e).
Proof. by apply phase_modify. Qed.
Lemma phase_set_que q : runs_in phase_same (set_que q).
Proof. by apply phase_modify. Qed.
Lemma phase_set_wk w : runs_in phase_same (set_wk w).
Proof. by apply phase_modify. Qed.
Lemma phase_set_scoped l : runs_in phase_same (set_scoped l).
Proof. by apply phase_modify. Qed.
#[local] Hint Resolve phase_emit phase_set_que phase_set_wk phase_set_scoped : runs_in.
Lemma phase_set_writer pc : runs_in phase_same (set_writer pc).
Proof. apply runs_in_read. by intros p a p' [= _ <-]. Qed.
Lemma phase_set_waker pc : runs_in phase_same (set_waker pc).
Proof. apply runs_in_read. by intros p a p' [= _ <-]. Qed.
Lemma phase_notify_writer : runs_in phase_same notify_writer.
Proof. apply runs_in_read. by intros p a p' [= _ <-]. Qed.
Lemma phase_notify_waker : runs_in phase_same notify_waker.
Proof. apply runs_in_read. by intros p a p' [= _ <-]. Qed.
Lemma phase_ask q : runs_in phase_same (ask answer q).
Proof. unfold ask. runs_in_parts. Qed.
#[local] Hint Resolve phase_set_writer phase_set_waker phase_notify_writer phase_notify_waker phase_ask : runs_in.
Lemma phase_inc d : runs_in phase_same (incrementRefCountAndMaybeAcquireWakelock answer d).
Proof. unfold incrementRefCountAndMaybeAcquireWakelock. runs_in_parts. Qed.
Lemma phase_dec d t : runs_in phase_same (decrementRefCountAndMaybeReleaseWakelock d t).
Proof. unfold decrementRefCountAndMaybeReleaseWakelock. runs_in_parts. Qed.
#[local] Hint Resolve phase_inc phase_dec : runs_in.
Lemma phase_reset : runs_in phase_same (resetSharedWakelock answer).
Proof. unfold resetSharedWakelock. runs_in_parts. Qed.
#[local] Hint Resolve phase_reset : runs_in.
Lemma phase_create b : runs_in phase_same (createScopedWakelock answer b).
Proof. unfold createScopedWakelock. runs_in_parts. Qed.
Lemma phase_destroy i : runs_in phase_same (destroyScopedWakelock i).
Proof. unfold destroyScopedWakelock. runs_in_parts. Qed.
Lemma phase_post i evs b : runs_in phase_same (postEvents answer i evs b).
Proof. unfold postEvents, postEventsToMessageQueue, write_direct. runs_in_parts. Qed.
Lemma phase_writer_section : runs_in phase_same (writer_section answer).
Proof. unfold writer_section. runs_in_parts. Qed.
Lemma phase_writer_wrote n k b : runs_in phase_same (writer_wrote n k b).
Proof. unfold writer_wrote. runs_in_parts. Qed.
Lemma phase_writer_after n k : runs_in phase_same (writer_after n k).
Proof. unfold writer_after. runs_in_parts. Qed.
Lemma phase_waker_section : runs_in phase_same (waker_section answer).
Proof. unfold waker_section, sharedWakelockDidTimeout. runs_in_parts. Qed.
Lemma phase_waker_read o : runs_in phase_same (waker_read o).
Proof. unfold waker_read. runs_in_parts. Qed.

Lemma phase_call i c : runs_in phase_same (call_sub sub i c).
Proof. unfold call_sub. runs_in_parts. Qed.
#[local] Hint Resolve phase_call : runs_in.
Lemma phase_mode_loop n : forall i mode r, runs_in phase_same (mode_loop sub n i mode r).
Proof. induction n; intros; cbn [mode_loop]; runs_in_parts. Qed.
Lemma phase_mode_reset n : forall i mode, runs_in phase_same (mode_reset sub n i mode).
Proof. induction n; intros; cbn [mode_reset]; runs_in_parts. Qed.
#[local] Hint Resolve phase_mode_loop phase_mode_reset : runs_in.
Lemma phase_set_mode mode : runs_in phase_same (setOperationMode sub mode).
Proof.
  unfold setOperationMode. do 2 (apply runs_in_bind; [exact _|runs_in_parts|intros ?]). destruct a0 as [i r].
  apply runs_in_read. intros p x p' ([] & p1 & Hr & [= _ <-])%mbind_inv.
  destruct (negb _); [by eapply phase_mode_reset|by injection Hr as <-].
Qed.
#[local] Hint Resolve phase_set_mode : runs_in.
Lemma phase_serve r : runs_in phase_same (serve sub r).
Proof.
  destruct r; cbn [serve]; unfold activate, batch, flush, injectSensorData, route,
    registerDirectChannel, unregisterDirectChannel, configDirectReport, on_direct; runs_in_parts.
Qed.
End Calm.

(** The events taken since the last clear stay. *)
Lemma logs_accepted t0 p p' : logs p p' -> v_accepted (view_of t0 p') = v_accepted (view_of t0 p).
Proof.
  intros [Hc (l & Hl & Hq)]. unfold view_of. rewrite Hc, Hl, replay_more. generalize (replay (cfg p) t0 (log p)).
  clear Hl. revert Hq. induction l as [|e l IH]; intros Hq v; [done|]. cbn [forallb] in Hq. apply andb_true_iff in Hq as [He Hq].
  cbn [fold_left]. rewrite (IH Hq). by destruct v, e as [[] ?|? [] ?| | | | | | | | | | | | | | |].
Qed.

(** ** What the calls of the proxy leave alone in the sub-HAL *)

Section Callback.
Context `{Hconv : SensorsSubHal.Convert} (dev : SensorsSubHal.device).

Definition callback_same (s s' : SensorsSubHal.subhal) : Prop := SensorsSubHal.mCallback s' = SensorsSubHal.mCallback s.
#[local] Instance callback_same_preorder : PreOrder callback_same.
Proof. split; [done|]. unfold callback_same. congruence. Qed.

Lemma callback_emit e : runs_in callback_same (SensorsSubHal.emit e).
Proof. by apply runs_in_modify. Qed.
Lemma callback_set_mode m : runs_in callback_same (SensorsSubHal.set_mode m).
Proof. by apply runs_in_modify. Qed.
Lemma callback_set_active m : runs_in callback_same (SensorsSubHal.set_active m).
Proof. by apply runs_in_modify. Qed.
Lemma callback_set_channels m : runs_in callback_same (SensorsSubHal.set_channels m).
Proof. by apply runs_in_modify. Qed.
#[local] Hint Resolve callback_emit callback_set_mode callback_set_active callback_set_channels : runs_in.
Lemma callback_ask c : runs_in callback_same (SensorsSubHal.ask dev c).
Proof. unfold SensorsSubHal.ask. runs_in_parts. Qed.
#[local] Hint Resolve callback_ask : runs_in.
Lemma callback_via f c : runs_in callback_same (SensorsSubHal.via_device dev f c).
Proof. unfold SensorsSubHal.via_device. runs_in_parts. Qed.
#[local] Hint Resolve callback_via : runs_in.

Lemma perform_callback r : (forall cb, r <> SensorsSubHal.RInitialize cb) -> runs_in callback_same (SensorsSubHal.perform dev r).
Proof.
  intros Hr. destruct r; cbn [SensorsSubHal.perform]; [..|by destruct (Hr callback)];
    unfold SensorsSubHal.setOperationModeLocked, SensorsSubHal.activate, SensorsSubHal.batch, SensorsSubHal.flush,
      SensorsSubHal.injectSensorData, SensorsSubHal.registerDirectChannel, SensorsSubHal.unregisterDirectChannel,
      SensorsSubHal.configDirectReport; runs_in_parts.
Qed.

Lemma callback_set_thread pc : runs_in callback_same (SensorsSubHal.set_thread pc).
Proof. by apply runs_in_modify. Qed.
#[local] Hint Resolve callback_set_thread : runs_in.
Lemma callback_begin f : runs_in callback_same (SensorsSubHal.poll_begin f).
Proof. unfold SensorsSubHal.poll_begin. runs_in_parts. Qed.
Lemma callback_end f e n data : runs_in callback_same (SensorsSubHal.poll_end f e n data).
Proof. unfold SensorsSubHal.poll_end. runs_in_parts. Qed.
Lemma callback_deliver e n data : runs_in callback_same (SensorsSubHal.poll_deliver e n data).
Proof. unfold SensorsSubHal.poll_deliver. runs_in_parts. Qed.

(** Starting a session. *)
Lemma initialize_callback cb s r s' :
  SensorsSubHal.inv s -> SensorsSubHal.perform dev (SensorsSubHal.RInitialize (Some cb)) s = Some (r, s') ->
  r.1 = OK -> SensorsSubHal.mCallback s' = Some cb.
Proof.
  intros Hi Hr Hok. cbn [SensorsSubHal.perform] in Hr.
  destruct (SensorsSubHal.isReady (SensorsSubHal.mConfig s)) eqn:HR.
  - pose proof (SensorsSubHal.initialize_live_spec dev cb s Hi HR) as Hs. unfold ok in Hs. unfold mbind, M_bind in Hr.
    destruct (SensorsSubHal.initialize dev (Some cb) s) as [[x s1]|]; [|done]. injection Hr as <- <-. cbn in Hok. subst x.
    destruct Hs as (_ & _ & _ & [(_ & ? & _)|(? & _)]); done.
  - unfold SensorsSubHal.initialize, mbind, M_bind, gets in Hr. rewrite HR in Hr. cbn in Hr. by injection Hr as <- <-.
Qed.
End Callback.

(** ** The process *)

(** Where the poll thread is in posting a batch: lines 146 and 147 of
    SensorsSubHal.cpp and the end of their scope. *)
Inductive posting :=
  | NotPosting
  | Creating (wakeup : bool) (evs : list Event)
  | Posting (locked : bool) (evs : list Event)
  | Destroying (locked : bool).

Section System.
Context `{Hconv : SensorsSubHal.Convert}.

(** [began]: how many batches had been posted when the proxy last started, the one in
    hand not counted, and whether that one had its wake lock already. *)
Record world := mk_world { hal : SensorsSubHal.subhal; prox : proxy; post : posting; began : nat * bool }.

(** What the poll thread posted. *)
Definition posts (h : list SensorsSubHal.event) : list (list Event) :=
  concat (map (fun e => match e with SensorsSubHal.Posted _ _ evs => [evs] | _ => [] end) h).

Definition in_hand (q : posting) : list (list Event) :=
  match q with Creating _ evs | Posting _ evs => [evs] | _ => [] end.

Definition session (w : world) (p' : proxy) : nat * bool :=
  if negb (mThreadsRun (conn (prox w))) && mThreadsRun (conn p')
  then (length (posts (SensorsSubHal.log (hal w))) - length (in_hand (post w)),
        match post w with Posting _ _ => true | _ => false end)%nat
  else began w.

Context (dev : SensorsSubHal.device).
Context (mem_of : Z -> SensorsSubHal.SharedMemInfo).       (* the shared memory a handle stands for *)
Context (answer : list event -> query -> Z).
Context (t0 : Z).

(** A call of the proxy, as the sub-HAL gets it.  Callbacks are numbered. *)
Definition request_of (c : sub_call) : SensorsSubHal.request :=
  match c with
  | SSetOperationMode mode => SensorsSubHal.RSetOperationMode mode
  | SActivate h en => SensorsSubHal.RActivate h en
  | SBatch h p l => SensorsSubHal.RBatch h p l
  | SFlush h => SensorsSubHal.RFlush h
  | SInject ev => SensorsSubHal.RInject ev
  | SRegister mem => SensorsSubHal.RRegister (mem_of mem)
  | SUnregister ch => SensorsSubHal.RUnregister ch
  | SConfig h ch rate => SensorsSubHal.RConfig h ch rate
  | SInitialize i => SensorsSubHal.RInitialize (Some (Z.of_nat i))
  end.

(** The calls of the events [l] were done by the sub-HAL, with the answers recorded. *)
Fixpoint answered (l : list event) (s : SensorsSubHal.subhal) : option SensorsSubHal.subhal :=
  match l with
  | [] => Some s
  | SubCalled i c r :: l =>
      if negb (i =? 0)%nat then None else
      '(r', s') ← SensorsSubHal.perform dev (request_of c) s;
      if decide (r' = r) then answered l s' else None
  | _ :: l => answered l s
  end.

(** What the threads of the proxy and the framework do. *)
Inductive moves (sub : list event -> nat -> sub_call -> Result * Z) (p : proxy) : proxy -> Prop :=
  | mv_serve r a p' : serve sub r p = Some (a, p') -> moves sub p p'
  | mv_writer p' : writer (thr p) = WTop -> writer_section answer p = Some (tt, p') -> moves sub p p'
  | mv_wrote n k b p' : writer (thr p) = WWriting n k -> writer_wrote n k b p = Some (tt, p') -> moves sub p p'
  | mv_after n k p' : writer (thr p) = WWrote n k -> writer_after n k p = Some (tt, p') -> moves sub p p'
  | mv_waker p' : waker (thr p) = KTop -> waker_section answer p = Some (tt, p') -> moves sub p p'
  | mv_read o p' : waker (thr p) = KReading -> (forall n, o = Some n -> is_u32 n) ->
      waker_read o p = Some (tt, p') -> moves sub p p'
  | mv_init rq p' : initializer (thr p) = IIdle -> stop_begin rq p = Some (tt, p') -> moves sub p p'
  | mv_next m p' : init_next answer sub p = Some m -> m p = Some (tt, p') -> moves sub p p'
  | mv_spurious (b : bool) p' : (if b then notify_writer else notify_waker) p = Some (tt, p') -> moves sub p p'.

(** What the poll thread has to post after a section that made the log [h'] from [h]. *)
Definition mail (h h' : list SensorsSubHal.event) : posting :=
  match drop (length h) h' with
  | [SensorsSubHal.Posted _ wakeup evs] => Creating wakeup evs
  | _ => NotPosting
  end.

Definition calls_none (l : list event) : bool :=
  forallb (fun e => match e with SubCalled _ _ _ => false | _ => true end) l.

Inductive wstep (w : world) : world -> Prop :=
  | w_begin f s' : post w = NotPosting -> SensorsSubHal.mPollThread (hal w) = SensorsSubHal.Top f ->
      SensorsSubHal.poll_begin f (hal w) = Some (tt, s') -> wstep w (mk_world s' (prox w) NotPosting (began w))
  | w_end f e count data s' : post w = NotPosting -> SensorsSubHal.mPollThread (hal w) = SensorsSubHal.Polling f e ->
      length data = Z.to_nat SensorsSubHal.kPollMaxBufferSize ->
      SensorsSubHal.poll_end f e count data (hal w) = Some (tt, s') -> wstep w (mk_world s' (prox w) NotPosting (began w))
  | w_deliver e count data s' : post w = NotPosting -> SensorsSubHal.mPollThread (hal w) = SensorsSubHal.Got e count data ->
      SensorsSubHal.poll_deliver e count data (hal w) = Some (tt, s') ->
      wstep w (mk_world s' (prox w) (mail (SensorsSubHal.log (hal w)) (SensorsSubHal.log s')) (began w))
  | w_create wakeup evs b p' : post w = Creating wakeup evs ->
      createScopedWakelock answer wakeup (prox w) = Some (b, p') -> wstep w (mk_world (hal w) p' (Posting b evs) (began w))
  | w_post b evs p' : post w = Posting b evs ->
      postEvents answer 0 evs b (prox w) = Some (tt, p') -> wstep w (mk_world (hal w) p' (Destroying b) (began w))
  | w_destroy (b : bool) p' : post w = Destroying b ->
      (if b then destroyScopedWakelock 0 else mret tt) (prox w) = Some (tt, p') -> wstep w (mk_world (hal w) p' NotPosting (began w))
  (* the calls wait for the mutex the poll thread holds *)
  | w_proxy sub p' l s' : moves sub (prox w) p' -> log p' = log (prox w) ++ l -> answered l (hal w) = Some s' ->
      (post w <> NotPosting -> calls_none l = true) -> wstep w (mk_world s' p' (post w) (session w p')).

(** Runs in which the wake-lock count never took 2^64. *)
Definition wrun (w w' : world) : Prop := wstep w w' /\ bounded t0 (prox w').

(** main of the service. *)
Definition world_init (s : SensorsSubHal.subhal) : world :=
  mk_world s (HalProxy [SensorsSubHal.getSensorsList (SensorsSubHal.mConfig s)] t0 t0) NotPosting (0%nat, false).

Definition wreached (hw : Z * option SensorsSubHal.module_desc) (w : world) : Prop :=
  exists s, SensorsSubHal.sensorsHalGetSubHal hw = Some (Some s) /\ rtc wrun (world_init s) w.

(** ** The sub-HAL under the calls of the proxy *)

Lemma posts_app h h' : posts (h ++ h') = posts h ++ posts h'.
Proof. unfold posts. by rewrite map_app, concat_app. Qed.

Lemma posts_quiet h : Forall (fun e => SensorsSubHal.quiet e = true) h -> posts h = [].
Proof. induction 1 as [|e h He Hh IH]; [done|]. unfold posts in *. cbn. rewrite IH. by destruct e. Qed.

Lemma answered_good l : forall s s', SensorsSubHal.good s -> answered l s = Some s' ->
  SensorsSubHal.good s' /\ SensorsSubHal.mConfig s' = SensorsSubHal.mConfig s /\ posts (SensorsSubHal.log s') = posts (SensorsSubHal.log s) /\
  (forallb calm_event l = true -> SensorsSubHal.mCallback s' = SensorsSubHal.mCallback s).
Proof.
  induction l as [|e l IH]; intros s s' Hg Ha; [by injection Ha as <-|].
  assert (forall s s', SensorsSubHal.good s -> answered l s = Some s' ->
    SensorsSubHal.good s' /\ SensorsSubHal.mConfig s' = SensorsSubHal.mConfig s /\ posts (SensorsSubHal.log s') = posts (SensorsSubHal.log s) /\
    (calm_event e && forallb calm_event l = true -> SensorsSubHal.mCallback s' = SensorsSubHal.mCallback s)) as IH'.
  { intros s1 s2 H1 H2. destruct (IH s1 s2 H1 H2) as (? & ? & ? & Hc). split_and!; try done. intros [_ ?]%andb_true_iff. auto. }
  cbn [forallb]. destruct e as [q a|i c r| | | | | | | | | | | | | | |]; try by apply IH'.
  cbn [answered] in Ha. destruct (negb _); [done|].
  destruct (SensorsSubHal.perform dev (request_of c) s) as [[r' s1]|] eqn:Hp; [|done]. cbn [mbind option_bind] in Ha.
  destruct (decide (r' = r)); [|done].
  pose proof (ok_result _ _ _ _ _ (SensorsSubHal.perform_kept dev (request_of c) s (proj1 Hg)) Hp) as Hk.
  destruct (IH' s1 s' (SensorsSubHal.good_kept _ _ Hg Hk) Ha) as (H1 & H2 & H3 & H4).
  destruct Hk as [_ (Hc & (evs & Hlog & Hq) & _)]. rewrite Hlog, posts_app, (posts_quiet _ Hq), app_nil_r in H3.
  split_and!; [done|congruence|done|]. intros Hcalm. rewrite (H4 Hcalm). apply andb_true_iff in Hcalm as [Hcalm _].
  apply (perform_callback dev (request_of c)) in Hp; [done|]. intros cb. by destruct c.
Qed.

Lemma logs_events p p' l : logs p p' -> log p' = log p ++ l -> forallb calm_event l = true.
Proof. intros [_ (l' & Hl & Hq)] Hl'. rewrite Hl in Hl'. by apply app_inv_head in Hl' as <-. Qed.

(** The one sub-HAL is initialized with callback 0. *)
Lemma init_subhals_run sub p p' :
  subHals (cfg p) = 1%nat -> init_subhals sub p = Some (tt, p') ->
  let r := sub (log p) 0%nat (SInitialize 0) in
  log p' = log p ++ [SubCalled 0 (SInitialize 0) r] /\ cfg p' = cfg p /\ conn p' = conn p /\ scoped p' = scoped p /\
  initializer (thr p') = if bool_decide (r.1 = OK) then IStart else IIdle.
Proof.
  intros Hn Hr. unfold init_subhals, mbind at 1, M_bind at 1, gets at 1 in Hr. rewrite Hn in Hr.
  unfold init_subhal_loop, call_sub, set_init, set_thr, emit, lift, mbind, M_bind, gets, modify, mret, M_ret in Hr.
  rewrite Hn in Hr. cbn in Hr.
  destruct (sub (log p) 0%nat (SInitialize 0)) as [x z]. cbn in *. destruct (bool_decide (x = OK)) eqn:Hx; cbn in Hr.
  - by injection Hr as <-.
  - rewrite Hx in Hr. by injection Hr as <-.
Qed.

(** ** The moves of the proxy *)

Lemma moves_step sub p p' : moves sub p p' -> step answer sub p p'.
Proof.
  intros [r a p1 Hr|p1 Hw Hr|n k b p1 Hw Hr|n k p1 Hw Hr|p1 Hw Hr|o p1 Hw Ho Hr|rq p1 Hi Hr|m p1 Hm Hr|b p1 Hr].
  - by eapply step_serve.
  - by eapply step_writer.
  - by eapply step_wrote.
  - by eapply step_after.
  - by eapply step_waker.
  - by eapply step_read.
  - by eapply step_init.
  - by eapply step_init_next.
  - by eapply step_spurious.
Qed.

(** A move keeps the phase, or is one of initialize. *)
Lemma moves_cases sub p p' :
  moves sub p p' ->
  logs p p' /\ phase_same p p' \/ logs p p' /\ (exists rq, initializer (thr p') = INotify rq) \/
  exists m, init_next answer sub p = Some m /\ m p = Some (tt, p').
Proof.
  intros [r a p1 Hr|p1 Hw Hr|n k b p1 Hw Hr|n k p1 Hw Hr|p1 Hw Hr|o p1 Hw Ho Hr|rq p1 Hi Hr|m p1 Hm Hr|b p1 Hr].
  - left. split; [by eapply logs_serve|].
    by eapply phase_serve.
  - left. split; [by eapply logs_writer_section|by eapply phase_writer_section].
  - left. split; [by eapply logs_writer_wrote|by eapply phase_writer_wrote].
  - left. split; [by eapply logs_writer_after|by eapply phase_writer_after].
  - left. split; [by eapply logs_waker_section|by eapply phase_waker_section].
  - left. split; [by eapply logs_waker_read|by eapply phase_waker_read].
  - right; left. split; [by eapply logs_stop_begin|]. injection Hr as <-. by exists rq.
  - right; right. by exists m.
  - left. destruct b; [split; [by eapply logs_notify_writer|by eapply phase_notify_writer]|].
    split; [by eapply logs_notify_waker|by eapply phase_notify_waker].
Qed.

Lemma moves_scoped sub p p' : moves sub p p' -> scoped p' = scoped p.
Proof.
  intros [r a p1 Hr|p1 Hw Hr|n k b p1 Hw Hr|n k p1 Hw Hr|p1 Hw Hr|o p1 Hw Ho Hr|rq p1 Hi Hr|m p1 Hm Hr|b p1 Hr];
    (eapply blind_keeps; [|exact Hr]).
  - apply blind_serve.
  - apply blind_writer_section.
  - apply blind_writer_wrote.
  - apply blind_writer_after.
  - apply blind_waker_section.
  - apply blind_waker_read.
  - apply blind_stop_begin.
  - by eapply blind_init_next.
  - destruct b; [apply blind_notify_writer|apply blind_notify_waker].
Qed.
(** Where a step of initialize leads. *)
Lemma set_init_last {A} (m : M proxy A) pc p p' :
  (_ ← m; set_init pc) p = Some (tt, p') -> initializer (thr p') = pc.
Proof. unfold mbind at 1, M_bind at 1. destruct (m p) as [[a p1]|]; [|done]. by intros [= <-]. Qed.

Lemma init_next_phase sub p m p' :
  init_next answer sub p = Some m -> m p = Some (tt, p') ->
  match initializer (thr p) with
  | IIdle => False
  | INotify rq => initializer (thr p') = IJoining rq
  | IJoining rq => initializer (thr p') = IReset rq
  | IReset rq => initializer (thr p') = IDisable rq
  | IDisable rq => initializer (thr p') = IClear rq
  | IClear rq => initializer (thr p') = IDynamic rq /\ log p' = log p ++ [Cleared] /\ cfg p' = cfg p
  | IDynamic rq => initializer (thr p') = IQueues rq
  | IQueues rq => (initializer (thr p') = ISubHals \/ initializer (thr p') = IIdle) /\ mThreadsRun (conn p') = mThreadsRun (conn p)
  | ISubHals => init_subhals sub p = Some (tt, p')
  | IStart => initializer (thr p') = IIdle
  end.
Proof.
  unfold init_next. destruct (initializer (thr p)); intros Hm Hr; [done|..].
  - injection Hm as <-. apply mbind_inv in Hr as (cn & p1 & _ & Hr). apply mbind_inv in Hr as ([] & p2 & _ & Hr).
    apply mbind_inv in Hr as ([] & p3 & _ & Hr). apply mbind_inv in Hr as ([] & p4 & _ & Hr). by eapply set_init_last.
  - destruct (writer (thr p)), (waker (thr p)); try done. injection Hm as <-. by injection Hr as <-.
  - injection Hm as <-. by eapply set_init_last.
  - injection Hm as <-. by eapply set_init_last.
  - injection Hm as <-. by injection Hr as <-.
  - injection Hm as <-. by injection Hr as <-.
  - injection Hm as <-. injection Hr as <-. split; [|done]. cbn. destruct (_ && _); auto.
  - by injection Hm as <-.
  - injection Hm as <-. by injection Hr as <-.
Qed.

Lemma logs_grows p p' : logs p p' -> grows p p'.
Proof. intros [_ (l & Hl & _)]. exists l. exact Hl. Qed.

Lemma moves_grow sub p p' : moves sub p p' -> grows p p'.
Proof.
  intros [[Hl _]|[[Hl _]|(m & Hm & Hr)]]%moves_cases; [by apply logs_grows..|].
  pose proof (logs_init_next answer sub p m Hm) as Hlogs. pose proof (init_next_phase sub p m p' Hm Hr) as Hph.
  destruct (initializer (thr p)); try by eapply logs_grows, Hlogs.
  - exists [Cleared]. apply Hph.
  - by eapply (grows_subhals sub).
Qed.

(** ** The invariant *)

(** The system refused the wake lock, at some point. *)
Definition lock_failed (p : proxy) : Prop := exists h, h `prefix_of` log p /\ answer h QAcquire <> 0.

(** Of the batch [evs], the proxy took [a]: all of it, or up to a tail that was refused
    because too much is pending, or nothing because the wake lock could not be taken
    ([early]: or was asked for before the proxy ran). *)
Definition took (early : bool) (p : proxy) (evs a : list Event) : Prop :=
  exists b, evs = a ++ b /\ (b = [] \/ Refused b ∈ log p \/ a = [] /\ (lock_failed p \/ early = true)).

(** Since the proxy started: the batches [done] were posted, and [parts] taken of them. *)
Definition path (w : world) : Prop :=
  ((began w).1 <= length (posts (SensorsSubHal.log (hal w))))%nat /\
  exists done parts, drop (began w).1 (posts (SensorsSubHal.log (hal w))) = done ++ in_hand (post w) /\
    length parts = length done /\ v_accepted (view_of t0 (prox w)) = concat parts /\
    (forall i evs a, done !! i = Some evs -> parts !! i = Some a -> took ((began w).2 && (i =? 0)%nat) (prox w) evs a) /\
    (forall evs, post w = Posting false evs -> 0 < wakes (cfg (prox w)) evs ->
       lock_failed (prox w) \/ (began w).2 = true /\ done = []).

(** A batch as the sub-HAL [c] makes it. *)
Definition batch_of (c : SensorsSubHal.config) (wakeup : bool) (evs : list Event) : Prop :=
  evs <> [] /\ Forall (fun ev => map_mem (ev_handle ev) (SensorsSubHal.mSensors c) = true) evs /\
  wakeup = existsb (fun ev => SensorsSubHal.isWakeUpSensor (ev_handle ev) c) evs.

(** The poll thread's place, and the scoped wake locks. *)
Definition batch_ok (c : SensorsSubHal.config) (q : posting) (locks : nat) : Prop :=
  match q with
  | NotPosting => locks = 0%nat
  | Creating wakeup evs => locks = 0%nat /\ batch_of c wakeup evs
  | Posting b evs => locks = Nat.b2n b /\ exists wakeup, batch_of c wakeup evs /\ (b = true -> wakeup = true)
  | Destroying b => locks = Nat.b2n b
  end.

Definition live (p : proxy) : Prop := mThreadsRun (conn p) = true \/ initializer (thr p) = IStart.
Definition emptied (p : proxy) : Prop :=
  match initializer (thr p) with IDynamic _ | IQueues _ | ISubHals | IStart => True | _ => False end.

Record winv (c : SensorsSubHal.config) (w : world) : Prop := {
  i_good : SensorsSubHal.good (hal w);
  i_config : SensorsSubHal.mConfig (hal w) = c;
  i_proxy : inv t0 (prox w);
  i_listed : cfg (prox w) = listed [SensorsSubHal.getSensorsList c];
  i_batch : batch_ok c (post w) (length (scoped (prox w)));
  i_mail : exists old, posts (SensorsSubHal.log (hal w)) = old ++ in_hand (post w);
  i_live : live (prox w) -> SensorsSubHal.mCallback (hal w) = Some 0;
  i_emptied : emptied (prox w) -> v_accepted (view_of t0 (prox w)) = [];
  i_path : mThreadsRun (conn (prox w)) = true -> path w;
}.

Lemma lock_failed_grows p p' : grows p p' -> lock_failed p -> lock_failed p'.
Proof. intros Hg (h & Hh & Ha). exists h. split; [by etrans|done]. Qed.

Lemma took_grows early p p' evs a : grows p p' -> took early p evs a -> took early p' evs a.
Proof.
  intros Hg (b & He & Hb). exists b. split; [done|]. destruct Hb as [?|[Hr|[? [?|?]]]]; [by left|..].
  - right; left. destruct Hg as [l ->]. apply elem_of_app. by left.
  - right; right. split; [done|]. left. by eapply lock_failed_grows.
  - right; right. auto.
Qed.

(** Nothing is taken or posted. *)
Lemma path_frame w w' :
  in_hand (post w') = in_hand (post w) -> (forall evs, post w' = Posting false evs -> post w = Posting false evs) ->
  began w' = began w -> posts (SensorsSubHal.log (hal w')) = posts (SensorsSubHal.log (hal w)) ->
  grows (prox w) (prox w') -> cfg (prox w') = cfg (prox w) ->
  v_accepted (view_of t0 (prox w')) = v_accepted (view_of t0 (prox w)) -> path w -> path w'.
Proof.
  unfold path. intros -> Hq -> -> Hg -> -> (Hn & done & parts & Hd & Hl & Ha & Ht & Hb). split; [done|].
  exists done, parts. split_and!; try done.
  - intros i evs a H1 H2. eapply took_grows; [exact Hg|by apply Ht].
  - intros evs H1%Hq H2. destruct (Hb evs H1 H2) as [?|?]; [left; by eapply lock_failed_grows|by right].
Qed.

(** ** The poll thread *)

Lemma begin_posts f s s' : SensorsSubHal.poll_begin f s = Some (tt, s') -> posts (SensorsSubHal.log s') = posts (SensorsSubHal.log s).
Proof. intros [= <-]. cbn [SensorsSubHal.log]. rewrite posts_app. apply app_nil_r. Qed.

Lemma end_posts f e n data s s' :
  SensorsSubHal.poll_end f e n data s = Some (tt, s') -> posts (SensorsSubHal.log s') = posts (SensorsSubHal.log s).
Proof.
  unfold SensorsSubHal.poll_end, mbind, M_bind, SensorsSubHal.emit, SensorsSubHal.set_thread, modify.
  intros Hr. destruct (n =? _); [|destruct (_ || _)]; injection Hr as <-; cbn [SensorsSubHal.log];
    rewrite !posts_app; cbn; by rewrite !app_nil_r.
Qed.

Lemma deliver_log e n data s s' :
  SensorsSubHal.poll_deliver e n data s = Some (tt, s') ->
  SensorsSubHal.log s' = SensorsSubHal.log s \/
  exists cb wakeup evs, SensorsSubHal.log s' = SensorsSubHal.log s ++ [SensorsSubHal.Posted cb wakeup evs].
Proof.
  unfold SensorsSubHal.poll_deliver, mbind, M_bind, SensorsSubHal.set_thread, SensorsSubHal.emit, modify, gets, lift, mret, M_ret.
  cbn. intros Hr. repeat case_match; simplify_eq; cbn; eauto.
Qed.

(** What the section at the end of the loop leaves to post. *)
Lemma deliver_mail e n data s s' :
  SensorsSubHal.good s -> SensorsSubHal.mPollThread s = SensorsSubHal.Got e n data ->
  SensorsSubHal.poll_deliver e n data s = Some (tt, s') ->
  let q := mail (SensorsSubHal.log s) (SensorsSubHal.log s') in
  posts (SensorsSubHal.log s') = posts (SensorsSubHal.log s) ++ in_hand q /\
  batch_ok (SensorsSubHal.mConfig s') q 0 /\ forall b evs, q <> Posting b evs.
Proof.
  intros Hg Hpc Hr. pose proof (ok_result _ _ _ _ _ (SensorsSubHal.deliver_good e n data s Hg Hpc) Hr) as (_ & _ & Hl).
  cbv zeta. unfold mail. destruct (deliver_log _ _ _ _ _ Hr) as [->|(cb & wakeup & evs & Hlog)].
  { rewrite drop_all. cbn. by rewrite app_nil_r. }
  rewrite Hlog, drop_app_length, posts_app. split; [done|]. split; [|done]. split; [done|].
  destruct (SensorsSubHal.log_ok_posted _ _ _ _ _ _ _ Hl Hlog) as (_ & Hne & Hw & h1 & h2 & h3 & k & d & _ & _ & _ & Hevs).
  split; [done|]. split; [|done]. rewrite Hevs. apply Forall_forall. intros ev [_ Hcur]%list_elem_of_In%filter_In.
  unfold SensorsSubHal.current in Hcur. by apply andb_true_iff in Hcur as [? _].
Qed.

(** A step of the poll thread before it posts. *)
Lemma winv_poll c w s' q :
  winv c w -> post w = NotPosting -> SensorsSubHal.step dev (hal w) s' -> callback_same (hal w) s' ->
  posts (SensorsSubHal.log s') = posts (SensorsSubHal.log (hal w)) ++ in_hand q -> batch_ok c q 0 ->
  (forall b evs, q <> Posting b evs) -> winv c (mk_world s' (prox w) q (began w)).
Proof.
  intros [Hg Hc Hp Hl Hb Hm Hlive He Hpath] Hn Hs Hcb Hposts Hbatch Hq. rewrite Hn in Hb. cbn [batch_ok] in Hb.
  split; cbn [hal prox post began]; try done.
  - by eapply SensorsSubHal.step_good.
  - by rewrite (SensorsSubHal.step_config _ _ _ Hg Hs).
  - by rewrite Hb.
  - rewrite Hposts. by eexists.
  - intros HL. by rewrite Hcb, Hlive.
  - intros Hrun. destruct (Hpath Hrun) as (Hlen & done & parts & Hd & Hlp & Ha & Ht & _).
    rewrite Hn in Hd. cbn [in_hand] in Hd. rewrite app_nil_r in Hd. split; cbn [hal prox post began].
    { rewrite Hposts, length_app. lia. }
    exists done, parts. rewrite Hposts, drop_app_le, Hd by done. split_and!; try done. intros evs Hpq. by destruct (Hq _ _ Hpq).
Qed.

(** ** Posting *)

Lemma known_batch c p wakeup evs :
  SensorsSubHal.sensors_ok (SensorsSubHal.mSensors c) ->
  Forall (fun x => own_handle (si_handle x)) (SensorsSubHal.getSensorsList c) ->
  cfg p = listed [SensorsSubHal.getSensorsList c] -> batch_of c wakeup evs ->
  Forall (fun ev => known (cfg p) (tagged 0 ev)) evs /\ wakeup = (0 <? wakes (cfg p) evs).
Proof.
  intros Hs Hown Hc (_ & Hmem & ->). rewrite Hc.
  destruct (proxy_knows_all [SensorsSubHal.getSensorsList c] 0 c evs) as [Hk Hw]; try done; [cbn; lia|].
  split; [done|]. rewrite (map_ext _ id) in Hw by apply tagged_0. by rewrite map_id in Hw.
Qed.

(** While the proxy runs, it takes a part of the batch. *)
Lemma post_takes p b evs p' :
  inv t0 p -> mThreadsRun (conn p) = true -> evs <> [] -> Forall (fun ev => known (cfg p) (tagged 0 ev)) evs ->
  (b = true -> 0 < wakes (cfg p) evs) -> postEvents answer 0 evs b p = Some (tt, p') ->
  exists a, v_accepted (view_of t0 p') = v_accepted (view_of t0 p) ++ a /\
    (took false p' evs a \/ a = [] /\ b = false /\ 0 < wakes (cfg p) evs).
Proof.
  intros Hi Hrun Hne Hk Hb Hr. destruct (postEvents_offers answer (fun _ _ _ => (OK, 0)) t0 p 0 evs b Hi Hrun Hne Hk) as (p1 & Hp & Hout).
  rewrite Hr in Hp. injection Hp as <-. rewrite (map_ext _ id), map_id in Hout by apply tagged_0.
  pose proof (grows_post answer 0 evs b _ _ _ Hr) as Hg.
  destruct ((0 <? _) && _) eqn:Hg1.
  { apply andb_true_iff in Hg1 as [Hz Hnb]. zb. subst p'. exists []. rewrite app_nil_r. split; [done|]. right. by destruct b. }
  destruct ((_ =? 0) && b) eqn:Hg2; [apply andb_true_iff in Hg2 as [Hz ->]; zb; specialize (Hb eq_refl); lia|].
  destruct Hout as [(a & t & He & Ha & Ht)|(Ha & -> & _ & Hq)].
  - exists a. split; [done|]. left. exists t. split; [done|]. destruct Ht as [?|[_ ?]]; auto.
  - exists []. rewrite app_nil_r. split; [done|]. left. exists evs. split; [done|]. right; right. split; [done|]. left. by exists (log p).
Qed.

Lemma create_cases wakeup p b p' :
  createScopedWakelock answer wakeup p = Some (b, p') ->
  length (scoped p') = (Nat.b2n b + length (scoped p))%nat /\ (b = true -> wakeup = true) /\
  (wakeup = true -> b = false -> mThreadsRun (conn p) = true -> answer (log p) QAcquire <> 0).
Proof.
  destruct wakeup; [|by intros [= <- <-]]. intros Hr.
  destruct (create_run answer p) as (t & p1 & Hinc & Hs & Hc). rewrite Hc in Hr.
  destruct t as [now|]; injection Hr as <- <-; cbn [with_scoped scoped length Nat.b2n Nat.add]; rewrite ?Hs; [done|].
  split; [done|]. split; [done|]. intros _ _ Hrun.
  pose proof (take_count_accepts answer t0 1 true p Hrun ltac:(done)) as Hok.
  destruct (ok_result _ _ _ false p1 Hok) as (_ & _ & _ & _ & Hf); [by rewrite (mbind_run _ _ _ _ _ Hinc)|].
  by destruct (Hf eq_refl) as (_ & _ & ?).
Qed.

Section Invariant.
Context (c : SensorsSubHal.config).
Hypothesis (Hck : clock_ok answer t0).
Hypothesis (Hown : Forall (fun x => own_handle (si_handle x)) (SensorsSubHal.getSensorsList c)).

(** What every step of the proxy keeps. *)
Lemma proxy_kept sub w p' :
  winv c w -> step answer sub (prox w) p' -> bounded t0 p' -> inv t0 p' /\ cfg p' = cfg (prox w).
Proof.
  intros Hw Hs Hb. destruct (step_leads answer sub t0 _ _ Hck (i_proxy _ _ Hw) Hs) as (Hc & _ & Hi). auto.
Qed.

Lemma sensors_good w : winv c w -> SensorsSubHal.sensors_ok (SensorsSubHal.mSensors c).
Proof. intros Hw. rewrite <- (i_config _ _ Hw). apply (i_good _ _ Hw). Qed.

(** A step of the poll thread in the proxy. *)
Lemma winv_posting w p' q :
  winv c w -> step answer (fun _ _ _ => (OK, 0)) (prox w) p' -> bounded t0 p' -> phase_same (prox w) p' ->
  (mThreadsRun (conn (prox w)) = false -> v_accepted (view_of t0 p') = v_accepted (view_of t0 (prox w))) ->
  batch_ok c q (length (scoped p')) -> (exists old, posts (SensorsSubHal.log (hal w)) = old ++ in_hand q) ->
  (mThreadsRun (conn p') = true -> path w -> path (mk_world (hal w) p' q (began w))) ->
  winv c (mk_world (hal w) p' q (began w)).
Proof.
  intros Hw Hs Hb [Hrun Hinit] Hacc Hbatch Hmail Hpath. destruct (proxy_kept _ _ _ Hw Hs Hb) as [Hi Hc].
  destruct Hw as [Hg Hcf Hp Hl Hbt Hm Hlive He Hpt]. split; cbn [hal prox post began]; try done.
  - by rewrite Hc.
  - unfold live. rewrite Hrun, Hinit. exact Hlive.
  - unfold emptied. rewrite Hinit. intros Hem. rewrite Hacc; [by apply He|].
    pose proof (w_phase _ _ (proj1 Hp)) as Hph. unfold phase_ok in Hph. unfold emptied in Hem.
    destruct (initializer (thr (prox w))); try done; apply Hph.
  - intros Hr. apply Hpath; [done|]. apply Hpt. by rewrite <- Hrun.
Qed.
Lemma winv_create w wakeup evs b p' :
  winv c w -> post w = Creating wakeup evs -> createScopedWakelock answer wakeup (prox w) = Some (b, p') -> bounded t0 p' ->
  winv c (mk_world (hal w) p' (Posting b evs) (began w)).
Proof.
  intros Hw Hq Hr Hb. pose proof (logs_create answer wakeup _ _ _ Hr) as Hlg.
  pose proof (logs_accepted t0 _ _ Hlg) as Hacc. pose proof (logs_grows _ _ Hlg) as Hgr. destruct (proj1 Hlg).
  destruct (create_cases _ _ _ _ Hr) as (Hsc & Hbw & Hfail).
  pose proof (i_batch _ _ Hw) as Hbt. pose proof (i_mail _ _ Hw) as Hm. rewrite Hq in Hbt, Hm. destruct Hbt as [Hz Hbt].
  apply winv_posting; try done.
  - by eapply step_create.
  - by eapply phase_create.
  - cbn [batch_ok]. rewrite Hsc, Hz, Nat.add_0_r. split; [done|]. by exists wakeup.
  - intros Hrun (Hn & done & parts & Hd & Hl & Ha & Ht & _). split; [done|]. exists done, parts. cbn [hal prox post began in_hand].
    rewrite Hq in Hd. split_and!; try done.
    + by rewrite Hacc.
    + intros i evs' a H1 H2. eapply took_grows; [exact Hgr|by apply Ht].
    + intros evs' [= -> <-] Hwk. left. exists (log (prox w)). split; [done|].
      destruct (known_batch c (prox w) wakeup evs (sensors_good w Hw) Hown (i_listed _ _ Hw) Hbt) as [_ Hwake].
      apply Hfail; [|done|by rewrite <- (proj1 (phase_create answer wakeup _ _ _ Hr))].
      rewrite Hwake. apply Z.ltb_lt. by rewrite (proj1 Hlg) in Hwk.
Qed.

Lemma path_posted w b evs p' :
  winv c w -> post w = Posting b evs -> postEvents answer 0 evs b (prox w) = Some (tt, p') ->
  mThreadsRun (conn (prox w)) = true -> path w -> path (mk_world (hal w) p' (Destroying b) (began w)).
Proof.
  intros Hw Hq Hr Hrun (Hn & done & parts & Hd & Hl & Ha & Ht & Hlate).
  pose proof (grows_post answer 0 evs b _ _ _ Hr) as Hg. pose proof (i_batch _ _ Hw) as Hbt. rewrite Hq in Hbt, Hd.
  destruct Hbt as (_ & wakeup & Hbt & Hbw).
  destruct (known_batch c (prox w) wakeup evs (sensors_good w Hw) Hown (i_listed _ _ Hw) Hbt) as [Hk Hwake].
  destruct (post_takes (prox w) b evs p' (i_proxy _ _ Hw) Hrun (proj1 Hbt) Hk) as (a & Hacc & Htook); [|done|].
  { intros Hb. apply Z.ltb_lt. rewrite <- Hwake. by apply Hbw. }
  assert (took ((began w).2 && (length done =? 0)%nat) p' evs a) as Hlast.
  { destruct Htook as [(t & He & Hc)|(-> & -> & Hz)].
    - exists t. split; [done|]. naive_solver.
    - exists evs. split; [done|]. right; right. split; [done|].
      destruct (Hlate evs Hq Hz) as [?|[-> ->]]; [left; by eapply lock_failed_grows|by right]. }
  split; [done|]. exists (done ++ [evs]), (parts ++ [a]). cbn [hal prox post began in_hand] in *. split_and!.
  - by rewrite app_nil_r.
  - rewrite !length_app. cbn. lia.
  - rewrite Hacc, Ha, concat_app. cbn [concat]. by rewrite app_nil_r.
  - intros i evs' a' H1 H2. destruct (decide (i < length done)%nat) as [Hi|Hi].
    + rewrite lookup_app_l in H1, H2 by lia. eapply took_grows; [exact Hg|by apply Ht].
    + assert (i = length done) as -> by (apply lookup_lt_Some in H1; rewrite length_app in H1; cbn in H1; lia).
      rewrite list_lookup_middle in H1 by done. rewrite <- Hl, list_lookup_middle in H2 by done. by simplify_eq.
  - done.
Qed.

Lemma winv_post w b evs p' :
  winv c w -> post w = Posting b evs -> postEvents answer 0 evs b (prox w) = Some (tt, p') -> bounded t0 p' ->
  winv c (mk_world (hal w) p' (Destroying b) (began w)).
Proof.
  intros Hw Hq Hr Hb. pose proof (phase_post answer 0 evs b _ _ _ Hr) as Hph.
  pose proof (i_batch _ _ Hw) as Hbt. rewrite Hq in Hbt. apply winv_posting; try done.
  - by eapply step_post.
  - intros Hrun. rewrite (postEvents_stopped _ _ _ _ _ Hrun) in Hr. by injection Hr as <-.
  - cbn [batch_ok]. rewrite (blind_keeps _ _ _ _ (blind_post answer 0 evs b) Hr). apply Hbt.
  - exists (posts (SensorsSubHal.log (hal w))). by rewrite app_nil_r.
  - intros Hrun. eapply path_posted; [done..|]. by rewrite <- (proj1 Hph).
Qed.

Lemma winv_destroy w b p' :
  winv c w -> post w = Destroying b -> (if (b : bool) then destroyScopedWakelock 0 else mret tt) (prox w) = Some (tt, p') ->
  bounded t0 p' -> winv c (mk_world (hal w) p' NotPosting (began w)).
Proof.
  intros Hw Hq Hr Hb. pose proof (i_batch _ _ Hw) as Hbt. rewrite Hq in Hbt. cbn [batch_ok] in Hbt.
  assert (exists old, posts (SensorsSubHal.log (hal w)) = old ++ in_hand NotPosting) as Hm.
  { eexists. by rewrite app_nil_r. }
  assert (forall p1, logs (prox w) p1 -> path w -> path (mk_world (hal w) p1 NotPosting (began w))) as Hframe.
  { intros p1 Hl. apply path_frame; cbn [hal prox post began]; try done; [by rewrite Hq|by apply logs_grows|apply Hl|by apply logs_accepted]. }
  destruct b.
  - destruct (scoped (prox w)) as [|t l] eqn:Hsc; [done|]. pose proof (logs_destroy 0 _ _ _ Hr) as Hl.
    apply winv_posting; try done.
    + by eapply step_destroy.
    + by eapply phase_destroy.
    + intros _. by apply logs_accepted.
    + rewrite (destroy_run _ 0 t) in Hr by (by rewrite Hsc). cbn [batch_ok].
      rewrite (blind_keeps _ _ _ _ (blind_dec 1 t) Hr). cbn. rewrite Hsc. cbn in *. lia.
    + intros _. by apply Hframe.
  - injection Hr as <-. destruct Hw as [Hg Hcf Hp Hl Hbt' Hm' Hlive He Hpt]. split; cbn [hal prox post began]; try done.
    intros Hrun. apply Hframe; [done|auto].
Qed.
(** ** The moves of the proxy keep it *)

Lemma winv_moved sub w p' l s' :
  winv c w -> moves sub (prox w) p' -> bounded t0 p' -> answered l (hal w) = Some s' ->
  (live p' -> SensorsSubHal.mCallback s' = Some 0) -> (emptied p' -> v_accepted (view_of t0 p') = []) ->
  (mThreadsRun (conn p') = true -> path (mk_world s' p' (post w) (session w p'))) ->
  winv c (mk_world s' p' (post w) (session w p')).
Proof.
  intros Hw Hmv Hb Hans Hlive He Hpath. destruct (proxy_kept _ _ _ Hw (moves_step _ _ _ Hmv) Hb) as [Hi Hc].
  destruct (answered_good _ _ _ (i_good _ _ Hw) Hans) as (Hg & Hcf & Hposts & _).
  split; cbn [hal prox post began]; try done.
  - rewrite Hcf. apply Hw.
  - rewrite Hc. apply Hw.
  - rewrite (moves_scoped _ _ _ Hmv). apply Hw.
  - rewrite Hposts. apply Hw.
Qed.

(** The session begins. *)
Lemma path_started w s' p' :
  winv c w -> mThreadsRun (conn (prox w)) = false -> mThreadsRun (conn p') = true ->
  posts (SensorsSubHal.log s') = posts (SensorsSubHal.log (hal w)) -> v_accepted (view_of t0 p') = [] ->
  path (mk_world s' p' (post w) (session w p')).
Proof.
  intros Hw Hrun Hrun' Hposts Hacc. unfold session. rewrite Hrun, Hrun'. cbn [negb andb].
  destruct (i_mail _ _ Hw) as [old Hold]. split; cbn [hal prox post began fst snd]; [rewrite Hposts; lia|].
  exists [], []. rewrite Hposts, Hold, length_app, Nat.add_sub, drop_app_length. split_and!; try done.
  intros evs -> _. by right.
Qed.

(** A phase of initialize before the last. *)
Lemma not_live p' :
  inv t0 p' -> match initializer (thr p') with IIdle | IStart => False | _ => True end -> ~ live p'.
Proof.
  intros Hi Hph. pose proof (stopping p' _ (proj1 Hi)) as Hs. unfold live.
  destruct (initializer (thr p')); try done; intros [Hr|?]; try done; by rewrite Hs in Hr.
Qed.

Lemma winv_subhals sub w p' l s' :
  winv c w -> moves sub (prox w) p' -> bounded t0 p' -> log p' = log (prox w) ++ l -> answered l (hal w) = Some s' ->
  initializer (thr (prox w)) = ISubHals -> init_subhals sub (prox w) = Some (tt, p') ->
  winv c (mk_world s' p' (post w) (session w p')).
Proof.
  intros Hw Hmv Hb Hlog Hans Hph Hr.
  assert (mThreadsRun (conn (prox w)) = false) as Hrun by (eapply stopping; [apply (i_proxy _ _ Hw)|by rewrite Hph]).
  assert (subHals (cfg (prox w)) = 1%nat) as H1.
  { rewrite (i_listed _ _ Hw). by destruct (listed_spec [SensorsSubHal.getSensorsList c]) as ((_ & -> & _) & _). }
  destruct (init_subhals_run sub _ _ H1 Hr) as (Hl & Hc & Hcn & _ & Hin). set (r := sub _ _ _) in *.
  rewrite Hl in Hlog. apply app_inv_head in Hlog as <-.
  assert (~ mThreadsRun (conn p') = true) as Hrun' by (rewrite Hcn; congruence).
  apply (winv_moved sub w p' _ _ Hw Hmv Hb Hans); [| |done].
  - intros [?|Hst]; [done|]. rewrite Hin in Hst. case_bool_decide as Hok; [|done].
    cbn [answered] in Hans. destruct (SensorsSubHal.perform dev _ (hal w)) as [[r' s1]|] eqn:Hp; [|done].
    cbn in Hans. destruct (decide (r' = r)) as [->|]; [|done]. injection Hans as <-.
    by eapply initialize_callback; [apply (i_good _ _ Hw)|exact Hp|].
  - intros _. unfold view_of. rewrite Hc, Hl, replay_more. pose proof (i_emptied _ _ Hw) as He.
    unfold emptied, view_of in He. rewrite Hph in He. specialize (He I). cbn [fold_left]. by destruct (replay _ _ _).
Qed.

Lemma winv_init sub w p' m l s' :
  winv c w -> moves sub (prox w) p' -> bounded t0 p' -> log p' = log (prox w) ++ l -> answered l (hal w) = Some s' ->
  init_next answer sub (prox w) = Some m -> m (prox w) = Some (tt, p') ->
  winv c (mk_world s' p' (post w) (session w p')).
Proof.
  intros Hw Hmv Hb Hlog Hans Hm Hr. pose proof (init_next_phase _ _ _ _ Hm Hr) as Hph.
  destruct (proxy_kept _ _ _ Hw (moves_step _ _ _ Hmv) Hb) as [Hi _].
  destruct (answered_good _ _ _ (i_good _ _ Hw) Hans) as (_ & _ & Hposts & Hcb).
  assert (mThreadsRun (conn (prox w)) = false) as Hrun.
  { eapply stopping; [apply (i_proxy _ _ Hw)|]. intros Hid. by rewrite Hid in Hph. }
  assert (~ live p' -> (emptied p' -> v_accepted (view_of t0 p') = []) -> winv c (mk_world s' p' (post w) (session w p'))) as Hstill.
  { intros Hnl He. apply (winv_moved sub w p' l s' Hw Hmv Hb Hans); [done..|]. intros Hr'. destruct Hnl. by left. }
  pose proof (not_live p' Hi) as Hnl.
  pose proof (logs_init_next answer sub _ _ Hm) as Hlogs. pose proof (i_emptied _ _ Hw) as He. unfold emptied in He.
  destruct (initializer (thr (prox w))) eqn:Hpc; [done|..].
  - rewrite Hph in Hnl. apply Hstill; [by apply Hnl|]. unfold emptied. by rewrite Hph.
  - rewrite Hph in Hnl. apply Hstill; [by apply Hnl|]. unfold emptied. by rewrite Hph.
  - rewrite Hph in Hnl. apply Hstill; [by apply Hnl|]. unfold emptied. by rewrite Hph.
  - rewrite Hph in Hnl. apply Hstill; [by apply Hnl|]. unfold emptied. by rewrite Hph.
  - destruct Hph as (Hph & Hl & Hc). rewrite Hph in Hnl. apply Hstill; [by apply Hnl|]. intros _.
    unfold view_of. rewrite Hc, Hl, replay_more. cbn [fold_left]. by destruct (replay _ _ _).
  - rewrite Hph in Hnl. apply Hstill; [by apply Hnl|]. intros _.
    rewrite (logs_accepted t0 _ _ (Hlogs ltac:(done) ltac:(done) _ _ _ Hr)). by apply He.
  - destruct Hph as [Hph Hsame]. apply Hstill.
    + destruct Hph as [Hph|Hph]; [rewrite Hph in Hnl; by apply Hnl|]. intros [?|?]; congruence.
    + intros _. rewrite (logs_accepted t0 _ _ (Hlogs ltac:(done) ltac:(done) _ _ _ Hr)). by apply He.
  - by eapply winv_subhals.
  - pose proof (Hlogs ltac:(done) ltac:(done) _ _ _ Hr) as Hlg. pose proof (logs_accepted t0 _ _ Hlg) as Hacc.
    rewrite He in Hacc by done. apply (winv_moved sub w p' l s' Hw Hmv Hb Hans); [|done|].
    + intros _. rewrite Hcb by (by eapply logs_events). apply Hw. by right.
    + intros Hrun'. by apply path_started.
Qed.

Lemma winv_proxy sub w p' l s' :
  winv c w -> moves sub (prox w) p' -> bounded t0 p' -> log p' = log (prox w) ++ l -> answered l (hal w) = Some s' ->
  winv c (mk_world s' p' (post w) (session w p')).
Proof.
  intros Hw Hmv Hb Hlog Hans. destruct (answered_good _ _ _ (i_good _ _ Hw) Hans) as (_ & _ & Hposts & Hcb).
  destruct (proxy_kept _ _ _ Hw (moves_step _ _ _ Hmv) Hb) as [Hi Hc].
  destruct (moves_cases _ _ _ Hmv) as [[Hlg [Hrun Hinit]]|[[Hlg [rq Hj]]|(m & Hm & Hr)]].
  - rewrite (logs_events _ _ _ Hlg Hlog) in Hcb. specialize (Hcb eq_refl). pose proof (logs_accepted t0 _ _ Hlg) as Hacc.
    apply (winv_moved sub w p' l s' Hw Hmv Hb Hans).
    + unfold live. rewrite Hrun, Hinit, Hcb. apply Hw.
    + unfold emptied. rewrite Hinit, Hacc. apply Hw.
    + intros Hr. assert (session w p' = began w) as Hse by (unfold session; rewrite Hrun; by destruct (mThreadsRun (conn (prox w)))).
      apply (path_frame w); cbn [hal prox post began]; try done; [by apply logs_grows|]. apply (i_path _ _ Hw). by rewrite <- Hrun.
  - pose proof (not_live p' Hi) as Hnl. rewrite Hj in Hnl. specialize (Hnl I).
    apply (winv_moved sub w p' l s' Hw Hmv Hb Hans); [done|unfold emptied; by rewrite Hj|]. intros Hr. destruct Hnl. by left.
  - by eapply winv_init.
Qed.
(** ** Every step keeps it *)

Lemma winv_step w w' : winv c w -> wrun w w' -> winv c w'.
Proof.
  intros Hw [Hs Hb]. pose proof (i_good _ _ Hw) as Hg. pose proof (i_config _ _ Hw) as Hc.
  destruct Hs as [f s' Hq Hpc Hr|f e n data s' Hq Hpc Hd Hr|e n data s' Hq Hpc Hr|wakeup evs b p' Hq Hr|b evs p' Hq Hr|
    b p' Hq Hr|sub p' l s' Hmv Hlog Hans _]; cbn [prox] in Hb.
  - apply winv_poll; try done; [by eapply SensorsSubHal.step_begin|by eapply callback_begin|].
    by rewrite (begin_posts _ _ _ Hr), app_nil_r.
  - apply winv_poll; try done; [by eapply SensorsSubHal.step_end|by eapply callback_end|].
    by rewrite (end_posts _ _ _ _ _ _ Hr), app_nil_r.
  - destruct (deliver_mail _ _ _ _ _ Hg Hpc Hr) as (Hp & Hbt & Hne).
    assert (SensorsSubHal.step dev (hal w) s') as Hst by (by eapply SensorsSubHal.step_deliver).
    rewrite (SensorsSubHal.step_config _ _ _ Hg Hst), Hc in Hbt.
    apply winv_poll; try done. by eapply callback_deliver.
  - by eapply winv_create.
  - by eapply winv_post.
  - by eapply winv_destroy.
  - by eapply winv_proxy.
Qed.
End Invariant.

Lemma answered_runs l : forall s s', answered l s = Some s' -> rtc (SensorsSubHal.step dev) s s'.
Proof.
  induction l as [|e l IH]; intros s s' Ha; [by injection Ha as <-|].
  destruct e as [q a|i r x| | | | | | | | | | | | | | |]; try by apply IH. cbn [answered] in Ha. destruct (negb _); [done|].
  destruct (SensorsSubHal.perform dev (request_of r) s) as [[x' s1]|] eqn:Hp; [|done]. cbn in Ha.
  destruct (decide (x' = x)); [|done]. eapply rtc_l; [by eapply SensorsSubHal.step_request|auto].
Qed.

Lemma wrun_hal w w' : wrun w w' -> rtc (SensorsSubHal.step dev) (hal w) (hal w').
Proof.
  intros [Hs _]. destruct Hs as [f s' Hq Hpc Hr|f e n data s' Hq Hpc Hd Hr|e n data s' Hq Hpc Hr| | | |sub p' l s' Hmv Hlog Hans _]; try done.
  - by eapply rtc_once, SensorsSubHal.step_begin.
  - by eapply rtc_once, SensorsSubHal.step_end.
  - by eapply rtc_once, SensorsSubHal.step_deliver.
  - by eapply answered_runs.
Qed.

Lemma world_init_inv hw s :
  SensorsSubHal.SensorsSubHal hw = Some s -> 0 <= t0 -> winv (SensorsSubHal.mConfig s) (world_init s).
Proof.
  intros Hs Ht. pose proof (SensorsSubHal.initial_good _ _ Hs) as Hg. unfold SensorsSubHal.SensorsSubHal in Hs.
  destruct (SensorsSubHal.construct hw) as [c|]; [|done]. injection Hs as <-.
  split; cbn [hal prox post began world_init]; try done; [by apply HalProxy_inv|by exists []|by intros []].
Qed.

Lemma wreached_inv hw w :
  clock_ok answer t0 -> wreached hw w ->
  Forall (fun x => own_handle (si_handle x)) (SensorsSubHal.getSensorsList (SensorsSubHal.mConfig (hal w))) ->
  SensorsSubHal.reachable dev hw (hal w) /\ winv (SensorsSubHal.mConfig (hal w)) w.
Proof.
  intros Hck (s & Hs & Hr) Hown. unfold SensorsSubHal.sensorsHalGetSubHal in Hs.
  destruct (SensorsSubHal.SensorsSubHal hw) as [s0|] eqn:H0; [|done]. cbn in Hs.
  destruct (SensorsSubHal.isReady _); [|done]. injection Hs as ->.
  assert (rtc (SensorsSubHal.step dev) s (hal w)) as Hrun.
  { change s with (hal (world_init s)). clear -Hr. induction Hr as [|w1 w2 w3 Hw _ IH]; [done|]. etrans; [by apply wrun_hal|done]. }
  assert (SensorsSubHal.mConfig (hal w) = SensorsSubHal.mConfig s) as Hc.
  { pose proof (SensorsSubHal.initial_good _ _ H0) as Hg. clear -Hrun Hg.
    induction Hrun as [|s1 s2 s3 Hst _ IH]; [done|]. rewrite IH by (by eapply SensorsSubHal.step_good). by apply (SensorsSubHal.step_config dev). }
  rewrite Hc in Hown |- *. split; [by exists s|].
  pose proof (world_init_inv hw s H0 (proj1 Hck)) as Hi. clear -Hr Hi Hck Hown.
  induction Hr as [|w1 w2 w3 Hw _ IH]; [done|]. apply IH. by eapply winv_step.
Qed.

End System.

(** ** A run *)

Inductive waction :=
  | XBegin | XEnd (count : Z) (data : list SensorsSubHal.sensors_event_t) | XDeliver | XPost | XProxy (a : action).

Section Run.
Context (dev : SensorsSubHal.device) (answer : list event -> query -> Z).
Context (sub : list event -> nat -> sub_call -> Result * Z) (t0 : Z).

(** Actions of the proxy's own threads. *)
Definition own_action (a : action) : bool :=
  match a with ACreate _ | ADestroy _ | APost _ _ _ => false | _ => true end.

Lemma act_moves a p p' : own_action a = true -> act answer sub a p = Some p' -> moves answer sub p p'.
Proof.
  destruct a as [r|b|i|i evs b|b|o|rq| |b]; try done; intros _; cbn [act].
  - intros [x Hr]%ran. by eapply mv_serve.
  - destruct (writer (thr p)) as [| | |n k|n k] eqn:Hw; try done; intros [[] Hr]%ran.
    + by apply mv_writer.
    + by eapply mv_wrote.
    + by eapply mv_after.
  - destruct (waker (thr p)) eqn:Hk; [done|intros [[] Hr]%ran; by apply mv_waker|done|].
    destruct (is_u32b o) eqn:Ho; [|done]. intros [[] Hr]%ran. eapply mv_read; [done| |exact Hr].
    intros n ->. cbn in Ho. apply andb_true_iff in Ho as [H1 H2]. split; [by apply Z.leb_le|by apply Z.ltb_lt].
  - destruct (initializer (thr p)) eqn:Hi; try done. intros [[] Hr]%ran. by eapply mv_init.
  - destruct (init_next answer sub p) as [m|] eqn:Hm; [|done]. cbn. intros [[] Hr]%ran. by eapply mv_next.
  - intros [[] Hr]%ran. by eapply (mv_spurious _ _ _ b).
Qed.

Definition idle (q : posting) : bool := match q with NotPosting => true | _ => false end.

Definition wact (a : waction) (w : world) : option world :=
  let poll s' q := Some (mk_world s' (prox w) q (began w)) in
  match a with
  | XBegin =>
      match SensorsSubHal.mPollThread (hal w) with
      | SensorsSubHal.Top f => if idle (post w) then '(_, s') ← SensorsSubHal.poll_begin f (hal w); poll s' NotPosting else None
      | _ => None
      end
  | XEnd n data =>
      match SensorsSubHal.mPollThread (hal w) with
      | SensorsSubHal.Polling f e =>
          if idle (post w) && (length data =? Z.to_nat SensorsSubHal.kPollMaxBufferSize)%nat
          then '(_, s') ← SensorsSubHal.poll_end f e n data (hal w); poll s' NotPosting else None
      | _ => None
      end
  | XDeliver =>
      match SensorsSubHal.mPollThread (hal w) with
      | SensorsSubHal.Got e n data =>
          if idle (post w) then '(_, s') ← SensorsSubHal.poll_deliver e n data (hal w);
            poll s' (mail (SensorsSubHal.log (hal w)) (SensorsSubHal.log s')) else None
      | _ => None
      end
  | XPost =>
      match post w with
      | NotPosting => None
      | Creating wakeup evs => '(b, p') ← createScopedWakelock answer wakeup (prox w); Some (mk_world (hal w) p' (Posting b evs) (began w))
      | Posting b evs => '(_, p') ← postEvents answer 0 evs b (prox w); Some (mk_world (hal w) p' (Destroying b) (began w))
      | Destroying b => '(_, p') ← (if (b : bool) then destroyScopedWakelock 0 else mret tt) (prox w); Some (mk_world (hal w) p' NotPosting (began w))
      end
  | XProxy a =>
      if negb (own_action a) then None else
      p' ← act answer sub a (prox w);
      let l := drop (length (log (prox w))) (log p') in
      if negb (idle (post w)) && negb (calls_none l) then None else
      s' ← answered dev (fun _ => tt) l (hal w);
      Some (mk_world s' p' (post w) (session w p'))
  end.

Lemma wact_step a w w' : wact a w = Some w' -> wstep dev (fun _ => tt) answer w w'.
Proof.
  destruct w as [s p q g]. destruct a as [|n data| | |a]; cbn [wact hal prox post began].
  - destruct (SensorsSubHal.mPollThread s) eqn:Hp; try done. destruct q; try done. cbn.
    intros [= <-]. by eapply w_begin.
  - destruct (SensorsSubHal.mPollThread s) as [| |f e|] eqn:Hp; try done. destruct q; try done. cbn [idle andb].
    destruct (_ =? _)%nat eqn:Hd; [|done]. destruct (SensorsSubHal.poll_end f e n data s) as [[[] s']|] eqn:Hr; [|done].
    intros [= <-]. by eapply w_end; [..|apply Nat.eqb_eq|].
  - destruct (SensorsSubHal.mPollThread s) as [| | |e n data] eqn:Hp; try done. destruct q; try done. cbn [idle].
    destruct (SensorsSubHal.poll_deliver e n data s) as [[[] s']|] eqn:Hr; [|done].
    intros [= <-]. by eapply w_deliver.
  - destruct q as [|wakeup evs|b evs|b]; [done|..].
    + destruct (createScopedWakelock answer wakeup p) as [[b p']|] eqn:Hr; [|done]. intros [= <-]. by eapply w_create.
    + destruct (postEvents answer 0 evs b p) as [[[] p']|] eqn:Hr; [|done]. intros [= <-]. by eapply w_post.
    + destruct ((if b then destroyScopedWakelock 0 else mret tt) p) as [[[] p']|] eqn:Hr; [|done]. intros [= <-]. by eapply w_destroy.
  - destruct (own_action a) eqn:Ho; [|done]. cbn [negb]. destruct (act answer sub a p) as [p'|] eqn:Ha; [|done]. cbn [mbind option_bind].
    apply act_moves in Ha; [|done]. destruct (moves_grow answer sub p p' Ha) as [l Hl]. rewrite Hl, drop_app_length.
    destruct (_ && _) eqn:Hc; [done|].
    destruct (answered _ _ _ s) as [s'|] eqn:Hans; [|done]. intros [= <-].
    eapply (w_proxy dev _ answer (mk_world s p q g)); [exact Ha|exact Hl|exact Hans|].
    intros Hq. cbn [post] in *. by destruct q, (calls_none l).
Qed.

Fixpoint wplay (l : list waction) (w : world) : option world :=
  match l with
  | [] => Some w
  | a :: l => w' ← wact a w; if v_taken (view_of t0 (prox w')) <? 2 ^ 64 then wplay l w' else None
  end.

Lemma wplay_runs l : forall w w', wplay l w = Some w' -> rtc (wrun dev (fun _ => tt) answer t0) w w'.
Proof.
  induction l as [|a l IH]; intros w w'; cbn [wplay]; [by intros [= ->]|].
  destruct (wact a w) as [w1|] eqn:Ha; [|done]. cbn [mbind option_bind]. destruct (_ <? _) eqn:Hb; [|done]. intros Hp.
  eapply rtc_l; [|by apply IH]. split; [by eapply wact_step|]. by apply Z.ltb_lt.
Qed.
End Run.

(** The proxy starts, the framework switches the sensor on, a poll returns a batch with
    two events of the session, and the poll thread posts them. *)
Definition sample_schedule : list waction :=
  map XProxy sample_start ++
  [XProxy (AServe (RActivate 7 true)); XBegin; XEnd 4 SensorsSubHal.sample_batch; XDeliver; XPost; XPost].

Definition sample_world : option world :=
  s ← mjoin (SensorsSubHal.sensorsHalGetSubHal SensorsSubHal.sample_hw);
  wplay SensorsSubHal.sample_device sample_answer sample_sub 0 sample_schedule (world_init 0 s).

