(* ===== verification/WlanAssistant.v ===== *)
(** * The WLAN assistant (wlan-assistant/main.cpp)

    The service that hands the Wi-Fi calibration file to the driver and follows
    changes of it through inotify, as a program over its calls on the system.  The
    file name and the events arrive as bytes; [Trim] is libbase's.  The theorems: what
    [write_nvram] sends, branch by branch; that a MAC address is taken from the file
    exactly as it is written; that the event loop sees exactly the events the kernel
    encoded; and that, whatever the system answers, readiness is published only right
    after a well-formed image was accepted by the driver, a change is followed by an
    update, and the inotify descriptor is closed. *)

From S2P Require Import Prelude CMem Calls.

(** ** Calls *)

Inductive file_kind := Regular | CharDevice | OtherKind.
#[global] Instance file_kind_eq_dec : EqDecision file_kind.
Proof. solve_decision. Defined.

Record file_stat := mk_stat { st_kind : file_kind; st_size : Z }.

(** Integers answer as in C, with [- errno] for a failure; [Stat] and [ReadFile]
    answer [None] for a failure, and both open the C string of a name.  [ReadEvents]
    shows the bytes read. *)
Inductive call : Type -> Type :=
  | SetProperty (key : string) (value : list Z) : call bool
  | GetProperty (key : string) (default : list Z) : call (list Z)
  | Access (path : list Z) (mode : Z) : call Z
  | Stat (path : list Z) : call (option file_stat)
  | ReadFile (path : list Z) : call (option (list Z))
  | WriteFile (path data : list Z) : call bool
  | Sleep (us : Z) : call unit
  | InotifyInit : call Z
  | AddWatch (fd : Z) (path : list Z) (mask : Z) : call Z
  | RmWatch (fd wd : Z) : call Z
  | CloseFd (fd : Z) : call unit
  | Select (fd timeout_sec : Z) : call Z
  | ReadEvents (fd size : Z) : call (Z * list Z).

Notation event := (Calls.event call).
Notation history := (Calls.history call).
Notation strategy := (Calls.strategy call).
Notation M := (Calls.M call).

(** ** Constants *)

Definition MAX_WAIT_SECOND : Z := 2 ^ 63 - 1.
Definition MAX_RETRY_COUNT : nat := 5.
Definition NVRAM_MAC_ADDRESS_OFFSET : nat := 4.
Definition WIFI_LOADER_DEV : list Z := lit "/dev/wmtWifi".
Definition WIFI_NVRAM_PATH : list Z := lit "/mnt/vendor/nvdata/APCFG/APRDEB".
Definition WIFI_NVRAM_INI_FILE : list Z := lit "/data/vendor/nvramwifi".
Definition WIFI_MACADDR_FILE : list Z := lit "/data/vendor/macwifi".
Definition BOOT_META_STR : list Z := lit "meta".
Definition READY : string := "vendor.mtk.nvram.ready".

Definition IN_MODIFY : Z := 0x2.
Definition IN_MOVED_TO : Z := 0x80.
Definition IN_CREATE : Z := 0x100.
Definition IN_DELETE_SELF : Z := 0x400.
Definition IN_MOVE_SELF : Z := 0x800.
Definition IN_Q_OVERFLOW : Z := 0x4000.
Definition IN_IGNORED : Z := 0x8000.
Definition FILE_REMOVE_MASK : Z := Z.lor IN_DELETE_SELF IN_MOVE_SELF.
Definition FILE_MODIFY_MASK : Z := IN_MODIFY.
Definition WATCH_FILE_MASK : Z := Z.lor FILE_REMOVE_MASK FILE_MODIFY_MASK.
Definition WATCH_PATH_MASK : Z := Z.lor IN_MOVED_TO IN_CREATE.
Definition NVRAM_CHANGED : Z := 4.
(** sizeof(struct inotify_event) is 16 and NAME_MAX 255. *)
Definition INOT_BUF_SIZE : Z := 4 * (16 + 255 + 1).
Definition R_OK : Z := 4.
Definition W_OK : Z := 2.
Definition EXIT_SUCCESS : Z := 0.
Definition EXIT_FAILURE : Z := 1.

Definition has (mask bits : Z) : bool := negb (Z.land mask bits =? 0).

(** [s.c_str()] as a C function reads it. *)
Fixpoint c_str (s : list Z) : list Z :=
  match s with
  | [] => []
  | c :: s => if c =? NUL then [] else c :: c_str s
  end.

(** [strtol(s, nullptr, 16)] of a string that starts with a digit. *)
Definition strtol16 (s : list Z) : Z :=
  let '(v, _, _) := strtoul16 s in if 2 ^ 63 <=? v then 2 ^ 63 - 1 else v.

Section Assistant.
Context (env : strategy).
Context (Trim : list Z -> list Z).

(** ** Calibration *)

Definition write_data_to_driver (data : list Z) : M bool :=
  match data with
  | [] => mret false
  | _ =>
      ok ← ask env (WriteFile WIFI_LOADER_DEV data);
      mret (if negb ok then false else true)
  end.

(** Character [i] of a MAC address is not what it should be. *)
Definition mac_bad (s : list Z) (i : nat) : option bool :=
  c ← s !! i;
  Some (if (i mod 3 =? 2)%nat then negb (c =? 58) else negb (isxdigit c)).

(** [None] is false; otherwise the six bytes. *)
Definition parse_mac (mac_str : list Z) : option (option (list Z)) :=
  if negb (length mac_str =? 17)%nat then Some None else
  bad ← for_c (seq 0 17) false (fun i bad =>
          if (bad : bool) then Some true else mac_bad mac_str i);
  if (bad : bool) then Some None else
  mac ← for_c (seq 0 6) [] (fun i mac =>
          Some (mac ++ [u8 (strtol16 (c_str (drop (i * 3) mac_str)))]));
  Some (Some mac).

Definition get_custom_mac_address : M (option (list Z)) :=
  text ← ask env (ReadFile WIFI_MACADDR_FILE);
  match text with
  | None => mret None
  | Some text => lift (parse_mac (Trim text))
  end.

(** The retry loop of write_nvram: [None] is its early return, otherwise
    [nvram_size] after it. *)
Fixpoint size_loop (rounds : nat) (filename : list Z) (nvram_size : Z) : M (option Z) :=
  match rounds with
  | O => mret (Some nvram_size)
  | S rounds =>
      st ← ask env (Stat (c_str filename));
      match st with
      | None => _ ← ask env (Sleep 1000000); size_loop rounds filename nvram_size
      | Some st =>
          if negb (bool_decide (st_kind st = Regular)) || (st_size st <=? 2) ||
             (UINT16_MAX <? st_size st - 2) then mret None else
          let nvram_size := st_size st - 2 in
          if (0 <? nvram_size) && (Z.land nvram_size 0xff =? 0) then mret (Some nvram_size) else
          _ ← ask env (Sleep 1000000);
          size_loop rounds filename nvram_size
      end
  end.

Definition NVRAM_PREFIX : list Z := lit "WR-BUF:NVRAM".

(** The bytes of [mac] over the image; an index outside the string is undefined. *)
Definition put_mac (acnvram mac : list Z) : option (list Z) :=
  for_c (seq 0 (length mac)) acnvram (fun i s =>
    b ← mac !! i;
    let at_ := (12 + NVRAM_MAC_ADDRESS_OFFSET + i)%nat in
    if (at_ <? length s)%nat then Some (<[at_ := b]> s) else None).

Definition write_nvram (filename : list Z) : M bool :=
  size ← size_loop MAX_RETRY_COUNT filename 0;
  match size with
  | None => mret false
  | Some nvram_size =>
      if (nvram_size <=? 0) || negb (Z.land nvram_size 0xff =? 0) then mret false else
      nvram_data ← ask env (ReadFile (c_str filename));
      match nvram_data with
      | None => mret false
      | Some nvram_data =>
          if negb (Z.of_nat (length nvram_data) =? nvram_size + 2) then mret false else
          let acnvram := NVRAM_PREFIX ++ take (Z.to_nat nvram_size) nvram_data in
          mac ← get_custom_mac_address;
          acnvram ← (match mac with
                     | Some mac => lift (put_mac acnvram mac)
                     | None => mret acnvram
                     end);
          ok ← write_data_to_driver acnvram;
          if negb ok then mret false else
          ask env (SetProperty READY (lit "1"))
      end
  end.

Definition get_custom_nvram_file_name : M (list Z) :=
  let filename := WIFI_NVRAM_PATH ++ lit "/" in
  buf ← ask env (ReadFile WIFI_NVRAM_INI_FILE);
  mret (match buf with
        | Some (c :: buf) => filename ++ Trim (c :: buf)
        | _ => filename ++ lit "WIFI"
        end).

(** ** Events *)

Definition le32_at (buf : list Z) (off : nat) : option Z :=
  bs ← load_n buf off 4; Some (le_value bs).

(** [event->name == file_name]. *)
Definition name_is (buf : list Z) (offset : nat) (file_name : list Z) : option bool :=
  s ← cstr (drop (offset + 16) buf); Some (bool_decide (s = file_name)).

(** [event] is at [offset] of [buf]. *)
Definition file_event_hander (inot_fd wd : Z) (buf : list Z) (offset : nat) (mask : Z)
    (path file_name : list Z) : M Z :=
  let file_path := path ++ lit "/" ++ file_name in
  named ← (if has mask WATCH_PATH_MASK then lift (name_is buf offset file_name) else mret false);
  if (named : bool) then
    _ ← ask env (RmWatch inot_fd wd);
    ask env (AddWatch inot_fd (c_str file_path) WATCH_FILE_MASK)
  else if has mask FILE_REMOVE_MASK then
    _ ← ask env (RmWatch inot_fd wd);
    r ← ask env (Access (c_str file_path) R_OK);
    if 0 <=? r then ask env (AddWatch inot_fd (c_str file_path) WATCH_FILE_MASK)
    else ask env (AddWatch inot_fd (c_str path) WATCH_PATH_MASK)
  else mret wd.

(** The variables of the loop. *)
Record monitor := mk_mon { nvram_wd : Z; running : bool; changed : Z; timeout_sec : Z }.

Definition mark (wd : Z) (s : monitor) : monitor :=
  mk_mon wd (running s) (Z.lor (changed s) NVRAM_CHANGED) (timeout_sec s).
Definition halt (wd : Z) (s : monitor) : monitor := mk_mon wd false (changed s) (timeout_sec s).

(** The inner loop; an event has 16 bytes at least, so [rounds] of them suffice for
    [rounds] bytes. *)
Fixpoint event_loop (rounds : nat) (inot_fd dev_wd : Z) (just_filename buf : list Z) (readbytes : Z) (offset : nat)
    (s : monitor) : M monitor :=
  if negb (Z.of_nat offset <? readbytes) then mret s else
  match rounds with
  | O => stuck
  | S rounds =>
      wd ← lift (le32_at buf offset);
      mask ← lift (le32_at buf (offset + 4));
      len ← lift (le32_at buf (offset + 12));
      let wd := s32 wd in
      let next := (offset + (16 + Z.to_nat len))%nat in
      let continue := event_loop rounds inot_fd dev_wd just_filename buf readbytes next in
      if has mask IN_IGNORED then continue s else
      if has mask IN_Q_OVERFLOW then continue (mark (nvram_wd s) s) else
      if (wd =? dev_wd) && has mask FILE_REMOVE_MASK then mret (halt (nvram_wd s) s) else
      if wd =? nvram_wd s then
        wd' ← file_event_hander inot_fd (nvram_wd s) buf offset mask WIFI_NVRAM_PATH just_filename;
        if wd' <? 0 then mret (halt wd' s) else continue (mark wd' s)
      else continue s
  end.

(** One round of the loop of wlan_files_monitor; [None] is [break]. *)
Definition monitor_round (inot_fd dev_wd : Z) (nvram_filename just_filename : list Z) (s : monitor)
    : M (option monitor) :=
  readlen ← ask env (Select inot_fd (timeout_sec s));
  if readlen =? - EINTR then mret (Some s) else
  if readlen <? 0 then mret None else
  if readlen =? 0 then
    failed ← (if has (changed s) NVRAM_CHANGED then ok ← write_nvram nvram_filename; mret (negb ok)
              else mret false);
    if (failed : bool) then mret None else
    mret (Some (mk_mon (nvram_wd s) (running s) 0 MAX_WAIT_SECOND))
  else
  '(readbytes, buf) ← ask env (ReadEvents inot_fd INOT_BUF_SIZE);
  if readbytes =? - EINTR then mret (Some s) else
  if readbytes <=? 0 then mret None else
  s ← event_loop (Z.to_nat readbytes) inot_fd dev_wd just_filename buf readbytes 0 s;
  mret (Some (if 0 <? changed s then mk_mon (nvram_wd s) (running s) (changed s) 1 else s)).

Context (fuel : nat).

(** The watch that is rounds when the loop has ended.  A break out of the inner loop
    keeps the variables, one out of the outer loop those of the round before. *)
Fixpoint monitor_loop (rounds : nat) (inot_fd dev_wd : Z) (nvram_filename just_filename : list Z)
    (s : monitor) : M Z :=
  if negb (running s) then mret (nvram_wd s) else
  match rounds with
  | O => stuck
  | S rounds =>
      r ← monitor_round inot_fd dev_wd nvram_filename just_filename s;
      match r with
      | None => mret (nvram_wd s)
      | Some s => monitor_loop rounds inot_fd dev_wd nvram_filename just_filename s
      end
  end.

Fixpoint wait_for (rounds : nat) (path : list Z) (mode us : Z) : M unit :=
  match rounds with
  | O => stuck
  | S rounds =>
      r ← ask env (Access path mode);
      if r <? 0 then _ ← ask env (Sleep us); wait_for rounds path mode us else mret ()
  end.

(** [boot_mode.find(BOOT_META_STR) == 0]. *)
Definition is_meta (boot_mode : list Z) : bool := is_prefix BOOT_META_STR boot_mode.

Definition follow (inot_fd dev_wd wd : Z) (nvram_filename just_filename : list Z) : M Z :=
  boot_mode ← ask env (GetProperty "ro.bootmode" (lit "-1"));
  nvram_wd ← monitor_loop fuel inot_fd dev_wd nvram_filename just_filename
               (mk_mon wd (negb (is_meta boot_mode)) 0 MAX_WAIT_SECOND);
  _ ← (if 0 <=? dev_wd then _ ← ask env (RmWatch inot_fd dev_wd); mret () else mret ());
  _ ← (if 0 <=? nvram_wd then _ ← ask env (RmWatch inot_fd nvram_wd); mret () else mret ());
  _ ← ask env (CloseFd inot_fd);
  mret (if is_meta boot_mode then EXIT_SUCCESS else EXIT_FAILURE).

Definition watch (inot_fd : Z) : M Z :=
  dev_wd ← ask env (AddWatch inot_fd WIFI_LOADER_DEV FILE_REMOVE_MASK);
  if dev_wd <? 0 then _ ← ask env (CloseFd inot_fd); mret EXIT_FAILURE else
  nvram_filename ← get_custom_nvram_file_name;
  let just_filename := drop (length WIFI_NVRAM_PATH + 1) nvram_filename in
  _ ← wait_for fuel (c_str nvram_filename) R_OK 1000000;
  wd ← ask env (AddWatch inot_fd (c_str nvram_filename) WATCH_FILE_MASK);
  ok ← (if wd <? 0 then mret false else write_nvram nvram_filename);
  if negb ok then _ ← ask env (CloseFd inot_fd); mret EXIT_FAILURE else
  follow inot_fd dev_wd wd nvram_filename just_filename.

Definition wlan_files_monitor : M Z :=
  _ ← wait_for fuel WIFI_LOADER_DEV (Z.lor R_OK W_OK) 100000;
  st ← ask env (Stat WIFI_LOADER_DEV);
  match st with
  | None => mret EXIT_FAILURE
  | Some st =>
      if negb (bool_decide (st_kind st = CharDevice)) then mret EXIT_FAILURE else
      inot_fd ← ask env InotifyInit;
      if inot_fd <? 0 then mret EXIT_FAILURE else watch inot_fd
  end.

Definition main : M Z :=
  ok ← ask env (SetProperty READY (lit "0"));
  if negb ok then mret EXIT_FAILURE else wlan_files_monitor.
End Assistant.

(** ** MAC addresses *)

(** [s] is six pairs of hexadecimal digits with colons between them, and [mac] is
    their values. *)
Definition mac_pair (p : Z * Z) (b : Z) : Prop :=
  exists x y, xdigit p.1 = Some x /\ xdigit p.2 = Some y /\ b = 16 * x + y.

Definition join_pairs (l : list (Z * Z)) : list Z :=
  match l with
  | [] => []
  | p :: l => p.1 :: p.2 :: flat_map (fun q => [58; q.1; q.2]) l
  end.

Definition mac_text (s mac : list Z) : Prop :=
  exists l, length l = 6%nat /\ s = join_pairs l /\ Forall2 mac_pair l mac.

Lemma xdigit_range c d : xdigit c = Some d -> 0 <= d < 16 /\ c <> 0 /\ c <> 120 /\ c <> 88.
Proof. unfold xdigit. intros Hx. repeat case_match; simplify_eq; zb; lia. Qed.

Lemma isxdigit_Some c d : xdigit c = Some d -> isxdigit c = true.
Proof. intros Hx. unfold isxdigit. rewrite Hx. by apply bool_decide_eq_true. Qed.

Lemma strtol16_pair a b x y r :
  xdigit a = Some x -> xdigit b = Some y -> r = [] \/ (exists r', r = 58 :: r') ->
  strtol16 (c_str (a :: b :: r)) = 16 * x + y.
Proof.
  intros Ha Hb Hr. pose proof (xdigit_range _ _ Ha) as (? & ? & ? & ?). pose proof (xdigit_range _ _ Hb) as (? & ? & ? & ?).
  cbn [c_str]. rewrite (proj2 (Z.eqb_neq a 0)), (proj2 (Z.eqb_neq b 0)) by done.
  assert (forall r', hex_digits (a :: b :: r') 0 = hex_digits r' (16 * x + y)) as Hh.
  { intros r'. cbn [hex_digits]. rewrite Ha, Hb. f_equal. lia. }
  unfold strtol16, strtoul16. destruct Hr as [->|[r' ->]]; cbn [c_str].
  - rewrite Hh. cbn [hex_digits]. rewrite (proj2 (Z.leb_gt (2 ^ 64) _)), (proj2 (Z.leb_gt (2 ^ 63) _)) by lia. done.
  - change (58 =? 0) with false. cbv iota.
    change (isxdigit 58) with false. rewrite andb_false_r.
    rewrite Hh. cbn [hex_digits]. change (xdigit 58) with (@None Z). cbv iota beta.
    rewrite (proj2 (Z.leb_gt (2 ^ 64) _)), (proj2 (Z.leb_gt (2 ^ 63) _)) by lia. done.
Qed.

(** The bytes read from well-formed pairs. *)
Lemma strtol16_pair_u8 a b x y r :
  xdigit a = Some x -> xdigit b = Some y -> r = [] \/ (exists r', r = 58 :: r') ->
  u8 (strtol16 (c_str (a :: b :: r))) = 16 * x + y.
Proof.
  intros Ha Hb Hr. rewrite (strtol16_pair a b x y r Ha Hb Hr).
  pose proof (xdigit_range _ _ Ha). pose proof (xdigit_range _ _ Hb).
  apply wrap_small. unfold in_w. lia.
Qed.

(** A list of 17 characters, by name. *)
Lemma length_17 {A} (s : list A) :
  length s = 17%nat -> exists c0 c1 c2 c3 c4 c5 c6 c7 c8 c9 c10 c11 c12 c13 c14 c15 c16,
    s = [c0; c1; c2; c3; c4; c5; c6; c7; c8; c9; c10; c11; c12; c13; c14; c15; c16].
Proof.
  intros Hs. do 17 (destruct s as [|? s]; [done|]). destruct s; [|done]. by repeat eexists.
Qed.

Lemma mac_check_any (s : list Z) ks :
  Forall (fun i => (i < length s)%nat) ks ->
  for_c ks true (fun i bad => if (bad : bool) then Some true else mac_bad s i) = Some true.
Proof. induction 1; [done|]. by cbn. Qed.

(** The validation loop: true as soon as one character is bad. *)
Lemma mac_check_spec (s : list Z) ks :
  Forall (fun i => (i < length s)%nat) ks ->
  exists bad, for_c ks false (fun i bad => if (bad : bool) then Some true else mac_bad s i) = Some bad /\
    (bad = false <-> Forall (fun i => mac_bad s i = Some false) ks).
Proof.
  induction 1 as [|k ks Hk Hks IH]; [by exists false|]. cbn [for_c].
  destruct (lookup_lt_is_Some_2 s k Hk) as [c Hc].
  assert (exists b, mac_bad s k = Some b) as [[] Hb] by (unfold mac_bad; rewrite Hc; by eexists);
    rewrite Hb; cbn [mbind option_bind].
  - exists true. split; [by apply mac_check_any|]. split; [done|]. intros HF. inversion HF; congruence.
  - destruct IH as (bad & Hl & Hiff). exists bad. split; [done|]. rewrite Hiff, Forall_cons. tauto.
Qed.

Lemma isxdigit_true c : isxdigit c = true -> exists d, xdigit c = Some d.
Proof. intros Hx. apply bool_decide_eq_true in Hx as [d Hd]. by exists d. Qed.

Lemma parse_mac_spec s :
  exists r, parse_mac s = Some r /\ forall mac, r = Some mac <-> mac_text s mac.
Proof.
  unfold parse_mac. destruct (length s =? 17)%nat eqn:Hlen.
  2: { exists None. split; [done|]. intros mac. split; [done|]. intros (l & Hl & -> & _).
       do 6 (destruct l as [|? l]; [done|]). destruct l; [|done]. done. }
  apply Nat.eqb_eq in Hlen. cbn [negb].
  destruct (mac_check_spec s (seq 0 17)) as (bad & -> & Hbad).
  { apply Forall_forall. intros i Hi. apply elem_of_seq in Hi. lia. }
  cbn [mbind option_bind].
  destruct (length_17 s Hlen) as (c0&c1&c2&c3&c4&c5&c6&c7&c8&c9&c10&c11&c12&c13&c14&c15&c16&->).
  destruct bad.
  - exists None. split; [done|]. intros mac. split; [done|]. intros (l & Hl & Hs & HF).
    exfalso. enough (true = false) by done. apply Hbad. clear Hbad Hlen.
    do 6 (destruct l as [|[? ?] l]; [done|]). destruct l; [|done]. cbn in Hs. simplify_eq.
    repeat match goal with H : Forall2 mac_pair (_ :: _) _ |- _ => inversion H; clear H; subst end.
    repeat match goal with H : mac_pair _ _ |- _ => destruct H as (? & ? & ?%isxdigit_Some & ?%isxdigit_Some & _) end.
    cbn in *. repeat constructor; cbn; repeat match goal with H : isxdigit _ = true |- _ => rewrite H; clear H end; done.
  - assert (false = false) as Hall by done. apply Hbad in Hall. clear Hbad Hlen.
    cbn [seq] in Hall. rewrite !Forall_cons in Hall. cbn in Hall. destruct_and! Hall.
    repeat match goal with H : Some (negb (isxdigit _)) = Some false |- _ =>
      injection H as H; apply negb_false_iff, isxdigit_true in H as [? ?] end.
    repeat match goal with H : Some (negb (_ =? 58)) = Some false |- _ =>
      injection H as H; apply negb_false_iff, Z.eqb_eq in H; subst end.
    eexists. split; [cbn [for_c seq drop Nat.mul Nat.add mbind option_bind app]; reflexivity|].
    intros mac.
    repeat match goal with |- context [u8 (strtol16 (c_str (?a :: ?b :: ?r)))] =>
      erewrite (strtol16_pair_u8 a b _ _ r) by (try eassumption; first [by left | right; by eexists]) end.
    split.
    + intros [= <-]. exists [(c0, c1); (c3, c4); (c6, c7); (c9, c10); (c12, c13); (c15, c16)].
      split; [done|]. split; [done|]. repeat constructor; by repeat eexists.
    + intros (l & Hl & Hs & HF). do 6 (destruct l as [|[? ?] l]; [done|]). destruct l; [|done].
      cbn in Hs. simplify_eq.
      repeat match goal with H : Forall2 mac_pair (_ :: _) _ |- _ => inversion H; clear H; subst end.
      repeat match goal with H : mac_pair _ _ |- _ => destruct H as (? & ? & ? & ? & ->) end.
      repeat match goal with H : Forall2 mac_pair [] _ |- _ => inversion H; clear H; subst end.
      cbn in *. simplify_eq. done.
Qed.

(** ** One update of the driver *)

Section Update.
Context (env : strategy).
Context (Trim : list Z -> list Z).

Definition valid_size (n : Z) : Prop := 0 < n <= UINT16_MAX /\ n mod 256 = 0.

(** Asking for the size, at most [k] times: the trace, and the size if the file has
    one the driver takes. *)
Inductive probing (filename : list Z) : nat -> list event -> option Z -> Prop :=
  | probe_out : probing filename 0 [] None
  | probe_refused k st :
      st_kind st <> Regular \/ st_size st <= 2 \/ UINT16_MAX < st_size st - 2 ->
      probing filename (S k) [Ev (Stat (c_str filename)) (Some st)] None
  | probe_ok k st :
      st_kind st = Regular -> valid_size (st_size st - 2) ->
      probing filename (S k) [Ev (Stat (c_str filename)) (Some st)] (Some (st_size st - 2))
  | probe_again k st evs r :
      (forall x, st = Some x -> st_kind x = Regular /\ 0 < st_size x - 2 <= UINT16_MAX /\ (st_size x - 2) mod 256 <> 0) ->
      probing filename k evs r ->
      probing filename (S k) (Ev (Stat (c_str filename)) st :: Ev (Sleep 1000000) () :: evs) r.

Lemma land_255 n : Z.land n 0xff = n mod 256.
Proof. change 0xff with (Z.ones 8). by rewrite Z.land_ones by lia. Qed.

Definition usable (n : Z) : bool := negb ((n <=? 0) || negb (Z.land n 0xff =? 0)).

Lemma size_loop_spec k filename sz h :
  usable sz = false ->
  wp (size_loop env k filename sz) (fun r h' =>
    exists evs, h' = h ++ evs /\
      probing filename k evs (match r with Some n => if usable n then Some n else None | None => None end)) h.
Proof.
  revert sz h. induction k as [|k IH]; intros sz h Hsz; cbn [size_loop].
  { apply wp_ret. rewrite Hsz. exists []. rewrite app_nil_r. by split; [|constructor]. }
  apply wp_bind, wp_ask. set (st := env _ h (Stat _)).
  assert (forall n, usable n = false ->
    (forall x, st = Some x -> st_kind x = Regular /\ 0 < st_size x - 2 <= UINT16_MAX /\ (st_size x - 2) mod 256 <> 0) ->
    wp (_ ← ask env (Sleep 1000000); size_loop env k filename n) (fun r h' =>
      exists evs, h' = h ++ evs /\
        probing filename (S k) evs (match r with Some n => if usable n then Some n else None | None => None end))
      (h ++ [Ev (Stat (c_str filename)) st])) as Hagain.
  { intros n Hn Hst. apply wp_bind, wp_ask. eapply wp_mono; [by apply IH|]. intros r h' (evs & -> & Hp).
    exists (Ev (Stat (c_str filename)) st :: Ev (Sleep 1000000) () :: evs). rewrite <- !app_assoc.
    split; [by destruct (env _ _ (Sleep _))|]. by apply probe_again. }
  clearbody st. destruct st as [st|]; [|by apply Hagain].
  destruct (negb (bool_decide (st_kind st = Regular)) || (st_size st <=? 2) || (UINT16_MAX <? st_size st - 2)) eqn:Hbad.
  - apply wp_ret. eexists. split; [reflexivity|]. apply probe_refused.
    rewrite !orb_true_iff, negb_true_iff, bool_decide_eq_false in Hbad. zb. destruct Hbad as [[?|?]|?]; zb; auto.
  - rewrite !orb_false_iff, negb_false_iff, bool_decide_eq_true in Hbad. destruct Hbad as [[Hreg Hlo] Hhi]. zb.
    cbv zeta. rewrite land_255. destruct (0 <? st_size st - 2) eqn:Hpos; zb; [|lia].
    destruct ((st_size st - 2) mod 256 =? 0) eqn:Hmul; zb; cbn [andb].
    + apply wp_ret. eexists. split; [reflexivity|]. unfold usable. rewrite land_255, Hmul.
      rewrite (proj2 (Z.leb_gt _ 0)) by lia. cbn. apply probe_ok; [done|]. by split.
    + apply Hagain; [|intros x [= <-]; split_and!; [done|lia|lia|done]].
      unfold usable. rewrite land_255, (proj2 (Z.eqb_neq _ 0)) by done. by rewrite orb_true_r.
Qed.

(** The address to use: the one the file spells, or none. *)
Definition custom_mac (text : option (list Z)) (mac : option (list Z)) : Prop :=
  match text with
  | Some t => forall m, mac = Some m <-> mac_text (Trim t) m
  | None => mac = None
  end.

(** The bytes for the driver. *)
Definition image (n : Z) (data : list Z) (mac : option (list Z)) : list Z :=
  NVRAM_PREFIX ++ overwrite (take (Z.to_nat n) data) NVRAM_MAC_ADDRESS_OFFSET (default [] mac).

Lemma mac_text_length s mac : mac_text s mac -> length mac = 6%nat.
Proof. intros (l & Hl & _ & HF). by rewrite <- Hl, (Forall2_length _ _ _ HF). Qed.

Lemma put_mac_spec d mac :
  (10 <= length d)%nat -> length mac = 6%nat ->
  put_mac (NVRAM_PREFIX ++ d) mac = Some (NVRAM_PREFIX ++ overwrite d NVRAM_MAC_ADDRESS_OFFSET mac).
Proof.
  intros Hd Hm. do 10 (destruct d as [|? d]; [simpl in Hd; lia|]).
  do 6 (destruct mac as [|? mac]; [done|]). by destruct mac.
Qed.

(** What one update does: its trace and its result. *)
Inductive attempt (filename : list Z) : list event -> bool -> Prop :=
  | att_no_file evs : probing filename MAX_RETRY_COUNT evs None -> attempt filename evs false
  | att_not_read evs n data :
      probing filename MAX_RETRY_COUNT evs (Some n) ->
      (forall d, data = Some d -> Z.of_nat (length d) <> n + 2) ->
      attempt filename (evs ++ [Ev (ReadFile (c_str filename)) data]) false
  | att_refused evs n data text mac :
      probing filename MAX_RETRY_COUNT evs (Some n) -> Z.of_nat (length data) = n + 2 -> custom_mac text mac ->
      attempt filename (evs ++ [Ev (ReadFile (c_str filename)) (Some data); Ev (ReadFile WIFI_MACADDR_FILE) text;
                                Ev (WriteFile WIFI_LOADER_DEV (image n data mac)) false]) false
  | att_sent evs n data text mac ready :
      probing filename MAX_RETRY_COUNT evs (Some n) -> Z.of_nat (length data) = n + 2 -> custom_mac text mac ->
      attempt filename (evs ++ [Ev (ReadFile (c_str filename)) (Some data); Ev (ReadFile WIFI_MACADDR_FILE) text;
                                Ev (WriteFile WIFI_LOADER_DEV (image n data mac)) true;
                                Ev (SetProperty READY (lit "1")) ready]) ready.

Lemma probing_valid filename k evs n : probing filename k evs (Some n) -> valid_size n.
Proof. intros Hp. remember (Some n) as r eqn:Hr. induction Hp; simplify_eq; auto. Qed.

Lemma mac_address_spec h :
  wp (get_custom_mac_address env Trim) (fun mac h' =>
    exists text, h' = h ++ [Ev (ReadFile WIFI_MACADDR_FILE) text] /\ custom_mac text mac) h.
Proof.
  unfold get_custom_mac_address. apply wp_bind, wp_ask. set (text := env _ h _).
  destruct text as [t|]; [|apply wp_ret; by exists None].
  destruct (parse_mac_spec (Trim t)) as (r & Hr & Hiff). eapply wp_lift; [exact Hr|]. by exists (Some t).
Qed.

Lemma write_nvram_attempt filename h :
  wp (write_nvram env Trim filename) (fun ok h' => exists evs, h' = h ++ evs /\ attempt filename evs ok) h.
Proof.
  unfold write_nvram. apply wp_bind. eapply wp_mono; [by apply size_loop_spec|].
  intros [n|] h1 (evs & -> & Hp); [|apply wp_ret; exists evs; by split; [|constructor]].
  unfold usable in Hp. destruct ((n <=? 0) || _); cbn [negb] in Hp.
  { apply wp_ret. exists evs. by split; [|constructor]. }
  apply wp_bind, wp_ask. set (data := env _ _ (ReadFile (c_str filename))).
  destruct data as [data|].
  2: { apply wp_ret. eexists. rewrite <- app_assoc. split; [reflexivity|]. by eapply att_not_read. }
  destruct (Z.of_nat (length data) =? n + 2) eqn:Hlen; zb; cbn [negb].
  2: { apply wp_ret. eexists. rewrite <- app_assoc. split; [reflexivity|]. eapply att_not_read; [done|]. by intros d [= <-]. }
  cbv zeta. apply wp_bind. eapply wp_mono; [apply mac_address_spec|]. intros mac h2 (text & -> & Hmac).
  pose proof (probing_valid _ _ _ _ Hp) as [Hn Hmul].
  assert (10 <= length (take (Z.to_nat n) data))%nat as Htake.
  { rewrite length_take. assert (256 <= n) by (pose proof (Z.div_mod n 256 ltac:(lia)); lia). lia. }
  apply wp_bind. apply (wp_mono _ (fun img h' => img = image n data mac /\
    h' = h ++ evs ++ [Ev (ReadFile (c_str filename)) (Some data); Ev (ReadFile WIFI_MACADDR_FILE) text])).
  { assert (((h ++ evs) ++ [Ev (ReadFile (c_str filename)) (Some data)]) ++ [Ev (ReadFile WIFI_MACADDR_FILE) text] =
      h ++ evs ++ [Ev (ReadFile (c_str filename)) (Some data); Ev (ReadFile WIFI_MACADDR_FILE) text]) as -> by (by rewrite <- !app_assoc).
    destruct mac as [mac|]; [|apply wp_ret; unfold image; cbn [default]; by rewrite overwrite_nil].
    destruct text as [t|]; [|done]. apply (wp_lift _ (image n data (Some mac))); [|done].
    apply put_mac_spec; [done|]. apply (mac_text_length (Trim t)), Hmac. done. }
  intros img h3 [-> ->]. apply wp_bind. unfold write_data_to_driver.
  destruct (image n data mac) as [|b img] eqn:Himg; [done|]. rewrite <- Himg.
  apply wp_bind, wp_ask. destruct (env bool _ _); cbn [negb]; apply wp_ret; cbn [negb].
  - apply wp_ask. eexists. rewrite <- !app_assoc. split; [reflexivity|]. by eapply att_sent.
  - apply wp_ret. eexists. rewrite <- !app_assoc. split; [reflexivity|]. by eapply att_refused.
Qed.
End Update.

(** ** Events as the kernel encodes them (inotify(7)) *)

(** A struct inotify_event; [ie_field] is its name field of [len] bytes. *)
Record ievent := mk_ievent { ie_wd : Z; ie_mask : Z; ie_cookie : Z; ie_field : list Z }.

Definition encode_event (e : ievent) : list Z :=
  le_bytes 4 (u32 (ie_wd e)) ++ le_bytes 4 (ie_mask e) ++ le_bytes 4 (ie_cookie e) ++
  le_bytes 4 (Z.of_nat (length (ie_field e))) ++ ie_field e.

Definition encode_events (l : list ievent) : list Z := flat_map encode_event l.

(** An event about an entry of a watched directory carries its name. *)
Definition event_ok (e : ievent) : Prop :=
  is_s32 (ie_wd e) /\ is_u32 (ie_mask e) /\ Z.of_nat (length (ie_field e)) < 2 ^ 32 /\
  (has (ie_mask e) WATCH_PATH_MASK = true -> is_Some (cstr (ie_field e))).

Section Events.
Context (env : strategy).

(** The handler and the loop over decoded events. *)
Definition rewatch (inot_fd wd : Z) (e : ievent) (path file_name : list Z) : M Z :=
  let file_path := path ++ lit "/" ++ file_name in
  if has (ie_mask e) WATCH_PATH_MASK && bool_decide (cstr (ie_field e) = Some file_name) then
    _ ← ask env (RmWatch inot_fd wd);
    ask env (AddWatch inot_fd (c_str file_path) WATCH_FILE_MASK)
  else if has (ie_mask e) FILE_REMOVE_MASK then
    _ ← ask env (RmWatch inot_fd wd);
    r ← ask env (Access (c_str file_path) R_OK);
    if 0 <=? r then ask env (AddWatch inot_fd (c_str file_path) WATCH_FILE_MASK)
    else ask env (AddWatch inot_fd (c_str path) WATCH_PATH_MASK)
  else mret wd.

Fixpoint walk_events (inot_fd dev_wd : Z) (just_filename : list Z) (l : list ievent) (s : monitor) : M monitor :=
  match l with
  | [] => mret s
  | e :: l =>
      if has (ie_mask e) IN_IGNORED then walk_events inot_fd dev_wd just_filename l s else
      if has (ie_mask e) IN_Q_OVERFLOW then walk_events inot_fd dev_wd just_filename l (mark (nvram_wd s) s) else
      if (ie_wd e =? dev_wd) && has (ie_mask e) FILE_REMOVE_MASK then mret (halt (nvram_wd s) s) else
      if ie_wd e =? nvram_wd s then
        wd ← rewatch inot_fd (nvram_wd s) e WIFI_NVRAM_PATH just_filename;
        if wd <? 0 then mret (halt wd s) else walk_events inot_fd dev_wd just_filename l (mark wd s)
      else walk_events inot_fd dev_wd just_filename l s
  end.

Lemma cstr_app_l a b s : cstr a = Some s -> cstr (a ++ b) = Some s.
Proof.
  revert s. induction a as [|c a IH]; intros s; [done|]. cbn. destruct (c =? NUL); [done|].
  destruct (cstr a) as [t|]; [|done]. intros [= <-]. by rewrite (IH t).
Qed.

Lemma le32_at_ok pre v rest off :
  is_u32 v -> off = length pre -> le32_at (pre ++ le_bytes 4 v ++ rest) off = Some v.
Proof.
  intros Hv ->. unfold le32_at. rewrite load_n_ok; [|rewrite !length_app, length_le_bytes; lia].
  rewrite drop_app_length, take_app_length' by (by rewrite length_le_bytes).
  cbn [mbind option_bind]. by rewrite le_value_bytes_small.
Qed.

Lemma length_encode_event e : length (encode_event e) = (16 + length (ie_field e))%nat.
Proof. unfold encode_event. rewrite !length_app, !length_le_bytes. lia. Qed.

Lemma hander_rewatch fd wd e pre rest path file h :
  event_ok e ->
  file_event_hander env fd wd (pre ++ encode_event e ++ rest) (length pre) (ie_mask e) path file h =
  rewatch fd wd e path file h.
Proof.
  intros (_ & _ & _ & Hn). unfold file_event_hander, rewatch. cbv zeta.
  destruct (has (ie_mask e) WATCH_PATH_MASK) eqn:Hp; [|done]. destruct (Hn eq_refl) as [s Hs].
  assert (name_is (pre ++ encode_event e ++ rest) (length pre) file = Some (bool_decide (s = file))) as ->.
  { unfold name_is. replace (pre ++ encode_event e ++ rest) with
      ((pre ++ (le_bytes 4 (u32 (ie_wd e)) ++ le_bytes 4 (ie_mask e) ++ le_bytes 4 (ie_cookie e) ++
        le_bytes 4 (Z.of_nat (length (ie_field e))))) ++ (ie_field e ++ rest))
      by (unfold encode_event; by rewrite <- !app_assoc).
    rewrite drop_app_length' by (rewrite !length_app, !length_le_bytes; lia).
    by rewrite (cstr_app_l _ _ s Hs). }
  rewrite Hs. cbn [andb]. by destruct (decide (s = file)) as [->|Hne];
    [rewrite !bool_decide_true by done|rewrite !bool_decide_false by congruence].
Qed.

Lemma event_loop_walk fd dev just l :
  forall rounds pre s h, Forall event_ok l -> (length (encode_events l) <= rounds)%nat ->
  event_loop env rounds fd dev just (pre ++ encode_events l)
    (Z.of_nat (length (pre ++ encode_events l))) (length pre) s h =
  walk_events fd dev just l s h.
Proof.
  induction l as [|e l IH]; intros rounds pre s h Hok Hr.
  { cbn [encode_events flat_map]. rewrite app_nil_r. destruct rounds; cbn [event_loop]; by rewrite Z.ltb_irrefl. }
  inversion Hok as [|? ? He Hl]; subst. cbn [encode_events flat_map] in *. fold (encode_events l) in *.
  rewrite length_app, length_encode_event in Hr. destruct rounds as [|rounds]; [lia|]. cbn [event_loop walk_events].
  assert ((Z.of_nat (length pre) <? Z.of_nat (length (pre ++ encode_event e ++ encode_events l))) = true) as ->.
  { apply Z.ltb_lt. rewrite !length_app, length_encode_event. lia. }
  cbn [negb]. pose proof He as (Hwd & Hmask & Hlen & _).
  set (buf := pre ++ encode_event e ++ encode_events l).
  assert (le32_at buf (length pre) = Some (u32 (ie_wd e))) as H0.
  { unfold buf, encode_event. rewrite <- !app_assoc. apply le32_at_ok; [apply u32_range|done]. }
  assert (le32_at buf (length pre + 4) = Some (ie_mask e)) as H4.
  { unfold buf, encode_event. rewrite <- !app_assoc, (app_assoc pre). apply le32_at_ok; [done|].
    by rewrite length_app, length_le_bytes. }
  assert (le32_at buf (length pre + 12) = Some (Z.of_nat (length (ie_field e)))) as H12.
  { unfold buf, encode_event. rewrite <- !app_assoc, !(app_assoc pre), !(app_assoc (pre ++ _)), (app_assoc ((pre ++ _) ++ _)).
    apply le32_at_ok; [split; lia|]. rewrite !length_app, !length_le_bytes. lia. }
  rewrite H0, H4, H12. unfold mbind, M_bind, lift. cbv beta iota zeta. rewrite s32_u32 by done.
  rewrite Nat2Z.id.
  assert (forall s h, event_loop env rounds fd dev just buf (Z.of_nat (length buf))
    (length pre + (16 + length (ie_field e)))%nat s h = walk_events fd dev just l s h) as Hnext.
  { intros s' h'. unfold buf. rewrite (app_assoc pre). rewrite <- (length_encode_event e), <- length_app.
    apply IH; [done|lia]. }
  destruct (has (ie_mask e) IN_IGNORED); [apply Hnext|]. destruct (has (ie_mask e) IN_Q_OVERFLOW); [apply Hnext|].
  destruct (_ && _); [done|]. destruct (ie_wd e =? nvram_wd s); [|apply Hnext].
  unfold buf at 1. rewrite hander_rewatch by done. destruct (rewatch _ _ _ _ _ h) as [[wd h']|]; [|done].
  destruct (wd <? 0); [done|apply Hnext].
Qed.
End Events.

(** ** The protocol of the service *)

(** An observer of the calls: the open inotify descriptor, whether the last call was
    an image the driver accepted, the readiness published, and whether readiness was
    cleared. *)
Record obs := mk_obs { o_fd : option Z; o_accepted : bool; o_ready : bool; o_begun : bool }.

Definition obs0 : obs := mk_obs None false false false.

Definition image_ok (img : list Z) : bool :=
  let n := Z.of_nat (length img) - 12 in
  is_prefix NVRAM_PREFIX img && (0 <? n) && (n <=? UINT16_MAX) && (n mod 256 =? 0).

Definition quietly (o : obs) : obs := mk_obs (o_fd o) false (o_ready o) (o_begun o).
Definition on_fd (o : obs) (fd : Z) : option obs :=
  if bool_decide (o_fd o = Some fd) then Some (quietly o) else None.

(** [None] is a call the protocol forbids: readiness is cleared first and announced
    only right after the driver took a well-formed image; nothing else is written;
    the descriptor is used while it is open. *)
Definition obs_step (o : obs) (e : event) : option obs :=
  match e with
  | Ev c a =>
      match c in call A return A -> option obs with
      | SetProperty key v => fun ok =>
          if bool_decide (key = READY) then
            if bool_decide (v = lit "0") then
              if o_begun o then None else Some (mk_obs (o_fd o) false (if ok then false else o_ready o) true)
            else if bool_decide (v = lit "1") && o_accepted o
                 then Some (mk_obs (o_fd o) false (if ok then true else o_ready o) true) else None
          else None
      | WriteFile path data => fun ok =>
          if bool_decide (path = WIFI_LOADER_DEV) && image_ok data && o_begun o
          then Some (mk_obs (o_fd o) ok (o_ready o) true) else None
      | InotifyInit => fun fd =>
          if bool_decide (o_fd o = None) && o_begun o
          then Some (mk_obs (if 0 <=? fd then Some fd else None) false (o_ready o) true) else None
      | AddWatch fd _ _ => fun _ => on_fd o fd
      | RmWatch fd _ => fun _ => on_fd o fd
      | Select fd _ => fun _ => on_fd o fd
      | ReadEvents fd _ => fun _ => on_fd o fd
      | CloseFd fd => fun _ =>
          if bool_decide (o_fd o = Some fd) then Some (mk_obs None false (o_ready o) (o_begun o)) else None
      | _ => fun _ => Some (quietly o)
      end a
  end.

Fixpoint obs_run (o : obs) (h : list event) : option obs :=
  match h with
  | [] => Some o
  | e :: h => match obs_step o e with Some o => obs_run o h | None => None end
  end.

Lemma obs_run_app o h h' :
  obs_run o (h ++ h') = match obs_run o h with Some o => obs_run o h' | None => None end.
Proof. revert o. induction h as [|e h IH]; intros o; [done|]. cbn. by destruct (obs_step o e). Qed.

(** From the observation [o] the program ends with one [Q] allows. *)
Definition tracks {A} (m : M A) (o : obs) (Q : A -> obs -> nat -> Prop) (h : history) : Prop :=
  obs_run obs0 h = Some o ->
  wp m (fun a h' => exists o', obs_run obs0 h' = Some o' /\ Q a o' (length h')) h.

Lemma tracks_ret {A} (a : A) o Q h : Q a o (length h) -> tracks (mret a) o Q h.
Proof. intros HQ Ho. apply wp_ret. by exists o. Qed.

Lemma tracks_bind {A B} (m : M A) (k : A -> M B) o Q R h :
  tracks m o R h -> (forall a o' h', R a o' (length h') -> tracks (k a) o' Q h') -> tracks (m ≫= k) o Q h.
Proof.
  intros Hm Hk Ho. apply wp_bind. eapply wp_mono; [by apply Hm|].
  intros a h' (o' & Ho' & HR). by apply (Hk a o' h' HR).
Qed.

Lemma tracks_ask (env : strategy) {A} (c : call A) o Q h :
  (exists o', obs_step o (Ev c (env A h c)) = Some o' /\ Q (env A h c) o' (S (length h))) ->
  tracks (ask env c) o Q h.
Proof.
  intros (o' & Hs & HQ) Ho. apply wp_ask. exists o'. rewrite obs_run_app, Ho. cbn [obs_run]. rewrite Hs.
  split; [done|]. rewrite length_app, Nat.add_1_r. exact HQ.
Qed.

Lemma tracks_mono {A} (m : M A) o Q R h :
  tracks m o Q h -> (forall a o' n, Q a o' n -> R a o' n) -> tracks m o R h.
Proof.
  intros Hm HQR Ho. eapply wp_mono; [by apply Hm|]. intros a h' (o' & Ho' & HQ). exists o'. auto.
Qed.

(** A call the observer lets through. *)
Lemma tracks_neutral (env : strategy) {A} (c : call A) o h :
  (forall a, obs_step o (Ev c a) = Some (quietly o)) ->
  tracks (ask env c) o (fun a o' n => o' = quietly o /\ n = S (length h) /\ a = env A h c) h.
Proof. intros Hs. apply tracks_ask. exists (quietly o). by rewrite Hs. Qed.

Section Main.
Context (env : strategy).
Context (Trim : list Z -> list Z).
Context (fuel : nat).

(** The kernel returns whole events. *)
Definition system_ok : Prop :=
  forall h fd size n b, env _ h (ReadEvents fd size) = (n, b) -> 0 < n ->
  exists l, Forall event_ok l /\ b = encode_events l /\ n = Z.of_nat (length b).

(** From the [n]-th call on the files are there and waiting fails for good. *)
Definition settles (n : nat) : Prop :=
  forall h, (n <= length h)%nat ->
    (forall path mode, 0 <= env _ h (Access path mode)) /\
    (forall fd t, env _ h (Select fd t) < 0 /\ env _ h (Select fd t) <> - EINTR).

(** Watching, with nothing pending. *)
Definition begun (o : obs) : Prop := o_begun o = true.
Definition live (fd : Z) (o : obs) : Prop := o_fd o = Some fd /\ begun o.

Lemma live_quiet fd o : live fd o -> live fd (quietly o).
Proof. done. Qed.

Lemma on_fd_live fd o : live fd o -> on_fd o fd = Some (quietly o).
Proof. intros [Hf _]. unfold on_fd. by rewrite bool_decide_true. Qed.

Lemma image_well_formed n data mac :
  valid_size n -> Z.of_nat (length data) = n + 2 -> length (default [] mac) = 6%nat \/ mac = None ->
  image_ok (image n data mac) = true.
Proof.
  intros [Hn Hmul] Hlen Hmac. assert (256 <= n) by (pose proof (Z.div_mod n 256 ltac:(lia)); lia).
  assert (length (image n data mac) = 12 + Z.to_nat n)%nat as Hl.
  { unfold image. rewrite length_app. rewrite length_overwrite; rewrite length_take.
    - change (length NVRAM_PREFIX) with 12%nat. lia.
    - unfold NVRAM_MAC_ADDRESS_OFFSET. destruct Hmac as [->| ->]; cbn; lia. }
  unfold image_ok. cbv zeta. rewrite Hl.
  assert (is_prefix NVRAM_PREFIX (image n data mac) = true) as -> by (apply is_prefix_spec; by eexists).
  replace (Z.of_nat (12 + Z.to_nat n) - 12) with n by lia.
  rewrite (proj2 (Z.ltb_lt 0 n)), (proj2 (Z.leb_le n _)), Hmul by lia. done.
Qed.

Lemma custom_mac_length text mac : custom_mac Trim text mac -> length (default [] mac) = 6%nat \/ mac = None.
Proof.
  destruct text as [t|]; cbn; [|by right]. intros Hm. destruct mac as [m|]; [left|by right].
  apply (mac_text_length (Trim t)), Hm. done.
Qed.

Lemma probing_obs filename k evs r o :
  probing filename k evs r -> exists o', obs_run o evs = Some o' /\ (o' = o \/ o' = quietly o).
Proof.
  intros Hp. revert o. induction Hp as [| | |k st evs r _ _ IH]; intros o; cbn; try by eexists; auto.
  destruct (IH (quietly (quietly o))) as (o' & Ho & Hc). exists o'. split; [exact Ho|]. right. by destruct Hc as [->| ->].
Qed.

Lemma attempt_obs filename evs ok fd o :
  attempt Trim filename evs ok -> live fd o ->
  exists o', obs_run o evs = Some o' /\ live fd o' /\ (ok = true \/ o_ready o = true -> o_ready o' = true).
Proof.
  intros Ha Hlive.
  assert (forall k evs r, probing filename k evs r ->
    exists o', obs_run o evs = Some o' /\ live fd o' /\ o_ready o' = o_ready o) as Hp.
  { intros k evs' r Hp. destruct (probing_obs _ _ _ _ o Hp) as (o' & Ho' & Hc). exists o'. split; [done|].
    by destruct Hc as [->| ->]. }
  destruct Ha as [evs Hpr|evs n data Hpr _|evs n data text mac Hpr Hlen Hmac|evs n data text mac ready Hpr Hlen Hmac];
    destruct (Hp _ _ _ Hpr) as (o' & Ho' & [Hf Hb] & Hrd); unfold begun in Hb; rewrite <- Hrd.
  - exists o'. split; [done|]. split; [done|]. by intros [?|?].
  - exists (quietly o'). rewrite obs_run_app, Ho'. split; [done|]. split; [done|]. by intros [?|?].
  - pose proof (image_well_formed n data mac (probing_valid _ _ _ _ Hpr) Hlen (custom_mac_length _ _ Hmac)) as Him.
    rewrite obs_run_app, Ho'. cbn -[image_ok image]. rewrite Him, Hb. cbn -[image]. eexists. split; [reflexivity|]. split; [done|]. by intros [?|?].
  - pose proof (image_well_formed n data mac (probing_valid _ _ _ _ Hpr) Hlen (custom_mac_length _ _ Hmac)) as Him.
    rewrite obs_run_app, Ho'. cbn -[image_ok image]. rewrite Him, Hb. cbn -[image]. eexists. split; [reflexivity|]. split; [done|].
    cbn. intros [->|?]; [done|by destruct ready].
Qed.

Lemma write_nvram_tracks filename fd o h :
  live fd o ->
  tracks (write_nvram env Trim filename) o
    (fun ok o' n => live fd o' /\ (length h <= n)%nat /\ (ok = true \/ o_ready o = true -> o_ready o' = true)) h.
Proof.
  intros Hl Ho. eapply wp_mono; [apply write_nvram_attempt|]. intros ok h' (evs & -> & Ha).
  destruct (attempt_obs _ _ _ fd o Ha Hl) as (o' & Ho' & Hl' & Hr). exists o'. rewrite obs_run_app, Ho.
  split; [done|]. split; [done|]. split; [rewrite length_app; lia|done].
Qed.

(** Still watching [fd], later, and no less ready. *)
Definition stays (fd : Z) (o : obs) (k : nat) (o' : obs) (n : nat) : Prop :=
  live fd o' /\ (k <= n)%nat /\ (o_ready o = true -> o_ready o' = true).

Lemma stays_refl fd o k : live fd o -> stays fd o k o k.
Proof. intros Hl. by split. Qed.

Lemma stays_quiet fd o k n : live fd o -> (k <= n)%nat -> stays fd o k (quietly o) n.
Proof. intros Hl Hk. by split. Qed.

Lemma stays_trans fd o1 k1 o2 k2 o3 k3 : stays fd o1 k1 o2 k2 -> stays fd o2 k2 o3 k3 -> stays fd o1 k1 o3 k3.
Proof. intros (? & ? & ?) (? & ? & ?). split; [done|]. split; [lia|auto]. Qed.

(** A call on the open descriptor, or one the observer ignores. *)
Lemma ask_stays {A} (c : call A) fd o h :
  live fd o -> (forall a, obs_step o (Ev c a) = Some (quietly o)) ->
  tracks (ask env c) o (fun a o' n => stays fd o (length h) o' n /\ n = S (length h) /\ a = env A h c) h.
Proof.
  intros Hl Hs. eapply tracks_mono; [by apply tracks_neutral|]. intros a o' n (-> & -> & ->). split; [|done].
  apply stays_quiet; [done|lia].
Qed.

Ltac call_on Hl := apply ask_stays; [exact Hl|intros; cbn; rewrite ?(on_fd_live _ _ Hl); reflexivity].

Lemma rewatch_stays fd wd e path file o h :
  live fd o -> tracks (rewatch env fd wd e path file) o (fun _ o' n => stays fd o (length h) o' n) h.
Proof.
  intros Hl. unfold rewatch. cbv zeta. destruct (_ && _); [|destruct (has _ FILE_REMOVE_MASK)].
  - eapply tracks_bind; [call_on Hl|]. intros _ o1 h1 [H1 _]. eapply tracks_mono; [call_on (proj1 H1)|].
    intros _ o2 n [H2 _]. by eapply stays_trans.
  - eapply tracks_bind; [call_on Hl|]. intros _ o1 h1 [H1 _].
    eapply tracks_bind; [call_on (proj1 H1)|]. intros r o2 h2 [H2 _].
    pose proof (stays_trans _ _ _ _ _ _ _ H1 H2) as H12.
    destruct (0 <=? r); (eapply tracks_mono; [call_on (proj1 H2)|]); intros _ o3 n [H3 _]; by eapply stays_trans.
  - apply tracks_ret. by apply stays_refl.
Qed.

Lemma walk_stays fd dev just l : forall s o h,
  live fd o -> tracks (walk_events env fd dev just l s) o (fun _ o' n => stays fd o (length h) o' n) h.
Proof.
  induction l as [|e l IH]; intros s o h Hl; cbn [walk_events]; [by apply tracks_ret, stays_refl|].
  destruct (has _ IN_IGNORED); [by apply IH|]. destruct (has _ IN_Q_OVERFLOW); [by apply IH|].
  destruct (_ && _); [by apply tracks_ret, stays_refl|]. destruct (_ =? _); [|by apply IH].
  eapply tracks_bind; [by apply rewatch_stays|]. intros wd o1 h1 H1. cbn in H1.
  destruct (wd <? 0); [by apply tracks_ret|]. eapply tracks_mono; [by apply IH, H1|].
  intros s' o' n Hn. by eapply stays_trans.
Qed.

Lemma tracks_ext {A} (m m' : M A) o Q h : m h = m' h -> tracks m' o Q h -> tracks m o Q h.
Proof. intros Heq Ht Ho. specialize (Ht Ho). unfold wp in *. by rewrite Heq. Qed.

(** A round ends, and makes a call. *)
Lemma round_stays fd dev file just s o h :
  system_ok -> live fd o ->
  tracks (monitor_round env Trim fd dev file just s) o (fun _ o' n => stays fd o (S (length h)) o' n) h.
Proof.
  intros Hsys Hl. unfold monitor_round. eapply tracks_bind; [call_on Hl|]. intros r o1 h1 (H1 & Hn1 & _).
  assert (stays fd o (S (length h)) o1 (length h1)) as H1'.
  { split; [apply H1|]. split; [lia|apply H1]. }
  destruct (r =? - EINTR); [by apply tracks_ret|]. destruct (r <? 0); [by apply tracks_ret|].
  destruct (r =? 0).
  - apply (tracks_bind _ _ _ _ (fun _ o' n => stays fd o (S (length h)) o' n)).
    + destruct (has _ _); [|by apply tracks_ret]. eapply tracks_bind; [apply write_nvram_tracks, H1|].
      intros ok o2 h2 (Hl2 & Hn2 & Hr2). apply tracks_ret. split; [done|]. split; [lia|].
      intros Hready. apply Hr2. right. by apply H1.
    + intros failed o2 h2 H2. destruct failed; by apply tracks_ret.
  - eapply tracks_bind; [call_on (proj1 H1)|]. intros [n b] o2 h2 (H2 & Hn2 & Hb).
    pose proof (stays_trans _ _ _ _ _ _ _ H1' H2) as H12.
    destruct (n =? - EINTR); [by apply tracks_ret|]. destruct (n <=? 0) eqn:Hpos; zb; [by apply tracks_ret|].
    destruct (Hsys _ _ _ _ _ (eq_sym Hb) Hpos) as (l & Hok & -> & ->).
    apply (tracks_bind _ _ _ _ (fun _ o' n => stays fd o (S (length h)) o' n)).
    + eapply tracks_ext; [apply (event_loop_walk env fd dev just l _ []); [done|lia]|].
      eapply tracks_mono; [apply walk_stays, H2|]. intros s' o3 n' H3. by eapply stays_trans.
    + intros s' o3 h3 H3. by apply tracks_ret.
Qed.

Lemma loop_stays fd dev file just n : forall rounds s o h,
  system_ok -> settles n -> (n < length h + rounds)%nat -> (0 < rounds)%nat -> live fd o ->
  tracks (monitor_loop env Trim rounds fd dev file just s) o (fun _ o' k => stays fd o (length h) o' k) h.
Proof.
  induction rounds as [|rounds IH]; intros s o h Hsys Hset Hn Hpos Hl; [lia|]. cbn [monitor_loop].
  destruct (running s); cbn [negb]; [|by apply tracks_ret, stays_refl].
  destruct (decide (n <= length h)%nat) as [Hlate|Hearly].
  - destruct (Hset h Hlate) as [_ Hsel]. intros Ho. unfold monitor_round. apply wp_bind, wp_bind, wp_ask.
    destruct (Hsel fd (timeout_sec s)) as [Hneg Hne]. rewrite (proj2 (Z.eqb_neq _ _)), (proj2 (Z.ltb_lt _ 0)) by done.
    apply wp_ret, wp_ret. exists (quietly o). rewrite obs_run_app, Ho. cbn. rewrite (on_fd_live _ _ Hl).
    split; [done|]. apply stays_quiet; [done|]. rewrite length_app. lia.
  - eapply tracks_bind; [by apply round_stays|]. intros r o1 h1 H1. cbn in H1.
    assert (stays fd o (length h) o1 (length h1)) as H1' by (split; [apply H1|]; split; [destruct H1; lia|apply H1]).
    destruct r as [s'|]; [|by apply tracks_ret]. eapply tracks_mono.
    + apply IH; [done|done| |destruct H1 as (_ & ? & _); lia|apply H1]. destruct H1 as (_ & ? & _). lia.
    + intros wd o2 k H2. by eapply stays_trans.
Qed.

Lemma wait_stays path mode us n Q : forall rounds o h,
  settles n -> (n < length h + rounds)%nat -> (0 < rounds)%nat ->
  (forall o' k, (length h <= k)%nat -> o_fd o' = o_fd o /\ o_begun o' = o_begun o /\ o_ready o' = o_ready o -> Q () o' k) ->
  tracks (wait_for env rounds path mode us) o Q h.
Proof.
  induction rounds as [|rounds IH]; intros o h Hset Hn Hpos HQ; [lia|]. cbn [wait_for].
  eapply tracks_bind; [apply tracks_neutral; by intros|]. cbn. intros r o1 h1 (-> & Hh1 & Hr).
  destruct (r <? 0) eqn:Hneg; zb; [|apply tracks_ret, HQ; [lia|done]].
  destruct (decide (n <= length h)%nat) as [Hlate|Hearly].
  { destruct (Hset h Hlate) as [Hacc _]. specialize (Hacc path mode). lia. }
  eapply tracks_bind; [apply tracks_neutral; by intros|]. cbn. intros _ o2 h2 (-> & Hh2 & _).
  apply IH; [done|lia|lia|]. intros o' k Hk Ho'. apply HQ; [lia|exact Ho'].
Qed.
(** At the end: nothing is open, and success only when ready. *)
Definition ended (r : Z) (o : obs) : Prop :=
  o_fd o = None /\ (r = EXIT_SUCCESS /\ o_ready o = true \/ r = EXIT_FAILURE).

Lemma close_ends fd o r h :
  live fd o -> (r = EXIT_SUCCESS /\ o_ready o = true \/ r = EXIT_FAILURE) ->
  tracks (_ ← ask env (CloseFd fd); mret r) o (fun r o' _ => ended r o') h.
Proof.
  intros [Hf Hb] Hr. eapply tracks_bind.
  - apply (tracks_ask env _ _ (fun _ o' _ => o' = mk_obs None false (o_ready o) (o_begun o))).
    eexists. split; [cbn; rewrite bool_decide_true by done; reflexivity|done].
  - intros _ o' h' ->. by apply tracks_ret.
Qed.

Lemma rm_stays (b : bool) fd wd o h :
  live fd o ->
  tracks (if b then _ ← ask env (RmWatch fd wd); mret () else mret ()) o (fun _ o' n => stays fd o (length h) o' n) h.
Proof.
  intros Hl. destruct b; [|by apply tracks_ret, stays_refl].
  eapply tracks_bind; [call_on Hl|]. intros _ o1 h1 (H1 & _). by apply tracks_ret.
Qed.

Lemma follow_ends fd dev wd file just n o h :
  system_ok -> settles n -> (n < fuel)%nat -> live fd o -> o_ready o = true ->
  tracks (follow env Trim fuel fd dev wd file just) o (fun r o' _ => ended r o') h.
Proof.
  intros Hsys Hset Hfuel Hl Hready. unfold follow. eapply tracks_bind; [call_on Hl|]. intros mode o1 h1 (H1 & _).
  eapply tracks_bind; [apply (loop_stays _ _ _ _ n); [done|done|lia|lia|apply H1]|]. intros wd' o2 h2 H2.
  eapply tracks_bind; [apply (rm_stays (0 <=? dev)), H2|]. intros [] o3 h3 H3.
  eapply tracks_bind; [apply (rm_stays (0 <=? wd')), H3|]. intros [] o4 h4 H4.
  apply close_ends; [apply H4|]. destruct (is_meta mode); [left|by right]. split; [done|].
  apply H4, H3, H2, H1. done.
Qed.

Lemma watch_ends fd n o h :
  system_ok -> settles n -> (n < fuel)%nat -> live fd o ->
  tracks (watch env Trim fuel fd) o (fun r o' _ => ended r o') h.
Proof.
  intros Hsys Hset Hfuel Hl. unfold watch. eapply tracks_bind; [call_on Hl|]. intros dev o1 h1 (H1 & _).
  destruct (dev <? 0); [apply close_ends; [apply H1|by right]|].
  apply (tracks_bind _ _ _ _ (fun _ o' _ => live fd o')).
  { unfold get_custom_nvram_file_name. eapply tracks_bind; [call_on (proj1 H1)|]. intros buf o2 h2 (H2 & _).
    apply tracks_ret, H2. }
  intros file o2 h2 Hl2. cbv zeta.
  eapply (tracks_bind _ _ _ _ (fun _ o' _ => live fd o')).
  { apply (wait_stays _ _ _ n); [done|lia|lia|]. intros o' k _ (Hf & Hb & _). destruct Hl2. split; [by rewrite Hf|].
    unfold begun in *. by rewrite Hb. }
  intros _ o3 h3 Hl3. eapply tracks_bind; [call_on Hl3|]. intros wd o4 h4 (H4 & _).
  apply (tracks_bind _ _ _ _ (fun ok o' _ => live fd o' /\ (ok = true -> o_ready o' = true))).
  { destruct (wd <? 0); [apply tracks_ret; split; [apply H4|done]|].
    eapply tracks_mono; [apply write_nvram_tracks, H4|]. intros ok o' k (? & _ & Hr). split; [done|].
    intros ->. apply Hr. by left. }
  intros ok o5 h5 [Hl5 Hr5]. destruct ok; cbn [negb].
  - apply (follow_ends _ _ _ _ _ n); try done. by apply Hr5.
  - apply close_ends; [done|by right].
Qed.

Lemma main_ends n :
  system_ok -> settles n -> (n < fuel)%nat ->
  tracks (main env Trim fuel) obs0 (fun r o' _ => ended r o') [].
Proof.
  intros Hsys Hset Hfuel. unfold main.
  apply (tracks_bind _ _ _ _ (fun _ o' _ => o_fd o' = None /\ o_begun o' = true)).
  { apply tracks_ask. eexists. split; [reflexivity|done]. }
  intros ok o1 h1 [Hf1 Hb1]. destruct ok; cbn [negb]; [|apply tracks_ret; split; [done|by right]].
  unfold wlan_files_monitor. apply (tracks_bind _ _ _ _ (fun _ o' _ => o_fd o' = None /\ o_begun o' = true)).
  { apply (wait_stays _ _ _ n); [done|lia|lia|]. intros o' k _ (Hf & Hb & _). by rewrite Hf, Hb. }
  intros _ o2 h2 [Hf2 Hb2]. eapply tracks_bind; [apply tracks_neutral; by intros|].
  cbn. intros st o3 h3 (-> & _). assert (ended EXIT_FAILURE (quietly o2)) as Hend by (split; [done|by right]).
  destruct st as [st|]; [|by apply tracks_ret]. destruct (negb _); [by apply tracks_ret|].
  apply (tracks_bind _ _ _ _ (fun fd o' _ => if 0 <=? fd then live fd o' else o_fd o' = None)).
  { apply tracks_ask. cbn. rewrite Hf2, Hb2. cbn. eexists. split; [reflexivity|]. by destruct (0 <=? _). }
  intros fd o4 h4 H4. destruct (fd <? 0) eqn:Hneg; zb.
  - rewrite (proj2 (Z.leb_gt 0 fd)) in H4 by lia. apply tracks_ret. split; [done|by right].
  - rewrite (proj2 (Z.leb_le 0 fd)) in H4 by lia. by apply (watch_ends _ n).
Qed.

(** C32: The assistant's protocol.  Whatever the system answers, as long as the kernel
    returns whole inotify events and the run is ended by some call failing for good,
    main returns; readiness is cleared before anything else and set only right after
    the driver accepted an image of valid size that starts with the command prefix;
    nothing else is ever written or published; the inotify descriptor is used only
    while it is open and is closed in the end; and success is returned only when the
    calibration was published. *)
Theorem assistant_main_spec n :
  system_ok -> settles n -> (n < fuel)%nat ->
  exists r h o, main env Trim fuel [] = Some (r, h) /\ obs_run obs0 h = Some o /\ o_fd o = None /\
    (r = EXIT_SUCCESS /\ o_ready o = true \/ r = EXIT_FAILURE).
Proof.
  intros Hsys Hset Hfuel. destruct (wp_result _ _ _ (main_ends n Hsys Hset Hfuel eq_refl)) as (r & h & Hr & o & Ho & He).
  exists r, h, o. split; [done|]. split; [done|exact He].
Qed.

(** C33: One update.  write_nvram asks for the size at most five times, a second apart,
    until it is a positive multiple of 256 of at most 65535 bytes after the two
    trailing ones; it gives up without touching the driver when the file is missing,
    not regular, of another size or changed while it was read; otherwise it writes
    the prefix and the calibration, with the six bytes of the custom MAC file in
    their place exactly when that file spells an address; it returns true exactly
    when the driver accepted that and readiness was published. *)
Theorem write_nvram_spec filename h :
  exists ok h' evs, write_nvram env Trim filename h = Some (ok, h') /\ h' = h ++ evs /\ attempt Trim filename evs ok.
Proof.
  destruct (wp_result _ _ _ (write_nvram_attempt env Trim filename h)) as (ok & h' & Hr & evs & He & Ha).
  by exists ok, h', evs.
Qed.

(** ** Following changes *)

(** Nothing pending and a long wait, or a change pending and a wait of a second. *)
Definition pending_ok (s : monitor) : Prop :=
  changed s = 0 /\ timeout_sec s = MAX_WAIT_SECOND \/ changed s = NVRAM_CHANGED /\ timeout_sec s = 1.

(** The events of [l] mention the calibration file: after events of other watches
    comes one of its watch, or the kernel lost events; the device is still there. *)
Definition irrelevant (dev wd : Z) (e : ievent) : Prop :=
  has (ie_mask e) IN_IGNORED = true \/
  has (ie_mask e) IN_Q_OVERFLOW = false /\ ie_wd e <> wd /\ (ie_wd e <> dev \/ has (ie_mask e) FILE_REMOVE_MASK = false).
Definition about_file (dev wd : Z) (e : ievent) : Prop :=
  has (ie_mask e) IN_IGNORED = false /\
  (has (ie_mask e) IN_Q_OVERFLOW = true \/
   ie_wd e = wd /\ (ie_wd e <> dev \/ has (ie_mask e) FILE_REMOVE_MASK = false)).
Definition mentions (dev wd : Z) (l : list ievent) : Prop :=
  exists l1 e l2, l = l1 ++ e :: l2 /\ Forall (irrelevant dev wd) l1 /\ about_file dev wd e.

(** What a round that goes on did. *)
Inductive round (fd dev : Z) (file just : list Z) (s : monitor) : list event -> monitor -> Prop :=
  | round_interrupted :
      round fd dev file just s [Ev (Select fd (timeout_sec s)) (- EINTR)] s
  | round_idle :
      changed s = 0 ->
      round fd dev file just s [Ev (Select fd (timeout_sec s)) 0] (mk_mon (nvram_wd s) true 0 MAX_WAIT_SECOND)
  | round_updated evs :
      changed s = NVRAM_CHANGED -> attempt Trim file evs true ->
      round fd dev file just s (Ev (Select fd (timeout_sec s)) 0 :: evs) (mk_mon (nvram_wd s) true 0 MAX_WAIT_SECOND)
  | round_read_interrupted k b :
      0 < k ->
      round fd dev file just s [Ev (Select fd (timeout_sec s)) k; Ev (ReadEvents fd INOT_BUF_SIZE) (- EINTR, b)] s
  | round_events k l evs s' :
      0 < k -> Forall event_ok l ->
      (changed s' = changed s \/ changed s' = NVRAM_CHANGED) ->
      (changed s = NVRAM_CHANGED -> changed s' = NVRAM_CHANGED) ->
      (mentions dev (nvram_wd s) l -> running s' = true -> changed s' = NVRAM_CHANGED) ->
      round fd dev file just s
        (Ev (Select fd (timeout_sec s)) k ::
         Ev (ReadEvents fd INOT_BUF_SIZE) (Z.of_nat (length (encode_events l)), encode_events l) :: evs) s'.

Lemma rewatch_total fd wd e path file h :
  wp (rewatch env fd wd e path file) (fun _ h' => exists evs, h' = h ++ evs) h.
Proof.
  unfold rewatch. cbv zeta. destruct (_ && _); [|destruct (has _ FILE_REMOVE_MASK)].
  - apply wp_bind, wp_ask, wp_ask. rewrite <- app_assoc. by eexists.
  - apply wp_bind, wp_ask, wp_bind, wp_ask. destruct (0 <=? _); apply wp_ask; rewrite <- !app_assoc; by eexists.
  - apply wp_ret. exists []. by rewrite app_nil_r.
Qed.

Lemma lor_changed c : c = 0 \/ c = NVRAM_CHANGED -> Z.lor c NVRAM_CHANGED = NVRAM_CHANGED.
Proof. by intros [->| ->]. Qed.

Lemma walk_effect fd dev just l : forall s h,
  changed s = 0 \/ changed s = NVRAM_CHANGED ->
  wp (walk_events env fd dev just l s) (fun s' h' => (exists evs, h' = h ++ evs) /\
    timeout_sec s' = timeout_sec s /\
    (changed s' = changed s \/ changed s' = NVRAM_CHANGED) /\
    (changed s = NVRAM_CHANGED -> changed s' = NVRAM_CHANGED) /\
    (mentions dev (nvram_wd s) l -> running s' = true -> changed s' = NVRAM_CHANGED)) h.
Proof.
  induction l as [|e l IH]; intros s h Hc; cbn [walk_events].
  { apply wp_ret. split; [exists []; by rewrite app_nil_r|]. split_and!; auto.
    intros (l1 & e & l2 & Hl & _). by destruct l1. }
  assert (forall wd h', (exists evs, h' = h ++ evs) ->
    wp (walk_events env fd dev just l (mark wd s)) (fun s' h' => (exists evs, h' = h ++ evs) /\
      timeout_sec s' = timeout_sec s /\ (changed s' = changed s \/ changed s' = NVRAM_CHANGED) /\
      (changed s = NVRAM_CHANGED -> changed s' = NVRAM_CHANGED) /\
      (mentions dev (nvram_wd s) (e :: l) -> running s' = true -> changed s' = NVRAM_CHANGED)) h') as Hmark.
  { intros wd h' [evs ->]. eapply wp_mono; [apply IH; right; by apply lor_changed|].
    intros s' h2 ([evs' ->] & Ht & _ & Hkeep & _). cbn in Ht, Hkeep. rewrite lor_changed in Hkeep by done.
    split; [exists (evs ++ evs'); by rewrite app_assoc|]. split_and!; auto. }
  assert (irrelevant dev (nvram_wd s) e ->
    wp (walk_events env fd dev just l s) (fun s' h' => (exists evs, h' = h ++ evs) /\
      timeout_sec s' = timeout_sec s /\ (changed s' = changed s \/ changed s' = NVRAM_CHANGED) /\
      (changed s = NVRAM_CHANGED -> changed s' = NVRAM_CHANGED) /\
      (mentions dev (nvram_wd s) (e :: l) -> running s' = true -> changed s' = NVRAM_CHANGED)) h) as Hskip.
  { intros Hirr. eapply wp_mono; [by apply IH|]. intros s' h' (He & Ht & Hc' & Hk & Hm). split_and!; try done.
    intros (l1 & e' & l2 & Hl & Hl1 & He'). apply Hm. destruct l1 as [|e1 l1].
    - injection Hl as -> ->. destruct Hirr as [Hi|(Ho & Hw & Hd)], He' as [Hi' He']; [congruence|].
      destruct He' as [?|[? _]]; congruence.
    - injection Hl as -> ->. inversion Hl1; subst. by exists l1, e', l2. }
  destruct (has (ie_mask e) IN_IGNORED) eqn:Hig; [apply Hskip; by left|].
  destruct (has (ie_mask e) IN_Q_OVERFLOW) eqn:Hov; [apply Hmark; exists []; by rewrite app_nil_r|].
  destruct ((ie_wd e =? dev) && has (ie_mask e) FILE_REMOVE_MASK) eqn:Hdev.
  { apply wp_ret. split; [exists []; by rewrite app_nil_r|]. split_and!; auto. by cbn. }
  assert (ie_wd e <> dev \/ has (ie_mask e) FILE_REMOVE_MASK = false) as Hnd.
  { apply andb_false_iff in Hdev as [?|?]; [left; by zb|by right]. }
  destruct (ie_wd e =? nvram_wd s) eqn:Hwd; zb; [|apply Hskip; by right].
  apply wp_bind. eapply wp_mono; [apply rewatch_total|]. intros wd h' [evs ->].
  destruct (wd <? 0); [|apply Hmark; by eexists].
  apply wp_ret. split; [by eexists|]. split_and!; auto. by cbn.
Qed.

(** No change is lost.  With nothing pending or a change pending and a wait of one
    second, every round of the monitor loop ends; it either ends the service or leaves
    such a state again, having waited exactly as long as the state says; when the wait
    timed out with a change pending, the calibration was written anew, completely; a
    batch of events is decoded as the kernel encoded it, a pending change stays
    pending, and when the batch mentions the calibration file (or events were lost) a
    change is pending afterwards unless the service ends. *)
Theorem monitor_round_spec fd dev file just s h :
  system_ok -> pending_ok s -> running s = true ->
  exists r h', monitor_round env Trim fd dev file just s h = Some (r, h') /\
    match r with
    | None => True
    | Some s' => pending_ok s' /\ exists evs, h' = h ++ evs /\ round fd dev file just s evs s'
    end.
Proof.
  intros Hsys Hp Hrun. apply wp_result. unfold monitor_round.
  assert (changed s = 0 \/ changed s = NVRAM_CHANGED) as Hc by (destruct Hp as [[? _]|[? _]]; auto).
  apply wp_bind, wp_ask. set (k := env _ h _). destruct (k =? - EINTR) eqn:Hk; zb.
  { apply wp_ret. split; [done|]. eexists. split; [reflexivity|]. rewrite Hk. constructor. }
  destruct (k <? 0) eqn:Hneg; zb; [by apply wp_ret|].
  destruct (k =? 0) eqn:Hz; zb.
  - rewrite Hrun. apply wp_bind. destruct Hc as [Hc|Hc]; rewrite Hc.
    + apply wp_ret, wp_ret. split; [by left|]. eexists. split; [reflexivity|]. rewrite Hz. by constructor.
    + change (has NVRAM_CHANGED NVRAM_CHANGED) with true. cbv iota.
      apply wp_bind. eapply wp_mono; [apply write_nvram_attempt|]. intros ok h' (evs & -> & Ha).
      apply wp_ret. destruct ok; cbn [negb]; [|by apply wp_ret].
      apply wp_ret. split; [by left|]. rewrite <- app_assoc. eexists. split; [reflexivity|]. rewrite Hz. by apply round_updated.
  - assert (0 < k) as Hpos by lia. apply wp_bind, wp_ask. destruct (env _ _ (ReadEvents _ _)) as [n b] eqn:Hread.
    destruct (n =? - EINTR) eqn:Hn; zb.
    { apply wp_ret. split; [done|]. rewrite <- app_assoc. eexists. split; [reflexivity|]. subst n. by apply round_read_interrupted. }
    destruct (n <=? 0) eqn:Hn0; zb; [by apply wp_ret|].
    destruct (Hsys _ _ _ _ _ Hread Hn0) as (l & Hok & -> & ->). apply wp_bind.
    unfold wp at 1. rewrite (event_loop_walk env fd dev just l _ [] s) by (done || lia).
    eapply wp_mono; [by apply walk_effect|]. intros s' h' ([evs ->] & Ht & Hc' & Hkeep & Hm). apply wp_ret.
    assert (changed s' = 0 \/ changed s' = NVRAM_CHANGED) as Hcs by (destruct Hc' as [->|?]; auto).
    split.
    + destruct Hcs as [Hcs|Hcs]; rewrite Hcs; cbn; [|by right].
      left. split; [done|]. rewrite Ht. destruct Hp as [[_ ?]|[Hp _]]; [done|]. by rewrite (Hkeep Hp) in Hcs.
    + rewrite <- !app_assoc. eexists. split; [reflexivity|]. apply round_events; try done; destruct (0 <? changed s'); cbn; auto.
Qed.
End Main.

(** ** A concrete system *)

Fixpoint skip_space (s : list Z) : list Z :=
  match s with
  | c :: rest => if (c =? 32) || ((9 <=? c) && (c <=? 13)) then skip_space rest else s
  | [] => []
  end.
Definition trim (s : list Z) : list Z := rev (skip_space (rev (skip_space s))).

(** A calibration file of 256 bytes, a custom address with a newline after it, and a
    modification until the 40th call. *)
Definition sample_events : list ievent := [mk_ievent 2 IN_MODIFY 0 []].

Definition sample_env : strategy := fun A h c =>
  match c in call A return A with
  | SetProperty _ _ => true
  | GetProperty _ _ => lit "normal"
  | Access _ _ => 0
  | Stat path => Some (if bool_decide (path = WIFI_LOADER_DEV) then mk_stat CharDevice 0 else mk_stat Regular 258)
  | ReadFile path =>
      if bool_decide (path = WIFI_MACADDR_FILE) then Some (lit "02:00:5e:10:aB:fF" ++ [10])
      else if bool_decide (path = WIFI_NVRAM_INI_FILE) then None else Some (replicate 258 7)
  | WriteFile _ _ => true
  | Sleep _ => ()
  | InotifyInit => 3
  | AddWatch _ path _ => if bool_decide (path = WIFI_LOADER_DEV) then 1 else 2
  | RmWatch _ _ => 0
  | CloseFd _ => ()
  | Select _ _ => if (40 <=? length h)%nat then - EIO else if (length h mod 3 =? 0)%nat then 0 else 1
  | ReadEvents _ _ => (Z.of_nat (length (encode_events sample_events)), encode_events sample_events)
  end.

Lemma sample_system_ok : system_ok sample_env.
Proof.
  intros h fd size n b [= <- <-] _. exists sample_events. split; [|done]. constructor; [|constructor].
  split_and!; try done.
Qed.

Lemma sample_settles : settles sample_env 40.
Proof. intros h Hh. split; [done|]. intros fd t. cbn [sample_env]. by rewrite (proj2 (Nat.leb_le 40 _) Hh). Qed.

Lemma assistant_main_spec_witness :
  exists r h o, main sample_env trim 50 [] = Some (r, h) /\ obs_run obs0 h = Some o /\ o_fd o = None /\ o_ready o = true.
Proof.
  destruct (assistant_main_spec sample_env trim 50 40 sample_system_ok sample_settles) as (r & h & o & Hr & Ho & Hf & _); [lia|].
  exists r, h, o. split; [exact Hr|]. split; [exact Ho|]. split; [exact Hf|].
  vm_compute in Hr. injection Hr as <- <-. vm_compute in Ho. injection Ho as <-. reflexivity.
Defined.

Lemma monitor_round_spec_witness :
  let s := mk_mon 2 true 0 MAX_WAIT_SECOND in let h := [Ev InotifyInit 3] in
  exists s' h', monitor_round sample_env trim 3 1 (lit "/f") (lit "f") s h = Some (Some s', h') /\
    pending_ok s' /\ changed s' = NVRAM_CHANGED.
Proof.
  cbv zeta. destruct (monitor_round_spec sample_env trim 3 1 (lit "/f") (lit "f")
    (mk_mon 2 true 0 MAX_WAIT_SECOND) [Ev InotifyInit 3] sample_system_ok) as (r & h' & Hr & Hm); [by left|done|].
  destruct r as [s'|].
  - exists s', h'. split; [exact Hr|]. split; [apply Hm|].
    vm_compute in Hr. injection Hr as <- <-. reflexivity.
  - vm_compute in Hr. discriminate.
Defined.

Example sample_image :
  image 256 (replicate 258 7) (Some [2; 0; 0x5e; 0x10; 0xab; 0xff]) =
  lit "WR-BUF:NVRAM" ++ [7; 7; 7; 7; 2; 0; 0x5e; 0x10; 0xab; 0xff] ++ replicate 246 7.
Proof. reflexivity. Qed.
