(* ===== verification/PowerShim.v ===== *)
(** * The power shim (power-shim/k50sv1_power_shim.c)

    The replacement of libpowerhal's scalar setter that adds the policy number to
    one path.  The dynamic linker, the library's setters and what other calls do
    to [errno] are parameters.  The theorem: a call makes exactly one call on the
    library, the one the path selects, with the caller's [errno] visible to it and
    its result and [errno] handed back; or the process ends before any. *)

From S2P Require Import Prelude CMem.

(** A setter's address. *)
Inductive setter := Shim | Library (address : Z).

#[global] Instance setter_eq_dec : EqDecision setter.
Proof. solve_decision. Defined.

(** Calls on the library, with the [errno] they find. *)
Inductive set_call :=
  | ScalarCall (f : setter) (path : option (list Z)) (value : Z) (errno : Z)
  | PairCall (f : setter) (path : list Z) (policy value : Z) (errno : Z).

(** The environment: linker answers (symbol, error), the answers of the library
    (result, [errno]), and the [errno] left by resolving and by logging. *)
Record powerhal := mk_powerhal {
  h_dlopen : bool;
  h_dlsym : string -> option setter * bool;
  h_call : list set_call -> set_call -> Z * Z;
  h_resolve_errno : Z -> Z;
  h_log_errno : Z -> Z;
}.

Record shim_state := mk_shim {
  sResolveOnce : bool;
  sRealScalar : option setter;
  sRealPair : option setter;
  errno : Z;
  made : list set_call;
}.

Definition shim0 : shim_state := mk_shim false None None 0 [].

(** [Fatal] is the end of the process. *)
Inductive outcome (A : Type) := Returns (a : A) | Fatal.
#[global] Arguments Returns {A} a.
#[global] Arguments Fatal {A}.

Definition set_errno (e : Z) (s : shim_state) : shim_state :=
  mk_shim (sResolveOnce s) (sRealScalar s) (sRealPair s) e (made s).

Definition scalar_symbol : string := "_Z9set_valuePKci".
Definition pair_symbol : string := "_Z9set_valuePKcii".
Definition policy_status : list Z := lit "/proc/ppm/policy_status".

Section Shim.
Context (p : powerhal).

Definition required_symbol (name : string) : outcome setter :=
  match h_dlsym p name with
  | (Some symbol, false) => Returns symbol
  | _ => Fatal
  end.

Definition resolve_setters : outcome (setter * setter) :=
  if negb (h_dlopen p) then Fatal else
  match required_symbol scalar_symbol with
  | Fatal => Fatal
  | Returns scalar =>
      match required_symbol pair_symbol with
      | Fatal => Fatal
      | Returns real_pair => if bool_decide (scalar = Shim) then Fatal else Returns (scalar, real_pair)
      end
  end.

(** [pthread_once], which runs the resolver on the first call. *)
Definition resolve_once (s : shim_state) : outcome shim_state :=
  if sResolveOnce s then Returns (set_errno (h_resolve_errno p (errno s)) s) else
  match resolve_setters with
  | Fatal => Fatal
  | Returns (scalar, real_pair) =>
      Returns (mk_shim true (Some scalar) (Some real_pair) (h_resolve_errno p (errno s)) (made s))
  end.

(** A call on the library. *)
Definition perform (c : set_call) (s : shim_state) : Z * shim_state :=
  let '(r, e) := h_call p (made s) c in
  (r, mk_shim (sResolveOnce s) (sRealScalar s) (sRealPair s) e (made s ++ [c])).

(** [None] is undefined: an unterminated path, or a call through a null pointer. *)
Definition k50sv1_power_set_value (path : option (list Z)) (value : Z) (s : shim_state)
    : option (outcome (Z * shim_state)) :=
  let incoming_errno := errno s in
  match resolve_once s with
  | Fatal => Some Fatal
  | Returns s =>
      let s := set_errno incoming_errno s in
      is_policy ← match path with Some b => strcmp_eq b (policy_status ++ [NUL]) | None => Some false end;
      match path, is_policy : bool with
      | Some b, true =>
          f ← sRealPair s;
          let '(result, s) := perform (PairCall f b 10 value (errno s)) s in
          let saved_errno := errno s in
          let s := set_errno (h_log_errno p (errno s)) s in
          let s := set_errno saved_errno s in
          Some (Returns (result, s))
      | _, _ =>
          f ← sRealScalar s;
          Some (Returns (perform (ScalarCall f path value (errno s)) s))
      end
  end.

(** ** Correctness *)

Definition shim_ok (s : shim_state) : Prop :=
  sResolveOnce s = true -> exists a f, sRealScalar s = Some (Library a) /\ sRealPair s = Some f.

(** The one call that a request stands for: the policy's number is put before the
    value exactly for the policy's path. *)
Definition forwards (s : shim_state) (path : option (list Z)) (value : Z) (c : set_call) : Prop :=
  match path with
  | Some b =>
      if decide (cstr b = Some policy_status)
      then exists f, sRealPair s = Some f /\ c = PairCall f b 10 value (errno s)
      else exists a, sRealScalar s = Some (Library a) /\ c = ScalarCall (Library a) path value (errno s)
  | None => exists a, sRealScalar s = Some (Library a) /\ c = ScalarCall (Library a) None value (errno s)
  end.

Lemma resolve_once_ok s :
  shim_ok s ->
  match resolve_once s with
  | Fatal => sResolveOnce s = false
  | Returns s' => sResolveOnce s' = true /\ shim_ok s' /\ made s' = made s /\
      (sResolveOnce s = true -> sRealScalar s' = sRealScalar s /\ sRealPair s' = sRealPair s)
  end.
Proof.
  intros Hs. unfold resolve_once. destruct (sResolveOnce s) eqn:Ho; [by split_and!|].
  unfold resolve_setters, required_symbol. destruct (h_dlopen p); cbn [negb]; [|done].
  destruct (h_dlsym p scalar_symbol) as [[scalar|] []]; try done.
  destruct (h_dlsym p pair_symbol) as [[real_pair|] []]; try done.
  case_bool_decide as Hsh; [done|]. split_and!; [done| |done|done]. intros _. destruct scalar as [|a]; [done|].
  by exists a, real_pair.
Qed.
End Shim.

(** The shim forwards every request exactly once and changes only the one path.
    In any state the calls before it can have left, a request either ends the
    process before the library is called, which only happens while the setters are
    not resolved, or makes one library call: for the policy path the pair setter
    with policy 10 and the unchanged value, for every other path (a null one
    included) the library's own scalar setter with unchanged arguments, never the
    shim itself.  The library sees the caller's errno, and its result and errno
    are what the caller gets; the setters are resolved once and kept. *)
Theorem power_set_value_spec p path value s :
  shim_ok s -> match path with Some b => is_Some (cstr b) | None => True end ->
  exists o, k50sv1_power_set_value p path value s = Some o /\
    match o with
    | Fatal => sResolveOnce s = false
    | Returns (result, s') => exists c, made s' = made s ++ [c] /\
        forwards (set_errno (errno s) s') path value c /\
        (result, errno s') = h_call p (made s) c /\ shim_ok s' /\ sResolveOnce s' = true /\
        (sResolveOnce s = true -> sRealScalar s' = sRealScalar s /\ sRealPair s' = sRealPair s)
    end.
Proof.
  intros Hs Hpath. unfold k50sv1_power_set_value. pose proof (resolve_once_ok p s Hs) as Hr.
  destruct (resolve_once p s) as [s1|]; [|by exists Fatal]. destruct Hr as (Ho & Hok & Hm & Hkeep).
  destruct (Hok Ho) as (a & f & Hsc & Hpr). destruct s1 as [o1 sc1 pr1 e1 m1]. cbn in Ho, Hsc, Hpr, Hm, Hkeep. subst.
  assert (forall e l, shim_ok (mk_shim true (Some (Library a)) (Some f) e l)) as Hok' by (intros e l _; by exists a, f).
  cbv zeta. unfold perform. cbn [set_errno sRealPair sRealScalar errno made sResolveOnce].
  destruct path as [b|].
  - destruct Hpath as [t Ht]. rewrite (strcmp_eq_spec _ _ t policy_status Ht) by reflexivity. cbn [mbind option_bind].
    case_bool_decide as Hpol; cbn [mbind option_bind];
      destruct (h_call p (made s) _) as [result e] eqn:Hcall; (eexists; split; [reflexivity|]); eexists;
      (split; [reflexivity|]); (split_and!; [|by symmetry|apply Hok'|done|exact Hkeep]); unfold forwards; cbn [set_errno errno sRealPair sRealScalar]; rewrite Ht.
    + rewrite decide_True by congruence. by exists f.
    + rewrite decide_False by congruence. by exists a.
  - cbn [mbind option_bind].
    destruct (h_call p (made s) _) as [result e] eqn:Hcall. eexists. split; [reflexivity|]. eexists.
    split; [reflexivity|]. split_and!; [|by symmetry|apply Hok'|done|exact Hkeep]. by exists a.
Qed.

Definition sample_powerhal : powerhal :=
  mk_powerhal true (fun name => (Some (Library (if decide (name = scalar_symbol) then 1 else 2)), false))
    (fun _ _ => (4, 5)) (fun _ => 99) (fun _ => 98).

Lemma power_set_value_spec_witness :
  exists result s', k50sv1_power_set_value sample_powerhal (Some (policy_status ++ [NUL])) 1 shim0 = Some (Returns (result, s')) /\
    made s' = [PairCall (Library 2) (policy_status ++ [NUL]) 10 1 0] /\ result = 4 /\ errno s' = 5.
Proof.
  destruct (power_set_value_spec sample_powerhal (Some (policy_status ++ [NUL])) 1 shim0) as (o & Ho & Hspec).
  - done.
  - by eexists.
  - destruct o as [[result s']|]; [|vm_compute in Ho; discriminate].
    exists result, s'. split; [exact Ho|]. clear Hspec. vm_compute in Ho. injection Ho as <- <-. by split_and!.
Defined.
