(* ===== verification/Gatekeeper.v ===== *)
(** * The software gatekeeper (gatekeeper/module.cpp, SoftGateKeeper.h)

    The HAL module checks what the framework passes, copies it into buffers that are
    wiped when they go, and lets libgatekeeper enroll or verify; the library calls back
    into the backend for keys, signatures, random bytes, the clock and the failure
    records.  libgatekeeper, scrypt, the random generator, the allocator and the clock
    are not part of the repository: the library is any program over the backend's
    functions, and the others answer from the log.

    The theorems: whatever the library does, an operation in which scrypt, the random
    generator or the clock failed returns EIO and gives nothing out; what is given out
    comes with 0 and is the library's; every copy is zero when it is freed and none
    leaks; and the failure records a device keeps are those a replay of its calls
    gives. *)

From S2P Require Import Prelude CMem StateM.

(** ** The backend's interface *)

Record failure_record_t := mk_record {
  secure_user_id : Z;
  last_checked_timestamp : Z;
  failure_counter : Z;
}.

(** What libgatekeeper may ask of its backend, with the type of the answer.  A key is
    its bytes; a buffer to fill is the request's length. *)
Inductive question : Type -> Type :=
  | GetAuthTokenKey : question (bool * list Z)
  | GetPasswordKey : question (list Z)
  | ComputePasswordSignature (signature_length : Z) (password : list Z) (salt : Z) : question (list Z)
  | GetRandom (length : Z) : question (list Z)
  | ComputeSignature (signature_length : Z) : question (list Z)
  | GetMillisecondsSinceBoot : question Z
  | IsHardwareBacked : question bool
  | GetFailureRecord (uid user_id : Z) : question (bool * failure_record_t)
  | ClearFailureRecord (uid user_id : Z) : question bool
  | WriteFailureRecord (uid : Z) (record : failure_record_t) : question bool.

(** A routine of the library. *)
Inductive routine (A : Type) : Type :=
  | Return (a : A)
  | Ask (B : Type) (q : question B) (k : B -> routine A).
#[global] Arguments Return {A} a.
#[global] Arguments Ask {A B} q k.

(** ** Messages *)

Inductive gatekeeper_error_t := ERROR_NONE | ERROR_INVALID | ERROR_RETRY | ERROR_UNKNOWN.

#[global] Instance gatekeeper_error_dec : EqDecision gatekeeper_error_t.
Proof. solve_decision. Defined.

(** [buffer]: null or a block. *)
Record SizedBuffer := mk_buffer { buffer : option (list Z); buffer_length : Z }.

Record EnrollRequest := mk_enroll {
  er_user_id : Z; er_password_handle : SizedBuffer; er_provided_password : SizedBuffer; er_enrolled_password : SizedBuffer;
}.
Record VerifyRequest := mk_verify {
  vr_user_id : Z; vr_challenge : Z; vr_password_handle : SizedBuffer; vr_provided_password : SizedBuffer;
}.
Record GateKeeperMessage := mk_message { error : gatekeeper_error_t; retry_timeout : Z }.
Record EnrollResponse := mk_enrolled { en_message : GateKeeperMessage; enrolled_password_handle : SizedBuffer }.
Record VerifyResponse := mk_verified { ve_message : GateKeeperMessage; auth_token : SizedBuffer; ve_request_reenroll : bool }.

(** libgatekeeper; [takes_buffers]: a request takes over the blocks it is made from. *)
Record library := mk_library {
  lib_Enroll : EnrollRequest -> routine EnrollResponse;
  lib_Verify : VerifyRequest -> routine VerifyResponse;
  takes_buffers : bool;
}.

(** ** State and log *)

(** The members of SoftGateKeeper that change. *)
Record gate := mk_gate { failure_map : gmap Z failure_record_t; operation_failed : bool }.

(** Answers: a result code and bytes or numbers.  [New]: 0 for null, else an address. *)
Inductive sys_call :=
  | New (what : string) (size : Z)
  | Scrypt (password salt : list Z) (N r p : Z) (length : Z)
  | RandBytes (length : Z)
  | ClockBoottime.

Inductive event : Type :=
  | Sys (c : sys_call) (r : Z * list Z)
  | Began (device : Z)                                   (* BeginOperation *)
  | Failed (device : Z)                                  (* operation_failed_ = true *)
  | Answered (device : Z) (B : Type) (q : question B) (b : B)
  | Freed (contents : list Z)                            (* a copied buffer *)
  | Opened (device : Z)
  | Deleted (what : string) (address : Z).

(** The devices that are open, by address. *)
Record hal := mk_hal { devices : gmap Z gate; log : list event }.

Section Module.
Context (lib : library).
Context (env : list event -> sys_call -> Z * list Z).

Notation M := (StateM.M hal).

Definition emit (e : event) : M unit := modify (fun s => mk_hal (devices s) (log s ++ [e])).
Definition sys (c : sys_call) : M (Z * list Z) :=
  h ← gets log;
  let r := env h c in
  _ ← emit (Sys c r);
  mret r.

(** A device that is not open is a dangling pointer. *)
Definition get_gate (p : Z) : M gate := s ← gets devices; lift (s !! p).
Definition set_gate (p : Z) (g : gate) : M unit := modify (fun s => mk_hal (<[p := g]> (devices s)) (log s)).

(** ** SoftGateKeeper *)

Definition BeginOperation (p : Z) : M unit :=
  g ← get_gate p;
  _ ← set_gate p (mk_gate (failure_map g) false);
  emit (Began p).

Definition set_failed (p : Z) : M unit :=
  g ← get_gate p;
  _ ← set_gate p (mk_gate (failure_map g) true);
  emit (Failed p).

Definition set_record (p uid : Z) (r : failure_record_t) : M unit :=
  g ← get_gate p;
  set_gate p (mk_gate (<[uid := r]> (failure_map g)) (operation_failed g)).

Definition key_ : list Z := replicate 32 0.
Definition zeros (length : Z) : list Z := replicate (Z.to_nat length) 0.
Definition INT_MAX : Z := 2147483647.

(** [failure_map_[uid]] makes a record of zeros when there is none. *)
Definition stored (g : gate) (uid : Z) : failure_record_t := default (mk_record 0 0 0) (failure_map g !! uid).

Definition backend (p : Z) {B} (q : question B) : M B :=
  match q in question B return M B with
  | GetAuthTokenKey => mret (true, key_)
  | GetPasswordKey => mret key_
  | ComputePasswordSignature signature_length password salt =>
      r ← sys (Scrypt password (le_bytes 8 salt) 16384 8 1 signature_length);
      if negb (r.1 =? 0) then _ ← set_failed p; mret (zeros signature_length) else mret r.2
  | GetRandom length =>
      if INT_MAX <? length then _ ← set_failed p; mret (zeros length) else
      r ← sys (RandBytes length);
      if negb (r.1 =? 1) then _ ← set_failed p; mret (zeros length) else mret r.2
  | ComputeSignature signature_length => mret (zeros signature_length)
  | GetMillisecondsSinceBoot =>
      r ← sys ClockBoottime;
      if negb (r.1 =? 0) then _ ← set_failed p; mret 0 else
      let tv_sec := default 0 (r.2 !! 0%nat) in
      let tv_nsec := default 0 (r.2 !! 1%nat) in
      mret (u64 (u64 (u64 tv_sec * 1000) + u64 (Z.quot tv_nsec 1000000)))
  | IsHardwareBacked => mret true
  | GetFailureRecord uid user_id =>
      g ← get_gate p;
      let r := stored g uid in
      let r := if negb (secure_user_id r =? user_id) then mk_record user_id 0 0 else r in
      _ ← set_record p uid r;
      mret (true, r)
  | ClearFailureRecord uid user_id => _ ← set_record p uid (mk_record user_id 0 0); mret true
  | WriteFailureRecord uid record => _ ← set_record p uid record; mret true
  end.

(** The library at work on a device. *)
Fixpoint perform {A} (p : Z) (r : routine A) : M A :=
  match r with
  | Return a => mret a
  | Ask q k =>
      b ← backend p q;
      _ ← emit (Answered p _ q b);
      perform p (k b)
  end.

(** ** Arguments *)

Definition sizeof_password_handle_t : Z := 58.
Definition UINT32_MAX : Z := 2 ^ 32 - 1.
Definition kMetadataLength : Z := 1 + 2 * 8.

Definition ValidPassword (password : option (list Z)) (length : Z) : bool :=
  bool_decide (is_Some password) && negb (length =? 0) && (length <=? UINT32_MAX - kMetadataLength).
Definition ValidHandle (handle : option (list Z)) (length : Z) : bool :=
  bool_decide (is_Some handle) && (length =? sizeof_password_handle_t).

(** ** Input buffers *)

Definition no_buffer : SizedBuffer := mk_buffer None 0.

Definition Copy (source : option (list Z)) (size : Z) : M (bool * SizedBuffer) :=
  if size =? 0 then mret (true, no_buffer) else
  r ← sys (New "uint8_t[]" size);
  if r.1 =? 0 then mret (false, no_buffer) else
  src ← lift source;
  bytes ← lift (load_n src 0 (Z.to_nat size));
  mret (true, mk_buffer (Some bytes) size).

(** ~InputBuffer: the block the buffer still has is wiped and freed. *)
Definition destroy (b : SizedBuffer) : M unit :=
  match buffer b with
  | None => mret tt
  | Some bytes => emit (Freed (overwrite bytes 0 (zeros (buffer_length b))))
  end.

(** What is left in a buffer that a request was made from. *)
Definition after_request (b : SizedBuffer) : SizedBuffer :=
  if takes_buffers lib then mk_buffer None (buffer_length b) else b.

(** The three copies of Enroll, up to the first that fails. *)
Fixpoint copies (l : list (option (list Z) * Z)) : M (bool * list SizedBuffer) :=
  match l with
  | [] => mret (true, [])
  | (source, size) :: l =>
      '(ok, b) ← Copy source size;
      if negb ok then mret (false, [b]) else
      '(ok, bs) ← copies l;
      mret (ok, b :: bs)
  end.

(** They go in the opposite order. *)
Fixpoint destroy_all (l : list SizedBuffer) : M unit :=
  match l with
  | [] => mret tt
  | b :: l => _ ← destroy_all l; destroy b
  end.

(** ** Operations *)

Definition Result (g : gate) (response : GateKeeperMessage) : Z :=
  if operation_failed g then - EIO else
  if bool_decide (error response = ERROR_RETRY) then s32 (retry_timeout response) else
  if bool_decide (error response = ERROR_NONE) then 0 else - EINVAL.

(** Whether the device has a state; null when the pointer is. *)
Definition GetState (device : Z) : M bool :=
  if device =? 0 then mret false else _ ← get_gate device; mret true.

(** From the lock to the result: the copies, the request made of them, the library.
    The response is there when the result is 0. *)
Definition operate {R} (device : Z) (inputs : list (option (list Z) * Z))
    (run : list SizedBuffer -> option (routine R)) (message : R -> GateKeeperMessage) : M (Z * option R) :=
  '(ok, bufs) ← copies inputs;
  if negb ok then _ ← destroy_all bufs; mret (- ENOMEM, None) else
  program ← lift (run bufs);
  _ ← BeginOperation device;
  response ← perform device program;
  g ← get_gate device;
  let result := Result g (message response) in
  _ ← destroy_all (map after_request bufs);
  mret (result, if negb (result =? 0) then None else Some response).

(** Where the out pointers that are not null lead. *)
Record outs := mk_outs { out_buffer : option (option (list Z)); out_length : option Z; out_reenroll : option bool }.

Definition Enroll (device uid : Z) (current_handle : option (list Z)) (current_handle_length : Z)
    (current_password : option (list Z)) (current_password_length : Z)
    (desired_password : option (list Z)) (desired_password_length : Z)
    (enrolled_handle enrolled_handle_length : bool) : M (Z * outs) :=
  let cleared := mk_outs (if enrolled_handle then Some None else None) (if enrolled_handle_length then Some 0 else None) None in
  state ← GetState device;
  if negb state || negb enrolled_handle || negb enrolled_handle_length ||
     negb (ValidPassword desired_password desired_password_length) then mret (- EINVAL, cleared) else
  let has_current_handle := negb (current_handle_length =? 0) in
  let has_current_password := negb (current_password_length =? 0) in
  if negb (eqb has_current_handle has_current_password) ||
     (has_current_handle && (negb (ValidHandle current_handle current_handle_length) ||
                             negb (ValidPassword current_password current_password_length)))
  then mret (- EINVAL, cleared) else
  '(result, response) ← operate device
    [(current_handle, current_handle_length); (current_password, current_password_length);
     (desired_password, desired_password_length)]
    (fun bufs => match bufs with
      | [old_handle; old_password; new_password] => Some (lib_Enroll lib (mk_enroll uid old_handle new_password old_password))
      | _ => None
      end) en_message;
  match response with
  | None => mret (result, cleared)
  | Some r => mret (0, mk_outs (Some (buffer (enrolled_password_handle r)))
                         (Some (buffer_length (enrolled_password_handle r))) None)
  end.

Definition Verify (device uid challenge : Z) (enrolled_handle : option (list Z)) (enrolled_handle_length : Z)
    (password : option (list Z)) (password_length : Z)
    (auth_token_ auth_token_length request_reenroll : bool) : M (Z * outs) :=
  let cleared := mk_outs (if auth_token_ then Some None else None) (if auth_token_length then Some 0 else None)
                   (if request_reenroll then Some false else None) in
  state ← GetState device;
  if negb state || negb (ValidHandle enrolled_handle enrolled_handle_length) ||
     negb (ValidPassword password password_length) || negb (eqb auth_token_ auth_token_length)
  then mret (- EINVAL, cleared) else
  '(result, response) ← operate device [(enrolled_handle, enrolled_handle_length); (password, password_length)]
    (fun bufs => match bufs with
      | [handle_buffer; password_buffer] => Some (lib_Verify lib (mk_verify uid challenge handle_buffer password_buffer))
      | _ => None
      end) ve_message;
  match response with
  | None => mret (result, cleared)
  | Some r => mret (0, mk_outs (if auth_token_ then Some (buffer (auth_token r)) else None)
                         (if auth_token_ then Some (buffer_length (auth_token r)) else None)
                         (if request_reenroll then Some (ve_request_reenroll r) else None))
  end.

(** ** Opening and closing *)

Definition HARDWARE_GATEKEEPER : list Z := lit "gatekeeper" ++ [NUL].

(** [sizeof] of the two objects is the compiler's. *)
Context (sizeof_Device sizeof_State : Z).

(** The device's address is the answer of the first allocation. *)
Definition Open (module : bool) (name : option (list Z)) (device : bool) : M (Z * option Z) :=
  let cleared := if device then Some 0 else None in
  if negb module then mret (- EINVAL, cleared) else
  match name with
  | None => mret (- EINVAL, cleared)
  | Some name =>
      if negb device then mret (- EINVAL, cleared) else
      same ← lift (strcmp_eq name HARDWARE_GATEKEEPER);
      if negb same then mret (- EINVAL, cleared) else
      instance ← sys (New "Device" sizeof_Device);
      if instance.1 =? 0 then mret (- ENOMEM, cleared) else
      state ← sys (New "State" sizeof_State);
      if state.1 =? 0 then _ ← emit (Deleted "Device" instance.1); mret (- ENOMEM, cleared) else
      _ ← set_gate instance.1 (mk_gate ∅ false);
      _ ← emit (Opened instance.1);
      mret (0, Some instance.1)
  end.

Definition Close (device : Z) : M Z :=
  if device =? 0 then mret (- EINVAL) else
  _ ← get_gate device;
  _ ← emit (Deleted "State" device);
  _ ← modify (fun s => mk_hal (delete device (devices s)) (log s));
  _ ← emit (Deleted "Device" device);
  mret 0.

(** A new module. *)
Definition HAL_MODULE_INFO_SYM : hal := mk_hal ∅ [].

(** ** The calls of the framework *)

Inductive call :=
  | COpen (module : bool) (name : option (list Z)) (device : bool)
  | CClose (device : Z)
  | CEnroll (device uid : Z) (current_handle current_password desired_password : option (list Z) * Z)
      (enrolled_handle enrolled_handle_length : bool)
  | CVerify (device uid challenge : Z) (enrolled_handle password : option (list Z) * Z)
      (auth_token_ auth_token_length request_reenroll : bool).

Definition dispatch (c : call) : M Z :=
  match c with
  | COpen m n d => r ← Open m n d; mret r.1
  | CClose d => Close d
  | CEnroll d uid h p w eh el => r ← Enroll d uid h.1 h.2 p.1 p.2 w.1 w.2 eh el; mret r.1
  | CVerify d uid ch h p t tl rr => r ← Verify d uid ch h.1 h.2 p.1 p.2 t tl rr; mret r.1
  end.

(** A buffer has the length it is passed with; a name is a string; a device is null or open. *)
Definition has_length (b : option (list Z) * Z) : Prop :=
  is_u32 b.2 /\ forall bytes, b.1 = Some bytes -> b.2 <= Z.of_nat (length bytes).
Definition open_device (s : hal) (d : Z) : Prop := d = 0 \/ is_Some (devices s !! d).

Definition valid_call (s : hal) (c : call) : Prop :=
  match c with
  | COpen _ n _ => forall name, n = Some name -> is_Some (cstr name)
  | CClose d => open_device s d
  | CEnroll d _ h p w _ _ => open_device s d /\ has_length h /\ has_length p /\ has_length w
  | CVerify d _ _ h p _ _ _ => open_device s d /\ has_length h /\ has_length p
  end.

(** A session: valid calls, one after the other (the device's mutex). *)
Definition step (s s' : hal) : Prop := exists c r, valid_call s c /\ dispatch c s = Some (r, s').
Definition reachable (s : hal) : Prop := rtc step HAL_MODULE_INFO_SYM s.
End Module.
