(* ===== verification/GatekeeperSpec.v ===== *)
(** * What the software gatekeeper promises

    Theorems over every library, system and sequence of calls.  [bad] reads off the log
    that scrypt, the random generator or the clock failed; [records] replays the
    failure records. *)

From S2P Require Import Prelude CMem StateM Gatekeeper.

(** ** Reading the log *)

(** A failure during an operation; a request for more random bytes than the
    generator's int length can say is one. *)
Definition bad (e : event) : bool :=
  match e with
  | Sys (Scrypt _ _ _ _ _ _) r => negb (r.1 =? 0)
  | Sys (RandBytes _) r => negb (r.1 =? 1)
  | Sys ClockBoottime r => negb (r.1 =? 0)
  | Answered _ _ q _ => match q with GetRandom n => INT_MAX <? n | _ => false end
  | _ => false
  end.

(** What a call of the backend leaves of the records, and what it may answer. *)
Definition record_step {B} (q : question B) (b : B) (m : gmap Z failure_record_t) : gmap Z failure_record_t :=
  match q in question B return B -> gmap Z failure_record_t with
  | GetFailureRecord uid _ => fun b => <[uid := b.2]> m
  | ClearFailureRecord uid user_id => fun _ => <[uid := mk_record user_id 0 0]> m
  | WriteFailureRecord uid r => fun _ => <[uid := r]> m
  | _ => fun _ => m
  end b.

(** The last record of [uid] when it is [user_id]'s, a new one when it is not. *)
Definition answer_ok {B} (q : question B) (b : B) (m : gmap Z failure_record_t) : Prop :=
  match q in question B return B -> Prop with
  | GetFailureRecord uid user_id => fun b =>
      let last := default (mk_record 0 0 0) (m !! uid) in
      b = (true, if secure_user_id last =? user_id then last else mk_record user_id 0 0)
  | _ => fun _ => True
  end b.

Definition record_event (p : Z) (m : gmap Z failure_record_t) (e : event) : gmap Z failure_record_t :=
  match e with
  | Answered d _ q b => if d =? p then record_step q b m else m
  | Opened d => if d =? p then ∅ else m
  | _ => m
  end.

(** The records of the device [p] after the log [h]. *)
Definition records (p : Z) (h : list event) : gmap Z failure_record_t := fold_left (record_event p) h ∅.

(** Every answer in [h] is right. *)
Definition answers_ok (h : list event) : Prop :=
  forall h1 d B (q : question B) b h2, h = h1 ++ Answered d B q b :: h2 -> answer_ok q b (records d h1).

Definition is_zero (l : list Z) : bool := forallb (fun x => x =? 0) l.
Definition wiped (e : event) : bool := match e with Freed l => is_zero l | _ => true end.

(** Blocks allocated for copies, and freed. *)
Definition copied (e : event) : bool := match e with Sys (New what _) r => (String.eqb what "uint8_t[]") && negb (r.1 =? 0) | _ => false end.
Definition freed (e : event) : bool := match e with Freed _ => true | _ => false end.

(** An allocation for a copy failed. *)
Definition starved (e : event) : bool := match e with Sys (New what _) r => (String.eqb what "uint8_t[]") && (r.1 =? 0) | _ => false end.

(** The devices that are open after the log [h]. *)
Definition live (h : list event) : gset Z :=
  fold_left (fun l e => match e with
    | Opened d => {[d]} ∪ l
    | Deleted what d => if String.eqb what "Device" then l ∖ {[d]} else l
    | _ => l
    end) h ∅.

(** The objects of Open: made, and deleted. *)
Definition made (e : event) : bool :=
  match e with Sys (New what _) r => (String.eqb what "Device" || String.eqb what "State") && negb (r.1 =? 0) | _ => false end.
Definition deleted (e : event) : bool := match e with Deleted _ _ => true | _ => false end.

Definition inert (e : event) : bool := match e with Opened _ | Deleted _ _ => false | e => negb (made e) end.

Lemma inert_keeps h0 h : forallb inert h = true ->
  live (h0 ++ h) = live h0 /\ countb made h = 0%nat /\ countb deleted h = 0%nat.
Proof.
  revert h0. induction h as [|e h IH]; intros h0; [by rewrite app_nil_r|]. cbn [forallb]. rewrite andb_true_iff. intros [He Hh].
  destruct (IH (h0 ++ [e]) Hh) as (Hl & Hm & Hd). rewrite cons_middle, app_assoc, Hl, !countb_cons, Hm, Hd.
  unfold live at 1. rewrite fold_left_app. fold (live h0). unfold inert in He. destruct e; try done; cbn [fold_left deleted];
    apply negb_true_iff in He; by rewrite He.
Qed.

(** ** Events the library's work consists of *)

Definition unanswered (e : event) : bool := match e with Answered _ _ _ _ | Opened _ => false | _ => true end.

Definition calm (p : Z) (e : event) : Prop :=
  match e with
  | Sys (New _ _) _ => False
  | Sys _ _ => True
  | Failed d => d = p
  | Answered d _ _ _ => d = p
  | _ => False
  end.

Lemma calm_quiet p h : Forall (calm p) h ->
  forallb wiped h = true /\ forallb inert h = true /\ countb copied h = 0%nat /\ countb freed h = 0%nat /\
  forall d m, d <> p -> fold_left (record_event d) h m = m.
Proof.
  intros Hc. induction Hc as [|e h He Hc (IH1 & IH0 & IH2 & IH3 & IH4)]; [done|]. rewrite !countb_cons, IH2, IH3. cbn [forallb fold_left].
  destruct e as [[] ?| | | | | |]; cbn in He; try done; subst; cbn; rewrite ?IH1, ?IH0; (split_and!; [done..|]); intros d m Hd; try by apply IH4.
  rewrite (proj2 (Z.eqb_neq p d)) by done. by apply IH4.
Qed.

Lemma records_snoc p h e : records p (h ++ [e]) = record_event p (records p h) e.
Proof. unfold records. by rewrite fold_left_app. Qed.

Lemma records_app p h h' : records p (h ++ h') = fold_left (record_event p) h' (records p h).
Proof. unfold records. by rewrite fold_left_app. Qed.

Lemma answers_ok_snoc h e :
  answers_ok h -> match e with Answered d _ q b => answer_ok q b (records d h) | _ => True end -> answers_ok (h ++ [e]).
Proof.
  intros Hh He h1 d B q b h2 Heq. destruct h2 as [|x h2 _] using rev_ind.
  - apply app_inj_tail in Heq as [-> ->]. done.
  - rewrite app_comm_cons, app_assoc in Heq. apply app_inj_tail in Heq as [-> _]. by eapply Hh.
Qed.

Lemma unanswered_keeps p h h' :
  Forall (fun e => unanswered e = true) h' -> records p (h ++ h') = records p h /\ (answers_ok h -> answers_ok (h ++ h')).
Proof.
  intros Hu. revert h. induction Hu as [|e h' He Hu IH]; intros h; [by rewrite app_nil_r|].
  rewrite cons_middle, app_assoc. destruct (IH (h ++ [e])) as [IH1 IH2]. rewrite IH1, records_snoc. split.
  - by destruct e.
  - intros Hh. apply IH2, answers_ok_snoc; [done|by destruct e].
Qed.

Section Promises.
Context (lib : library).
Context (env : list event -> sys_call -> Z * list Z).

(** ** The library's work *)

(** A device's state and the log it goes with. *)
Definition in_step (p : Z) (g : gate) (h : list event) : Prop := failure_map g = records p h /\ answers_ok h.

Definition logged (e : event) (s : hal) : hal := mk_hal (devices s) (log s ++ [e]).
Definition with_gate (p : Z) (g : gate) (s : hal) : hal := mk_hal (<[p := g]> (devices s)) (log s).

Lemma ok_sys c s Q : Q (env (log s) c) (logged (Sys c (env (log s) c)) s) -> ok s (sys env c) Q.
Proof. done. Qed.

Lemma ok_get_gate p s g Q : devices s !! p = Some g -> Q g s -> ok s (get_gate p) Q.
Proof. intros Hg HQ. apply ok_bind, ok_gets. by eapply ok_lift. Qed.

Lemma ok_set_failed p s g Q :
  devices s !! p = Some g -> Q tt (logged (Failed p) (with_gate p (mk_gate (failure_map g) true) s)) -> ok s (set_failed p) Q.
Proof. intros Hg HQ. apply ok_bind. eapply ok_get_gate; [done|]. by apply ok_bind, ok_modify. Qed.

Lemma ok_set_record p uid r s g Q :
  devices s !! p = Some g -> Q tt (with_gate p (mk_gate (<[uid := r]> (failure_map g)) (operation_failed g)) s) ->
  ok s (set_record p uid r) Q.
Proof. intros Hg HQ. apply ok_bind. by eapply ok_get_gate. Qed.

(** One question: the log grows by calm events, the flag by the failures among them. *)
Definition worked (p : Z) (g : gate) (s : hal) (h : list event) (g' : gate) (s' : hal) : Prop :=
  log s' = log s ++ h /\ devices s' = <[p := g']> (devices s) /\ Forall (calm p) h.

(** Nothing happened; a call that may fail was made. *)
Lemma worked_nil p g s : devices s !! p = Some g -> worked p g s [] g s.
Proof. intros Hg. unfold worked. rewrite app_nil_r, insert_id by done. by repeat constructor. Qed.

Lemma worked_set p g g' s : worked p g s [] g' (with_gate p g' s).
Proof. unfold worked. rewrite app_nil_r. by repeat constructor. Qed.

(** [c] is asked and its answer is a failure or not. *)
Lemma sys_worked {B} p c (failed : Z * list Z -> bool) (bad_ good_ : Z * list Z -> B) s g Q :
  devices s !! p = Some g -> (forall r, calm p (Sys c r)) -> (forall r, bad (Sys c r) = failed r) ->
  (forall h b g', worked p g s h g' (mk_hal (<[p := g']> (devices s)) (log s ++ h)) -> Forall (fun e => unanswered e = true) h ->
     failure_map g' = failure_map g -> operation_failed g' = operation_failed g || existsb bad h ->
     Q b (mk_hal (<[p := g']> (devices s)) (log s ++ h))) ->
  ok s (r ← sys env c; if failed r then _ ← set_failed p; mret (bad_ r) else mret (good_ r)) Q.
Proof.
  intros Hg Hc Hb HQ. apply ok_bind, ok_sys. set (r := env (log s) c). destruct (failed r) eqn:Hf.
  - apply ok_bind. eapply ok_set_failed; [exact Hg|]. apply ok_ret. unfold logged, with_gate. cbn [devices log]. rewrite <- app_assoc.
    apply HQ; [split_and!; try done; by repeat constructor; try apply Hc|by repeat constructor|done|].
    cbn [existsb app operation_failed]. rewrite Hb, Hf. by rewrite orb_true_r.
  - apply ok_ret. pose proof (HQ [Sys c r] (good_ r) g) as Hq. rewrite insert_id in Hq by done. apply Hq.
    + split_and!; [done|by rewrite insert_id|by repeat constructor; apply Hc].
    + by repeat constructor.
    + done.
    + cbn [existsb]. by rewrite Hb, Hf, !orb_false_r.
Qed.

Lemma backend_spec p B (q : question B) s g :
  devices s !! p = Some g ->
  ok s (backend env p q) (fun b s' => exists h g', worked p g s h g' s' /\ Forall (fun e => unanswered e = true) h /\
    operation_failed g' = operation_failed g || existsb bad (h ++ [Answered p B q b]) /\
    failure_map g' = record_step q b (failure_map g) /\ answer_ok q b (failure_map g)).
Proof.
  intros Hg.
  assert (forall (x : B), bad (Answered p B q x) = false -> record_step q x (failure_map g) = failure_map g -> answer_ok q x (failure_map g) ->
    ok s (mret x) (fun b s' => exists h g', worked p g s h g' s' /\ Forall (fun e => unanswered e = true) h /\
      operation_failed g' = operation_failed g || existsb bad (h ++ [Answered p B q b]) /\
      failure_map g' = record_step q b (failure_map g) /\ answer_ok q b (failure_map g))) as Hpure.
  { intros x Hb Hr Ha. apply ok_ret. exists [], g. cbn [app existsb]. rewrite Hb, Hr, !orb_false_r. split; [by apply worked_nil|done]. }
  destruct q as [| |n pw salt|n|n| | |uid sid|uid sid|uid r]; cbn [backend].
  - by apply Hpure.
  - by apply Hpure.
  - apply (sys_worked p _ (fun r => negb (r.1 =? 0)) (fun _ => zeros n) snd s g); [done..|].
    intros h b g' Hw Hu Hm Hf. exists h, g'. split_and!; try done. rewrite existsb_app. cbn. by rewrite !orb_false_r.
  - destruct (INT_MAX <? n) eqn:Hn.
    + apply ok_bind. eapply ok_set_failed; [exact Hg|]. apply ok_ret. exists [Failed p], (mk_gate (failure_map g) true).
      split; [split; [done|]; split; [done|by repeat constructor]|]. split; [by repeat constructor|]. split; [|done].
      cbn. by rewrite Hn, orb_true_r.
    + apply (sys_worked p _ (fun r => negb (r.1 =? 1)) (fun _ => zeros n) snd s g); [done..|].
      intros h b g' Hw Hu Hm Hf. exists h, g'. split_and!; try done. rewrite existsb_app. cbn. by rewrite Hn, !orb_false_r.
  - by apply Hpure.
  - apply (sys_worked p _ (fun r => negb (r.1 =? 0)) (fun _ => 0) _ s g); [done..|].
    intros h b g' Hw Hu Hm Hf. exists h, g'. split_and!; try done. rewrite existsb_app. cbn. by rewrite !orb_false_r.
  - by apply Hpure.
  - apply ok_bind. eapply ok_get_gate; [done|]. apply ok_bind. eapply ok_set_record; [done|]. apply ok_ret. eexists [], _. split; [by apply worked_set|].
    split; [done|]. split; [cbn; by rewrite orb_false_r|]. split; [done|]. cbn. unfold stored. by destruct (_ =? sid).
  - apply ok_bind. eapply ok_set_record; [done|]. apply ok_ret. eexists [], _. split; [by apply worked_set|].
    split; [done|]. split; [cbn; by rewrite orb_false_r|done].
  - apply ok_bind. eapply ok_set_record; [done|]. apply ok_ret. eexists [], _. split; [by apply worked_set|].
    split; [done|]. split; [cbn; by rewrite orb_false_r|done].
Qed.

Lemma answered_in_step p B (q : question B) b g g' h h' :
  in_step p g h -> Forall (fun e => unanswered e = true) h' -> failure_map g' = record_step q b (failure_map g) ->
  answer_ok q b (failure_map g) -> in_step p g' (h ++ h' ++ [Answered p B q b]).
Proof.
  intros [Hm Ha] Hu Hm' Hq. destruct (unanswered_keeps p h h' Hu) as [Hr Hk]. rewrite app_assoc. split.
  - rewrite records_snoc, Hr. cbn. by rewrite Z.eqb_refl, <- Hm.
  - apply answers_ok_snoc; [by apply Hk|]. by rewrite Hr, <- Hm.
Qed.

(** The library at work. *)
Lemma perform_spec {A} p (r : routine A) : forall s g, devices s !! p = Some g -> in_step p g (log s) ->
  ok s (perform env p r) (fun a s' => exists h g', worked p g s h g' s' /\ in_step p g' (log s') /\
    operation_failed g' = operation_failed g || existsb bad h).
Proof.
  induction r as [a|B q k IH]; intros s g Hg Hs; cbn [perform].
  { apply ok_ret. exists [], g. split; [by apply worked_nil|]. split; [done|]. by rewrite orb_false_r. }
  apply ok_bind. eapply ok_mono; [by apply backend_spec|]. cbv beta.
  intros b s1 (h1 & g1 & (Hl1 & Hd1 & Hc1) & Hu1 & Hf1 & Hm1 & Ha1). apply ok_bind, ok_modify.
  set (s2 := mk_hal _ _). assert (devices s2 !! p = Some g1) as Hg2 by (cbn; rewrite Hd1; apply lookup_insert_eq).
  assert (log s2 = log s ++ h1 ++ [Answered p B q b]) as Hl2 by (cbn; by rewrite Hl1, <- app_assoc).
  assert (in_step p g1 (log s2)) as Hs2 by (rewrite Hl2; by eapply answered_in_step).
  eapply ok_mono; [by apply (IH b s2 g1)|]. cbv beta. intros a s3 (h3 & g3 & (Hl3 & Hd3 & Hc3) & Hs3 & Hf3).
  exists ((h1 ++ [Answered p B q b]) ++ h3), g3. split; [|split; [done|]].
  - split; [by rewrite Hl3, Hl2, !app_assoc|]. split; [rewrite Hd3; cbn; by rewrite Hd1, insert_insert_eq|].
    repeat apply Forall_app_2; [done|by repeat constructor|done].
  - by rewrite Hf3, Hf1, <- orb_assoc, <- existsb_app.
Qed.

(** ** Copies *)

(** What a copy of [b] looks like. *)
Definition copy_of (b : option (list Z) * Z) : SizedBuffer :=
  if b.2 =? 0 then no_buffer else mk_buffer (take (Z.to_nat b.2) <$> b.1) b.2.

(** A buffer as Copy leaves it. *)
Definition buffer_ok (b : SizedBuffer) : Prop :=
  match buffer b with None => True | Some bytes => buffer_length b = Z.of_nat (length bytes) end.
Definition blocks (l : list SizedBuffer) : nat := countb (fun b => bool_decide (is_Some (buffer b))) l.

(** Events of copying and freeing: [n] blocks were allocated and [k] freed, all zero. *)
Definition handled (n k : nat) (h : list event) : Prop :=
  Forall (fun e => match e with Sys (New what _) _ => what = "uint8_t[]" | Freed l => is_zero l = true | _ => False end) h /\
  countb copied h = n /\ countb freed h = k.

Lemma handled_app n k h n' k' h' : handled n k h -> handled n' k' h' -> handled (n + n') (k + k') (h ++ h').
Proof. intros (? & <- & <-) (? & <- & <-). unfold handled. rewrite !countb_app. split; [by apply Forall_app_2|done]. Qed.

Lemma handled_quiet n k h : handled n k h ->
  Forall (fun e => unanswered e = true) h /\ existsb bad h = false /\ forallb wiped h = true /\ forallb inert h = true.
Proof.
  intros (Hh & _ & _). induction Hh as [|e h He Hh (IH1 & IH2 & IH3 & IH4)]; [done|]. cbn [existsb forallb]. rewrite IH2, IH3, IH4.
  destruct e as [[] ?| | | | | |]; try done; cbn; (split; [by constructor|]); subst; split_and!; try done. by rewrite He.
Qed.

Lemma is_zero_replicate n : is_zero (replicate n 0) = true.
Proof. induction n; [done|]. cbn. done. Qed.

Lemma destroy_spec b s : buffer_ok b ->
  ok s (destroy b) (fun _ s' => exists h, devices s' = devices s /\ log s' = log s ++ h /\ handled 0 (blocks [b]) h).
Proof.
  unfold buffer_ok, destroy, blocks. intros Hb. rewrite countb_cons. destruct (buffer b) as [bytes|].
  - apply ok_modify. eexists [_]. split; [done|]. split; [done|]. split_and!; [|done|done]. constructor; [|constructor].
    unfold overwrite, zeros. rewrite Hb, Nat2Z.id, take_0, length_replicate. cbn [app Nat.add]. rewrite drop_ge, app_nil_r by lia.
    apply is_zero_replicate.
  - apply ok_ret. exists []. rewrite app_nil_r. by repeat constructor.
Qed.

Lemma destroy_all_spec l : forall s, Forall buffer_ok l ->
  ok s (destroy_all l) (fun _ s' => exists h, devices s' = devices s /\ log s' = log s ++ h /\ handled 0 (blocks l) h).
Proof.
  induction l as [|b l IH]; intros s Hl; cbn [destroy_all].
  { apply ok_ret. exists []. rewrite app_nil_r. by repeat constructor. }
  apply Forall_cons_1 in Hl as [Hb Hl]. apply ok_bind. eapply ok_mono; [by apply IH|]. cbv beta. intros _ s1 (h1 & Hd1 & Hl1 & Hh1).
  eapply ok_mono; [by apply destroy_spec|]. cbv beta. intros _ s2 (h2 & Hd2 & Hl2 & Hh2). exists (h1 ++ h2).
  split; [congruence|]. split; [by rewrite Hl2, Hl1, app_assoc|].
  replace (blocks (b :: l)) with (blocks l + blocks [b])%nat; [by apply (handled_app 0 _ _ 0)|].
  unfold blocks. rewrite !countb_cons. unfold countb at 2. cbn. lia.
Qed.

(** An input that can be copied: empty, or a block as long as it says. *)
Definition usable (b : option (list Z) * Z) : Prop :=
  b.2 <> 0 -> exists bytes, b.1 = Some bytes /\ 0 <= b.2 <= Z.of_nat (length bytes).

Lemma Copy_spec source size s : usable (source, size) ->
  ok s (Copy env source size) (fun x s' => exists h, devices s' = devices s /\ log s' = log s ++ h /\
    handled (blocks [x.2]) 0 h /\ buffer_ok x.2 /\ (x.1 = true -> x.2 = copy_of (source, size)) /\
    (x.1 = false -> existsb starved h = true)).
Proof.
  unfold usable, Copy, copy_of, blocks. cbn [fst snd]. intros Hu. destruct (size =? 0) eqn:Hz; zb.
  { apply ok_ret. exists []. rewrite app_nil_r. by repeat constructor. }
  destruct (Hu Hz) as (bytes & -> & Hlen). apply ok_bind, ok_sys. set (r := env _ _).
  destruct (r.1 =? 0) eqn:Hr.
  - apply ok_ret. eexists [_]. split; [done|]. split; [done|]. split; [|split; [done|split; [done|]]].
    + split; [by repeat constructor|]. rewrite !countb_cons. cbn. by rewrite Hr.
    + intros _. cbn. by rewrite Hr.
  - apply ok_bind. eapply ok_lift; [done|]. apply ok_bind. eapply (ok_lift _ (take (Z.to_nat size) bytes)).
    { unfold load_n. rewrite bool_decide_true by lia. done. }
    apply ok_ret. eexists [_]. split; [done|]. split; [done|]. split; [|split; [|split; [done|done]]].
    + split; [by repeat constructor|]. rewrite !countb_cons. cbn. by rewrite Hr.
    + unfold buffer_ok. cbn. rewrite length_take. lia.
Qed.

Lemma copies_spec l : forall s, Forall usable l ->
  ok s (copies env l) (fun x s' => exists h, devices s' = devices s /\ log s' = log s ++ h /\
    handled (blocks x.2) 0 h /\ Forall buffer_ok x.2 /\ (x.1 = true -> x.2 = map copy_of l) /\
    (x.1 = false -> existsb starved h = true)).
Proof.
  induction l as [|[source size] l IH]; intros s Hl; cbn [copies].
  { apply ok_ret. exists []. rewrite app_nil_r. by repeat constructor. }
  apply Forall_cons_1 in Hl as [Hb Hl]. apply ok_bind. eapply ok_mono; [by apply Copy_spec|]. cbv beta.
  intros [k b] s1 (h1 & Hd1 & Hl1 & Hh1 & Hb1 & Hk1 & Hn1). cbn [fst snd] in *. destruct k; cbn [negb].
  2: { apply ok_ret. exists h1. split; [done|]. split; [done|]. split; [done|]. split; [by constructor|]. split; [done|]. auto. }
  apply ok_bind. eapply ok_mono; [by apply IH|]. cbv beta. intros [k bs] s2 (h2 & Hd2 & Hl2 & Hh2 & Hb2 & Hk2 & Hn2). cbn [fst snd] in *.
  apply ok_ret. exists (h1 ++ h2). split; [congruence|]. split; [by rewrite Hl2, Hl1, app_assoc|]. cbn [fst snd map]. split; [|split; [|split]].
  - replace (blocks (b :: bs)) with (blocks [b] + blocks bs)%nat; [by apply (handled_app _ 0 _ _ 0)|].
    unfold blocks. rewrite !countb_cons. unfold countb at 1. cbn. lia.
  - by constructor.
  - intros Hk. by rewrite (Hk1 eq_refl), (Hk2 Hk).
  - intros Hk. by rewrite existsb_app, (Hn2 Hk), orb_true_r.
Qed.

(** ** One operation *)

(** What the result says when nothing failed. *)
Definition result_of (m : GateKeeperMessage) : Z := Result (mk_gate ∅ false) m.

(** The library ran [program] between [s] and [s'], on the device's records and with a
    clear failure flag, and answered [a]. *)
Definition library_ran {R} (p : Z) (program : routine R) (s s' : hal) (a : R) : Prop :=
  exists s1 s2, perform env p program s1 = Some (a, s2) /\ devices s1 !! p = Some (mk_gate (records p (log s)) false) /\
    log s `prefix_of` log s1 /\ log s2 `prefix_of` log s'.

Definition code_of {R} (p : Z) (program : routine R) (message : R -> GateKeeperMessage) (s s' : hal) (r : Z) (response : option R) : Prop :=
  exists a, library_ran p program s s' a /\ r = result_of (message a) /\ response = if r =? 0 then Some a else None.

(** How an operation on [p] ended: what its part [h] of the log shows. *)
Definition outcome (p r : Z) (h : list event) : Prop :=
  forallb wiped h = true /\ forallb inert h = true /\ (takes_buffers lib = false -> countb copied h = countb freed h) /\
  (existsb bad h = true -> r = - EIO) /\ forall d h0, d <> p -> records d (h0 ++ h) = records d h0.

Lemma Began_keeps p g h : in_step p g h -> in_step p (mk_gate (failure_map g) false) (h ++ [Began p]).
Proof.
  intros [Hm Ha]. split; [by rewrite records_snoc|]. by apply answers_ok_snoc.
Qed.

Lemma handled_in_step p g h n k h' : in_step p g h -> handled n k h' -> in_step p g (h ++ h').
Proof.
  intros [Hm Ha] Hh. destruct (handled_quiet _ _ _ Hh) as (Hu & _ & _ & _).
  destruct (unanswered_keeps p h h' Hu) as [Hr Hk]. split; [by rewrite Hr|by apply Hk].
Qed.

Lemma after_request_ok b : buffer_ok b -> buffer_ok (after_request lib b).
Proof. unfold after_request. by destruct (takes_buffers lib). Qed.

Lemma operated_outcome p (failed : bool) h1 h3 h4 n k r :
  handled n 0 h1 -> Forall (calm p) h3 -> handled 0 k h4 -> failed = existsb bad h3 ->
  (takes_buffers lib = false -> k = n) -> (failed = true -> r = - EIO) ->
  let h := (h1 ++ [Began p]) ++ h3 ++ h4 in outcome p r h /\ existsb bad h = failed.
Proof.
  intros H1 H3 H4 Hf Hn Hr h. destruct (calm_quiet _ _ H3) as (Hw3 & Hi3 & Hn3 & Hk3 & Hr3).
  destruct (handled_quiet _ _ _ H1) as (Hu1 & Hb1 & Hw1 & Hi1), (handled_quiet _ _ _ H4) as (Hu4 & Hb4 & Hw4 & Hi4).
  assert (existsb bad h = failed) as Hbad by (unfold h; by rewrite !existsb_app, Hb1, Hb4, Hf, !orb_false_r).
  split; [|done]. split; [unfold h; by rewrite !forallb_app, Hw1, Hw3, Hw4|].
  split; [unfold h; by rewrite !forallb_app, Hi1, Hi3, Hi4|]. split; [|split; [by rewrite Hbad|]].
  - intros Ht. unfold h. rewrite !countb_app, Hn3, Hk3. destruct H1 as (_ & -> & ->), H4 as (_ & -> & ->).
    rewrite (Hn Ht). unfold countb. cbn. lia.
  - intros d h0 Hd. unfold h. rewrite !app_assoc. rewrite (proj1 (unanswered_keeps d _ h4 Hu4)), records_app, Hr3 by done.
    rewrite records_snoc. cbn. by apply unanswered_keeps.
Qed.

Lemma operate_spec {R} p inputs run (message : R -> GateKeeperMessage) program s g :
  devices s !! p = Some g -> in_step p g (log s) -> Forall usable inputs -> run (map copy_of inputs) = Some program ->
  ok s (operate lib env p inputs run message) (fun x s' => exists h g',
    devices s' = <[p := g']> (devices s) /\ log s' = log s ++ h /\ in_step p g' (log s') /\ outcome p x.1 h /\
    (x.2 = None /\ (x.1 = - ENOMEM /\ existsb starved h = true \/ x.1 = - EIO /\ existsb bad h = true) \/
     existsb bad h = false /\ code_of p program message s s' x.1 x.2)).
Proof.
  intros Hg Hs Hin Hrun. unfold operate. apply ok_bind. eapply ok_mono; [by apply copies_spec|]. cbv beta.
  intros [k bufs] s1 (h1 & Hd1 & Hl1 & Hh1 & Hb1 & Hk1 & Hn1). cbn [fst snd] in *.
  assert (in_step p g (log s1)) as Hs1 by (rewrite Hl1; by eapply handled_in_step).
  destruct k; cbn [negb].
  2: { apply ok_bind. eapply ok_mono; [by apply destroy_all_spec|]. cbv beta. intros _ s2 (h2 & Hd2 & Hl2 & Hh2). apply ok_ret.
       exists (h1 ++ h2), g. rewrite insert_id by done. split; [congruence|]. split; [by rewrite Hl2, Hl1, app_assoc|].
       split; [rewrite Hl2; by eapply handled_in_step|]. pose proof (handled_app _ _ _ _ _ _ Hh1 Hh2) as Hh.
       destruct (handled_quiet _ _ _ Hh) as (Hu & Hb & Hw & Hi).
       assert (countb copied (h1 ++ h2) = countb freed (h1 ++ h2)) as Hn by (destruct Hh as (_ & -> & ->); lia).
       split; [|left; split; [done|]; left; split; [done|]; by rewrite existsb_app, (Hn1 eq_refl)].
       split; [done|]. split; [done|]. split; [done|]. cbn [fst]. split; [by rewrite Hb|].
       intros d h0 _. by apply unanswered_keeps. }
  rewrite (Hk1 eq_refl) in *. clear Hk1 bufs. apply ok_bind. eapply ok_lift; [exact Hrun|].
  apply ok_bind. unfold BeginOperation. apply ok_bind. eapply ok_get_gate; [by rewrite Hd1|]. apply ok_bind, ok_modify, ok_modify.
  set (g0 := mk_gate (failure_map g) false). set (s2 := mk_hal _ _).
  assert (devices s2 !! p = Some g0) as Hg2 by apply lookup_insert_eq.
  apply ok_bind. eapply ok_mono; [apply ok_ran, (perform_spec p program s2 g0 Hg2 (Began_keeps p g _ Hs1))|]. cbv beta.
  intros a s3 (Hran & h3 & g3 & (Hl3 & Hd3 & Hc3) & Hs3 & Hf3). apply ok_bind.
  assert (devices s3 !! p = Some g3) as Hg3 by (rewrite Hd3; apply lookup_insert_eq).
  eapply ok_get_gate; [exact Hg3|]. cbv zeta. set (result := Result g3 (message a)).
  apply ok_bind. eapply ok_mono; [apply destroy_all_spec, Forall_map; eapply Forall_impl; [exact Hb1|apply after_request_ok]|]. cbv beta.
  intros _ s4 (h4 & Hd4 & Hl4 & Hh4). apply ok_ret.
  exists ((h1 ++ [Began p]) ++ h3 ++ h4), g3. cbn [fst snd].
  split; [by rewrite Hd4, Hd3; cbn; rewrite Hd1, insert_insert_eq|].
  split; [rewrite Hl4, Hl3; cbn; by rewrite Hl1, <- !app_assoc|].
  split; [rewrite Hl4; by eapply handled_in_step|].
  destruct (operated_outcome p (operation_failed g3) h1 h3 h4 _ _ result Hh1 Hc3 Hh4 Hf3) as [Ho ->].
  { intros Ht. unfold blocks. rewrite countb_map. apply countb_ext. intros b. unfold after_request. by rewrite Ht. }
  { intros Ht. unfold result, Result. by rewrite Ht. }
  split; [done|]. unfold result, Result in *. destruct (operation_failed g3).
  - left. auto.
  - right. split; [done|]. exists a. split; [|split; [done|by destruct (_ =? 0)]]. exists s2, s3. split; [done|].
    split; [rewrite Hg2; unfold g0; by rewrite (proj1 Hs)|]. split; [cbn; rewrite Hl1, <- app_assoc|rewrite Hl4]; by eexists.
Qed.

(** ** Arguments *)

Definition is_password (b : option (list Z) * Z) : Prop := is_Some b.1 /\ 1 <= b.2 <= 2 ^ 32 - 18.
Definition is_handle (b : option (list Z) * Z) : Prop := is_Some b.1 /\ b.2 = 58.

Lemma ValidPassword_spec b : has_length b -> ValidPassword b.1 b.2 = true <-> is_password b.
Proof.
  intros [[Hpos _] _]. unfold ValidPassword, is_password, UINT32_MAX, kMetadataLength.
  rewrite !andb_true_iff, bool_decide_eq_true, negb_true_iff, Z.eqb_neq, Z.leb_le.
  split; [intros [[? ?] ?]; split; [done|lia]|intros [? ?]; split; [split; [done|lia]|lia]].
Qed.

Lemma ValidHandle_spec b : ValidHandle b.1 b.2 = true <-> is_handle b.
Proof. unfold ValidHandle, is_handle. by rewrite andb_true_iff, bool_decide_eq_true, Z.eqb_eq. Qed.

(** The arguments the interface allows. *)
Definition enrollable (d : Z) (h p w : option (list Z) * Z) (eh el : bool) : Prop :=
  d <> 0 /\ eh = true /\ el = true /\ is_password w /\ (h.2 = 0 /\ p.2 = 0 \/ is_handle h /\ is_password p).
Definition verifiable (d : Z) (h p : option (list Z) * Z) (t tl : bool) : Prop :=
  d <> 0 /\ is_handle h /\ is_password p /\ t = tl.

Lemma password_usable b : has_length b -> is_password b -> usable b.
Proof. intros [_ Hl] [[bytes Hb] Hr] _. exists bytes. split; [done|]. split; [lia|by apply Hl]. Qed.

Lemma handle_usable b : has_length b -> is_handle b -> usable b.
Proof. intros [_ Hl] [[bytes Hb] Hr] _. exists bytes. split; [done|]. split; [lia|by apply Hl]. Qed.

Lemma empty_usable b : b.2 = 0 -> usable b.
Proof. by intros Hz Hn. Qed.

Lemma GetState_spec d s : open_device s d ->
  ok s (GetState d) (fun b s' => s' = s /\ b = negb (d =? 0) /\ (b = true -> is_Some (devices s !! d))).
Proof.
  unfold open_device, GetState. intros Hd. destruct (d =? 0) eqn:Hz; zb; [by apply ok_ret|].
  destruct Hd as [?|[g Hg]]; [done|]. apply ok_bind. eapply ok_get_gate; [done|]. by apply ok_ret.
Qed.

(** Either the arguments are refused and nothing happens, or the operation runs. *)
Lemma Enroll_cases s d uid h p w eh el :
  valid_call s (CEnroll d uid h p w eh el) ->
  let cleared := mk_outs (if eh then Some None else None) (if el then Some 0 else None) None in
  (~ enrollable d h p w eh el /\ Enroll lib env d uid h.1 h.2 p.1 p.2 w.1 w.2 eh el s = Some ((- EINVAL, cleared), s)) \/
  (enrollable d h p w eh el /\ is_Some (devices s !! d) /\ Forall usable [h; p; w] /\
   Enroll lib env d uid h.1 h.2 p.1 p.2 w.1 w.2 eh el s =
   ('(result, response) ← operate lib env d [h; p; w]
      (fun bufs => match bufs with
        | [old_handle; old_password; new_password] => Some (lib_Enroll lib (mk_enroll uid old_handle new_password old_password))
        | _ => None
        end) en_message;
    match response with
    | None => mret (result, cleared)
    | Some r => mret (0, mk_outs (Some (buffer (enrolled_password_handle r))) (Some (buffer_length (enrolled_password_handle r))) None)
    end) s).
Proof.
  intros (Hd & Hh & Hp & Hw) cleared. destruct (ok_total _ _ _ (GetState_spec d s Hd)) as (b & s1 & Hg & -> & -> & Hopen).
  unfold Enroll. fold cleared. rewrite !(mbind_run _ _ _ _ _ Hg). unfold enrollable.
  pose proof (ValidPassword_spec w Hw) as Vw. pose proof (ValidPassword_spec p Hp) as Vp. pose proof (ValidHandle_spec h) as Vh.
  destruct (d =? 0) eqn:Hz; zb; cbn [negb orb]; [left; split; [tauto|done]|].
  destruct eh; cbn [negb orb]; [|left; split; [naive_solver|done]]. destruct el; cbn [negb orb]; [|left; split; [naive_solver|done]].
  destruct (ValidPassword w.1 w.2); cbn [negb]; [|left; split; [naive_solver|done]].
  assert (is_password w) as Pw by (by apply Vw). specialize (Hopen eq_refl).
  destruct (h.2 =? 0) eqn:Hh0, (p.2 =? 0) eqn:Hp0; zb; cbn [negb eqb orb andb].
  - right. split; [auto 10|]. split; [done|]. split; [|by destruct h, p, w].
    constructor; [by apply empty_usable|]. constructor; [by apply empty_usable|]. constructor; [by apply password_usable|constructor].
  - left. split; [|done]. unfold is_handle. intros (_ & _ & _ & _ & [[_ ?]|[[_ ?] _]]); lia.
  - left. split; [|done]. unfold is_password. intros (_ & _ & _ & _ & [[? _]|[_ [_ ?]]]); lia.
  - destruct (ValidHandle h.1 h.2); cbn [negb orb]; [|left; split; [naive_solver|done]].
    destruct (ValidPassword p.1 p.2); cbn [negb]; [|left; split; [naive_solver|done]].
    assert (is_handle h) as Ph by (by apply Vh). assert (is_password p) as Pp by (by apply Vp).
    right. split; [auto 10|]. split; [done|]. split; [|by destruct h, p, w].
    constructor; [by apply handle_usable|]. constructor; [by apply password_usable|]. constructor; [by apply password_usable|constructor].
Qed.

Lemma Verify_cases s d uid ch h p t tl rr :
  valid_call s (CVerify d uid ch h p t tl rr) ->
  let cleared := mk_outs (if t then Some None else None) (if tl then Some 0 else None) (if rr then Some false else None) in
  (~ verifiable d h p t tl /\ Verify lib env d uid ch h.1 h.2 p.1 p.2 t tl rr s = Some ((- EINVAL, cleared), s)) \/
  (verifiable d h p t tl /\ is_Some (devices s !! d) /\ Forall usable [h; p] /\
   Verify lib env d uid ch h.1 h.2 p.1 p.2 t tl rr s =
   ('(result, response) ← operate lib env d [h; p]
      (fun bufs => match bufs with
        | [handle_buffer; password_buffer] => Some (lib_Verify lib (mk_verify uid ch handle_buffer password_buffer))
        | _ => None
        end) ve_message;
    match response with
    | None => mret (result, cleared)
    | Some r => mret (0, mk_outs (if t then Some (buffer (auth_token r)) else None)
                           (if t then Some (buffer_length (auth_token r)) else None)
                           (if rr then Some (ve_request_reenroll r) else None))
    end) s).
Proof.
  intros (Hd & Hh & Hp) cleared. destruct (ok_total _ _ _ (GetState_spec d s Hd)) as (b & s1 & Hg & -> & -> & Hopen).
  unfold Verify. fold cleared. rewrite !(mbind_run _ _ _ _ _ Hg). unfold verifiable.
  pose proof (ValidPassword_spec p Hp) as Vp. pose proof (ValidHandle_spec h) as Vh.
  destruct (d =? 0) eqn:Hz; zb; cbn [negb orb]; [left; split; [tauto|done]|].
  destruct (ValidHandle h.1 h.2); cbn [negb orb]; [|left; split; [naive_solver|done]].
  destruct (ValidPassword p.1 p.2); cbn [negb orb]; [|left; split; [naive_solver|done]].
  assert (is_handle h) as Ph by (by apply Vh). assert (is_password p) as Pp by (by apply Vp). specialize (Hopen eq_refl).
  destruct (eqb t tl) eqn:Ht; cbn [negb]; [apply eqb_prop in Ht|apply eqb_false_iff in Ht; left; split; [naive_solver|done]].
  right. split; [done|]. split; [done|]. split; [|by destruct h, p].
  constructor; [by apply handle_usable|]. constructor; [by apply password_usable|constructor].
Qed.

(** ** Sessions *)

Context (sizeof_Device sizeof_State : Z).

(** The allocator gives a new device an address that no open device has. *)
Definition alloc_fresh : Prop := forall h n, (env h (New "Device" n)).1 ∉ live h.

Record session_ok (s : hal) : Prop := {
  so_records : forall p g, devices s !! p = Some g -> failure_map g = records p (log s);
  so_answers : answers_ok (log s);
  so_wiped : forallb wiped (log s) = true;
  so_balanced : takes_buffers lib = false -> countb copied (log s) = countb freed (log s);
  so_open : dom (devices s) = live (log s);
  so_null : devices s !! 0 = None;
  so_objects : countb made (log s) = (2 * size (devices s) + countb deleted (log s))%nat;
}.

Lemma initial_ok : session_ok HAL_MODULE_INFO_SYM.
Proof. split; try done. intros h1 d B q b h2 Heq. by destruct h1. Qed.

(** An operation on an open device. *)
Lemma operated_ok s p g s' h g' r :
  session_ok s -> devices s !! p = Some g -> devices s' = <[p := g']> (devices s) -> log s' = log s ++ h ->
  in_step p g' (log s') -> outcome p r h -> session_ok s'.
Proof.
  intros [H1 H2 H3 H4 H5 H6 H7] Hg Hd Hl [Hm Ha] (Hw & Hi & Hb & _ & Hr).
  destruct (inert_keeps (log s) h Hi) as (Hlive & Hmade & Hdel). split.
  - intros d x. rewrite Hd. destruct (decide (d = p)) as [->|Hne]; [rewrite lookup_insert_eq; by intros [= <-]|].
    rewrite lookup_insert_ne, Hl, Hr by done. apply H1.
  - done.
  - by rewrite Hl, forallb_app, H3, Hw.
  - intros Ht. by rewrite Hl, !countb_app, (H4 Ht), (Hb Ht).
  - rewrite Hd, Hl, Hlive, dom_insert_L, <- H5. apply elem_of_dom_2 in Hg. set_solver.
  - rewrite Hd, lookup_insert_ne; [done|]. intros ->. congruence.
  - rewrite Hd, Hl, !countb_app, Hmade, Hdel, map_size_insert_Some, H7 by (by eexists). lia.
Qed.

Lemma Enroll_ok s d uid h p w eh el :
  session_ok s -> valid_call s (CEnroll d uid h p w eh el) ->
  ok s (Enroll lib env d uid h.1 h.2 p.1 p.2 w.1 w.2 eh el) (fun x s' => session_ok s' /\
    let cleared := mk_outs (if eh then Some None else None) (if el then Some 0 else None) None in
    (~ enrollable d h p w eh el /\ x = (- EINVAL, cleared) /\ s' = s \/
     enrollable d h p w eh el /\ exists hs, log s' = log s ++ hs /\ outcome d x.1 hs /\
       (x = (- ENOMEM, cleared) /\ existsb starved hs = true \/ x = (- EIO, cleared) /\ existsb bad hs = true \/
        existsb bad hs = false /\ exists a, library_ran d (lib_Enroll lib (mk_enroll uid (copy_of h) (copy_of w) (copy_of p))) s s' a /\
          x = if result_of (en_message a) =? 0
              then (0, mk_outs (Some (buffer (enrolled_password_handle a))) (Some (buffer_length (enrolled_password_handle a))) None)
              else (result_of (en_message a), cleared)))).
Proof.
  intros Hs Hv. destruct (Enroll_cases s d uid h p w eh el Hv) as [[Hno Hrun]|(Hyes & [g Hg] & Hu & Hrun)].
  { eapply ok_run; [exact Hrun|]. split; [done|]. by left. }
  apply (ok_ext _ _ _ _ Hrun). clear Hrun. apply ok_bind.
  eapply ok_mono; [eapply (operate_spec d [h; p; w] _ en_message _ s g Hg); [by split; [apply so_records|apply so_answers]|done|reflexivity]|].
  cbv beta. intros [r resp] s' (hs & g' & Hd & Hl & His & Hout & Hcase). cbn [fst snd] in *.
  pose proof (operated_ok _ _ _ _ _ _ _ Hs Hg Hd Hl His Hout) as Hs'.
  destruct Hcase as [[-> Hcase]|(Hnb & a & Hrun & -> & ->)].
  - apply ok_ret. split; [done|]. right. split; [done|]. exists hs. split; [done|]. split; [done|].
    destruct Hcase as [[-> ?]|[-> ?]]; auto.
  - destruct (result_of (en_message a) =? 0) eqn:Hz; apply ok_ret; (split; [done|]); right; (split; [done|]); exists hs;
      (split; [done|]); (split; [zb; cbn [fst]; congruence || done|]); right; right; (split; [done|]); exists a; by rewrite Hz.
Qed.

Lemma Verify_ok s d uid ch h p t tl rr :
  session_ok s -> valid_call s (CVerify d uid ch h p t tl rr) ->
  ok s (Verify lib env d uid ch h.1 h.2 p.1 p.2 t tl rr) (fun x s' => session_ok s' /\
    let cleared := mk_outs (if t then Some None else None) (if tl then Some 0 else None) (if rr then Some false else None) in
    (~ verifiable d h p t tl /\ x = (- EINVAL, cleared) /\ s' = s \/
     verifiable d h p t tl /\ exists hs, log s' = log s ++ hs /\ outcome d x.1 hs /\
       (x = (- ENOMEM, cleared) /\ existsb starved hs = true \/ x = (- EIO, cleared) /\ existsb bad hs = true \/
        existsb bad hs = false /\ exists a, library_ran d (lib_Verify lib (mk_verify uid ch (copy_of h) (copy_of p))) s s' a /\
          x = if result_of (ve_message a) =? 0
              then (0, mk_outs (if t then Some (buffer (auth_token a)) else None)
                         (if t then Some (buffer_length (auth_token a)) else None)
                         (if rr then Some (ve_request_reenroll a) else None))
              else (result_of (ve_message a), cleared)))).
Proof.
  intros Hs Hv. destruct (Verify_cases s d uid ch h p t tl rr Hv) as [[Hno Hrun]|(Hyes & [g Hg] & Hu & Hrun)].
  { eapply ok_run; [exact Hrun|]. split; [done|]. by left. }
  apply (ok_ext _ _ _ _ Hrun). clear Hrun. apply ok_bind.
  eapply ok_mono; [eapply (operate_spec d [h; p] _ ve_message _ s g Hg); [by split; [apply so_records|apply so_answers]|done|reflexivity]|].
  cbv beta. intros [r resp] s' (hs & g' & Hd & Hl & His & Hout & Hcase). cbn [fst snd] in *.
  pose proof (operated_ok _ _ _ _ _ _ _ Hs Hg Hd Hl His Hout) as Hs'.
  destruct Hcase as [[-> Hcase]|(Hnb & a & Hrun & -> & ->)].
  - apply ok_ret. split; [done|]. right. split; [done|]. exists hs. split; [done|]. split; [done|].
    destruct Hcase as [[-> ?]|[-> ?]]; auto.
  - destruct (result_of (ve_message a) =? 0) eqn:Hz; apply ok_ret; (split; [done|]); right; (split; [done|]); exists hs;
      (split; [done|]); (split; [zb; cbn [fst]; congruence || done|]); right; right; (split; [done|]); exists a; by rewrite Hz.
Qed.

(** ** Opening and closing *)

(** The log grows by events of Open and Close, the devices change with it. *)
Lemma changed_ok s s' h :
  session_ok s -> log s' = log s ++ h -> Forall (fun e => match e with Answered _ _ _ _ | Freed _ => False | _ => copied e = false end) h ->
  (forall p g, devices s' !! p = Some g -> failure_map g = records p (log s')) ->
  dom (devices s') = live (log s') -> devices s' !! 0 = None ->
  (countb made h + 2 * size (devices s) = 2 * size (devices s') + countb deleted h)%nat -> session_ok s'.
Proof.
  intros [H1 H2 H3 H4 H5 H6 H7] Hl Hh Hr Hd Hn Hc.
  assert (forallb wiped h = true /\ countb copied h = 0%nat /\ countb freed h = 0%nat) as (Hw & Hk & Hf).
  { clear -Hh. induction Hh as [|e h He Hh (IH1 & IH2 & IH3)]; [done|]. rewrite !countb_cons, IH2, IH3. cbn [forallb]. rewrite IH1.
    destruct e; try done; rewrite He; done. }
  split; try done.
  - rewrite Hl. clear -H2 Hh. revert H2. generalize (log s). induction Hh as [|e h He Hh IH]; intros l Hok; [by rewrite app_nil_r|].
    rewrite cons_middle, app_assoc. apply IH, answers_ok_snoc; [done|]. by destruct e.
  - by rewrite Hl, forallb_app, H3, Hw.
  - intros Ht. by rewrite Hl, !countb_app, (H4 Ht), Hk, Hf.
  - rewrite Hl, !countb_app. lia.
Qed.

Lemma Open_ok s m n d :
  alloc_fresh -> session_ok s -> valid_call s (COpen m n d) -> ok s (Open env sizeof_Device sizeof_State m n d) (fun _ s' => session_ok s').
Proof.
  intros Hfresh Hs Hv. unfold Open. destruct m; cbn [negb]; [|by apply ok_ret]. destruct n as [name|]; [|by apply ok_ret].
  destruct d; cbn [negb]; [|by apply ok_ret]. destruct (Hv name eq_refl) as [str Hstr].
  apply ok_bind. eapply ok_lift; [by apply (strcmp_eq_spec _ _ str (lit "gatekeeper"))|]. case_bool_decide; cbn [negb]; [|by apply ok_ret].
  apply ok_bind, ok_sys. set (r1 := env _ _). pose proof (Hfresh (log s) sizeof_Device) as Hf. fold r1 in Hf.
  pose proof Hs as [H1 _ _ _ H5 H6 _]. destruct (r1.1 =? 0) eqn:Hz1.
  { apply ok_ret. eapply (changed_ok s _ [_]); [done|reflexivity|by repeat constructor|..]; cbn [devices log logged]; try done.
    - intros p g Hp. rewrite records_snoc. by apply H1.
    - rewrite H5. unfold live at 2. by rewrite fold_left_app.
    - rewrite !countb_cons. cbn. rewrite Hz1. cbn. lia. }
  apply ok_bind, ok_sys. set (r2 := env _ _). destruct (r2.1 =? 0) eqn:Hz2.
  - apply ok_bind, ok_modify, ok_ret. cbn [devices log logged]. rewrite <- !app_assoc.
    eapply (changed_ok s _ [_; _; _]); [done|reflexivity|by repeat constructor|..]; cbn [devices log]; try done.
    + intros p g Hp. rewrite records_app. by apply H1.
    + rewrite H5. unfold live at 2. rewrite fold_left_app. cbn. fold (live (log s)). set_solver.
    + rewrite !countb_cons. cbn. rewrite Hz1, Hz2. cbn. lia.
  - apply ok_bind, ok_modify, ok_bind, ok_modify, ok_ret. cbn [devices log logged]. rewrite <- !app_assoc. zb.
    assert (devices s !! r1.1 = None) as Hnew by (apply not_elem_of_dom; by rewrite H5).
    eapply (changed_ok s _ [_; _; _]); [done|reflexivity|by repeat constructor|..]; cbn [devices log].
    + intros p g. rewrite records_app. cbn. destruct (decide (p = r1.1)) as [->|Hne].
      * rewrite lookup_insert_eq, Z.eqb_refl. by intros [= <-].
      * rewrite lookup_insert_ne, (proj2 (Z.eqb_neq r1.1 p)) by done. apply H1.
    + unfold live. rewrite fold_left_app, dom_insert_L, H5. done.
    + by rewrite lookup_insert_ne.
    + rewrite map_size_insert_None, !countb_cons by done. cbn. rewrite (proj2 (Z.eqb_neq r1.1 0)), (proj2 (Z.eqb_neq r2.1 0)) by done. cbn. lia.
Qed.

Lemma Close_ok s d : session_ok s -> valid_call s (CClose d) -> ok s (Close d) (fun _ s' => session_ok s').
Proof.
  intros Hs Hv. unfold Close. destruct (d =? 0) eqn:Hz; zb; [by apply ok_ret|]. destruct Hv as [?|[g Hg]]; [done|].
  apply ok_bind. eapply ok_get_gate; [done|]. apply ok_bind, ok_modify, ok_bind, ok_modify, ok_bind, ok_modify, ok_ret.
  cbn [devices log]. rewrite <- app_assoc. pose proof Hs as [H1 _ _ _ H5 H6 _].
  eapply (changed_ok s _ [_; _]); [done|reflexivity|by repeat constructor|..]; cbn [devices log].
  - intros p x. rewrite lookup_delete_Some, records_app. intros [_ Hp]. by apply H1.
  - unfold live. rewrite fold_left_app, dom_delete_L, H5. done.
  - by rewrite lookup_delete_ne.
  - rewrite map_size_delete_Some, !countb_cons by (by eexists). cbn.
    assert (size (devices s) <> 0)%nat; [|lia]. intros Hsz. apply map_size_empty_inv in Hsz. by rewrite Hsz in Hg.
Qed.

Lemma dispatch_ok s c :
  alloc_fresh -> session_ok s -> valid_call s c ->
  ok s (dispatch lib env sizeof_Device sizeof_State c) (fun _ s' => session_ok s').
Proof.
  intros Hf Hs Hv. destruct c; cbn [dispatch].
  - apply ok_bind. eapply ok_mono; [by apply Open_ok|]. auto.
  - by apply Close_ok.
  - apply ok_bind. eapply ok_mono; [by apply Enroll_ok|]. cbv beta. intros x s' [Hs' _]. by apply ok_ret.
  - apply ok_bind. eapply ok_mono; [by apply Verify_ok|]. cbv beta. intros x s' [Hs' _]. by apply ok_ret.
Qed.

Notation reachable := (Gatekeeper.reachable lib env sizeof_Device sizeof_State).

Lemma sessions_ok s : alloc_fresh -> reachable s -> session_ok s.
Proof.
  intros Hf Hr. unfold reachable in Hr. pose proof initial_ok as Hi. revert Hi. induction Hr as [|a b c (k & r & Hv & Hd) _ IH]; [done|].
  intros Ha. apply IH. exact (ok_result _ _ _ _ _ (dispatch_ok a k Hf Ha Hv) Hd).
Qed.

(** ** The theorems *)

(** C26: Enrolling fails closed.  For every library and system, in every session: a call
    with arguments the interface does not allow returns EINVAL and does nothing; any
    other call returns, after the library ran on copies of exactly the bytes passed,
    and with the device's records.  The result is EIO when scrypt, the random
    generator or the clock failed during the call, whatever the library answered,
    and ENOMEM when a copy could not be allocated; when none of this happened it is
    the library's, so a failure in an earlier call has no effect on this one.  With
    every result but 0 the outputs are null and empty; with 0 they are the library's
    handle. *)
Theorem enroll_fails_closed s d uid h p w eh el :
  alloc_fresh -> reachable s -> valid_call s (CEnroll d uid h p w eh el) ->
  let cleared := mk_outs (if eh then Some None else None) (if el then Some 0 else None) None in
  let program := lib_Enroll lib (mk_enroll uid (copy_of h) (copy_of w) (copy_of p)) in
  exists r o s', Enroll lib env d uid h.1 h.2 p.1 p.2 w.1 w.2 eh el s = Some ((r, o), s') /\
    (~ enrollable d h p w eh el -> r = - EINVAL /\ o = cleared /\ s' = s) /\
    (enrollable d h p w eh el -> exists hs, log s' = log s ++ hs /\
       (existsb bad hs = true -> r = - EIO) /\ (r <> 0 -> o = cleared) /\
       ((r = - ENOMEM /\ existsb starved hs = true) \/ (r = - EIO /\ existsb bad hs = true) \/
        exists a, existsb bad hs = false /\ library_ran d program s s' a /\ r = result_of (en_message a) /\
          (r = 0 -> o = mk_outs (Some (buffer (enrolled_password_handle a)))
                          (Some (buffer_length (enrolled_password_handle a))) None))).
Proof.
  intros Hf Hr Hv cleared program. destruct (ok_total _ _ _ (Enroll_ok s d uid h p w eh el (sessions_ok s Hf Hr) Hv)) as ([r o] & s' & Hrun & _ & Hcase).
  exists r, o, s'. split; [done|]. destruct Hcase as [(Hno & [= -> ->] & ->)|(Hyes & hs & Hl & (_ & _ & _ & Hbad & _) & Hcase)].
  { split; [done|]. by intros ?. }
  split; [by intros ?|]. intros _. exists hs. split; [done|]. split; [done|].
  destruct Hcase as [[[= -> ->] ?]|[[[= -> ->] ?]|(Hnb & a & Hran & Hx)]]; [auto..|].
  destruct (result_of (en_message a) =? 0) eqn:Hz; injection Hx as -> ->; zb; (split; [done|]); right; right; exists a; by rewrite ?Hz.
Qed.

(** C27: Verifying fails closed.  The same for a verification: refused arguments change
    nothing; the result is EIO after a failure of scrypt, the random generator or the
    clock in this very call, ENOMEM after a failed allocation, and the library's own
    otherwise; a token or a request to enroll again comes out only with 0, as the
    library gave it. *)
Theorem verify_fails_closed s d uid ch h p t tl rr :
  alloc_fresh -> reachable s -> valid_call s (CVerify d uid ch h p t tl rr) ->
  let cleared := mk_outs (if t then Some None else None) (if tl then Some 0 else None) (if rr then Some false else None) in
  let program := lib_Verify lib (mk_verify uid ch (copy_of h) (copy_of p)) in
  exists r o s', Verify lib env d uid ch h.1 h.2 p.1 p.2 t tl rr s = Some ((r, o), s') /\
    (~ verifiable d h p t tl -> r = - EINVAL /\ o = cleared /\ s' = s) /\
    (verifiable d h p t tl -> exists hs, log s' = log s ++ hs /\
       (existsb bad hs = true -> r = - EIO) /\ (r <> 0 -> o = cleared) /\
       ((r = - ENOMEM /\ existsb starved hs = true) \/ (r = - EIO /\ existsb bad hs = true) \/
        exists a, existsb bad hs = false /\ library_ran d program s s' a /\ r = result_of (ve_message a) /\
          (r = 0 -> o = mk_outs (if t then Some (buffer (auth_token a)) else None)
                          (if t then Some (buffer_length (auth_token a)) else None)
                          (if rr then Some (ve_request_reenroll a) else None)))).
Proof.
  intros Hf Hr Hv cleared program. destruct (ok_total _ _ _ (Verify_ok s d uid ch h p t tl rr (sessions_ok s Hf Hr) Hv)) as ([r o] & s' & Hrun & _ & Hcase).
  exists r, o, s'. split; [done|]. destruct Hcase as [(Hno & [= -> ->] & ->)|(Hyes & hs & Hl & (_ & _ & _ & Hbad & _) & Hcase)].
  { split; [done|]. by intros ?. }
  split; [by intros ?|]. intros _. exists hs. split; [done|]. split; [done|].
  destruct Hcase as [[[= -> ->] ?]|[[[= -> ->] ?]|(Hnb & a & Hran & Hx)]]; [auto..|].
  destruct (result_of (ve_message a) =? 0) eqn:Hz; injection Hx as -> ->; zb; (split; [done|]); right; right; exists a; by rewrite ?Hz.
Qed.

(** C28: A session stays well formed.  After any sequence of valid calls, every further
    valid call returns, without a null or dangling pointer and without reading past a
    buffer; every copy of a handle or password that was freed was zero by then, and
    when requests do not take the copies over every copy was freed; the open devices
    are those opened and not closed, and every object made for a device is in use by
    an open one or deleted. *)
Theorem gatekeeper_session_ok s :
  alloc_fresh -> reachable s ->
  (forall c, valid_call s c -> is_Some (dispatch lib env sizeof_Device sizeof_State c s)) /\
  forallb wiped (log s) = true /\
  (takes_buffers lib = false -> countb copied (log s) = countb freed (log s)) /\
  dom (devices s) = live (log s) /\
  countb made (log s) = (2 * size (devices s) + countb deleted (log s))%nat.
Proof.
  intros Hf Hr. pose proof (sessions_ok s Hf Hr) as Hs. split; [|by destruct Hs].
  intros c Hv. by destruct (ok_total _ _ _ (dispatch_ok s c Hf Hs Hv)) as (r & s' & -> & _).
Qed.

(** C29: Failure records.  In every session each device keeps the records that a replay
    of its calls gives, from none at its opening; and every time the library asks for
    the record of a user, across calls, it gets the last one stored for that uid when
    that was the same secure id's, and a new record with no failures otherwise: the
    throttle of one device is never reset by another device, uid or call. *)
Theorem failure_records_replayed s :
  alloc_fresh -> reachable s ->
  (forall d g, devices s !! d = Some g -> failure_map g = records d (log s)) /\
  forall h1 d uid user_id b h2, log s = h1 ++ Answered d _ (GetFailureRecord uid user_id) b :: h2 ->
    let last := default (mk_record 0 0 0) (records d h1 !! uid) in
    b = (true, if secure_user_id last =? user_id then last else mk_record user_id 0 0).
Proof.
  intros Hf Hr. destruct (sessions_ok s Hf Hr) as [Hrec Hans _ _ _ _ _]. split; [done|].
  intros h1 d uid user_id b h2 Heq. exact (Hans _ _ _ _ _ _ Heq).
Qed.
End Promises.

(** ** A session with a library that counts every attempt as a failure *)

Definition sample_library : library := mk_library
  (fun r => Ask GetMillisecondsSinceBoot (fun _ => Ask (GetRandom 8) (fun salt =>
     Ask (ComputePasswordSignature 4 (default [] (buffer (er_provided_password r))) (le_value salt))
       (fun signature => Return (mk_enrolled (mk_message ERROR_NONE 0) (mk_buffer (Some signature) 4))))))
  (fun r => Ask (GetFailureRecord (vr_user_id r) 7) (fun x =>
     Ask (WriteFailureRecord (vr_user_id r) (mk_record 7 1 (failure_counter x.2 + 1)))
       (fun _ => Return (mk_verified (mk_message ERROR_INVALID 0) no_buffer false))))
  false.

(** The largest address opened so far. *)
Definition opened_max (h : list event) : Z := fold_left (fun m e => match e with Opened d => Z.max m d | _ => m end) h 0.

(** The clock fails once two devices were opened. *)
Definition sample_env (h : list event) (c : sys_call) : Z * list Z :=
  match c with
  | New _ _ => (opened_max h + 1, [])
  | Scrypt _ _ _ _ _ _ => (0, [1; 2; 3; 4])
  | RandBytes n => (1, replicate (Z.to_nat n) 9)
  | ClockBoottime => if opened_max h <? 2 then (0, [5; 6000000]) else (- 1, [])
  end.

Lemma sample_alloc : alloc_fresh sample_env.
Proof.
  intros h n Hin. cbn in Hin. assert (forall d, d ∈ live h -> d <= opened_max h) as Hmax; [|apply Hmax in Hin; lia].
  clear. induction h as [|e h IH] using rev_ind; intros d Hd; [unfold live in Hd; set_solver|].
  unfold live in Hd. rewrite fold_left_app in Hd. fold (live h) in Hd. unfold opened_max. rewrite fold_left_app. fold (opened_max h).
  destruct e; cbn in Hd |- *; try by apply IH.
  - apply elem_of_union in Hd as [->%elem_of_singleton|Hd]; [lia|]. apply IH in Hd. lia.
  - destruct (String.eqb _ _); [apply elem_of_difference in Hd as [Hd _]|]; by apply IH.
Qed.

Definition sample_open : call := COpen true (Some (lit "gatekeeper" ++ [NUL])) true.
Definition sample_secret : option (list Z) * Z := (Some (lit "1234"), 4).
Definition sample_handle : option (list Z) * Z := (Some (replicate 58 3), 58).
Definition sample_attempt : call := CVerify 1 1000 0 sample_handle sample_secret true true true.

Definition sample_run (l : list call) : option hal :=
  for_c l HAL_MODULE_INFO_SYM (fun c s => snd <$> dispatch sample_library sample_env 64 64 c s).

(** Opened once; twice; opened and two attempts made. *)
Definition sample_one : option hal := sample_run [sample_open].
Definition sample_two : option hal := sample_run [sample_open; sample_open].
Definition sample_tried : option hal := sample_run [sample_open; sample_attempt; sample_attempt].

Lemma sample_lengths : has_length sample_secret /\ has_length sample_handle /\ has_length (None, 0).
Proof. split_and!; split; try (unfold is_u32, in_w; cbn; lia); intros bytes [= <-]; cbn; lia. Qed.

Lemma run_reachable l c s r s' :
  sample_run l = Some s -> reachable sample_library sample_env 64 64 s -> valid_call s c ->
  dispatch sample_library sample_env 64 64 c s = Some (r, s') ->
  sample_run (l ++ [c]) = Some s' /\ reachable sample_library sample_env 64 64 s'.
Proof.
  unfold sample_run. intros Hl Hr Hv Hd. split.
  - rewrite for_c_app, Hl. cbn. by rewrite Hd.
  - eapply rtc_r; [exact Hr|]. by exists c, r.
Qed.

Lemma sample_one_reachable s : sample_one = Some s -> reachable sample_library sample_env 64 64 s.
Proof.
  intros Hs. eapply (run_reachable [] sample_open); [reflexivity|apply rtc_refl|..].
  - intros name [= <-]. vm_compute. by eexists.
  - vm_compute in Hs. injection Hs as <-. vm_compute. reflexivity.
Qed.

Lemma sample_two_reachable s : sample_two = Some s -> reachable sample_library sample_env 64 64 s.
Proof.
  intros Hs. eapply (run_reachable [sample_open] sample_open); [vm_compute; reflexivity|apply sample_one_reachable; vm_compute; reflexivity|..].
  - intros name [= <-]. vm_compute. by eexists.
  - vm_compute in Hs. injection Hs as <-. vm_compute. reflexivity.
Qed.

Lemma sample_tried_reachable s : sample_tried = Some s -> reachable sample_library sample_env 64 64 s.
Proof.
  assert (forall s, is_Some (devices s !! 1) -> valid_call s sample_attempt) as Hv.
  { intros x Hx. split; [by right|]. split; apply sample_lengths. }
  intros Hs. eapply (run_reachable [sample_open; sample_attempt] sample_attempt); [vm_compute; reflexivity|..].
  - eapply (run_reachable [sample_open] sample_attempt); [vm_compute; reflexivity|apply sample_one_reachable; vm_compute; reflexivity|..].
    + apply Hv. vm_compute. by eexists.
    + vm_compute. reflexivity.
  - apply Hv. vm_compute. by eexists.
  - vm_compute in Hs. injection Hs as <-. vm_compute. reflexivity.
Qed.

Lemma enroll_fails_closed_witness :
  exists s r o s' hs, sample_two = Some s /\
    Enroll sample_library sample_env 2 1000 None 0 None 0 (Some (lit "1234")) 4 true true s = Some ((r, o), s') /\
    log s' = log s ++ hs /\ (existsb bad hs = true -> r = - EIO) /\ (r <> 0 -> o = mk_outs (Some None) (Some 0) None) /\ r = - EIO.
Proof.
  match eval vm_compute in sample_two with Some ?s =>
    destruct (enroll_fails_closed sample_library sample_env 64 64 s 2 1000 (None, 0) (None, 0) sample_secret true true sample_alloc)
      as (r & o & s' & Hrun & _ & Hyes);
      [apply sample_two_reachable; vm_compute; reflexivity
      |split; [right; vm_compute; by eexists|split_and!; apply sample_lengths]|];
    destruct Hyes as (hs & Hl & Hbad & Hclear & _);
      [split; [done|]; split; [done|]; split; [done|]; split; [split; [by eexists|cbn; lia]|by left]|];
    exists s, r, o, s', hs
  end.
  split; [vm_compute; reflexivity|]. split; [exact Hrun|]. split; [exact Hl|]. split; [exact Hbad|]. split; [exact Hclear|].
  vm_compute in Hrun. by injection Hrun as <- _ _.
Defined.

Lemma verify_fails_closed_witness :
  exists s r o s' hs, sample_one = Some s /\
    Verify sample_library sample_env 1 1000 0 sample_handle.1 sample_handle.2 sample_secret.1 sample_secret.2 true true true s = Some ((r, o), s') /\
    log s' = log s ++ hs /\ (r <> 0 -> o = mk_outs (Some None) (Some 0) (Some false)) /\ r = - EINVAL.
Proof.
  match eval vm_compute in sample_one with Some ?s =>
    destruct (verify_fails_closed sample_library sample_env 64 64 s 1 1000 0 sample_handle sample_secret true true true sample_alloc)
      as (r & o & s' & Hrun & _ & Hyes);
      [apply sample_one_reachable; vm_compute; reflexivity
      |split; [right; vm_compute; by eexists|split; apply sample_lengths]|];
    destruct Hyes as (hs & Hl & Hbad & Hclear & _);
      [split; [done|]; split; [split; [by eexists|reflexivity]|]; split; [split; [by eexists|cbn; lia]|reflexivity]|];
    exists s, r, o, s', hs
  end.
  split; [vm_compute; reflexivity|]. split; [exact Hrun|]. split; [exact Hl|]. split; [exact Hclear|].
  vm_compute in Hrun. by injection Hrun as <- _ _.
Defined.

Lemma gatekeeper_session_ok_witness :
  exists s, sample_tried = Some s /\ forallb wiped (log s) = true /\ countb copied (log s) = countb freed (log s) /\
    dom (devices s) = live (log s) /\ countb freed (log s) = 4%nat.
Proof.
  match eval vm_compute in sample_tried with Some ?s => exists s;
    destruct (gatekeeper_session_ok sample_library sample_env 64 64 s sample_alloc) as (_ & Hw & Hb & Hd & _);
      [apply sample_tried_reachable; vm_compute; reflexivity|]
  end.
  split; [vm_compute; reflexivity|]. split; [exact Hw|]. split; [by apply Hb|]. split; [exact Hd|]. vm_compute. reflexivity.
Defined.

(** The second attempt sees the failure of the first. *)
Lemma failure_records_replayed_witness :
  exists s h1 b h2, sample_tried = Some s /\ log s = h1 ++ Answered 1 _ (GetFailureRecord 1000 7) b :: h2 /\
    let last := default (mk_record 0 0 0) (records 1 h1 !! 1000) in
    last = mk_record 7 1 1 /\ b = (true, if secure_user_id last =? 7 then last else mk_record 7 0 0).
Proof.
  match eval vm_compute in sample_tried with Some ?s =>
    pose proof (fun R => proj2 (failure_records_replayed sample_library sample_env 64 64 s sample_alloc R)
      (take 13 (log s)) 1 1000 7 (true, mk_record 7 1 1) (drop 14 (log s)) eq_refl) as Hr;
    exists s, (take 13 (log s)), (true, mk_record 7 1 1), (drop 14 (log s))
  end.
  split; [vm_compute; reflexivity|]. split; [vm_compute; reflexivity|]. split; [vm_compute; reflexivity|].
  apply Hr, sample_tried_reachable. vm_compute. reflexivity.
Defined.
